(* ===== verification/_CoqProject ===== *)
-Q . S2P
Prelude.v
Types.v
RawMem.v
Doubles.v
IdGen.v
WideData.v
OrderStore.v
OrderBook.v
LinkTree.v
TxScope.v
OpMem.v
TxMgr.v
Engine.v
Queues.v
Tasks.v
Counters.v
Pools.v
Platform.v
Matcher.v
StateTable.v
StateActions.v
TrOps.v
Processor.v
Sweep.v
Handlers.v
EndToEnd.v
Lifecycle.v
Filters.v
Subscr.v
Seed.v
EnumStr.v
ExchUtils.v
LogMask.v
PgWrite.v
WsJson.v
WsApp.v
Codecs.v
Persist.v
FileStore.v
FileLog.v
Lmdb.v
Args.v
Shutdown.v
Restart.v
