(* ===== verification/Prelude.v ===== *)
(** * OrderProcessor: a verified model of an order matching engine

    The program (under [src/]) keeps reference data and orders, matches orders
    against an order book, drives each order through a Boost.MSM state machine,
    and runs the effects of an event as one transaction.  Transactions that use
    a common order or instrument run in submission order; the others may run in
    parallel.  Orders and reference data are persisted as byte records and
    replayed at start-up.

    ** How the parts interact

    An event enters the incoming queue, whose observer, the task manager
    ([src/src/TaskManager.cpp]), starts a task with a free event processor.  The
    processor ([src/src/Processor.cpp]) takes the event out of the queue and feeds it
    to the order's state machine.  The machine's actions
    ([src/src/OrderStateMachineImpl.cpp]) store the order in [OrderStorage], change
    its quantities and append operations to a [TransactionScope].  The scope is
    given to the [TransactionMgr], which orders it by its objects in the
    dependency tree [NLinkTree]; when it is ready the task manager starts a task
    that executes its operations ([src/src/TrOperations.cpp]): matching
    ([src/src/OrderMatcher.cpp]), insertion into and removal from the book
    ([src/src/OrderBookImpl.cpp]), execution reports and cancellations to the
    outgoing queues.  If an operation throws, the scope rolls back.  Matching
    leaves deferred events, which the processor executes next and which may leave
    further ones.  Orders and reference data are written as records
    ([src/src/StorageRecordDispatcher.cpp]) to a file or an LMDB database and
    restored from it at start-up ([src/app/main.cpp]).  Subscribers are found by the
    filters of their subscriptions ([src/src/SubscrManager.cpp]).

    Clients are connected by WebSocket ([src/app/WsSession.cpp]): their messages
    become events of the incoming queue, and the outgoing queue
    ([src/app/WsOutQueues.cpp]) broadcasts reports, orders and book levels as JSON.  A
    thread of its own can copy reference data and orders to PostgreSQL
    ([src/src/PGWriteBehind.cpp]).

    ** Files

    - [Prelude]: machine integers with their wrap-around, the error monad [M] over
      an explicit state ([Ok], [Throw] with the message of the exception, [Crash]
      for a violated [assert] or undefined behaviour), lemmas on lists and the tactics and hint
      databases the other files use.
    - [Types]: [TypesDef.h], [DataModelDef.h/.cpp].  Structs are records with the
      fields of the source, enumerations are inductive types with their codes, a
      price is the 64-bit pattern of its [double], compared the IEEE way (NaN and
      the two zeros included).
    - [RawMem]: constructors, assignments and destructor of [RawDataEntry] over a heap of
      arrays, which the other files use as a value.
    - [Doubles]: addition, multiplication and division of prices, through the
      standard library's specification of IEEE-754 arithmetic.
    - [IdGen]: [IdTGenerator.cpp], the counter at 64 bits.
    - [WideData]: [WideDataStorage.cpp], [WideDataLazyRef.h] and [OrderEntry::isValid].
    - [OrderStore]: [OrderStorage.cpp].  The heap of orders is explicit: both
      indexes hold locations, so that an update through one is seen through the
      other.
    - [OrderBook]: [OrderBookImpl.cpp].  [Multimap] is [std::multimap] with its
      comparator, [Book] the operations of the class.
    - [LinkTree]: [NLinkedTree.cpp].  Nodes live in a map from key to node; parents
      and children are keys, the ready list and the iterator are explicit.
    - [TxScope]: [TransactionScope.cpp], [TransactionDef.h].  Class [Transaction] states
      what a transaction promises to the manager; [TransactionScope] is an
      instance of it.
    - [OpMem]: the same class one level down, as memory: operations are addresses in the
      arena of a scope or on the heap, with [Operation::operator new] and [delete], the
      arena guard of [Processor.cpp] and [swap], and the handlers that use scopes.
    - [TxMgr]: [TransactionMgr.cpp], proved against class [Transaction].
    - [Engine]: the state [World] that matcher, state machine and operations share,
      with operations ([TrOperations.h]) and deferred events ([DeferedEvents.h]) as
      data.
    - [Queues]: [IncomingQueues.cpp] with the events of [QueuesDef.h], and
      [OutgoingQueues.cpp].
    - [Tasks]: [TaskManager.cpp], the transaction tasks over class [Transaction] and
      the event tasks, as step relations over all interleavings, and the wait for
      their end.  [Counters]: the same tasks with the calls that count them.
    - [Pools]: [TransactionScopePool.h], [InterLockCache.h] (step relations, one
      atomic access per step), [AllocateCache.h].
    - [Platform]: [CpuAffinity.h], [HugePages.h], [NumaAllocator.h], the pinning of workers
      and the array of the scope pool, over the answers of the system calls.
    - [Matcher]: [OrderMatcher.cpp] and the container of deferred events of
      [Processor.cpp].
    - [StateTable]: the table of [StateMachine.h] with the states and events of
      [OrderStates.h] and [OrderStateEvents.h].
    - [StateActions]: [OrderStateMachineImpl.cpp] (module [OrdStateImpl]); the actions,
      guards and entry actions of [StateMachine.cpp] and [OrderStates.cpp] (module
      [OrderStateMachine]).
    - [TrOps]: [TrOperations.cpp], execution and rollback of every operation.
    - [Processor]: the event handlers of [Processor.cpp] and the three deferred
      events.  Class [Machine] is what the handlers call of the Boost.MSM back end,
      class [Backend] adds the laws its clients rely on; [msm_backend] is an instance
      that runs the table.
    - [Sweep], [Handlers]: the theorems about deferred matching and about the event
      handlers, proved for every [Backend].  [EndToEnd] composes them: handler,
      transaction, book and deferred matching of one order.  [Lifecycle] does the same for
      withdrawals and cancel requests of resting orders.
    - [Filters]: [FilterImpl.cpp], [EntryFilter.cpp], [OrderFilter.cpp].
    - [Subscr]: [SubscrManager.cpp], [SubscriptionLayerImpl.cpp], [EventManager.cpp].
    - [Seed]: [seed_data.cpp].  [EnumStr]: the names of enumeration values in JSON and SQL
      ([EnumStrings.h], [PGEnumStrings.h]).  [ExchUtils]: [ExchUtils.cpp], conversions into
      buffers of characters.  [LogMask]: [Logger.cpp].
    - [PgWrite]: [PGRequestBuilder.cpp] and [PGWriteBehind.cpp], the tables as maps and the
      thread as a step relation over class [Postgres].
    - [WsJson]: [JsonSerializer.cpp] over class [JsonLib].  [WsApp]: [WsSession.cpp],
      [SessionManager.cpp], [WsServer.cpp], [WsOutQueues.cpp], [MetricsPublisher.cpp].
    - [Codecs]: the record codecs, byte by byte.
    - [Persist]: [StorageRecordDispatcher.cpp].
    - [FileStore], [FileLog]: [FileStorage.cpp] and its refinement of version
      chains.
    - [Lmdb]: [LMDBStorage.cpp] over class [MDB], the LMDB library, with the laws
      [MDBLaws] and an instance of them.
    - [Args], [Restart]: the command line of [src/app/main.cpp]; dispatcher and database
      together, and the start-up from a database.
    - [Shutdown]: the steps of [main] that create and stop the components that work
      concurrently, with the constructor and the destructor of the task manager.

    Each definition that models code carries a comment with the symbol and the
    lines it translates.

    ** What the theorems show

    - The book.  Every sequence of calls, failing ones included, refines a list of
      arrivals read in price-time priority ([book_refinement]); [getTop], [find] and
      [getSnapshot] are the corresponding queries ([getTop_priority],
      [find_first_match], [getSnapshot_aggregates]); [remove] undoes [add].
    - Matching.  A step trades with the first open order in priority order that
      the price reaches, for the smaller open quantity ([match_takes_best]).  The
      deferred events of a matched limit order end, when the orders concerned are
      consistent and take trades; it trades what the resting
      orders trade, best first, until it is filled or nothing it reaches is left, and
      the book loses exactly the orders traded out ([sweep_terminates]).  From the event of a new order to its last trade the
      parts work together as these theorems say ([new_order_executed]).
    - Withdrawals.  A resting order that is suspended, done for the day or expired takes
      no trades any more, leaves the book and is reported once ([order_withdrawn]); a
      request to cancel is only reported ([cancel_request_pends]).
    - Scheduling.  A transaction is ready iff no earlier live one uses one of its
      objects, one is always ready, no node is used after its removal
      ([ready_iff_no_earlier_conflict], [least_key_is_ready], [no_dangling_nodes],
      [remove_reports_new_ready]); hence conflicting transactions complete in
      submission order and nobody who becomes ready is forgotten
      ([conflicts_complete_in_order], [removeTransaction_wakes],
      [addTransaction_accepts]).  Under every interleaving of the task manager no two
      running transactions share an object, and all submitted ones complete but those whose
      [process] throws, which keep their objects and a processor
      ([no_conflicting_tasks], [tasks_complete], [lost_transaction_blocks]); the wait for the end is two idle tests
      ([wait_two_idle_tests]).  The server of every configuration starts; its shutdown ends
      normally exactly if every processor is back when the wait is over
      ([server_starts_and_stops], [shutdown_outcome]).  The counters of the tasks add up
      ([transaction_counters], [event_counters]).
    - Transactions.  Execution ends in order, in a rollback from the operation that
      threw, or with the process ([executeTransaction_outcome]); for an accepted order that
      fits its book it is atomic ([accepted_order_atomic]); stages, related objects and the arena behave as
      documented ([removeStage_discards_stage], [getRelatedObjects_complete],
      [arena_blocks_disjoint]).  Scopes and cached objects are used by one thread at
      a time ([scope_exclusive], [object_exclusive]).  Operations are freed once, by the
      right allocator, and none leaks ([operation_memory_safe]); the memory of the pool
      holds its nodes and is given back ([scope_pool_memory]).
    - Orders.  Quantities are conserved by a fill, entering a state sets the status
      and reports it once, final states are final, receiving an order validates,
      stores and schedules it ([fill_conserves], [entry_sets_status],
      [lifecycle_safe], [receive_accepts]).
    - Events.  The incoming queue is first in, first out, with the replies and deletions of
      one ([queue_refines_fifo]); an
      event about an unknown order is refused without effect, a valid order is
      stored and its transaction submitted ([unknown_order_refused],
      [order_event_accepted]).
    - Stores.  Indexes agree, identifiers are fresh, references are transparent,
      validity is what it says, raw data behave as values in memory
      ([raw_data_are_values], [save_keeps_indexes], [add_takes_fresh_id],
      [lazy_ref_transparent], [RawDataEntry_order_total], [OrderEntry_isValid_spec]).
    - Subscriptions.  The subscribers of an order are those whose filters accept
      it ([getSubscribers_exact]).
    - Persistence.  Decoding undoes encoding, the two order encoders agree, and
      replaying what was written restores it ([order_codec_round_trip],
      [order_encoders_agree], [reference_codecs_round_trip], [replay_restores]).  The
      file storage refines a map of version chains and is restored by a reload;
      loading ends on every file ([storage_refines_versions], [reload_restores],
      [load_terminates]).  The database refines a map of rows, while an identifier keeps its padding
      bytes, fails without effect and restores what the dispatcher recorded ([lmdb_refines_rows],
      [lmdb_failure_atomic], [lmdb_reload_restores], [restart_restores_instruments]).
    - Export.  Every request is written, counted as an error or still queued, a
      shutdown flushes the queue, and the archived row of an order is its last state
      ([pg_accounting], [pg_flushes], [pg_archive_current]), as long as the database answers.
    - Clients.  The texts of a session are written in order ([session_writes_in_order]);
      a report reaches every session ([ws_report_broadcast]).
    - The rest.  Numbers are printed in decimal within their buffers
      ([toString_decimal], [toStr_u32_pos_pads], [toStr_u64_prints]), log levels are switched atomically
      ([setFlag_atomic], [setOn_levels]), seeding twice is seeding once
      ([seed_idempotent]), affinity is restored and mapped memory given back
      ([scoped_affinity_restores], [huge_pages_round_trip], [node_memory_round_trip]), the
      command line of a configuration parses to it ([parse_render]).
    - Where the code departs from its intention, the behaviour it has is a theorem:
      [market_fill_throws], [market_reject_asserts], [external_order_unusable],
      [executeTransaction_rolls_back_failed], [saveExec_blanks_reports],
      [getChildren_misses_rebound_child], [decoders_overread_cut_records],
      [refusing_order_stalls_matching], [base_price_rounded], [event_wakeup_lost],
      [throwing_handlers_starve], [pushBack_hangs], [symbol_less_subscription_lost],
      [erased_version_blocks_id], [storages_disagree], [restart_with_order_crashes],
      [shared_saver_refuses_book], [ws_new_order_refused], [ws_order_not_found],
      [ws_accept_throws], [pg_shutdown_hangs], [pg_archive_stale], [swap_breaks_arena],
      [workers_take_core_per_kind], [array_allocate_overflows],
      [requests_never_complete], [no_work_after_stop], [lost_transaction_blocks],
      [padding_splits_records], [replacement_never_deleted],
      [throwing_handler_spoils_shutdown].

    ** Conventions, bounds and parameters

    Integers are [Z] with the wrap-around of their width written where the code
    can reach it; a [size_t] that counts elements of a container in memory is a
    [nat].  A mutex-protected operation is one step; operations with several
    critical sections are split accordingly ([TransactionMgr.removeTransaction], the
    tasks of [Tasks]).  Lock-free code takes one step per atomic access and is
    sequentially consistent.

    Recursion is structural but for five loops, which take fuel and are shown to
    end with enough of it: [processDeferedEvent] (as many rounds as there are
    resting orders on the other side, [sweep_terminates]), the search for the next
    record in a damaged file and the loading loop (the length of the file plus
    one, [load_terminates]), the wait for the tasks (one round more than the
    seconds allowed, [wait_two_idle_tests]) and the first touch of pages (the size
    of the memory, [node_memory_round_trip]).

    Parameters of the model, arguments of the definitions that use them: the
    savers attached to stores and book (arbitrary functions over a state of their
    own that may throw); in the order store the lookup of a client order id; the
    clock and the formatted current time; in the state
    machine [raise], the [process_event] an action calls on its own machine, which
    Boost.MSM queues; the back end (classes [Machine], [Backend]); [std::regex_match]; the observer
    of a load; the padding bytes of an identifier in memory, of each call its own; the LMDB library
    (classes [MDB], [MDBLaws]) and which of its calls fail; whether the handler of an
    event and the processing of a transaction throw; the JSON library (class [JsonLib]) and PostgreSQL (class [Postgres]) with
    which connections and statements fail; the addresses [new] and [mmap] return, of
    which they promise that they are free.  The MSM dispatcher itself is not in the repository: the
    table's runs ([OrderState.run]) let any row of the current state and event
    fire, whatever its guard returns, so that the safety properties hold for the
    dispatcher's choice too.

    ** Not modelled

    The TBB scheduler (a task may run at any time), sockets and the event loop of
    Boost.Asio (their calls happen in any order) and the Boost.MSM dispatcher are
    libraries the sources only call.  Allocation failure, errors of the operating system
    on file writes, weak memory orders, scheduling priorities and the counters read from
    /proc are behaviour of the platform.  The texts of log messages carry no logic of
    their own.  Benchmarks and tests only exercise the code. *)

From Stdlib Require Import Ascii String ZArith Lia.
From stdpp Require Export base tactics gmap sorting strings numbers.
From stdpp Require Export list.

#[global] Open Scope Z_scope.

(** * Machine integers

    A C++ [u32], [u64] or [int] is a [Z] together with the wrap-around of its
    width.  Arithmetic that can overflow is written with [wrap32]/[wrap64]. *)

Definition wrap32 (z : Z) : Z := z `mod` 2 ^ 32.
Definition wrap64 (z : Z) : Z := z `mod` 2 ^ 64.

Arguments wrap32 : simpl never.
Arguments wrap64 : simpl never.

Definition is_u32 (z : Z) : Prop := 0 <= z < 2 ^ 32.
Definition is_u64 (z : Z) : Prop := 0 <= z < 2 ^ 64.
Definition is_i32 (z : Z) : Prop := - 2 ^ 31 <= z < 2 ^ 31.

Lemma wrap32_range z : is_u32 (wrap32 z).
Proof. apply Z.mod_pos_bound; lia. Qed.

Lemma wrap64_range z : is_u64 (wrap64 z).
Proof. apply Z.mod_pos_bound; lia. Qed.

Lemma wrap32_small z : is_u32 z → wrap32 z = z.
Proof. apply Z.mod_small. Qed.

Lemma wrap64_small z : is_u64 z → wrap64 z = z.
Proof. apply Z.mod_small. Qed.

Lemma wrap32_add_l a b : wrap32 (wrap32 a + b) = wrap32 (a + b).
Proof. unfold wrap32. by rewrite Zplus_mod_idemp_l. Qed.

(** * Outcomes of C++ code

    [Ok] is a normal return, [Throw] a C++ exception carrying its message,
    [Crash] undefined behaviour (a null dereference, a violated precondition
    that only an [assert] guards, an enumeration loaded with a value outside
    its range). *)

Inductive outcome (A : Type) : Type :=
  | Ok (a : A)
  | Throw (msg : string)
  | Crash (why : string).
Arguments Ok {A} a.
Arguments Throw {A} msg.
Arguments Crash {A} why.

Definition is_ok {A} (o : outcome A) : bool :=
  match o with Ok _ => true | _ => false end.

Definition obind {A B} (o : outcome A) (k : A → outcome B) : outcome B :=
  match o with Ok a => k a | Throw m => Throw m | Crash w => Crash w end.

(** * The state-and-exception monad

    A C++ member function that may throw: the state survives the throw, as in
    C++, so every effect done before the exception is visible afterwards. *)

Definition M (S A : Type) : Type := S → outcome A * S.

Definition ret {S A} (a : A) : M S A := λ s, (Ok a, s).
Definition bind {S A B} (c : M S A) (k : A → M S B) : M S B := λ s,
  match c s with
  | (Ok a, s') => k a s'
  | (Throw m, s') => (Throw m, s')
  | (Crash w, s') => (Crash w, s')
  end.
Definition throw {S A} (m : string) : M S A := λ s, (Throw m, s).
Definition crash {S A} (w : string) : M S A := λ s, (Crash w, s).
Definition gets {S A} (f : S → A) : M S A := λ s, (Ok (f s), s).
Definition modify {S} (f : S → S) : M S unit := λ s, (Ok tt, f s).

(** [assert(b)] *)
Definition assert_ {S} (b : bool) : M S unit :=
  if b then ret tt else crash "assert".

(** [try { c } catch (const std::exception &ex) { h }] *)
Definition catch {S A} (c : M S A) (h : string → M S A) : M S A := λ s,
  match c s with
  | (Throw m, s') => h m s'
  | r => r
  end.

Declare Scope cop_scope.
Delimit Scope cop_scope with cop.
Notation "x <- c ;; k" := (bind c (λ x, k))
  (at level 100, c at next level, right associativity) : cop_scope.
Notation "c ;;; k" := (bind c (λ _, k))
  (at level 100, right associativity) : cop_scope.
#[global] Open Scope cop_scope.

Lemma bind_ok {S A B} (c : M S A) (k : A → M S B) s a s' :
  c s = (Ok a, s') → bind c k s = k a s'.
Proof. unfold bind. by intros ->. Qed.

Lemma bind_throw {S A B} (c : M S A) (k : A → M S B) s m s' :
  c s = (Throw m, s') → bind c k s = (Throw m, s').
Proof. unfold bind. by intros ->. Qed.

Lemma bind_ext {S A B} (c c' : M S A) (k k' : A → M S B) s : c s = c' s → (∀ a s', k a s' = k' a s') → bind c k s = bind c' k' s.
Proof. unfold bind. intros -> Hk. by destruct (c' s) as [[]]. Qed.

Lemma bind_ok_inv {S A B} (c : M S A) (k : A → M S B) s b s' :
  bind c k s = (Ok b, s') → ∃ a s1, c s = (Ok a, s1) ∧ k a s1 = (Ok b, s').
Proof. unfold bind. destruct (c s) as [[a| |] s1]; [|done..]. by exists a, s1. Qed.

(** [if (b) { c }] *)
Definition when {S} (b : bool) (c : M S unit) : M S unit := if b then c else ret tt.

(** * Tactics and hint databases *)

Create HintDb cop.

(** Split every boolean test of the goal and of the hypotheses. *)
Ltac case_bool :=
  repeat match goal with
  | H : (_ && _)%bool = true |- _ => apply andb_true_iff in H as [? ?]
  | H : (_ || _)%bool = false |- _ => apply orb_false_iff in H as [? ?]
  | H : negb _ = true |- _ => apply negb_true_iff in H
  | H : negb _ = false |- _ => apply negb_false_iff in H
  | H : bool_decide _ = true |- _ => apply bool_decide_eq_true in H
  | H : bool_decide _ = false |- _ => apply bool_decide_eq_false in H
  | H : (_ =? _)%Z = true |- _ => apply Z.eqb_eq in H
  | H : (_ =? _)%Z = false |- _ => apply Z.eqb_neq in H
  | H : (_ <? _)%Z = true |- _ => apply Z.ltb_lt in H
  | H : (_ <? _)%Z = false |- _ => apply Z.ltb_ge in H
  | H : (_ <=? _)%Z = true |- _ => apply Z.leb_le in H
  | H : (_ <=? _)%Z = false |- _ => apply Z.leb_gt in H
  end.

(** Run a monadic computation one step in the goal. *)
Ltac run := unfold bind, ret, gets, modify, throw, crash, when, catch in *; simpl in *.

(** Destruct the scrutinee of the first [match]/[if] of the goal. *)
Ltac case_goal :=
  match goal with
  | |- context [match ?x with _ => _ end] => destruct x eqn:?
  end.

(** * Monad laws, pointwise *)

Lemma bind_assoc {S A B C} (c : M S A) (k : A → M S B) (k' : B → M S C) s :
  bind (bind c k) k' s = bind c (λ x, bind (k x) k') s.
Proof. unfold bind. by destruct (c s) as [[]?]. Qed.

Lemma ret_bind {S A B} (a : A) (k : A → M S B) s : bind (ret a) k s = k a s.
Proof. done. Qed.

(** * Lists *)

(** Remove the first element that satisfies a test. *)
Fixpoint rm1 {A} (P : A → bool) (l : list A) : option (list A) :=
  match l with
  | [] => None
  | x :: l' => if P x then Some l' else option_map (cons x) (rm1 P l')
  end.

Section rm1.
Context {A : Type} (P : A → bool).

Lemma rm1_Some l l' : rm1 P l = Some l' ↔
  ∃ l1 x l2, l = l1 ++ x :: l2 ∧ l' = l1 ++ l2 ∧ P x = true ∧ Forall (λ y, P y = false) l1.
Proof.
  revert l'. induction l as [|x l IH]; intros l'; simpl.
  { split; [done|]. intros (l1 & x & l2 & E & _). by destruct l1. }
  destruct (P x) eqn:Ex; split.
  - intros [= ->]. exists [], x, l'. repeat split; auto.
  - intros (l1 & y & l2 & E & -> & Hy & Hall). destruct l1 as [|z l1]; simplify_eq/=; [done|].
    inversion Hall; congruence.
  - destruct (rm1 P l) as [r|] eqn:Er; [|done]. intros [= <-].
    destruct (proj1 (IH r) eq_refl) as (l1 & y & l2 & -> & -> & ? & ?).
    exists (x :: l1), y, l2. repeat split; auto.
  - intros (l1 & y & l2 & E & -> & Hy & Hall). destruct l1 as [|z l1]; simplify_eq/=;
      [congruence|]. inversion Hall; subst.
    by rewrite (proj2 (IH (l1 ++ l2))) by eauto 10.
Qed.

Lemma rm1_None l : rm1 P l = None ↔ Forall (λ y, P y = false) l.
Proof.
  induction l as [|x l IH]; simpl; [split; auto|]. rewrite Forall_cons, <- IH.
  destruct (P x), (rm1 P l); simpl; naive_solver.
Qed.

Lemma rm1_app_skip l1 x l2 :
  P x = true → Forall (λ y, P y = false) l1 → rm1 P (l1 ++ x :: l2) = Some (l1 ++ l2).
Proof. intros. apply rm1_Some. eauto 10. Qed.

(** Removing inside a sub-sequence that keeps every candidate. *)
Lemma rm1_filter (Q : A → Prop) `{∀ x, Decision (Q x)} l :
  (∀ x, x ∈ l → P x = true → Q x) → rm1 P (filter Q l) = filter Q <$> rm1 P l.
Proof.
  induction l as [|x l IH]; intros HPQ; [done|]. simpl.
  assert (rm1 P (filter Q l) = filter Q <$> rm1 P l) as E
    by (apply IH; intros; apply HPQ; [by right|done]).
  rewrite filter_cons. destruct (P x) eqn:Ex.
  - rewrite decide_True by (apply HPQ; [left|done]). simpl. by rewrite Ex.
  - case_decide as Hq; simpl; rewrite ?Ex, E; destruct (rm1 P l); simpl; try done;
      rewrite filter_cons; case_decide; done.
Qed.

(** Removing outside a sub-sequence does not change it. *)
Lemma filter_rm1_disjoint (Q : A → Prop) `{∀ x, Decision (Q x)} l l' :
  (∀ x, x ∈ l → P x = true → ¬ Q x) → rm1 P l = Some l' → filter Q l' = filter Q l.
Proof.
  intros HPQ (l1 & x & l2 & -> & -> & Hx & _)%rm1_Some.
  rewrite !filter_app, filter_cons_False; [done|]. apply HPQ; [|done]. set_solver.
Qed.

Lemma rm1_sublist l l' : rm1 P l = Some l' → sublist l' l.
Proof.
  intros (l1 & x & l2 & -> & -> & _)%rm1_Some.
  apply sublist_app; [done|]. by apply sublist_cons.
Qed.
End rm1.

(** The head of a filtered list splits the list at the first kept element. *)
Lemma filter_app_inv_cons {A} (Q : A → Prop) `{∀ x, Decision (Q x)} l x l' :
  filter Q l = x :: l' → ∃ l1 l2, l = l1 ++ x :: l2 ∧ ∀ y, y ∈ l1 → ¬ Q y.
Proof.
  induction l as [|z l IH]; [done|]. rewrite filter_cons. case_decide as Hz.
  - intros [= -> _]. exists [], l. split; [done|]. set_solver.
  - intros (l1 & l2 & -> & Hl1)%IH. exists (z :: l1), l2. split; [done|]. set_solver.
Qed.

(** * Maps *)

(** [map::insert]: an existing key keeps its value. *)
Definition map_insert `{Countable K} {A} (k : K) (v : A) (m : gmap K A) : gmap K A :=
  match m !! k with Some _ => m | None => <[k := v]> m end.

Lemma map_insert_cases `{Countable K} {A} (k : K) (v : A) (m : gmap K A) i x :
  map_insert k v m !! i = Some x → i = k ∨ m !! i = Some x.
Proof.
  unfold map_insert. destruct (m !! k); [auto|]. destruct (decide (i = k)); [auto|]. rewrite lookup_insert_ne by congruence. auto.
Qed.

Lemma map_insert_mono `{Countable K} {A} (k : K) (v : A) (m : gmap K A) i x :
  m !! i = Some x → map_insert k v m !! i = Some x.
Proof.
  unfold map_insert. destruct (m !! k) eqn:E; [done|]. intros Hi. rewrite lookup_insert_ne; [done|]. congruence.
Qed.

Lemma map_insert_lookup `{Countable K} {A} (m : gmap K A) k v :
  m !! k = None → map_insert k v m = <[k := v]> m.
Proof. unfold map_insert. by intros ->. Qed.

Lemma map_insert_is_Some `{Countable K} {A} (m : gmap K A) k v j :
  is_Some (map_insert k v m !! j) ↔ j = k ∨ is_Some (m !! j).
Proof.
  unfold map_insert. destruct (m !! k) as [x|] eqn:E.
  - split; [by right|]. intros [->|?]; [by eauto|done].
  - rewrite lookup_insert_is_Some. destruct (decide (k = j)); naive_solver.
Qed.

Lemma map_insert_subseteq `{Countable K} {A} (m : gmap K A) k v : m ⊆ map_insert k v m.
Proof. unfold map_insert. destruct (m !! k) eqn:E; [done|]. by apply insert_subseteq. Qed.
