(* ===== verification/Types.v ===== *)
(** Data model: identifiers, prices, enumerations and the entries of
    [src/src/TypesDef.h] and [src/src/DataModelDef.h], with the operations on
    them that need no other component. *)

From Stdlib Require Import Ascii String ZArith Lia.
From S2P Require Import Prelude.

(** * Identifiers *)

(** struct IdT -- src/src/TypesDef.h:28-50 *)
Record IdT := mkIdT { id_ : Z; date_ : Z }.

#[global] Instance IdT_eq_dec : EqDecision IdT.
Proof. solve_decision. Defined.
#[global] Instance IdT_countable : Countable IdT :=
  inj_countable' (λ i, (id_ i, date_ i)) (λ p, mkIdT p.1 p.2)
    ltac:(by intros []).

(** IdT::IdT() -- src/src/TypesDef.h:33-33 *)
Definition IdT0 : IdT := mkIdT 0 0.

(** IdT::isValid -- src/src/TypesDef.h:36-39 *)
Definition isValidId (i : IdT) : bool :=
  negb (0 =? date_ i) && negb (0 =? id_ i).

(** operator<(IdT, IdT) -- src/src/TypesDef.h:51-61 *)
Definition IdT_ltb (l r : IdT) : bool :=
  if id_ l =? id_ r then date_ l <? date_ r else id_ l <? id_ r.

(** operator==(IdT, IdT) -- src/src/TypesDef.h:63-71 *)
Definition IdT_eqb (l r : IdT) : bool :=
  (id_ l =? id_ r) && (date_ l =? date_ r).

Definition IdT_lt (l r : IdT) : Prop := IdT_ltb l r = true.
#[global] Instance IdT_lt_dec l r : Decision (IdT_lt l r).
Proof. unfold IdT_lt. apply _. Defined.

Lemma IdT_eqb_spec l r : IdT_eqb l r = true ↔ l = r.
Proof.
  destruct l, r; unfold IdT_eqb; simpl.
  rewrite andb_true_iff, !Z.eqb_eq. split; [by intros [-> ->]|by intros [= -> ->]].
Qed.

Lemma IdT_lt_spec l r :
  IdT_lt l r ↔ id_ l < id_ r ∨ (id_ l = id_ r ∧ date_ l < date_ r).
Proof.
  unfold IdT_lt, IdT_ltb. destruct (Z.eqb_spec (id_ l) (id_ r)); rewrite Z.ltb_lt; lia.
Qed.

#[global] Instance IdT_lt_irrefl : Irreflexive IdT_lt.
Proof. intros x H%IdT_lt_spec. lia. Qed.
#[global] Instance IdT_lt_trans : Transitive IdT_lt.
Proof. intros x y z. rewrite !IdT_lt_spec. lia. Qed.
#[global] Instance IdT_lt_trichotomy : Trichotomy IdT_lt.
Proof.
  intros [a b] [c d]. rewrite !IdT_lt_spec; simpl.
  destruct (decide (a = c)) as [->|], (decide (b = d)) as [->|]; [by auto|lia..].
Qed.

Lemma IdT_lt_asym x y : IdT_lt x y → ¬ IdT_lt y x.
Proof. rewrite !IdT_lt_spec. lia. Qed.

(** A generated identifier: counter and date in range of their C++ types. *)
Definition wf_IdT (i : IdT) : Prop := is_u64 (id_ i) ∧ is_u32 (date_ i).

(** * Prices

    [PriceT] is [double].  A price is kept as its 64-bit pattern; the IEEE-754
    comparisons are those of the sign-magnitude integers the patterns encode,
    and every comparison with a NaN is false. *)

(** typedef double PriceT -- src/src/TypesDef.h:75-75 *)
Definition PriceT : Type := Z.

Definition px_sign (p : PriceT) : bool := Z.testbit p 63.
Definition px_mag (p : PriceT) : Z := p `mod` 2 ^ 63.
Definition px_isnan (p : PriceT) : bool := 2047 * 2 ^ 52 <? px_mag p.
Definition px_key (p : PriceT) : Z := if px_sign p then - px_mag p else px_mag p.

(** PriceTAscend::operator() -- src/src/TypesDef.h:76-82 *)
Definition px_ltb (a b : PriceT) : bool :=
  negb (px_isnan a) && negb (px_isnan b) && (px_key a <? px_key b).
(** PriceTDescend::operator() -- src/src/TypesDef.h:83-89 *)
Definition px_gtb (a b : PriceT) : bool := px_ltb b a.
Definition px_leb (a b : PriceT) : bool :=
  negb (px_isnan a) && negb (px_isnan b) && (px_key a <=? px_key b).
Definition px_eqb (a b : PriceT) : bool :=
  negb (px_isnan a) && negb (px_isnan b) && (px_key a =? px_key b).

(** [0.0], and the doubles of some small integers used in the examples. *)
Definition px0 : PriceT := 0.
Definition px_of_pos (m : Z) : PriceT :=
  let e := Z.log2 m in (e + 1023) * 2 ^ 52 + (m * 2 ^ (52 - e) - 2 ^ 52).

Example px_of_pos_ex : px_of_pos 1 = 4607182418800017408 ∧ px_of_pos 100 = 4636737291354636288.
Proof. by vm_compute. Qed.

Lemma px_ltb_spec a b :
  px_isnan a = false → px_isnan b = false → px_ltb a b = (px_key a <? px_key b).
Proof. unfold px_ltb. by intros -> ->. Qed.
Lemma px_eqb_spec a b :
  px_isnan a = false → px_isnan b = false → px_eqb a b = (px_key a =? px_key b).
Proof. unfold px_eqb. by intros -> ->. Qed.
Lemma px_leb_spec a b :
  px_isnan a = false → px_isnan b = false → px_leb a b = (px_key a <=? px_key b).
Proof. unfold px_leb. by intros -> ->. Qed.

(** typedef unsigned int QuantityT -- src/src/TypesDef.h:91-91 *)
Definition QuantityT : Type := Z.
(** typedef u64 DateTimeT -- src/src/TypesDef.h:73-73 *)
Definition DateTimeT : Type := Z.
(** typedef std::string StringT -- src/src/TypesDef.h:97-97 *)
Definition StringT : Type := string.

(** * Enumerations

    The code of an enumerator is its position in the declaration. *)

Class Enum (A : Type) `{EqDecision A} := {
  enum_all : list A;
  enum_complete : ∀ x, x ∈ enum_all;
}.

Definition enum_code `{Enum A} (x : A) : Z :=
  match list_find (x =.) enum_all with Some (i, _) => Z.of_nat i | None => -1 end.

(** An [int] loaded into an enumeration; [None] outside the enumerators. *)
Definition enum_of_code `{Enum A} (z : Z) : option A :=
  if z <? 0 then None else (enum_all (A := A)) !! Z.to_nat z.

Section enum.
Context `{Enum A}.

Lemma enum_code_lookup (x : A) :
  ∃ i, enum_code x = Z.of_nat i ∧ (enum_all (A := A)) !! i = Some x.
Proof.
  unfold enum_code.
  destruct (list_find_elem_of (x =.) enum_all x (enum_complete x) eq_refl) as [[i y] E].
  rewrite E. apply list_find_Some in E as (? & <- & ?). eauto.
Qed.

Lemma enum_of_code_code (x : A) : enum_of_code (enum_code x) = Some x.
Proof.
  destruct (enum_code_lookup x) as (i & -> & E). unfold enum_of_code.
  case_match; case_bool; [lia|]. by rewrite Nat2Z.id.
Qed.

Lemma enum_code_range (x : A) :
  0 <= enum_code x < Z.of_nat (length (enum_all (A := A))).
Proof.
  destruct (enum_code_lookup x) as (i & -> & E). apply lookup_lt_Some in E. lia.
Qed.
End enum.

Ltac solve_enum := intros []; repeat (constructor; try done).

(** enum RawDataType -- src/src/TypesDef.h:99-106 *)
Inductive RawDataType :=
  INVALID_RAWDATATYPE | STRING_RAWDATATYPE | MESSAGE_RAWDATATYPE
  | XML_RAWDATATYPE | BINARY_RAWDATATYPE.
#[global] Instance RawDataType_dec : EqDecision RawDataType. Proof. solve_decision. Defined.
#[global] Program Instance RawDataType_enum : Enum RawDataType := {|
  enum_all := [INVALID_RAWDATATYPE; STRING_RAWDATATYPE; MESSAGE_RAWDATATYPE;
               XML_RAWDATATYPE; BINARY_RAWDATATYPE] |}.
Next Obligation. solve_enum. Qed.

(** enum AccountType -- src/src/DataModelDef.h:44-49 *)
Inductive AccountType := INVALID_ACCOUNTTYPE | PRINCIPAL_ACCOUNTTYPE | AGENCY_ACCOUNTTYPE.
#[global] Instance AccountType_dec : EqDecision AccountType. Proof. solve_decision. Defined.
#[global] Program Instance AccountType_enum : Enum AccountType := {|
  enum_all := [INVALID_ACCOUNTTYPE; PRINCIPAL_ACCOUNTTYPE; AGENCY_ACCOUNTTYPE] |}.
Next Obligation. solve_enum. Qed.

(** enum OrderType -- src/src/DataModelDef.h:69-76 *)
Inductive OrderType :=
  INVALID_ORDERTYPE | MARKET_ORDERTYPE | LIMIT_ORDERTYPE | STOP_ORDERTYPE | STOPLIMIT_ORDERTYPE.
#[global] Instance OrderType_dec : EqDecision OrderType. Proof. solve_decision. Defined.
#[global] Program Instance OrderType_enum : Enum OrderType := {|
  enum_all := [INVALID_ORDERTYPE; MARKET_ORDERTYPE; LIMIT_ORDERTYPE; STOP_ORDERTYPE;
               STOPLIMIT_ORDERTYPE] |}.
Next Obligation. solve_enum. Qed.

(** enum ExecType -- src/src/DataModelDef.h:78-94 *)
Inductive ExecType :=
  INVALID_EXECTYPE | NEW_EXECTYPE | TRADE_EXECTYPE | DFD_EXECTYPE | CORRECT_EXECTYPE
  | CANCEL_EXECTYPE | REJECT_EXECTYPE | REPLACE_EXECTYPE | EXPIRED_EXECTYPE
  | SUSPENDED_EXECTYPE | STATUS_EXECTYPE | RESTATED_EXECTYPE | PEND_CANCEL_EXECTYPE
  | PEND_REPLACE_EXECTYPE.
#[global] Instance ExecType_dec : EqDecision ExecType. Proof. solve_decision. Defined.

(** enum Currency -- src/src/DataModelDef.h:96-101 *)
Inductive Currency := INVALID_CURRENCY | USD_CURRENCY | EUR_CURRENCY.
#[global] Instance Currency_dec : EqDecision Currency. Proof. solve_decision. Defined.
#[global] Program Instance Currency_enum : Enum Currency := {|
  enum_all := [INVALID_CURRENCY; USD_CURRENCY; EUR_CURRENCY] |}.
Next Obligation. solve_enum. Qed.

(** enum Capacity -- src/src/DataModelDef.h:103-112 *)
Inductive Capacity :=
  INVALID_CAPACITY | AGENCY_CAPACITY | PRINCIPAL_CAPACITY | PROPRIETARY_CAPACITY
  | INDIVIDUAL_CAPACITY | RISKLESS_PRINCIPAL_CAPACITY | AGENT_FOR_ANOTHER_MEMBER_CAPACITY.
#[global] Instance Capacity_dec : EqDecision Capacity. Proof. solve_decision. Defined.
#[global] Program Instance Capacity_enum : Enum Capacity := {|
  enum_all := [INVALID_CAPACITY; AGENCY_CAPACITY; PRINCIPAL_CAPACITY; PROPRIETARY_CAPACITY;
               INDIVIDUAL_CAPACITY; RISKLESS_PRINCIPAL_CAPACITY;
               AGENT_FOR_ANOTHER_MEMBER_CAPACITY] |}.
Next Obligation. solve_enum. Qed.

(** enum TimeInForce -- src/src/DataModelDef.h:114-124 *)
Inductive TimeInForce :=
  INVALID_TIF | DAY_TIF | GTD_TIF | GTC_TIF | FOK_TIF | IOC_TIF | OPG_TIF | ATCLOSE_TIF.
#[global] Instance TimeInForce_dec : EqDecision TimeInForce. Proof. solve_decision. Defined.
#[global] Program Instance TimeInForce_enum : Enum TimeInForce := {|
  enum_all := [INVALID_TIF; DAY_TIF; GTD_TIF; GTC_TIF; FOK_TIF; IOC_TIF; OPG_TIF;
               ATCLOSE_TIF] |}.
Next Obligation. solve_enum. Qed.

(** enum Side -- src/src/DataModelDef.h:126-135 *)
Inductive Side :=
  INVALID_SIDE | BUY_SIDE | SELL_SIDE | BUY_MINUS_SIDE | SELL_PLUS_SIDE | SELL_SHORT_SIDE
  | CROSS_SIDE.
#[global] Instance Side_dec : EqDecision Side. Proof. solve_decision. Defined.
#[global] Program Instance Side_enum : Enum Side := {|
  enum_all := [INVALID_SIDE; BUY_SIDE; SELL_SIDE; BUY_MINUS_SIDE; SELL_PLUS_SIDE;
               SELL_SHORT_SIDE; CROSS_SIDE] |}.
Next Obligation. solve_enum. Qed.

(** enum SettlTypeBase -- src/src/DataModelDef.h:137-153 *)
Inductive SettlTypeBase :=
  INVALID_SETTLTYPE | _0_SETTLTYPE | _1_SETTLTYPE | _2_SETTLTYPE | _3_SETTLTYPE
  | _4_SETTLTYPE | _5_SETTLTYPE | _6_SETTLTYPE | _7_SETTLTYPE | _8_SETTLTYPE
  | _9_SETTLTYPE | _B_SETTLTYPE | _C_SETTLTYPE | TENOR_SETTLTYPE.
#[global] Instance SettlTypeBase_dec : EqDecision SettlTypeBase. Proof. solve_decision. Defined.
#[global] Program Instance SettlTypeBase_enum : Enum SettlTypeBase := {|
  enum_all := [INVALID_SETTLTYPE; _0_SETTLTYPE; _1_SETTLTYPE; _2_SETTLTYPE; _3_SETTLTYPE;
               _4_SETTLTYPE; _5_SETTLTYPE; _6_SETTLTYPE; _7_SETTLTYPE; _8_SETTLTYPE;
               _9_SETTLTYPE; _B_SETTLTYPE; _C_SETTLTYPE; TENOR_SETTLTYPE] |}.
Next Obligation. solve_enum. Qed.

(** enum OrderStatus -- src/src/DataModelDef.h:155-170 *)
Inductive OrderStatus :=
  INVALID_ORDSTATUS | RECEIVEDNEW_ORDSTATUS | REJECTED_ORDSTATUS | PENDINGNEW_ORDSTATUS
  | PENDINGREPLACE_ORDSTATUS | NEW_ORDSTATUS | PARTFILL_ORDSTATUS | FILLED_ORDSTATUS
  | EXPIRED_ORDSTATUS | DFD_ORDSTATUS | SUSPENDED_ORDSTATUS | REPLACED_ORDSTATUS
  | CANCELED_ORDSTATUS.
#[global] Instance OrderStatus_dec : EqDecision OrderStatus. Proof. solve_decision. Defined.
#[global] Program Instance OrderStatus_enum : Enum OrderStatus := {|
  enum_all := [INVALID_ORDSTATUS; RECEIVEDNEW_ORDSTATUS; REJECTED_ORDSTATUS;
               PENDINGNEW_ORDSTATUS; PENDINGREPLACE_ORDSTATUS; NEW_ORDSTATUS;
               PARTFILL_ORDSTATUS; FILLED_ORDSTATUS; EXPIRED_ORDSTATUS; DFD_ORDSTATUS;
               SUSPENDED_ORDSTATUS; REPLACED_ORDSTATUS; CANCELED_ORDSTATUS] |}.
Next Obligation. solve_enum. Qed.

(** enum Instructions -- src/src/DataModelDef.h:172-182 *)
Inductive Instructions :=
  INVALID_INSTRUCTION | STAY_ON_OFFER_SIDE_INSTRUCTION | NOT_HELD_INSTRUCTION
  | WORK_INSTRUCTION | GO_ALONG_INSTRUCTION | _INSTRUCTION.
#[global] Instance Instructions_dec : EqDecision Instructions. Proof. solve_decision. Defined.
#[global] Program Instance Instructions_enum : Enum Instructions := {|
  enum_all := [INVALID_INSTRUCTION; STAY_ON_OFFER_SIDE_INSTRUCTION; NOT_HELD_INSTRUCTION;
               WORK_INSTRUCTION; GO_ALONG_INSTRUCTION; _INSTRUCTION] |}.
Next Obligation. solve_enum. Qed.

(** * Reference data entries *)

(** struct RawDataEntry -- src/src/TypesDef.h:108-124
    [data_]/[length_] are the bytes and their number; a null [data_] is the
    empty list. *)
Record RawDataEntry := mkRaw { rd_id : IdT; rd_type : RawDataType; rd_data : list ascii }.

Definition rd_length (r : RawDataEntry) : Z := Z.of_nat (length (rd_data r)).

(** RawDataEntry::RawDataEntry() -- src/src/DataModelDef.cpp:46-46 *)
Definition RawDataEntry0 : RawDataEntry := mkRaw IdT0 INVALID_RAWDATATYPE [].

(** RawDataEntry::RawDataEntry(type, data, len) -- src/src/DataModelDef.cpp:48-52 *)
Definition RawDataEntry_make (t : RawDataType) (data : list ascii) : RawDataEntry :=
  mkRaw IdT0 t data.

(** [memcmp] of two buffers of equal length: the sign of the first difference. *)
Fixpoint memcmp (a b : list ascii) : Z :=
  match a, b with
  | x :: a', y :: b' =>
      let n := Z.of_N (N_of_ascii x) in let m := Z.of_N (N_of_ascii y) in
      if n =? m then memcmp a' b' else n - m
  | _, _ => 0
  end.

(** operator<(RawDataEntry, RawDataEntry) -- src/src/DataModelDef.cpp:25-42 *)
Definition RawDataEntry_ltb (l r : RawDataEntry) : bool :=
  if bool_decide (rd_type l = rd_type r) then
    if rd_length l =? rd_length r then 0 <? memcmp (rd_data l) (rd_data r)
    else rd_length l <? rd_length r
  else enum_code (rd_type l) <? enum_code (rd_type r).

(** struct InstrumentEntry -- src/src/DataModelDef.h:28-36 *)
Record InstrumentEntry := mkInstr {
  in_symbol : StringT; in_securityId : StringT; in_securityIdSource : StringT; in_id : IdT }.

(** struct AccountEntry -- src/src/DataModelDef.h:51-59 *)
Record AccountEntry := mkAcct {
  ac_account : StringT; ac_firm : StringT; ac_id : IdT; ac_type : AccountType }.

(** struct ClearingEntry -- src/src/DataModelDef.h:61-67 *)
Record ClearingEntry := mkClr { cl_firm : StringT; cl_id : IdT }.

Definition empty_string (s : StringT) : bool :=
  match s with EmptyString => true | _ => false end.

(** A validity check: [None] is [true], [Some reason] is [false] with
    [*invalid = reason]. *)
Definition check := option string.

(** InstrumentEntry::isValid -- src/src/DataModelDef.cpp:378-414 *)
Definition InstrumentEntry_isValid (e : InstrumentEntry) : check :=
  if empty_string (in_symbol e) then Some "Invalid value of the instrument's symbol!"
  else if empty_string (in_securityId e) then
    Some "Invalid value of the instrument's securityId!"
  else if empty_string (in_securityIdSource e) then
    Some "Invalid value of the instrument's securityIdSource!"
  else if negb (isValidId (in_id e)) then Some "Invalid value of the instrument's id!"
  else None.

(** AccountEntry::isValid -- src/src/DataModelDef.cpp:416-452 *)
Definition AccountEntry_isValid (e : AccountEntry) : check :=
  if empty_string (ac_account e) then Some "Invalid value of the account's account!"
  else if empty_string (ac_firm e) then Some "Invalid value of the account's firm!"
  else if bool_decide (ac_type e = INVALID_ACCOUNTTYPE) then
    Some "Invalid value of the account's type!"
  else if negb (isValidId (ac_id e)) then Some "Invalid value of the account's id!"
  else None.

(** ClearingEntry::isValid -- src/src/DataModelDef.cpp:454-480 *)
Definition ClearingEntry_isValid (e : ClearingEntry) : check :=
  if empty_string (cl_firm e) then Some "Invalid value of the clearing firm!"
  else if negb (isValidId (cl_id e)) then Some "Invalid value of the clearing id!"
  else None.

(** * Orders *)

(** struct OrderStatePersistence -- src/src/StateMachineDef.h:22-34
    The stored form: [setStateMachinePersistance] resets [orderData_] to null. *)
Record OrderStatePersistence := mkSMP { smp_zone1 : Z; smp_zone2 : Z }.
#[global] Instance SMP_eq_dec : EqDecision OrderStatePersistence.
Proof. solve_decision. Defined.

Definition SMP0 : OrderStatePersistence := mkSMP (-1) (-1).

(** OrderStatePersistence::compare -- src/src/OrderStateMachineImpl.cpp:101-104 *)
Definition SMP_compare (a b : OrderStatePersistence) : bool :=
  (smp_zone1 a =? smp_zone1 b) && (smp_zone2 a =? smp_zone2 b).

(** struct OrderParams, OrderEntry -- src/src/DataModelDef.h:190-277
    A [WideDataLazyRef] field is the identifier it refers to. *)
Record OrderEntry := mkOrder {
  o_orderId : IdT; o_origOrderId : IdT;
  o_price : PriceT; o_status : OrderStatus; o_side : Side; o_ordType : OrderType;
  o_leavesQty : QuantityT; o_cumQty : QuantityT; o_orderQty : QuantityT; o_tif : TimeInForce;
  o_stopPx : PriceT; o_avgPx : PriceT; o_dayAvgPx : PriceT;
  o_creationTime : DateTimeT; o_lastUpdateTime : DateTimeT; o_expireTime : DateTimeT;
  o_settlDate : DateTimeT;
  o_settlType : SettlTypeBase; o_capacity : Capacity; o_currency : Currency;
  o_minQty : QuantityT; o_dayOrderQty : QuantityT; o_dayCumQty : QuantityT;
  o_smp : OrderStatePersistence;
  o_instrument : IdT; o_account : IdT; o_clearing : IdT; o_destination : IdT;
  o_execInstruct : list Instructions;
  o_clOrderId : IdT; o_origClOrderId : IdT; o_source : IdT; o_executions : IdT }.

#[global] Instance OrderEntry_eq_dec : EqDecision OrderEntry.
Proof. unfold EqDecision, PriceT, QuantityT, DateTimeT. solve_decision. Defined.

(** OrderParams::OrderParams(dest, ...), OrderEntry::OrderEntry(source, ...) -- src/src/DataModelDef.cpp:195-207
    The fields of a freshly constructed order. *)
Definition OrderEntry_make (source dest clOrderId origClOrderId instrument account
    clearing executions : IdT) : OrderEntry := {|
  o_orderId := IdT0; o_origOrderId := IdT0; o_price := px0; o_status := INVALID_ORDSTATUS;
  o_side := INVALID_SIDE; o_ordType := INVALID_ORDERTYPE; o_leavesQty := 0; o_cumQty := 0;
  o_orderQty := 0; o_tif := INVALID_TIF; o_stopPx := px0; o_avgPx := px0; o_dayAvgPx := px0;
  o_creationTime := 0; o_lastUpdateTime := 0; o_expireTime := 0; o_settlDate := 0;
  o_settlType := INVALID_SETTLTYPE; o_capacity := INVALID_CAPACITY;
  o_currency := INVALID_CURRENCY; o_minQty := 0; o_dayOrderQty := 0; o_dayCumQty := 0;
  o_smp := SMP0; o_instrument := instrument; o_account := account; o_clearing := clearing;
  o_destination := dest; o_execInstruct := []; o_clOrderId := clOrderId;
  o_origClOrderId := origClOrderId; o_source := source; o_executions := executions |}.

(** Assignment to one field of an order. *)
Abbreviation upd_order o f :=
  (match o with
   | mkOrder oid ooid px st sd ty lq cq oq tif spx apx dpx ct lt et sdt sty cap cur mq doq dcq
       smp ins acc clr dst exi clo oclo src exe => f oid ooid px st sd ty lq cq oq tif spx apx
       dpx ct lt et sdt sty cap cur mq doq dcq smp ins acc clr dst exi clo oclo src exe
   end) (only parsing).

Definition set_orderId (v : IdT) (o : OrderEntry) : OrderEntry :=
  upd_order o (λ _, mkOrder v).
Definition set_origOrderId (v : IdT) (o : OrderEntry) : OrderEntry :=
  upd_order o (λ a _, mkOrder a v).
Definition set_status (v : OrderStatus) (o : OrderEntry) : OrderEntry :=
  upd_order o (λ a b c _, mkOrder a b c v).
Definition set_leavesQty (v : QuantityT) (o : OrderEntry) : OrderEntry :=
  upd_order o (λ a b c d e f _, mkOrder a b c d e f v).
Definition set_cumQty (v : QuantityT) (o : OrderEntry) : OrderEntry :=
  upd_order o (λ a b c d e f g _, mkOrder a b c d e f g v).
Definition set_currency (v : Currency) (o : OrderEntry) : OrderEntry :=
  upd_order o (λ a b c d e f g h i j k l m n p q r s t _,
    mkOrder a b c d e f g h i j k l m n p q r s t v).
(** OrderEntry::setStateMachinePersistance -- src/src/DataModelDef.cpp:279-283 *)
Definition set_smp (v : OrderStatePersistence) (o : OrderEntry) : OrderEntry :=
  upd_order o (λ a b c d e f g h i j k l m n p q r s t u w x y _,
    mkOrder a b c d e f g h i j k l m n p q r s t u w x y v).

(** OrderParams::OrderParams(const OrderParams&), OrderEntry::clone -- src/src/DataModelDef.cpp:209-221
    Every field is copied except [stateMachinePersistance_], which is default
    constructed. *)
Definition OrderEntry_clone (o : OrderEntry) : OrderEntry := set_smp SMP0 o.

(** OrderEntry::compare -- src/src/DataModelDef.cpp:254-270
    The prices are compared with the floating-point [==]. *)
Definition OrderEntry_compare (o v : OrderEntry) : bool :=
  IdT_eqb (o_instrument v) (o_instrument o) && IdT_eqb (o_account v) (o_account o)
  && IdT_eqb (o_clearing v) (o_clearing o) && IdT_eqb (o_destination v) (o_destination o)
  && bool_decide (o_execInstruct v = o_execInstruct o)
  && (o_creationTime v =? o_creationTime o) && (o_lastUpdateTime v =? o_lastUpdateTime o)
  && (o_expireTime v =? o_expireTime o) && (o_settlDate v =? o_settlDate o)
  && px_eqb (o_price v) (o_price o) && px_eqb (o_stopPx v) (o_stopPx o)
  && px_eqb (o_avgPx v) (o_avgPx o) && px_eqb (o_dayAvgPx v) (o_dayAvgPx o)
  && bool_decide (o_status v = o_status o) && bool_decide (o_side v = o_side o)
  && bool_decide (o_ordType v = o_ordType o) && bool_decide (o_tif v = o_tif o)
  && bool_decide (o_settlType v = o_settlType o) && bool_decide (o_capacity v = o_capacity o)
  && bool_decide (o_currency v = o_currency o) && (o_minQty v =? o_minQty o)
  && (o_orderQty v =? o_orderQty o) && (o_leavesQty v =? o_leavesQty o)
  && (o_cumQty v =? o_cumQty o) && (o_dayOrderQty v =? o_dayOrderQty o)
  && (o_dayCumQty v =? o_dayCumQty o) && IdT_eqb (o_clOrderId v) (o_clOrderId o)
  && IdT_eqb (o_origClOrderId v) (o_origClOrderId o) && IdT_eqb (o_source v) (o_source o)
  && IdT_eqb (o_orderId v) (o_orderId o) && IdT_eqb (o_origOrderId v) (o_origOrderId o)
  && IdT_eqb (o_executions v) (o_executions o) && SMP_compare (o_smp o) (o_smp v).

(** * Executions *)

(** struct ExecTradeParams -- src/src/DataModelDef.h:338-351 *)
Record ExecTradeParams := mkTrade {
  tp_lastQty : QuantityT; tp_lastPx : PriceT; tp_currency : Currency; tp_tradeDate : DateTimeT }.

(** struct ExecCorrectParams, ExecCorrectExecEntry -- src/src/DataModelDef.h:354-365 *)
Record ExecCorrectParams := mkCorrect {
  cp_cumQty : QuantityT; cp_leavesQty : QuantityT; cp_lastQty : QuantityT; cp_lastPx : PriceT;
  cp_currency : Currency; cp_tradeDate : DateTimeT; cp_origOrderId : IdT; cp_execRefId : IdT }.

(** struct TradeExecEntry ... TradeCancelExecEntry -- src/src/DataModelDef.h:382-414
    The class of an execution with the members it adds to [ExecutionEntry]. *)
Inductive ExecBody :=
  | XPlain
  | XTrade (t : ExecTradeParams)
  | XReject (reason : StringT)
  | XCorrect (c : ExecCorrectParams)
  | XReplace (origOrderId : IdT)
  | XTradeCancel (execRefId : IdT).

(** struct ExecParams, ExecutionEntry -- src/src/DataModelDef.h:318-336 *)
Record ExecutionEntry := mkExec {
  ex_type : ExecType; ex_transactTime : DateTimeT; ex_orderId : IdT; ex_execId : IdT;
  ex_orderStatus : OrderStatus; ex_market : StringT; ex_body : ExecBody }.

(** ExecParams::ExecParams() -- src/src/DataModelDef.cpp:482-485 *)
Definition Exec0 (b : ExecBody) : ExecutionEntry :=
  mkExec INVALID_EXECTYPE 0 IdT0 IdT0 INVALID_ORDSTATUS EmptyString b.

(** ExecParams::ExecParams(const ExecParams&) -- src/src/DataModelDef.cpp:487-491
    [market_] is not copied. *)
Definition ExecParams_copy (e : ExecutionEntry) (b : ExecBody) : ExecutionEntry :=
  mkExec (ex_type e) (ex_transactTime e) (ex_orderId e) (ex_execId e) (ex_orderStatus e)
    EmptyString b.

Definition set_execId (i : IdT) (e : ExecutionEntry) : ExecutionEntry :=
  mkExec (ex_type e) (ex_transactTime e) (ex_orderId e) i (ex_orderStatus e) (ex_market e)
    (ex_body e).
Definition set_execStatus (st : OrderStatus) (e : ExecutionEntry) : ExecutionEntry :=
  mkExec (ex_type e) (ex_transactTime e) (ex_orderId e) (ex_execId e) st (ex_market e)
    (ex_body e).

(** ExecutionEntry::clone and its overrides -- src/src/DataModelDef.cpp:503-540
    [TradeExecEntry::clone] copies; every other class returns a default
    constructed object of the class (the plain integer members of a fresh
    [ExecCorrectExecEntry] are indeterminate in C++ and 0 here). *)
Definition ExecutionEntry_clone (e : ExecutionEntry) : ExecutionEntry :=
  match ex_body e with
  | XPlain => Exec0 XPlain
  | XTrade t => ExecParams_copy e (XTrade t)
  | XReject _ => Exec0 (XReject EmptyString)
  | XCorrect _ => Exec0 (XCorrect (mkCorrect 0 0 0 px0 INVALID_CURRENCY 0 IdT0 IdT0))
  | XReplace _ => Exec0 (XReplace IdT0)
  | XTradeCancel _ => Exec0 (XTradeCancel IdT0)
  end.
