(* ===== verification/RawMem.v ===== *)
(** The memory of raw data: the constructors, assignments and destructor of [RawDataEntry]
    ([src/src/DataModelDef.cpp]) over an explicit heap of byte arrays.  The other files use
    a [RawDataEntry] as a value; the theorem here is what allows that. *)

From Stdlib Require Import Ascii String ZArith Lia.
From S2P Require Import Prelude Types.

Module RawMemory.

(** ** Objects and arrays *)

(** An object as it lies in memory: [data_] is null or the address of an array. *)
Record Obj := mkObject { m_id : IdT; m_type : RawDataType; m_data : option nat; m_length : nat }.

(** The arrays that [new char[]] returned and [delete[]] did not take back, and the live
    objects by their names. *)
Record Mem := mkMem { arrays : gmap nat (list ascii); objs : gmap nat Obj }.

Definition empty_mem : Mem := mkMem ∅ ∅.

Definition object (x : nat) : M Mem Obj := λ s,
  match objs s !! x with Some o => (Ok o, s) | None => (Crash "object is dead", s) end.
Definition put_object (x : nat) (o : Obj) : M Mem unit := modify (λ s, mkMem (arrays s) (<[x := o]> (objs s))).

(** [p = new char[n]; memcpy(p, src, n)], where [a] is the address [new] returns and [src]
    the bytes that can be read from the source. *)
Definition new_copy (a : nat) (src : list ascii) (n : nat) : M Mem unit :=
  if (n <=? length src)%nat then modify (λ s, mkMem (<[a := take n src]> (arrays s)) (objs s))
  else crash "reads past the source".

(** The bytes behind a pointer. *)
Definition bytes_at (a : nat) : M Mem (list ascii) := λ s,
  match arrays s !! a with Some b => (Ok b, s) | None => (Crash "array is freed", s) end.

(** [delete[] p] *)
Definition delete_array (p : option nat) : M Mem unit :=
  match p with
  | None => ret tt
  | Some a => bytes_at a ;;; modify (λ s, mkMem (delete a (arrays s)) (objs s))
  end.

(** RawDataEntry::RawDataEntry() -- src/src/DataModelDef.cpp:46-46 *)
Definition ctor_default (x : nat) : M Mem unit := put_object x (mkObject IdT0 INVALID_RAWDATATYPE None 0).

(** RawDataEntry::RawDataEntry(type, data, len) -- src/src/DataModelDef.cpp:48-52 *)
Definition ctor_data (x : nat) (t : RawDataType) (data : list ascii) (len a : nat) : M Mem unit :=
  new_copy a data len ;;; put_object x (mkObject IdT0 t (Some a) len).

(** RawDataEntry::~RawDataEntry -- src/src/DataModelDef.cpp:54-57 *)
Definition dtor (x : nat) : M Mem unit :=
  o <- object x ;; delete_array (m_data o) ;;; modify (λ s, mkMem (arrays s) (delete x (objs s))).

(** The copy of an array of [n] bytes, if there is one. *)
Definition copy_array (p : option nat) (n a : nat) : M Mem (option nat) :=
  match p with None => ret None | Some b => src <- bytes_at b ;; new_copy a src n ;;; ret (Some a) end.

(** RawDataEntry::RawDataEntry(const RawDataEntry &) -- src/src/DataModelDef.cpp:59-67 *)
Definition ctor_copy (x y a : nat) : M Mem unit :=
  other <- object y ;;
  d <- copy_array (m_data other) (m_length other) a ;;
  put_object x (mkObject (m_id other) (m_type other) d (m_length other)).

(** RawDataEntry::operator=(const RawDataEntry &) -- src/src/DataModelDef.cpp:69-87 *)
Definition assign_copy (x y a : nat) : M Mem unit :=
  if (x =? y)%nat then ret tt
  else
    other <- object y ;;
    newData <- copy_array (m_data other) (m_length other) a ;;
    this <- object x ;;
    delete_array (m_data this) ;;;
    put_object x (mkObject (m_id other) (m_type other) newData (m_length other)).

(** What a move leaves of its source. *)
Definition emptied (o : Obj) : Obj := mkObject (m_id o) INVALID_RAWDATATYPE None 0.

(** RawDataEntry::RawDataEntry(RawDataEntry &&) -- src/src/DataModelDef.cpp:89-95 *)
Definition ctor_move (x y : nat) : M Mem unit :=
  other <- object y ;; put_object x other ;;; put_object y (emptied other).

(** RawDataEntry::operator=(RawDataEntry &&) -- src/src/DataModelDef.cpp:97-112 *)
Definition assign_move (x y : nat) : M Mem unit :=
  if (x =? y)%nat then ret tt
  else
    this <- object x ;;
    delete_array (m_data this) ;;;
    other <- object y ;; put_object x other ;;; put_object y (emptied other).

(** ** Uses of the class, and what they do to values *)

Inductive RawOp := ODefault (x : nat) | OData (x : nat) (t : RawDataType) (data : list ascii) (len a : nat) | ODtor (x : nat)
  | OCopy (x y a : nat) | OAssign (x y a : nat) | OMove (x y : nat) | OMoveAssign (x y : nat).

Definition exec (op : RawOp) : M Mem unit :=
  match op with
  | ODefault x => ctor_default x | OData x t data len a => ctor_data x t data len a | ODtor x => dtor x
  | OCopy x y a => ctor_copy x y a | OAssign x y a => assign_copy x y a | OMove x y => ctor_move x y | OMoveAssign x y => assign_move x y
  end.

Definition value_emptied (v : RawDataEntry) : RawDataEntry := mkRaw (rd_id v) INVALID_RAWDATATYPE [].

Definition value_of (m : gmap nat RawDataEntry) (y : nat) : RawDataEntry := default RawDataEntry0 (m !! y).

Definition aexec (op : RawOp) (m : gmap nat RawDataEntry) : gmap nat RawDataEntry :=
  match op with
  | ODefault x => <[x := RawDataEntry0]> m
  | OData x t data len _ => <[x := RawDataEntry_make t (take len data)]> m
  | ODtor x => delete x m
  | OCopy x y _ | OAssign x y _ => <[x := value_of m y]> m
  | OMove x y => <[y := value_emptied (value_of m y)]> (<[x := value_of m y]> m)
  | OMoveAssign x y => if (x =? y)%nat then m else <[y := value_emptied (value_of m y)]> (<[x := value_of m y]> m)
  end.

(** A constructor makes a new object, everything else is done to live ones; the caller's
    buffer holds the bytes it announces. *)
Definition allowed (op : RawOp) (m : gmap nat RawDataEntry) : Prop :=
  match op with
  | ODefault x => m !! x = None
  | OData x _ data len _ => m !! x = None ∧ (len <= length data)%nat
  | ODtor x => is_Some (m !! x)
  | OCopy x y _ | OMove x y => m !! x = None ∧ is_Some (m !! y)
  | OAssign x y _ | OMoveAssign x y => is_Some (m !! x) ∧ is_Some (m !! y)
  end.

(** The promise of [new]: the array it returns is not one in use. *)
Definition new_free (op : RawOp) (s : Mem) : Prop :=
  match op with OData _ _ _ _ a | OCopy _ _ a | OAssign _ _ a => arrays s !! a = None | _ => True end.

(** ** Refinement *)

(** An object stands for a value. *)
Definition stands (h : gmap nat (list ascii)) (o : Obj) (v : RawDataEntry) : Prop :=
  m_id o = rd_id v ∧ m_type o = rd_type v ∧ m_length o = length (rd_data v) ∧
  match m_data o with None => rd_data v = [] | Some a => h !! a = Some (rd_data v) end.

(** Each object stands for its value, no two share an array, and every array is some
    object's. *)
Record R (s : Mem) (m : gmap nat RawDataEntry) : Prop := {
  R_stands x : option_Forall2 (stands (arrays s)) (objs s !! x) (m !! x);
  R_own x y o o' a : objs s !! x = Some o → objs s !! y = Some o' → m_data o = Some a → m_data o' = Some a → x = y;
  R_heap a : is_Some (arrays s !! a) → ∃ x o, objs s !! x = Some o ∧ m_data o = Some a;
}.

Lemma R_object s m y : R s m → is_Some (m !! y) → ∃ o v, objs s !! y = Some o ∧ m !! y = Some v ∧ stands (arrays s) o v.
Proof. intros HR [v Hv]. pose proof (R_stands _ _ HR y) as Hs. rewrite Hv in Hs. inversion Hs as [o ? Ho E|]; subst. by eexists _, _. Qed.

Lemma R_new s m x : R s m → m !! x = None → objs s !! x = None.
Proof. intros HR Hx. pose proof (R_stands _ _ HR x) as Hs. rewrite Hx in Hs. by inversion Hs. Qed.

Lemma option_Forall2_weaken {A B} (P Q : A → B → Prop) x y : (∀ a b, x = Some a → y = Some b → P a b → Q a b) → option_Forall2 P x y → option_Forall2 Q x y.
Proof. intros H. destruct 1; constructor; auto. Qed.

(** Arrays that no object of the value map uses do not matter for it. *)
Lemma stands_ext h h' o v : (∀ a, m_data o = Some a → h' !! a = h !! a) → stands h o v → stands h' o v.
Proof. intros Hh (H1 & H2 & H3 & H4). split_and!; try done. destruct (m_data o) as [a|]; [|done]. by rewrite Hh. Qed.

(** A new object without an array. *)
Lemma R_null s m x i t : R s m → m !! x = None → R (mkMem (arrays s) (<[x := mkObject i t None 0]> (objs s))) (<[x := mkRaw i t []]> m).
Proof.
  intros HR Hx. pose proof (R_new _ _ _ HR Hx) as Hf. split; cbn.
  - intros y. destruct (decide (y = x)) as [->|Hne]; [rewrite !lookup_insert_eq; by constructor|].
    rewrite !lookup_insert_ne by done. apply (R_stands _ _ HR).
  - intros y z o o' a [(<- & <-)|(Hy & Ey)]%lookup_insert_Some [(<- & <-)|(Hz & Ez)]%lookup_insert_Some E1 E2; try done. by eapply (R_own _ _ HR).
  - intros a (y & o & Ho & Ha)%(R_heap _ _ HR). exists y, o. split; [|done]. rewrite lookup_insert_ne; [done|]. intros ->. congruence.
Qed.

(** A new object with a new array. *)
Lemma R_bind s m x i t a b : R s m → m !! x = None → arrays s !! a = None →
  R (mkMem (<[a := b]> (arrays s)) (<[x := mkObject i t (Some a) (length b)]> (objs s))) (<[x := mkRaw i t b]> m).
Proof.
  intros HR Hx Ha. pose proof (R_new _ _ _ HR Hx) as Hf.
  assert (∀ y o, objs s !! y = Some o → m_data o ≠ Some a) as Hun.
  { intros y o Ho Hd. pose proof (R_stands _ _ HR y) as Hs. rewrite Ho in Hs. inversion Hs as [? v (_ & _ & _ & H4)|]; subst. rewrite Hd in H4. congruence. }
  split; cbn.
  - intros y. destruct (decide (y = x)) as [->|Hne].
    { rewrite !lookup_insert_eq. constructor. split_and!; try done. cbn. apply lookup_insert_eq. }
    rewrite !lookup_insert_ne by done. eapply option_Forall2_weaken; [|apply (R_stands _ _ HR)].
    intros o v Ho _. apply stands_ext. intros c Hc. rewrite lookup_insert_ne; [done|]. intros ->. by eapply Hun.
  - intros y z o o' c [(<- & <-)|(Hy & Ey)]%lookup_insert_Some [(<- & <-)|(Hz & Ez)]%lookup_insert_Some E1 E2; cbn in *; simplify_eq; try done.
    + by destruct (Hun _ _ Ez).
    + by destruct (Hun _ _ Ey).
    + by eapply (R_own _ _ HR).
  - intros c. destruct (decide (c = a)) as [->|Hne]; [intros _; eexists x, _; by rewrite lookup_insert_eq|].
    rewrite lookup_insert_ne by done. intros (y & o & Ho & Hc)%(R_heap _ _ HR). exists y, o. split; [|done]. rewrite lookup_insert_ne; [done|]. intros ->. congruence.
Qed.

Definition drop_array (p : option nat) (h : gmap nat (list ascii)) : gmap nat (list ascii) := match p with None => h | Some a => delete a h end.

(** A live object's array is freed with it. *)
Lemma R_drop s m x o : R s m → objs s !! x = Some o → R (mkMem (drop_array (m_data o) (arrays s)) (delete x (objs s))) (delete x m).
Proof.
  intros HR Hx. split; cbn.
  - intros y. destruct (decide (y = x)) as [->|Hne]; [rewrite !lookup_delete_eq; constructor|].
    rewrite !lookup_delete_ne by done. eapply option_Forall2_weaken; [|apply (R_stands _ _ HR)].
    intros o' v Ho _. apply stands_ext. intros c Hc. unfold drop_array. destruct (m_data o) as [a|] eqn:Ea; [|done].
    rewrite lookup_delete_ne; [done|]. intros ->. destruct Hne. by eapply (R_own _ _ HR).
  - intros y z p q c (Hy & Ey)%lookup_delete_Some (Hz & Ez)%lookup_delete_Some. by eapply (R_own _ _ HR).
  - intros c Hc. assert (is_Some (arrays s !! c) ∧ m_data o ≠ Some c) as [Hs Hn].
    { unfold drop_array in Hc. destruct (m_data o) as [a|]; [|done]. destruct Hc as [b (Hne & Eb)%lookup_delete_Some]. split; [by eexists|congruence]. }
    destruct (R_heap _ _ HR c Hs) as (y & p & Hy & Hp). exists y, p. split; [|done]. rewrite lookup_delete_ne; [done|]. intros ->. congruence.
Qed.

(** A move hands the array over. *)
Lemma R_move s m x y o v : R s m → m !! x = None → objs s !! y = Some o → m !! y = Some v →
  R (mkMem (arrays s) (<[y := emptied o]> (<[x := o]> (objs s)))) (<[y := value_emptied v]> (<[x := v]> m)).
Proof.
  intros HR Hx Ho Hv. pose proof (R_new _ _ _ HR Hx) as Hf. assert (x ≠ y) as Hxy by congruence.
  pose proof (R_stands _ _ HR y) as Hs. rewrite Ho, Hv in Hs. inversion Hs as [? ? Hst|]; subst. split; cbn.
  - intros z. destruct (decide (z = y)) as [->|Hz]; [rewrite !lookup_insert_eq; constructor; destruct Hst as (? & ? & ? & ?); by split_and!|].
    rewrite !(lookup_insert_ne _ y) by done. destruct (decide (z = x)) as [->|Hzx]; [rewrite !lookup_insert_eq; by constructor|].
    rewrite !lookup_insert_ne by done. apply (R_stands _ _ HR).
  - intros z w p q c [(<- & <-)|(Hz & [(<- & <-)|(Hz2 & Ez)]%lookup_insert_Some)]%lookup_insert_Some
      [(<- & <-)|(Hw & [(<- & <-)|(Hw2 & Ew)]%lookup_insert_Some)]%lookup_insert_Some E1 E2; try done.
    + destruct Hw. by eapply (R_own _ _ HR y w).
    + destruct Hz. by eapply (R_own _ _ HR y z).
    + by eapply (R_own _ _ HR).
  - intros c (z & p & Hz & Hp)%(R_heap _ _ HR). destruct (decide (z = y)) as [->|Hne].
    + exists x, o. rewrite lookup_insert_ne, lookup_insert_eq by done. split; [done|congruence].
    + exists z, p. rewrite !lookup_insert_ne by congruence. done.
Qed.

(** *** The operations *)

Lemma object_run s y o : objs s !! y = Some o → object y s = (Ok o, s).
Proof. intros Ho. unfold object. by rewrite Ho. Qed.

Lemma delete_array_run s o v : stands (arrays s) o v → delete_array (m_data o) s = (Ok tt, mkMem (drop_array (m_data o) (arrays s)) (objs s)).
Proof.
  intros (_ & _ & _ & Hd). unfold delete_array. destruct (m_data o) as [a|]; [|by destruct s]. unfold bytes_at, bind. by rewrite Hd.
Qed.

(** The copy of an object's array, if it has one, at a free address. *)
Definition copied (o : Obj) (v : RawDataEntry) (a : nat) (h : gmap nat (list ascii)) : gmap nat (list ascii) :=
  match m_data o with None => h | Some _ => <[a := rd_data v]> h end.

Lemma copy_array_run s o v a : stands (arrays s) o v →
  copy_array (m_data o) (m_length o) a s = (Ok ((λ _, a) <$> m_data o), mkMem (copied o v a (arrays s)) (objs s)).
Proof.
  intros (_ & _ & Hl & Hd). unfold copy_array, copied. destruct (m_data o) as [b|]; [|by destruct s]. unfold bytes_at, bind, new_copy. rewrite Hd, Hl.
  rewrite Nat.leb_refl. cbn. by rewrite take_ge by lia.
Qed.

Lemma R_copy s m x o v a : R s m → m !! x = None → stands (arrays s) o v → arrays s !! a = None →
  R (mkMem (copied o v a (arrays s)) (<[x := mkObject (m_id o) (m_type o) ((λ _, a) <$> m_data o) (m_length o)]> (objs s))) (<[x := v]> m).
Proof.
  intros HR Hx (H1 & H2 & H3 & H4) Ha. rewrite H1, H2, H3. unfold copied. destruct v as [i t b]. cbn [rd_id rd_type rd_data] in *.
  destruct (m_data o) as [c|]; [by apply R_bind|]. subst b. by apply R_null.
Qed.

(** Assigning to another object: the copy is made before the old array goes. *)
Lemma assign_copy_refines s m x y o v o' v' a : R s m → x ≠ y → objs s !! y = Some o → m !! y = Some v → stands (arrays s) o v →
  objs s !! x = Some o' → stands (arrays s) o' v' → arrays s !! a = None → ∃ s', assign_copy x y a s = (Ok tt, s') ∧ R s' (<[x := v]> m).
Proof.
  intros HR Hne Ho Hv Hst Ho' Hst' Hf. unfold assign_copy. destruct (Nat.eqb_spec x y) as [->|_]; [done|].
  rewrite (bind_ok _ _ _ _ _ (object_run _ _ _ Ho)), (bind_ok _ _ _ _ _ (copy_array_run _ _ _ a Hst)).
  assert (∀ c, m_data o' = Some c → c ≠ a) as Hca by (intros c Hc ->; destruct Hst' as (_ & _ & _ & Hd); rewrite Hc in Hd; congruence).
  set (s1 := mkMem (copied o v a (arrays s)) (objs s)). rewrite (bind_ok _ _ s1 _ _ (object_run s1 _ _ Ho')).
  assert (stands (arrays s1) o' v') as Hst1.
  { apply (stands_ext (arrays s)); [|done]. intros c Hc. cbn. unfold copied. destruct (m_data o); [|done]. rewrite lookup_insert_ne; [done|]. by apply not_eq_sym, Hca. }
  rewrite (bind_ok _ _ _ _ _ (delete_array_run s1 _ _ Hst1)). eexists. split; [done|]. cbn.
  rewrite <- (insert_delete_eq (objs s)), <- (insert_delete_eq m).
  replace (drop_array (m_data o') (copied o v a (arrays s))) with (copied o v a (drop_array (m_data o') (arrays s))).
  2:{ unfold drop_array, copied. destruct (m_data o') as [c|] eqn:Ec, (m_data o); try done. rewrite delete_insert_ne; [done|]. by apply Hca. }
  pose proof (R_drop _ _ _ _ HR Ho') as HRd. apply (R_copy _ _ x o v a HRd); [apply lookup_delete_eq| |].
  + pose proof (R_stands _ _ HRd y) as Hsy. cbn in Hsy |- *. rewrite !lookup_delete_ne, Ho, Hv in Hsy by done. by inversion Hsy.
  + cbn. unfold drop_array. destruct (m_data o') as [c|]; [|done]. rewrite lookup_delete_None. by right.
Qed.

Lemma raw_exec_refines op s m : R s m → allowed op m → new_free op s → ∃ s', exec op s = (Ok tt, s') ∧ R s' (aexec op m).
Proof.
  intros HR Hal Hf. destruct op as [x|x t data len a|x|x y a|x y a|x y|x y]; cbn [exec allowed new_free aexec] in *.
  - eexists. split; [done|]. by apply R_null.
  - destruct Hal as [Hx Hl]. unfold ctor_data, new_copy. rewrite (proj2 (Nat.leb_le _ _)) by done. eexists. split; [done|]. cbn.
    replace len with (length (take len data)) at 2 by (rewrite length_take; lia). by apply R_bind.
  - destruct (R_object _ _ _ HR Hal) as (o & v & Ho & Hv & Hst). unfold dtor. rewrite (bind_ok _ _ _ _ _ (object_run _ _ _ Ho)).
    rewrite (bind_ok _ _ _ _ _ (delete_array_run _ _ _ Hst)). eexists. split; [done|]. cbn. by apply R_drop.
  - destruct Hal as [Hx Hy]. destruct (R_object _ _ _ HR Hy) as (o & v & Ho & Hv & Hst). unfold ctor_copy, value_of. rewrite Hv.
    rewrite (bind_ok _ _ _ _ _ (object_run _ _ _ Ho)), (bind_ok _ _ _ _ _ (copy_array_run _ _ _ a Hst)). eexists. split; [done|]. cbn. by apply R_copy.
  - destruct Hal as [Hx Hy]. destruct (R_object _ _ _ HR Hy) as (o & v & Ho & Hv & Hst), (R_object _ _ _ HR Hx) as (o' & v' & Ho' & Hv' & Hst').
    unfold value_of. rewrite Hv. destruct (decide (x = y)) as [->|Hne]; [|by eapply assign_copy_refines].
    exists s. unfold assign_copy. rewrite Nat.eqb_refl. by rewrite insert_id.
  - destruct Hal as [Hx Hy]. destruct (R_object _ _ _ HR Hy) as (o & v & Ho & Hv & Hst). unfold ctor_move, value_of. rewrite Hv.
    rewrite (bind_ok _ _ _ _ _ (object_run _ _ _ Ho)). eexists. split; [done|]. cbn. by apply R_move.
  - destruct Hal as [Hx Hy]. destruct (R_object _ _ _ HR Hy) as (o & v & Ho & Hv & Hst), (R_object _ _ _ HR Hx) as (o' & v' & Ho' & Hv' & Hst').
    unfold assign_move, value_of. rewrite Hv. destruct (Nat.eqb_spec x y) as [->|Hne]; [by exists s|].
    rewrite (bind_ok _ _ _ _ _ (object_run _ _ _ Ho')), (bind_ok _ _ _ _ _ (delete_array_run _ _ _ Hst')).
    set (s1 := mkMem _ (objs s)). rewrite (bind_ok _ _ s1 _ _ (object_run s1 _ _ Ho)). eexists. split; [done|]. cbn.
    rewrite <- (insert_delete_eq (objs s)), <- (insert_delete_eq m).
    apply (R_move _ _ x y o v (R_drop _ _ _ _ HR Ho')); [apply lookup_delete_eq|..]; cbn; by rewrite lookup_delete_ne.
Qed.

(** The states and values that sequences of uses lead to. *)
Inductive raw_run : Mem → gmap nat RawDataEntry → Prop :=
  | rr_start : raw_run empty_mem ∅
  | rr_step s m op s' : raw_run s m → allowed op m → new_free op s → exec op s = (Ok tt, s') → raw_run s' (aexec op m).

Lemma raw_run_R s m : raw_run s m → R s m.
Proof.
  induction 1 as [|s m op s' _ IH Ha Hf E]; [split; cbn|].
  - intros x. rewrite !lookup_empty. constructor.
  - intros x y o o' a Hx. by rewrite lookup_empty in Hx.
  - intros a [b Hb]. by rewrite lookup_empty in Hb.
  - destruct (raw_exec_refines op s m IH Ha Hf) as (s2 & E2 & HR). rewrite E in E2. by injection E2 as <-.
Qed.

(** C23: Raw data can be used as values.  However objects are created, copied, assigned, also
    to themselves, moved and destroyed, each live object has the identifier, type and bytes
    of the value these uses give it; the next use succeeds, so that nothing is freed twice,
    read after it was freed or read past its end; no two objects share an array; and when
    the last object is gone no array is left. *)
Theorem raw_data_are_values s m : raw_run s m →
  (∀ x, option_Forall2 (stands (arrays s)) (objs s !! x) (m !! x)) ∧
  (∀ op, allowed op m → new_free op s → ∃ s', exec op s = (Ok tt, s') ∧ raw_run s' (aexec op m)) ∧
  (∀ x y o o' a, objs s !! x = Some o → objs s !! y = Some o' → m_data o = Some a → m_data o' = Some a → x = y) ∧
  (m = ∅ → arrays s = ∅).
Proof.
  intros Hr. pose proof (raw_run_R _ _ Hr) as HR. split_and!; [apply (R_stands _ _ HR)| |apply (R_own _ _ HR)|].
  - intros op Ha Hf. destruct (raw_exec_refines op s m HR Ha Hf) as (s' & E & _). exists s'. split; [done|]. by eapply rr_step.
  - intros ->. apply map_empty. intros a. apply eq_None_not_Some. intros (x & o & Hx & _)%(R_heap _ _ HR).
    pose proof (R_stands _ _ HR x) as Hs. rewrite Hx, lookup_empty in Hs. inversion Hs.
Qed.

(** A text, its copy, an assignment to itself and a move. *)
Definition ex_uses : list RawOp :=
  [OData 1 STRING_RAWDATATYPE (list_ascii_of_string "order") 5 7; OCopy 2 1 8; OAssign 2 2 9; ODefault 3; OMoveAssign 3 1; ODtor 1].

Definition ex_mem : Mem := foldl (λ s op, (exec op s).2) empty_mem ex_uses.
Definition ex_values : gmap nat RawDataEntry := foldl (λ m op, aexec op m) ∅ ex_uses.

Lemma raw_data_are_values_witness : ∃ s', exec (OAssign 3 2 1) ex_mem = (Ok tt, s') ∧ arrays s' !! 7%nat = None ∧
  arrays s' !! 1%nat = Some (list_ascii_of_string "order").
Proof.
  assert (raw_run ex_mem ex_values) as Hr.
  { unfold ex_mem, ex_values, ex_uses. cbn [foldl].
    repeat match goal with |- raw_run empty_mem ∅ => apply rr_start | |- raw_run (snd (exec ?op ?s)) (aexec _ ?m) => apply (rr_step s m op) end.
    all: cbn [allowed new_free]; first [exact I | split; first [eexists; vm_compute; reflexivity | vm_compute; reflexivity | apply Nat.leb_le; reflexivity]
      | eexists; vm_compute; reflexivity | vm_compute; reflexivity]. }
  destruct (raw_data_are_values ex_mem ex_values Hr) as (_ & Hx & _).
  destruct (Hx (OAssign 3 2 1)) as (s' & E & _); [split; (eexists; vm_compute; reflexivity)|vm_compute; reflexivity|].
  exists s'. split; [exact E|]. vm_compute in E. injection E as <-. split; vm_compute; reflexivity.
Defined.
End RawMemory.
