(* ===== verification/Doubles.v ===== *)
(** The [double] arithmetic of prices: the 64-bit patterns of [Types.PriceT] as
    numbers of the standard library's specification of IEEE-754 binary64, with
    the operations the processor uses. *)

From Stdlib Require Import ZArith Lia.
From Stdlib Require Import Floats.SpecFloat.
From S2P Require Import Prelude Types.

Definition prec : Z := 53.
Definition emax : Z := 1024.

(** The number a pattern stands for. *)
Definition px_decode (p : PriceT) : spec_float :=
  let s := px_sign p in
  let e := px_mag p / 2 ^ 52 in
  let m := px_mag p `mod` 2 ^ 52 in
  if e =? 2047 then (if m =? 0 then S754_infinity s else S754_nan)
  else if e =? 0 then
    match m with Z.pos q => S754_finite s q (-1074) | _ => S754_zero s end
  else match m + 2 ^ 52 with Z.pos q => S754_finite s q (e - 1075) | _ => S754_nan end.

(** The pattern of a number; NaN is the quiet NaN. *)
Definition px_encode (x : spec_float) : PriceT :=
  match x with
  | S754_zero s => if s then 2 ^ 63 else 0
  | S754_infinity s => (if s then 2 ^ 63 else 0) + 2047 * 2 ^ 52
  | S754_nan => 2047 * 2 ^ 52 + 2 ^ 51
  | S754_finite s m e =>
      (if s then 2 ^ 63 else 0) +
      (if Z.pos m <? 2 ^ 52 then Z.pos m else (e + 1075) * 2 ^ 52 + (Z.pos m - 2 ^ 52))
  end.

(** [static_cast<double>(q)] of an unsigned integer, [+], [*] and [/]. *)
Definition px_of_qty (q : QuantityT) : PriceT := px_encode (binary_normalize prec emax q 0 false).
Definition px_add (a b : PriceT) : PriceT := px_encode (SFadd prec emax (px_decode a) (px_decode b)).
Definition px_mul (a b : PriceT) : PriceT := px_encode (SFmul prec emax (px_decode a) (px_decode b)).
Definition px_div (a b : PriceT) : PriceT := px_encode (SFdiv prec emax (px_decode a) (px_decode b)).

(** [0.1] is 4591870180066957722; some sums, products and quotients. *)
Example px_arith_ex : px_of_qty 100 = px_of_pos 100 ∧
  px_add (px_of_pos 3) (px_of_pos 4) = px_of_pos 7 ∧ px_mul (px_of_pos 12) (px_of_pos 12) = px_of_pos 144 ∧
  px_div (px_of_pos 91) (px_of_pos 7) = px_of_pos 13 ∧
  px_div (px_of_pos 1) (px_of_pos 10) = 4591870180066957722.
Proof. by vm_compute. Qed.

(** Encoding undoes decoding on every pattern but the NaNs. *)
Lemma px_encode_decode p : is_u64 p → px_isnan p = false → px_encode (px_decode p) = p.
Proof.
  intros [Hp0 Hp] Hn. unfold px_isnan in Hn. apply Z.ltb_ge in Hn.
  assert (p = (if px_sign p then 2 ^ 63 else 0) + px_mag p) as Hsplit.
  { unfold px_sign, px_mag. rewrite Z.testbit_eqb by lia.
    pose proof (Z.div_mod p (2 ^ 63) ltac:(lia)) as Hd.
    assert (0 <= p / 2 ^ 63 < 2) as Hq.
    { split; [apply Z.div_pos; lia|apply Z.div_lt_upper_bound; lia]. }
    rewrite (Z.mod_small (p / 2 ^ 63)) by lia.
    destruct (Z.eqb_spec (p / 2 ^ 63) 1); lia. }
  assert (0 <= px_mag p < 2 ^ 63) as Hm by (apply Z.mod_pos_bound; lia).
  pose proof (Z.div_mod (px_mag p) (2 ^ 52) ltac:(lia)) as Hd.
  pose proof (Z.mod_pos_bound (px_mag p) (2 ^ 52) ltac:(lia)) as Hr.
  rewrite Hsplit at 2. unfold px_decode.
  set (s := px_sign p) in *. set (x := px_mag p) in *. set (e := x / 2 ^ 52) in *.
  set (m := x `mod` 2 ^ 52) in *.
  assert (0 <= e) as He by (apply Z.div_pos; lia).
  destruct (Z.eqb_spec e 2047) as [E|E].
  { destruct (Z.eqb_spec m 0) as [E0|E0]; [|lia]. simpl. lia. }
  destruct (Z.eqb_spec e 0) as [E0|E0].
  - destruct m as [|q|q] eqn:Em; [simpl; destruct s; lia| |lia]. unfold px_encode.
    rewrite (proj2 (Z.ltb_lt _ _)) by lia. lia.
  - destruct (m + 2 ^ 52) as [|q|q] eqn:Em; [lia| |lia]. unfold px_encode.
    rewrite (proj2 (Z.ltb_ge _ _)) by lia. lia.
Qed.
