(* ===== verification/IdGen.v ===== *)
(** The identifier generator of [src/src/IdTGenerator.cpp]. *)

From Stdlib Require Import String ZArith Lia.
From S2P Require Import Prelude Types.

Module IdTGenerator.

(** class IdTValueGenerator -- src/src/IdTGenerator.h:22-33
    [counter_], an atomic 64-bit counter. *)
Definition t : Type := Z.

(** IdTValueGenerator::IdTValueGenerator -- src/src/IdTGenerator.cpp:18-21 *)
Definition init : t := 1.

(** IdTValueGenerator::getId -- src/src/IdTGenerator.cpp:25-31
    [now] is the [time_t] the clock shows. *)
Definition getId (now : Z) (counter : t) : IdT * t :=
  (mkIdT counter (wrap32 now), wrap64 (counter + 1)).

(** Before the counter wraps, a new identifier is above every earlier one. *)
Lemma getId_fresh now counter i : id_ i < counter → IdT_lt i (getId now counter).1.
Proof. intros H. apply IdT_lt_spec. simpl. auto. Qed.

Lemma getId_valid now counter : 0 < counter → wrap32 now ≠ 0 →
  isValidId (getId now counter).1 = true.
Proof.
  intros ? ?. unfold isValidId, getId. cbn [fst date_ id_].
  destruct (Z.eqb_spec 0 (wrap32 now)), (Z.eqb_spec 0 counter); simpl; first [done|exfalso; lia].
Qed.
End IdTGenerator.
