(* ===== verification/WideData.v ===== *)
(** Reference data: the in-memory store of [src/src/WideDataStorage.cpp], the lazy
    references of [src/src/WideDataLazyRef.h] and the validity check of an order
    that follows them ([OrderEntry::isValid]). *)

From Stdlib Require Import Ascii String ZArith Lia.
From S2P Require Import Prelude Types.

Module WideData.

(** What [DataSaver::save] is given. *)
Inductive DataRecord :=
  | DInstrument (e : InstrumentEntry)
  | DString (i : IdT) (s : StringT)
  | DRawData (e : RawDataEntry)
  | DAccount (e : AccountEntry)
  | DClearing (e : ClearingEntry)
  | DExecutions (l : list IdT).

(** class WideParamsDataStorage -- src/src/WideDataStorage.h:34-132
    The stores are insert-only; an execution list is the sequence of its
    execution identifiers.  [SV] is the state of the attached [DataSaver]. *)
Record t (SV : Type) := mkWide {
  subscrCounter : Z;
  instruments : gmap IdT InstrumentEntry; strings : gmap IdT StringT;
  accounts : gmap IdT AccountEntry; clearings : gmap IdT ClearingEntry;
  rawDatas : gmap IdT RawDataEntry; executions : gmap IdT (list IdT);
  instrumentsBySymbol : gmap StringT IdT; accountsByName : gmap StringT IdT;
  storage : option SV }.
Arguments mkWide {SV} _ _ _ _ _ _ _ _ _ _.
Arguments subscrCounter {SV} _.
Arguments instruments {SV} _.
Arguments strings {SV} _.
Arguments accounts {SV} _.
Arguments clearings {SV} _.
Arguments rawDatas {SV} _.
Arguments executions {SV} _.
Arguments instrumentsBySymbol {SV} _.
Arguments accountsByName {SV} _.
Arguments storage {SV} _.

(** Assignment to one field. *)
Abbreviation upd_wide w f :=
  (match w with
   | mkWide c i s a cl r e bs bn st => f c i s a cl r e bs bn st
   end) (only parsing).

Section ops.
Context {SV : Type} (sv_save : DataRecord → M SV unit).
Implicit Types (w : t SV).

(** WideParamsDataStorage::WideParamsDataStorage -- src/src/WideDataStorage.cpp:49-52 *)
Definition create : t SV := mkWide 1 ∅ ∅ ∅ ∅ ∅ ∅ ∅ ∅ None.

(** WideParamsDataStorage::bindStorage -- src/src/WideDataStorage.cpp:100-106 *)
Definition bindStorage (s : SV) : M (t SV) unit := λ w,
  match storage w with
  | Some _ => (Crash "assert", w)
  | None => (Ok tt, upd_wide w (λ c i s' a cl r e bs bn _, mkWide c i s' a cl r e bs bn (Some s)))
  end.

(** WideParamsDataStorage::get(StringT) -- src/src/WideDataStorage.cpp:112-122 *)
Definition getString (id : IdT) w : outcome StringT :=
  match strings w !! id with
  | Some v => Ok v
  | None => Throw "WideParamsDataStorage::get(StringT): string not found!"
  end.

(** WideParamsDataStorage::get(RawDataEntry) -- src/src/WideDataStorage.cpp:124-134 *)
Definition getRawData (id : IdT) w : outcome RawDataEntry :=
  match rawDatas w !! id with
  | Some v => Ok v
  | None => Throw "WideParamsDataStorage::get(RawDataEntry): rawData not found!"
  end.

(** WideParamsDataStorage::get(InstrumentEntry) -- src/src/WideDataStorage.cpp:136-146 *)
Definition getInstrument (id : IdT) w : outcome InstrumentEntry :=
  match instruments w !! id with
  | Some v => Ok v
  | None => Throw "WideParamsDataStorage::get(InstrumentEntry): instrument not found!"
  end.

(** WideParamsDataStorage::get(AccountEntry) -- src/src/WideDataStorage.cpp:148-158 *)
Definition getAccount (id : IdT) w : outcome AccountEntry :=
  match accounts w !! id with
  | Some v => Ok v
  | None => Throw "WideParamsDataStorage::get(AccountEntry): account not found!"
  end.

(** WideParamsDataStorage::get(ClearingEntry) -- src/src/WideDataStorage.cpp:160-170 *)
Definition getClearing (id : IdT) w : outcome ClearingEntry :=
  match clearings w !! id with
  | Some v => Ok v
  | None => Throw "WideParamsDataStorage::get(ClearingEntry): clearing not found!"
  end.

(** WideParamsDataStorage::get(ExecutionsT) -- src/src/WideDataStorage.cpp:172-182 *)
Definition getExecutions (id : IdT) w : outcome (list IdT) :=
  match executions w !! id with
  | Some v => Ok v
  | None => Throw "WideParamsDataStorage::get(ExecutionsT): execution list not found!"
  end.

(** [subscrCounter_.fetch_add(1)] *)
Definition fetch_id (date : Z) : M (t SV) IdT := λ w,
  (Ok (mkIdT (subscrCounter w) date),
   upd_wide w (λ c i s a cl r e bs bn st, mkWide (wrap64 (c + 1)) i s a cl r e bs bn st)).

(** [if (nullptr != storage_) storage_->save(...)] *)
Definition saver_save (d : DataRecord) : M (t SV) unit := λ w,
  match storage w with
  | None => (Ok tt, w)
  | Some s => let r := sv_save d s in
      (r.1, upd_wide w (λ c i s' a cl rw e bs bn _, mkWide c i s' a cl rw e bs bn (Some r.2)))
  end.

(** WideParamsDataStorage::add(InstrumentEntry) -- src/src/WideDataStorage.cpp:188-203 *)
Definition addInstrument (v : InstrumentEntry) : M (t SV) IdT :=
  id <- fetch_id 1 ;;
  let v' := mkInstr (in_symbol v) (in_securityId v) (in_securityIdSource v) id in
  modify (λ w, upd_wide w (λ c i s a cl r e bs bn st,
    mkWide c (map_insert id v' i) s a cl r e (<[in_symbol v := id]> bs) bn st)) ;;;
  saver_save (DInstrument v') ;;;
  ret id.

(** WideParamsDataStorage::add(StringT) -- src/src/WideDataStorage.cpp:205-218 *)
Definition addString (v : StringT) : M (t SV) IdT :=
  id <- fetch_id 0 ;;
  modify (λ w, upd_wide w (λ c i s a cl r e bs bn st,
    mkWide c i (map_insert id v s) a cl r e bs bn st)) ;;;
  saver_save (DString id v) ;;;
  ret id.

(** WideParamsDataStorage::add(RawDataEntry) -- src/src/WideDataStorage.cpp:220-234 *)
Definition addRawData (v : RawDataEntry) : M (t SV) IdT :=
  id <- fetch_id 1 ;;
  let v' := mkRaw id (rd_type v) (rd_data v) in
  modify (λ w, upd_wide w (λ c i s a cl r e bs bn st,
    mkWide c i s a cl (map_insert id v' r) e bs bn st)) ;;;
  saver_save (DRawData v') ;;;
  ret id.

(** WideParamsDataStorage::add(AccountEntry) -- src/src/WideDataStorage.cpp:236-251 *)
Definition addAccount (v : AccountEntry) : M (t SV) IdT :=
  id <- fetch_id 1 ;;
  let v' := mkAcct (ac_account v) (ac_firm v) id (ac_type v) in
  modify (λ w, upd_wide w (λ c i s a cl r e bs bn st,
    mkWide c i s (map_insert id v' a) cl r e bs (<[ac_account v := id]> bn) st)) ;;;
  saver_save (DAccount v') ;;;
  ret id.

(** WideParamsDataStorage::add(ClearingEntry) -- src/src/WideDataStorage.cpp:253-267 *)
Definition addClearing (v : ClearingEntry) : M (t SV) IdT :=
  id <- fetch_id 1 ;;
  let v' := mkClr (cl_firm v) id in
  modify (λ w, upd_wide w (λ c i s a cl r e bs bn st,
    mkWide c i s a (map_insert id v' cl) r e bs bn st)) ;;;
  saver_save (DClearing v') ;;;
  ret id.

(** WideParamsDataStorage::add(ExecutionsT) -- src/src/WideDataStorage.cpp:269-282 *)
Definition addExecutions (v : list IdT) : M (t SV) IdT :=
  id <- fetch_id 1 ;;
  modify (λ w, upd_wide w (λ c i s a cl r e bs bn st,
    mkWide c i s a cl r (map_insert id v e) bs bn st)) ;;;
  saver_save (DExecutions v) ;;;
  ret id.

(** casUpdateWithBackoff -- src/src/WideDataStorage.cpp:32-46
    The result of the compare-and-swap loop: the counter is raised to the new
    value when it is below it. *)
Definition casUpdate (newVal : Z) : M (t SV) unit :=
  modify (λ w, upd_wide w (λ c i s a cl r e bs bn st,
    mkWide (if c <? newVal then newVal else c) i s a cl r e bs bn st)).

(** WideParamsDataStorage::restore(InstrumentEntry) -- src/src/WideDataStorage.cpp:288-298 *)
Definition restoreInstrument (v : InstrumentEntry) : M (t SV) unit :=
  casUpdate (wrap64 (id_ (in_id v) + 1)) ;;;
  modify (λ w, upd_wide w (λ c i s a cl r e bs bn st,
    mkWide c (map_insert (in_id v) v i) s a cl r e (<[in_symbol v := in_id v]> bs) bn st)).

(** WideParamsDataStorage::restore(StringT) -- src/src/WideDataStorage.cpp:300-309 *)
Definition restoreString (id : IdT) (v : StringT) : M (t SV) unit :=
  casUpdate (wrap64 (id_ id + 1)) ;;;
  modify (λ w, upd_wide w (λ c i s a cl r e bs bn st,
    mkWide c i (map_insert id v s) a cl r e bs bn st)).

(** WideParamsDataStorage::restore(RawDataEntry) -- src/src/WideDataStorage.cpp:311-320 *)
Definition restoreRawData (v : RawDataEntry) : M (t SV) unit :=
  casUpdate (wrap64 (id_ (rd_id v) + 1)) ;;;
  modify (λ w, upd_wide w (λ c i s a cl r e bs bn st,
    mkWide c i s a cl (map_insert (rd_id v) v r) e bs bn st)).

(** WideParamsDataStorage::restore(AccountEntry) -- src/src/WideDataStorage.cpp:322-332 *)
Definition restoreAccount (v : AccountEntry) : M (t SV) unit :=
  casUpdate (wrap64 (id_ (ac_id v) + 1)) ;;;
  modify (λ w, upd_wide w (λ c i s a cl r e bs bn st,
    mkWide c i s (map_insert (ac_id v) v a) cl r e bs (<[ac_account v := ac_id v]> bn) st)).

(** WideParamsDataStorage::restore(ClearingEntry) -- src/src/WideDataStorage.cpp:334-343 *)
Definition restoreClearing (v : ClearingEntry) : M (t SV) unit :=
  casUpdate (wrap64 (id_ (cl_id v) + 1)) ;;;
  modify (λ w, upd_wide w (λ c i s a cl r e bs bn st,
    mkWide c i s a (map_insert (cl_id v) v cl) r e bs bn st)).

(** WideParamsDataStorage::restore(ExecutionsT) -- src/src/WideDataStorage.cpp:345-348
    Not implemented in the source: execution lists are lost on a restart. *)
Definition restoreExecutions (v : list IdT) : M (t SV) unit := ret tt.

(** WideParamsDataStorage::findInstrumentBySymbol -- src/src/WideDataStorage.h:111-120 *)
Definition findInstrumentBySymbol (symbol : StringT) (w : t SV) : IdT := default IdT0 (instrumentsBySymbol w !! symbol).

(** WideParamsDataStorage::findAccountByName -- src/src/WideDataStorage.h:122-131 *)
Definition findAccountByName (name : StringT) (w : t SV) : IdT := default IdT0 (accountsByName w !! name).

(** [executions_.get()->push_back(EventData(execId))] on the shared list of an
    order. *)
Definition pushExecution (list_id execId : IdT) : M (t SV) unit := λ w,
  match executions w !! list_id with
  | None => (Throw "WideParamsDataStorage::get(ExecutionsT): execution list not found!", w)
  | Some l => (Ok tt, upd_wide w (λ c i s a cl r e bs bn st,
      mkWide c i s a cl r (<[list_id := l ++ [execId]]> e) bs bn st))
  end.
End ops.

(** ** Lazy references *)

(** class WideDataLazyRef -- src/src/WideDataLazyRef.h:23-89 *)
Record LazyRef (A : Type) := mkRef { ref_val : A; ref_id : IdT; ref_loaded : bool }.
Arguments mkRef {A} _ _ _.
Arguments ref_val {A} _.
Arguments ref_id {A} _.
Arguments ref_loaded {A} _.

Section lazy.
Context {SV A : Type} (lookup : IdT → t SV → outcome A).

(** WideDataLazyRef::WideDataLazyRef(id, false) -- src/src/WideDataLazyRef.h:26-32 *)
Definition ref_make (dflt : A) (id : IdT) : LazyRef A := mkRef dflt id false.

(** WideDataLazyRef::get -- src/src/WideDataLazyRef.h:52-64
    The value and the reference with its cache filled. *)
Definition ref_get (r : LazyRef A) (w : t SV) : outcome A * LazyRef A :=
  if ref_loaded r then (Ok (ref_val r), r)
  else match lookup (ref_id r) w with
       | Ok v => (Ok v, mkRef v (ref_id r) true)
       | Throw m => (Throw m, r)
       | Crash c => (Crash c, r)
       end.
End lazy.

(** ** Validity of an order *)
Section isValid.
Context {SV : Type}.

Definition o_check (o : outcome check) : check :=
  match o with Ok c => c | Throw m => Some m | Crash m => Some m end.

(** OrderEntry::isValid -- src/src/DataModelDef.cpp:290-369
    [None] is [true]; an exception of a lookup is caught and becomes the
    reason. *)
Definition OrderEntry_isValid (o : OrderEntry) (w : t SV) : check :=
  o_check (
    obind (getRawData (o_clOrderId o) w) (λ cl,
    if 0 =? rd_length cl then Ok (Some "Invalid value of the client order Id!")
    else obind (getInstrument (o_instrument o) w) (λ ins,
    match InstrumentEntry_isValid ins with
    | Some r => Ok (Some r)
    | None => obind (getAccount (o_account o) w) (λ acc,
    match AccountEntry_isValid acc with
    | Some r => Ok (Some r)
    | None => obind (getClearing (o_clearing o) w) (λ clr,
    match ClearingEntry_isValid clr with
    | Some r => Ok (Some r)
    | None => Ok (
      if 0 =? o_creationTime o then Some "Invalid value of the creation time!"
      else if 0 =? o_lastUpdateTime o then Some "Invalid value of the lastUpdate time!"
      else if bool_decide (o_status o = INVALID_ORDSTATUS) then
        Some "Invalid value of the order status!"
      else if bool_decide (o_side o = INVALID_SIDE) then Some "Invalid value of the side!"
      else if bool_decide (o_ordType o = INVALID_ORDERTYPE) then
        Some "Invalid value of the order type!"
      else if bool_decide (o_tif o = INVALID_TIF) then Some "Invalid value of the timeInForce!"
      else if bool_decide (o_settlType o = INVALID_SETTLTYPE) then
        Some "Invalid value of the settlement type!"
      else if bool_decide (o_capacity o = INVALID_CAPACITY) then
        Some "Invalid value of the order capacity!"
      else if bool_decide (o_currency o = INVALID_CURRENCY) then
        Some "Invalid value of the order currency!"
      else None)
    end)
    end)
    end))).

(** OrderEntry::isReplaceValid -- src/src/DataModelDef.cpp:371-376 *)
Definition OrderEntry_isReplaceValid (o : OrderEntry) : check := None.
End isValid.

(** ** Histories of the store *)
Section theory.
Context {SV : Type} (sv_save : DataRecord → M SV unit).
Implicit Types (w : t SV).

(** An operation on the store; the entries come with the identifiers of the
    source they are restored from. *)
Inductive Op := OAdd (d : DataRecord) | ORestore (d : DataRecord) | OPush (l e : IdT).

Definition add (d : DataRecord) : M (t SV) IdT :=
  match d with
  | DInstrument e => addInstrument sv_save e
  | DString _ s => addString sv_save s
  | DRawData e => addRawData sv_save e
  | DAccount e => addAccount sv_save e
  | DClearing e => addClearing sv_save e
  | DExecutions l => addExecutions sv_save l
  end.

Definition restore (d : DataRecord) : M (t SV) unit :=
  match d with
  | DInstrument e => restoreInstrument e
  | DString i s => restoreString i s
  | DRawData e => restoreRawData e
  | DAccount e => restoreAccount e
  | DClearing e => restoreClearing e
  | DExecutions l => restoreExecutions l
  end.

Definition run_op (o : Op) w : t SV :=
  match o with
  | OAdd d => (add d w).2
  | ORestore d => (restore d w).2
  | OPush l e => (pushExecution l e w).2
  end.

Definition run_ops (l : list Op) w : t SV := foldl (λ w o, run_op o w) w l.

(** The identifier a restored record brings. *)
Definition record_id (d : DataRecord) : option IdT :=
  match d with
  | DInstrument e => Some (in_id e)
  | DString i _ => Some i
  | DRawData e => Some (rd_id e)
  | DAccount e => Some (ac_id e)
  | DClearing e => Some (cl_id e)
  | DExecutions _ => None
  end.

(** All identifiers in use. *)
Definition used w (i : IdT) : Prop :=
  is_Some (instruments w !! i) ∨ is_Some (strings w !! i) ∨ is_Some (accounts w !! i) ∨
  is_Some (clearings w !! i) ∨ is_Some (rawDatas w !! i) ∨ is_Some (executions w !! i).

(** The counter is above every identifier in use. *)
Definition counted w : Prop := 0 < subscrCounter w ∧ ∀ i, used w i → id_ i < subscrCounter w.

(** The counter has room for one more identifier, and so has a restored one. *)
Definition op_ok (o : Op) w : Prop :=
  subscrCounter w + 1 < 2 ^ 64 ∧
  match o with
  | ORestore d => ∀ i, record_id d = Some i → 0 <= id_ i ∧ id_ i + 1 < 2 ^ 64
  | _ => True
  end.

Fixpoint ops_ok (l : list Op) w : Prop :=
  match l with
  | [] => True
  | o :: l' => op_ok o w ∧ ops_ok l' (run_op o w)
  end.

(** The entry stored under the identifier of an added record. *)
Definition stored w (i : IdT) (d : DataRecord) : Prop :=
  match d with
  | DInstrument e => instruments w !! i =
      Some (mkInstr (in_symbol e) (in_securityId e) (in_securityIdSource e) i)
  | DString _ s => strings w !! i = Some s
  | DRawData e => rawDatas w !! i = Some (mkRaw i (rd_type e) (rd_data e))
  | DAccount e => accounts w !! i = Some (mkAcct (ac_account e) (ac_firm e) i (ac_type e))
  | DClearing e => clearings w !! i = Some (mkClr (cl_firm e) i)
  | DExecutions l => executions w !! i = Some l
  end.

(** The entries other than the growing execution lists. *)
Definition grows w w' : Prop :=
  instruments w ⊆ instruments w' ∧ strings w ⊆ strings w' ∧ accounts w ⊆ accounts w' ∧
  clearings w ⊆ clearings w' ∧ rawDatas w ⊆ rawDatas w' ∧
  (∀ i l, executions w !! i = Some l → ∃ l', executions w' !! i = Some (l ++ l')).

#[global] Instance grows_preorder : PreOrder grows.
Proof.
  split.
  - intros w. repeat split; try done. intros i l ?. exists []. by rewrite app_nil_r.
  - intros w1 w2 w3 (?&?&?&?&?&He1) (?&?&?&?&?&He2). repeat split; try by etrans.
    intros i l (l1 & (l2 & E2)%He2)%He1. exists (l1 ++ l2). by rewrite app_assoc.
Qed.

Lemma saver_save_fields d w : let w' := (saver_save sv_save d w).2 in
  subscrCounter w' = subscrCounter w ∧ instruments w' = instruments w ∧ strings w' = strings w ∧
  accounts w' = accounts w ∧ clearings w' = clearings w ∧ rawDatas w' = rawDatas w ∧
  executions w' = executions w ∧ instrumentsBySymbol w' = instrumentsBySymbol w ∧
  accountsByName w' = accountsByName w.
Proof. unfold saver_save. destruct w as [? ? ? ? ? ? ? ? ? []]; simpl; repeat split; done. Qed.

(** The effect of [add], the saver's outcome aside. *)
Lemma add_fields d w : let w' := (add d w).2 in
  let i := mkIdT (subscrCounter w) (match d with DString _ _ => 0 | _ => 1 end) in
  subscrCounter w' = wrap64 (subscrCounter w + 1) ∧
  instruments w' = match d with DInstrument e => map_insert i
    (mkInstr (in_symbol e) (in_securityId e) (in_securityIdSource e) i) (instruments w)
    | _ => instruments w end ∧
  strings w' = match d with DString _ s => map_insert i s (strings w) | _ => strings w end ∧
  accounts w' = match d with DAccount e => map_insert i
    (mkAcct (ac_account e) (ac_firm e) i (ac_type e)) (accounts w) | _ => accounts w end ∧
  clearings w' = match d with DClearing e => map_insert i (mkClr (cl_firm e) i) (clearings w)
    | _ => clearings w end ∧
  rawDatas w' = match d with DRawData e => map_insert i (mkRaw i (rd_type e) (rd_data e))
    (rawDatas w) | _ => rawDatas w end ∧
  executions w' = match d with DExecutions l => map_insert i l (executions w)
    | _ => executions w end ∧
  (∀ j, (add d w).1 = Ok j → j = i).
Proof.
  destruct w as [c ins strs acc clr raw exe bs bn st].
  destruct d; unfold add, addInstrument, addString, addRawData, addAccount, addClearing,
    addExecutions, fetch_id, modify, bind, ret; lazy beta iota zeta;
    cbn [subscrCounter];
    match goal with |- context [saver_save sv_save ?d' ?w1] =>
      pose proof (saver_save_fields d' w1) as Hf;
      destruct (saver_save sv_save d' w1) as [[[]| |] w2]
    end; cbn [fst snd] in *; lazy zeta in Hf;
    destruct Hf as (-> & -> & -> & -> & -> & -> & -> & _ & _); simpl;
    repeat split; try done; by intros j [= <-].
Qed.

(** A record is inserted into one of the maps under [i]. *)
Definition inserted w w' (i : IdT) : Prop := ∀ j, used w' j ↔ (j = i ∨ used w j).

Lemma add_counted d w : counted w → subscrCounter w + 1 < 2 ^ 64 →
  let i := mkIdT (subscrCounter w) (match d with DString _ _ => 0 | _ => 1 end) in
  counted (add d w).2 ∧ ¬ used w i ∧ stored (add d w).2 i d ∧ grows w (add d w).2.
Proof.
  intros [Hc Hu] Hb. simpl.
  set (i := mkIdT (subscrCounter w) _).
  assert (¬ used w i) as Hfresh by (intros Hi%Hu; simpl in Hi; lia).
  destruct (add_fields d w) as (E1 & E2 & E3 & E4 & E5 & E6 & E7 & _). fold i in E2, E3, E4, E5, E6, E7.
  rewrite wrap64_small in E1 by (unfold is_u64; lia).
  assert (∀ j, used (add d w).2 j → j = i ∨ used w j) as Hused.
  { intros j. unfold used. rewrite E2, E3, E4, E5, E6, E7.
    destruct d; rewrite ?map_insert_is_Some; naive_solver. }
  split; [|split; [done|split]].
  - split; [lia|]. intros j [->|Hj%Hu]%Hused; rewrite E1; simpl; lia.
  - unfold used in Hfresh. unfold stored. destruct d; rewrite ?E2, ?E3, ?E4, ?E5, ?E6, ?E7;
      (rewrite map_insert_lookup by (apply eq_None_not_Some; naive_solver));
      by rewrite lookup_insert_eq.
  - unfold grows. rewrite E2, E3, E4, E5, E6, E7.
    destruct d; repeat split; try apply map_insert_subseteq; try done; intros j l' Hl'; exists [];
      rewrite app_nil_r; [done..|]. eapply lookup_weaken; [exact Hl'|apply map_insert_subseteq].
Qed.

Lemma restore_counted d w : counted w → (∀ i, record_id d = Some i → 0 <= id_ i ∧ id_ i + 1 < 2 ^ 64) →
  counted (restore d w).2 ∧ grows w (restore d w).2.
Proof.
  intros [Hc Hu] Hr. destruct w as [c ins strs acc clr raw exe bs bn st]; simpl in *.
  assert (∀ (i : IdT) w', record_id d = Some i →
    subscrCounter w' = (if c <? wrap64 (id_ i + 1) then wrap64 (id_ i + 1) else c) →
    (∀ j, used w' j → j = i ∨ used (mkWide c ins strs acc clr raw exe bs bn st) j) →
    counted w') as Hcount.
  { intros i w' Hi Ec Hj. destruct (Hr i Hi). rewrite wrap64_small in Ec by (unfold is_u64; lia).
    split; [rewrite Ec; destruct (Z.ltb_spec c (id_ i + 1)); lia|].
    intros j [->|Hj'%Hu]%Hj; rewrite Ec; destruct (Z.ltb_spec c (id_ i + 1)); lia. }
  assert (∀ i l, exe !! i = Some l → ∃ l', exe !! i = Some (l ++ l')) as Hexe.
  { intros i l Hl. exists []. by rewrite app_nil_r. }
  destruct d as [e|i s|e|e|e|l]; simpl;
    (split; [|unfold grows; simpl; repeat split; try apply map_insert_subseteq; try done;
              intros; by apply Hexe]);
    try (eapply Hcount; [reflexivity|reflexivity|];
         intros j; unfold used; simpl; rewrite ?map_insert_is_Some; naive_solver).
  by split.
Qed.

Lemma push_counted l e w : counted w →
  counted (pushExecution l e w).2 ∧ grows w (pushExecution l e w).2.
Proof.
  intros [Hc Hu]. unfold pushExecution. destruct (executions w !! l) as [es|] eqn:El; simpl.
  - destruct w as [c ins strs acc clr raw exe bs bn st]; simpl in *. split.
    + split; [done|]. intros i Hi. apply Hu. unfold used in *; simpl in *.
      rewrite lookup_insert_is_Some in Hi. destruct (decide (l = i)) as [->|]; naive_solver.
    + repeat split; try done. simpl. intros i es' Hes.
      destruct (decide (l = i)) as [->|]; [rewrite lookup_insert_eq|rewrite lookup_insert_ne by done].
      * exists [e]. congruence.
      * exists []. by rewrite app_nil_r.
  - split; [done|reflexivity].
Qed.

Lemma run_op_counted o w : counted w → op_ok o w → counted (run_op o w) ∧ grows w (run_op o w).
Proof.
  intros Hc [Hb Ho]. destruct o as [d|d|l e]; simpl in *.
  - destruct (add_counted d w Hc Hb) as (? & _ & _ & ?). done.
  - by apply restore_counted.
  - by apply push_counted.
Qed.

Lemma run_ops_counted l w : counted w → ops_ok l w → counted (run_ops l w) ∧ grows w (run_ops l w).
Proof.
  revert w. induction l as [|o l IH]; intros w Hc Hok; simpl; [split; [done|reflexivity]|].
  destruct Hok as [Ho Hl]. destruct (run_op_counted o w Hc Ho) as [Hc' Hg].
  destruct (IH _ Hc' Hl) as [? ?]. split; [done|]. by etrans.
Qed.

Lemma create_counted : counted (create (SV := SV)).
Proof.
  split; [done|]. intros i. unfold used, create; simpl. rewrite !lookup_empty.
  intros H. repeat destruct H as [[? [=]]|H]. by destruct H as [? [=]].
Qed.

(** ** Properties *)

(** Identifiers of the reference store are never reused: after any history of
    additions, restores and execution records before the counter wraps, [add]
    takes an identifier no entry has, stores the entry under it with that
    identifier, and every entry stored before keeps its value (execution lists
    only grow). *)
Theorem add_takes_fresh_id l d : ops_ok (l ++ [OAdd d]) create →
  let w := run_ops l create in
  let i := mkIdT (subscrCounter w) (match d with DString _ _ => 0 | _ => 1 end) in
  ¬ used w i ∧ stored (add d w).2 i d ∧ grows w (add d w).2 ∧
  ∀ j, (add d w).1 = Ok j → j = i.
Proof.
  intros Hok w.
  assert (ops_ok l create ∧ op_ok (OAdd d) w) as [Hl [Hb _]].
  { subst w. unfold run_ops. revert Hok. generalize (create (SV := SV)).
    induction l as [|o l IH]; simpl; [naive_solver|]. intros w0 [? H]. apply IH in H. naive_solver. }
  destruct (run_ops_counted l create create_counted Hl) as [Hc _]. fold w in Hc.
  destruct (add_counted d w Hc Hb) as (_ & Hf & Hs & Hg).
  destruct (add_fields d w) as (_ & _ & _ & _ & _ & _ & _ & Hj). done.
Qed.

(** A lazy reference is transparent: once [get] has returned a value, every
    later [get], whatever was added or restored in between, returns that value,
    and so would a fresh lookup; a lookup that failed is retried. *)
Theorem lazy_ref_transparent (dflt : InstrumentEntry) id w l : counted w → ops_ok l w →
  let r := ref_get getInstrument (ref_make dflt id) w in
  let w' := run_ops l w in
  match r.1 with
  | Ok v => (ref_get getInstrument r.2 w').1 = Ok v ∧ getInstrument id w' = Ok v
  | _ => (ref_get getInstrument r.2 w').1 = getInstrument id w'
  end.
Proof.
  intros Hc Hl. destruct (run_ops_counted l w Hc Hl) as [_ (Hi & _)].
  unfold ref_get, ref_make, getInstrument. simpl.
  destruct (instruments w !! id) as [v|] eqn:E; simpl.
  - split; [done|]. by rewrite (lookup_weaken _ _ _ _ E Hi).
  - by destruct (instruments (run_ops l w) !! id).
Qed.

(** [OrderEntry::isValid] accepts an order exactly when its client order id,
    instrument, account and clearing entries exist and are valid and none of its
    mandatory fields has its invalid value; a missing entry is reported with the
    message of the failed lookup. *)
Theorem OrderEntry_isValid_spec o w :
  (OrderEntry_isValid o w = None ↔
    (∃ cl, rawDatas w !! o_clOrderId o = Some cl ∧ rd_data cl ≠ []) ∧
    (∃ e, instruments w !! o_instrument o = Some e ∧ InstrumentEntry_isValid e = None) ∧
    (∃ e, accounts w !! o_account o = Some e ∧ AccountEntry_isValid e = None) ∧
    (∃ e, clearings w !! o_clearing o = Some e ∧ ClearingEntry_isValid e = None) ∧
    o_creationTime o ≠ 0 ∧ o_lastUpdateTime o ≠ 0 ∧ o_status o ≠ INVALID_ORDSTATUS ∧
    o_side o ≠ INVALID_SIDE ∧ o_ordType o ≠ INVALID_ORDERTYPE ∧ o_tif o ≠ INVALID_TIF ∧
    o_settlType o ≠ INVALID_SETTLTYPE ∧ o_capacity o ≠ INVALID_CAPACITY ∧
    o_currency o ≠ INVALID_CURRENCY) ∧
  (rawDatas w !! o_clOrderId o = None → OrderEntry_isValid o w =
     Some "WideParamsDataStorage::get(RawDataEntry): rawData not found!").
Proof.
  unfold OrderEntry_isValid, getRawData, getInstrument, getAccount, getClearing.
  split; [|by intros ->].
  destruct (rawDatas w !! o_clOrderId o) as [cl|]; cbn [obind o_check]; [|naive_solver].
  assert ((0 =? rd_length cl) = bool_decide (rd_data cl = [])) as ->.
  { unfold rd_length. by destruct (rd_data cl). }
  case_bool_decide; cbn [obind o_check]; [naive_solver|].
  destruct (instruments w !! o_instrument o) as [ins|]; cbn [obind o_check]; [|naive_solver].
  destruct (InstrumentEntry_isValid ins) eqn:Ei; cbn [obind o_check]; [naive_solver|].
  destruct (accounts w !! o_account o) as [acc|]; cbn [obind o_check]; [|naive_solver].
  destruct (AccountEntry_isValid acc) eqn:Ea; cbn [obind o_check]; [naive_solver|].
  destruct (clearings w !! o_clearing o) as [clr|]; cbn [obind o_check]; [|naive_solver].
  destruct (ClearingEntry_isValid clr) eqn:Ec; cbn [obind o_check]; [naive_solver|].
  destruct (Z.eqb_spec 0 (o_creationTime o)); [naive_solver|].
  destruct (Z.eqb_spec 0 (o_lastUpdateTime o)); [naive_solver|].
  repeat (case_bool_decide; [naive_solver|]). naive_solver.
Qed.
End theory.

(** ** Witnesses *)

Definition ex_save : DataRecord → M unit unit := λ _, ret tt.
Definition ex_instr : InstrumentEntry := mkInstr "AAPL" "US0378331005" "ISIN" (mkIdT 41 1).
Definition ex_ops : list Op :=
  [OAdd (DString IdT0 "dest"); ORestore (DInstrument ex_instr); OAdd (DExecutions []);
   OPush (mkIdT 42 1) (mkIdT 9 9)].

Lemma ex_refs_ok d : ops_ok ex_save (ex_ops ++ [OAdd d]) create.
Proof.
  split; [split; [simpl; lia|done]|].
  split; [split; [vm_compute; done|intros i [= <-]; simpl; lia]|].
  split; [split; [vm_compute; done|done]|].
  split; [split; [vm_compute; done|done]|].
  split; [split; [vm_compute; done|done]|]. done.
Qed.

Lemma ex_refs_ok0 : ops_ok ex_save ex_ops create.
Proof. destruct (ex_refs_ok (DExecutions [])) as (? & ? & ? & ? & _). done. Qed.

Lemma add_takes_fresh_id_witness :
  subscrCounter (run_ops ex_save ex_ops create) = 43 ∧
  stored (add ex_save (DClearing (mkClr "X" IdT0)) (run_ops ex_save ex_ops create)).2 (mkIdT 43 1)
    (DClearing (mkClr "X" IdT0)).
Proof.
  split; [reflexivity|].
  exact (proj1 (proj2 (add_takes_fresh_id ex_save ex_ops (DClearing (mkClr "X" IdT0)) (ex_refs_ok _)))).
Defined.

Lemma lazy_ref_transparent_witness :
  (ref_get getInstrument (ref_get getInstrument (ref_make ex_instr (mkIdT 41 1))
     (run_ops ex_save ex_ops create)).2
     (run_ops ex_save [OAdd (DInstrument ex_instr)] (run_ops ex_save ex_ops create))).1 = Ok ex_instr.
Proof.
  refine (proj1 (lazy_ref_transparent ex_save ex_instr (mkIdT 41 1) (run_ops ex_save ex_ops create)
    [OAdd (DInstrument ex_instr)] _ _)).
  - exact (proj1 (run_ops_counted ex_save ex_ops create create_counted
      ex_refs_ok0)).
  - split; [split; [vm_compute; reflexivity|exact I]|exact I].
Defined.

End WideData.
