(* ===== verification/OrderStore.v ===== *)
(** The order and execution store of [src/src/OrderStorage.cpp]: two indexes over
    the same heap of orders. *)

From Stdlib Require Import Ascii String ZArith Lia.
From S2P Require Import Prelude Types IdGen.

(** ** The order of the client order identifiers

    [std::map<RawDataEntry, OrderEntry *>] compares with [operator<]; two entries
    are the same key when neither is less than the other. *)

#[global] Instance RawDataType_countable : Countable RawDataType.
Proof.
  refine (inj_countable (λ x, enum_code x) (λ z, enum_of_code z) _).
  intros x. apply enum_of_code_code.
Defined.

Definition raw_key (r : RawDataEntry) : RawDataType * list ascii := (rd_type r, rd_data r).

Definition byte_val (a : ascii) : Z := Z.of_N (N_of_ascii a).

Lemma byte_val_inj a b : byte_val a = byte_val b → a = b.
Proof.
  unfold byte_val. intros H%N2Z.inj.
  by rewrite <- (ascii_N_embedding a), <- (ascii_N_embedding b), H.
Qed.

(** The comparison [memcmp] makes, as a relation: first difference smaller. *)
Fixpoint lex (a b : list ascii) : Prop :=
  match a, b with
  | x :: a', y :: b' => byte_val x < byte_val y ∨ (x = y ∧ lex a' b')
  | _, _ => False
  end.

Lemma memcmp_spec a b : length a = length b →
  (0 < memcmp a b ↔ lex b a) ∧ (memcmp a b = 0 ↔ a = b).
Proof.
  revert b. induction a as [|x a IH]; intros [|y b] Hl; simpl in *; try done.
  fold (byte_val x) (byte_val y). destruct (Z.eqb_spec (byte_val x) (byte_val y)) as [E|E].
  - apply byte_val_inj in E as ->. destruct (IH b) as [IH1 IH2]; [lia|].
    rewrite IH1, IH2. split; [split; [by auto|intros [?|[_ ?]]; [lia|done]]|].
    split; [by intros ->|by intros [= ->]].
  - split; [split; [left; lia|intros [?|[-> _]]; [lia|done]]|].
    split; [lia|]. intros [= -> _]. done.
Qed.

Lemma lex_trans a b c : lex a b → lex b c → lex a c.
Proof.
  revert b c. induction a as [|x a IH]; intros [|y b] [|z c]; simpl; try done.
  intros [?|[-> ?]] [?|[<- ?]]; [left; lia|by left|by left|right; split; [done|by eapply IH]].
Qed.

Lemma lex_total a b : length a = length b → a = b ∨ lex a b ∨ lex b a.
Proof.
  revert b. induction a as [|x a IH]; intros [|y b] Hl; simpl in *; try done; [auto|].
  destruct (Z.lt_trichotomy (byte_val x) (byte_val y)) as [?|[E|?]]; [auto| |auto].
  apply byte_val_inj in E as ->. destruct (IH b) as [->|[?|?]]; [lia|auto..].
Qed.

(** [operator<] as a relation on keys: by type, then length, then the bytes in
    reverse lexicographic order. *)
Definition key_lt (k1 k2 : RawDataType * list ascii) : Prop :=
  enum_code k1.1 < enum_code k2.1 ∨
  (k1.1 = k2.1 ∧ ((length k1.2 < length k2.2)%nat ∨
    (length k1.2 = length k2.2 ∧ lex k2.2 k1.2))).

Lemma enum_code_inj `{Enum A} (x y : A) : enum_code x = enum_code y → x = y.
Proof.
  intros H'. assert (Some x = Some y) as [= ->]; [|done].
  by rewrite <- (enum_of_code_code x), <- (enum_of_code_code y), H'.
Qed.

Lemma RawDataEntry_ltb_spec l r : RawDataEntry_ltb l r = true ↔ key_lt (raw_key l) (raw_key r).
Proof.
  unfold RawDataEntry_ltb, key_lt, raw_key; simpl. case_bool_decide as Et.
  - rewrite Et. unfold rd_length.
    destruct (Z.eqb_spec (Z.of_nat (length (rd_data l))) (Z.of_nat (length (rd_data r)))).
    + destruct (memcmp_spec (rd_data l) (rd_data r)) as [H1 _]; [lia|].
      rewrite Z.ltb_lt, H1. split; [intros; right; split; [done|right; split; [lia|done]]|].
      intros [?|[_ [?|[_ ?]]]]; [lia|lia|done].
    + rewrite Z.ltb_lt. split; [intros; right; split; [done|left; lia]|].
      intros [?|[_ [?|[? _]]]]; lia.
  - rewrite Z.ltb_lt. split; [auto|]. intros [?|[? _]]; [done|done].
Qed.

(** The [operator<] the client-order-id index is built on is a strict total
    order on (type, bytes), so two identifiers are the same key exactly when they
    have the same type and the same bytes, whatever their reference id. *)
Theorem RawDataEntry_order_total l r x :
  RawDataEntry_ltb l l = false ∧
  (RawDataEntry_ltb l r = true → RawDataEntry_ltb r x = true → RawDataEntry_ltb l x = true) ∧
  (RawDataEntry_ltb l r = false ∧ RawDataEntry_ltb r l = false ↔ raw_key l = raw_key r).
Proof.
  assert (∀ a : list ascii, ¬ lex a a) as Hirr.
  { intros a. induction a as [|y a IH]; simpl; [by intros []|]. intros [?|[_ ?]]; [lia|done]. }
  assert (∀ k, ¬ key_lt k k) as Hk.
  { intros k [?|[_ [?|[_ ?]]]]; [lia|lia|by eapply Hirr]. }
  split; [apply not_true_iff_false; rewrite RawDataEntry_ltb_spec; apply Hk|]. split.
  - rewrite !RawDataEntry_ltb_spec. unfold key_lt.
    intros [H1|[E1 [H1|[L1 H1]]]] [H2|[E2 [H2|[L2 H2]]]];
      rewrite ?E1, <- ?E2 in *; try (left; lia); right; (split; [congruence|]).
    + left; lia. + left; lia. + left; lia. + right. split; [lia|]. by eapply lex_trans.
  - rewrite <- !not_true_iff_false, !RawDataEntry_ltb_spec. split.
    + intros [H1 H2]. unfold key_lt in *. destruct (raw_key l) as [t1 d1], (raw_key r) as [t2 d2]; simpl in *.
      destruct (Z.lt_trichotomy (enum_code t1) (enum_code t2)) as [?|[Et|?]]; [by destruct H1; left| |by destruct H2; left].
      apply enum_code_inj in Et as ->.
      destruct (Nat.lt_trichotomy (length d1) (length d2)) as [?|[El|?]];
        [by destruct H1; right; auto| |by destruct H2; right; auto].
      destruct (lex_total d1 d2 El) as [->|[?|?]]; [done|by destruct H2; right; auto|by destruct H1; right; auto].
    + intros ->. auto.
Qed.

Module OrderStore.

(** An [OrderEntry*]: a cell of the heap. *)
Abbreviation loc := nat.
Abbreviation Key := (RawDataType * list ascii)%type.

(** class OrderDataStorage -- src/src/OrderStorage.h:31-88
    [heap] holds the orders the pointers refer to; [SV] is the state of the
    attached [OrderSaver]. *)
Record t (SV : Type) := mkStore {
  heap : gmap loc OrderEntry; nextLoc : loc;
  ordersById : gmap IdT loc; ordersByClId : gmap Key loc;
  executionsById : gmap IdT ExecutionEntry; saver : option SV }.
Arguments mkStore {SV} _ _ _ _ _ _.
Arguments heap {SV} _.
Arguments nextLoc {SV} _.
Arguments ordersById {SV} _.
Arguments ordersByClId {SV} _.
Arguments executionsById {SV} _.
Arguments saver {SV} _.

(** [sv_save] is the attached saver; [getRaw] is [clOrderId_.get()]. *)
Section ops.
Context {SV : Type} (sv_save : OrderEntry → M SV unit) (getRaw : IdT → outcome RawDataEntry).
Implicit Types (s : t SV).

(** The store together with the identifier generator it draws from. *)
Abbreviation ST := (t SV * IdTGenerator.t)%type.

(** OrderDataStorage::OrderDataStorage -- src/src/OrderStorage.cpp:23-26 *)
Definition create : t SV := mkStore ∅ 0%nat ∅ ∅ ∅ None.

(** OrderDataStorage::attach -- src/src/OrderStorage.cpp:28-32 *)
Definition attach (sv : SV) : M (t SV) unit := λ s,
  match saver s with
  | Some _ => (Crash "assert", s)
  | None => (Ok tt, mkStore (heap s) (nextLoc s) (ordersById s) (ordersByClId s)
                      (executionsById s) (Some sv))
  end.

(** OrderDataStorage::locateByClOrderId -- src/src/OrderStorage.cpp:65-75 *)
Definition locateByClOrderId (clOrderId : RawDataEntry) s : option loc :=
  ordersByClId s !! raw_key clOrderId.

(** OrderDataStorage::locateByOrderId -- src/src/OrderStorage.cpp:77-87 *)
Definition locateByOrderId (orderId : IdT) s : option loc := ordersById s !! orderId.

(** The order a located pointer refers to. *)
Definition order_at (orderId : IdT) s : option OrderEntry :=
  locateByOrderId orderId s ≫= λ l, heap s !! l.

(** [new] of an order. *)
Definition alloc (o : OrderEntry) s : loc * t SV :=
  (nextLoc s, mkStore (<[nextLoc s := o]> (heap s)) (S (nextLoc s)) (ordersById s)
                (ordersByClId s) (executionsById s) (saver s)).

(** Both inserts under one write lock. *)
Definition index (l : loc) (id : IdT) (k : Key) s : t SV :=
  mkStore (heap s) (nextLoc s) (map_insert id l (ordersById s)) (map_insert k l (ordersByClId s))
    (executionsById s) (saver s).

(** [if (nullptr != saver_) saver_->save(order)] *)
Definition saver_save (o : OrderEntry) : M ST unit := λ st,
  match saver st.1 with
  | None => (Ok tt, st)
  | Some v => let r := sv_save o v in
      (r.1, (mkStore (heap st.1) (nextLoc st.1) (ordersById st.1) (ordersByClId st.1)
               (executionsById st.1) (Some r.2), st.2))
  end.

Definition lift {A} (o : outcome A) : M ST A := λ st, (o, st).

Definition newId (now : Z) : M ST IdT := λ st,
  let r := IdTGenerator.getId now st.2 in (Ok r.1, (st.1, r.2)).

(** OrderDataStorage::save(OrderEntry) -- src/src/OrderStorage.cpp:89-149
    Allocation failures (the [catch] block) are not modelled. *)
Definition save (o : OrderEntry) (now : Z) : M ST loc :=
  s <- gets fst ;;
  if isValidId (o_orderId o) && bool_decide (is_Some (ordersById s !! o_orderId o)) then
    throw "Unable to save order - order with same OrderId already exists."
  else
    r <- lift (getRaw (o_clOrderId o)) ;;
    if 0 =? rd_length r then throw "Unable to save order - order contains empty ClOrderId."
    else if bool_decide (is_Some (ordersByClId s !! raw_key r)) then
      throw "Unable to save order - order with same ClOrderId already exists."
    else
      id <- (if isValidId (o_orderId o) then ret (o_orderId o) else newId now) ;;
      let cp := set_orderId id (OrderEntry_clone o) in
      let a := alloc cp s in
      modify (λ st, (index a.1 id (raw_key r) a.2, st.2)) ;;;
      saver_save cp ;;;
      ret a.1.

(** OrderDataStorage::restore(OrderEntry) -- src/src/OrderStorage.cpp:151-202
    The order is not copied: the store takes over the pointer [l]. *)
Definition restore (l : loc) : M ST unit :=
  s <- gets fst ;;
  match heap s !! l with
  | None => crash "dangling order pointer"
  | Some o =>
      if isValidId (o_orderId o) && bool_decide (is_Some (ordersById s !! o_orderId o)) then
        throw "Unable to restore order - order with same OrderId already exists."
      else
        r <- lift (getRaw (o_clOrderId o)) ;;
        if 0 =? rd_length r then throw "Unable to restore order - order contains empty ClOrderId."
        else if bool_decide (is_Some (ordersByClId s !! raw_key r)) then
          throw "Unable to restore order - order with same ClOrderId already exists."
        else
          modify (λ st, (index l (o_orderId o) (raw_key r) s, st.2)) ;;;
          saver_save o
  end.

(** OrderDataStorage::locateByExecId -- src/src/OrderStorage.cpp:208-217 *)
Definition locateByExecId (execId : IdT) s : option ExecutionEntry := executionsById s !! execId.

Definition put_exec (i : IdT) (e : ExecutionEntry) s : t SV :=
  mkStore (heap s) (nextLoc s) (ordersById s) (ordersByClId s) (<[i := e]> (executionsById s))
    (saver s).

(** OrderDataStorage::save(const ExecutionEntry pointer) -- src/src/OrderStorage.cpp:219-234 *)
Definition saveExecPtr (e : ExecutionEntry) : M ST unit := λ st,
  match executionsById st.1 !! ex_execId e with
  | Some _ =>
      (Throw "Unable to save execution - execution with same ExecId already exists.", st)
  | None => (Ok tt, (put_exec (ex_execId e) (ExecutionEntry_clone e) st.1, st.2))
  end.

(** OrderDataStorage::save(ExecutionEntry, generator) -- src/src/OrderStorage.cpp:236-260
    Returns the stored copy. *)
Definition saveExec (e : ExecutionEntry) (now : Z) : M ST ExecutionEntry :=
  let cp := ExecutionEntry_clone e in
  id <- (if isValidId (ex_execId cp) then ret (ex_execId cp) else newId now) ;;
  s <- gets fst ;;
  match executionsById s !! id with
  | Some _ => throw "Unable to save execution - execution with same ExecId already exists."
  | None =>
      modify (λ st, (put_exec id (set_execId id cp) st.1, st.2)) ;;; ret (set_execId id cp)
  end.
End ops.

Section theory.
Context {SV : Type} (sv_save : OrderEntry → M SV unit) (getRaw : IdT → outcome RawDataEntry).
Implicit Types (s : t SV).

(** Both indexes hold the same orders, each under its own identifiers, and the
    generator is above all of them. *)
Record wf s (c : Z) : Prop := {
  wf_byId id l : ordersById s !! id = Some l → ∃ o r, heap s !! l = Some o ∧ o_orderId o = id ∧
    getRaw (o_clOrderId o) = Ok r ∧ rd_data r ≠ [] ∧ ordersByClId s !! raw_key r = Some l;
  wf_byClId k l : ordersByClId s !! k = Some l → ∃ o r, heap s !! l = Some o ∧
    ordersById s !! o_orderId o = Some l ∧ getRaw (o_clOrderId o) = Ok r ∧ raw_key r = k;
  wf_heap l : is_Some (heap s !! l) → (l < nextLoc s)%nat;
  wf_counter id : is_Some (ordersById s !! id) → id_ id < c;
  wf_pos : 0 < c;
}.

Lemma wf_create c : 0 < c → wf create c.
Proof.
  intros Hc. split; simpl; try done; intros *; rewrite ?lookup_empty; try done; by intros [? [=]].
Qed.

Lemma saver_save_indexes o (st : t SV * IdTGenerator.t) : let st' := (saver_save sv_save o st).2 in
  heap st'.1 = heap st.1 ∧ nextLoc st'.1 = nextLoc st.1 ∧ ordersById st'.1 = ordersById st.1 ∧
  ordersByClId st'.1 = ordersByClId st.1 ∧ executionsById st'.1 = executionsById st.1 ∧
  st'.2 = st.2.
Proof. unfold saver_save. destruct (saver st.1); simpl; repeat split; done. Qed.

Lemma wf_ext s s' c : heap s' = heap s → nextLoc s' = nextLoc s → ordersById s' = ordersById s →
  ordersByClId s' = ordersByClId s → wf s c → wf s' c.
Proof. intros E1 E2 E3 E4 [? ? ? ? ?]. split; rewrite ?E1, ?E2, ?E3, ?E4; auto. Qed.

Lemma wf_mono s c c' : c <= c' → wf s c → wf s c'.
Proof. intros Hc [? ? ? Hi ?]. split; auto; [|lia]. intros id Hid%Hi. lia. Qed.

(** Storing a new order under fresh identifiers. *)
Lemma index_wf s c o r : wf s c → ordersById s !! o_orderId o = None →
  getRaw (o_clOrderId o) = Ok r → rd_data r ≠ [] → ordersByClId s !! raw_key r = None →
  id_ (o_orderId o) < c →
  let a := alloc o s in
  wf (index a.1 (o_orderId o) (raw_key r) a.2) c.
Proof.
  intros Hw Hid Hr Hne Hk Hc. simpl. unfold index; simpl.
  rewrite !map_insert_lookup by done.
  assert (heap s !! nextLoc s = None) as Hfresh.
  { apply eq_None_not_Some. intros Hl%(wf_heap _ _ Hw). lia. }
  assert (∀ l x, heap s !! l = Some x → <[nextLoc s := o]> (heap s) !! l = Some x) as Hold.
  { intros l x Hl. rewrite lookup_insert_ne; [done|]. intros <-. congruence. }
  split; simpl.
  - intros id l. destruct (decide (o_orderId o = id)) as [<-|Hne'].
    + rewrite lookup_insert_eq. intros [= <-]. exists o, r. by rewrite !lookup_insert_eq.
    + rewrite lookup_insert_ne by done. intros Hl.
      destruct (wf_byId _ _ Hw id l Hl) as (x & rx & Hx & ? & ? & ? & ?). exists x, rx.
      rewrite (Hold l x Hx). repeat split; try done. rewrite lookup_insert_ne; [done|].
      intros E. rewrite E in Hk. congruence.
  - intros k l. destruct (decide (raw_key r = k)) as [<-|Hne'].
    + rewrite lookup_insert_eq. intros [= <-]. exists o, r. by rewrite !lookup_insert_eq.
    + rewrite lookup_insert_ne by done. intros Hl.
      destruct (wf_byClId _ _ Hw k l Hl) as (x & rx & Hx & Hxl & ? & ?). exists x, rx.
      rewrite (Hold l x Hx). repeat split; try done. rewrite lookup_insert_ne; [done|].
      intros E. rewrite <- E in Hxl. congruence.
  - intros l. rewrite lookup_insert_is_Some. intros [<-|[_ Hl%(wf_heap _ _ Hw)]]; lia.
  - intros id. rewrite lookup_insert_is_Some. intros [<-|[_ Hi%(wf_counter _ _ Hw)]]; [done|lia].
  - apply Hw.
Qed.

(** What [save] stores: the clone under the identifier it keeps or draws. *)
Definition saved (o : OrderEntry) (now c : Z) : OrderEntry :=
  set_orderId (if isValidId (o_orderId o) then o_orderId o else (IdTGenerator.getId now c).1)
    (OrderEntry_clone o).

(** The store after the two inserts, before the saver is called. *)
Definition indexed (o : OrderEntry) (now c : Z) (r : RawDataEntry) s : t SV * IdTGenerator.t :=
  let a := alloc (saved o now c) s in
  (index a.1 (o_orderId (saved o now c)) (raw_key r) a.2,
   if isValidId (o_orderId o) then c else (IdTGenerator.getId now c).2).

Lemma o_orderId_set i o : o_orderId (set_orderId i o) = i.
Proof. by destruct o. Qed.

Lemma save_run s c o now :
  save sv_save getRaw o now (s, c) =
  if isValidId (o_orderId o) && bool_decide (is_Some (ordersById s !! o_orderId o)) then
    (Throw "Unable to save order - order with same OrderId already exists.", (s, c))
  else match getRaw (o_clOrderId o) with
  | Ok r =>
      if 0 =? rd_length r then
        (Throw "Unable to save order - order contains empty ClOrderId.", (s, c))
      else if bool_decide (is_Some (ordersByClId s !! raw_key r)) then
        (Throw "Unable to save order - order with same ClOrderId already exists.", (s, c))
      else (saver_save sv_save (saved o now c) ;;; ret (nextLoc s)) (indexed o now c r s)
  | Throw m => (Throw m, (s, c))
  | Crash w => (Crash w, (s, c))
  end.
Proof.
  unfold save, bind, gets, lift, throw, modify, ret, newId. cbn [fst snd].
  destruct (isValidId (o_orderId o) && _); [done|].
  destruct (getRaw (o_clOrderId o)) as [r|m|w]; [|done..].
  destruct (0 =? rd_length r); [done|].
  destruct (bool_decide (is_Some (ordersByClId s !! raw_key r))); [done|].
  unfold indexed, saved. rewrite o_orderId_set. by destruct (isValidId (o_orderId o)).
Qed.

(** The identifiers of saved orders are drawn from the generator or below it. *)
Definition id_ok (o : OrderEntry) (c : Z) : Prop :=
  isValidId (o_orderId o) = true → id_ (o_orderId o) < c.

Lemma saved_id o now c : o_orderId (saved o now c) =
  if isValidId (o_orderId o) then o_orderId o else mkIdT c (wrap32 now).
Proof. unfold saved. by destruct o; simpl; destruct (isValidId _). Qed.

Lemma saved_cl o now c : o_clOrderId (saved o now c) = o_clOrderId o.
Proof. unfold saved. by destruct o. Qed.

Lemma indexed_wf s c o now r : wf s c → c + 1 < 2 ^ 64 → id_ok o c →
  isValidId (o_orderId o) && bool_decide (is_Some (ordersById s !! o_orderId o)) = false →
  getRaw (o_clOrderId o) = Ok r → (0 =? rd_length r) = false → ordersByClId s !! raw_key r = None →
  let st := indexed o now c r s in
  wf st.1 st.2 ∧ ordersById s !! o_orderId (saved o now c) = None.
Proof.
  intros Hw Hc Hok Hdup Hr Hlen Hk. unfold indexed. simpl.
  assert (ordersById s !! o_orderId (saved o now c) = None) as Hfresh.
  { rewrite saved_id. destruct (isValidId (o_orderId o)); simpl in Hdup.
    - apply bool_decide_eq_false in Hdup. by apply eq_None_not_Some.
    - apply eq_None_not_Some. intros Hi%(wf_counter _ _ Hw). simpl in Hi. lia. }
  split; [|done].
  assert (wf s (if isValidId (o_orderId o) then c else wrap64 (c + 1))) as Hw'.
  { pose proof (wf_pos _ _ Hw). destruct (isValidId _); [done|].
    rewrite wrap64_small by (unfold is_u64; lia). eapply wf_mono; [|exact Hw]. lia. }
  apply index_wf; try done.
  - by rewrite saved_cl.
  - unfold rd_length in Hlen. destruct (rd_data r); simpl in Hlen; done.
  - rewrite saved_id. pose proof (wf_pos _ _ Hw). unfold id_ok in Hok.
    destruct (isValidId _); [by apply Hok|]. simpl. rewrite wrap64_small by (unfold is_u64; lia). lia.
Qed.

(** The lookups of any store that holds what [indexed] put there. *)
Lemma indexed_lookups s c o now r s' : wf s c →
  ordersById s !! o_orderId (saved o now c) = None → ordersByClId s !! raw_key r = None →
  heap s' = heap (indexed o now c r s).1 → ordersById s' = ordersById (indexed o now c r s).1 →
  ordersByClId s' = ordersByClId (indexed o now c r s).1 →
  order_at (o_orderId (saved o now c)) s' = Some (saved o now c) ∧
  locateByOrderId (o_orderId (saved o now c)) s' = Some (nextLoc s) ∧
  locateByClOrderId r s' = Some (nextLoc s) ∧
  (∀ id x, order_at id s = Some x → order_at id s' = Some x).
Proof.
  intros Hw Hid Hk E1 E2 E3. unfold order_at, locateByOrderId, locateByClOrderId.
  rewrite E1, E2, E3. unfold indexed; simpl. rewrite !map_insert_lookup, !lookup_insert_eq by done.
  cbn [mbind option_bind]. rewrite lookup_insert_eq. repeat split. intros id x Hx.
  destruct (ordersById s !! id) as [l|] eqn:El; simpl in Hx; [|done].
  rewrite lookup_insert_ne by (intros E; rewrite E in Hid; congruence). rewrite El. simpl.
  rewrite lookup_insert_ne; [done|]. intros <-.
  assert (nextLoc s < nextLoc s)%nat; [|lia]. by apply (wf_heap _ _ Hw).
Qed.

Lemma save_wf s c o now : wf s c → c + 1 < 2 ^ 64 → id_ok o c →
  let st := (save sv_save getRaw o now (s, c)).2 in wf st.1 st.2 ∧ c <= st.2 <= c + 1.
Proof.
  intros Hw Hc Hok. rewrite save_run. destruct (isValidId _ && _) eqn:Hdup; [split; [done|simpl; lia]|].
  destruct (getRaw (o_clOrderId o)) as [r|m|w] eqn:Hr; [|split; [done|simpl; lia]..].
  destruct (0 =? rd_length r) eqn:Hlen; [split; [done|simpl; lia]|].
  destruct (bool_decide (is_Some (ordersByClId s !! raw_key r))) eqn:Hk; [split; [done|simpl; lia]|].
  apply bool_decide_eq_false, eq_None_not_Some in Hk.
  destruct (indexed_wf s c o now r) as [Hw' _]; try done.
  assert ((indexed o now c r s).2 = c ∨ (indexed o now c r s).2 = c + 1) as Hgen.
  { unfold indexed. simpl. pose proof (wf_pos _ _ Hw).
    destruct (isValidId _); [by left|right]. apply wrap64_small. unfold is_u64. lia. }
  unfold bind, ret. pose proof (saver_save_indexes (saved o now c) (indexed o now c r s)) as Hs.
  destruct (saver_save sv_save (saved o now c) (indexed o now c r s)) as [[[]| |] st'];
    cbn [snd] in *; destruct Hs as (E1 & E2 & E3 & E4 & _ & E6);
    (split; [rewrite E6; by apply (wf_ext (indexed o now c r s).1)|rewrite E6; lia]).
Qed.

(** A save that returns: the clone is at the returned location, both indexes
    lead there, and the other locations are as before. *)
(** What a successful [save] changes of the indexes. *)
Lemma save_frame s c o now l st : save sv_save getRaw o now (s, c) = (Ok l, st) →
  ordersById st.1 = map_insert (o_orderId (saved o now c)) l (ordersById s) ∧
  executionsById st.1 = executionsById s ∧
  st.2 = if isValidId (o_orderId o) then c else wrap64 (c + 1).
Proof.
  rewrite save_run. destruct (isValidId _ && _); [done|]. destruct (getRaw (o_clOrderId o)) as [r|m|w]; [|done..].
  destruct (0 =? rd_length r); [done|]. destruct (bool_decide _); [done|].
  unfold bind, ret. pose proof (saver_save_indexes (saved o now c) (indexed o now c r s)) as Hs.
  destruct (saver_save sv_save (saved o now c) (indexed o now c r s)) as [[[]| |] st']; simpl in *; [|done..].
  destruct Hs as (_ & _ & E3 & _ & E5 & E6). intros [= <- <-]. by rewrite E3, E5, E6.
Qed.

Lemma save_returns s c o now l st : wf s c → c + 1 < 2 ^ 64 → id_ok o c →
  save sv_save getRaw o now (s, c) = (Ok l, st) →
  heap s !! l = None ∧ heap st.1 = <[l := saved o now c]> (heap s) ∧
  locateByOrderId (o_orderId (saved o now c)) st.1 = Some l.
Proof.
  intros Hw Hc Hok. rewrite save_run. destruct (isValidId _ && _) eqn:Hdup; [done|].
  destruct (getRaw (o_clOrderId o)) as [r|m|w] eqn:Hr; [|done..].
  destruct (0 =? rd_length r) eqn:Hlen; [done|].
  destruct (bool_decide (is_Some (ordersByClId s !! raw_key r))) eqn:Hk; [done|].
  apply bool_decide_eq_false, eq_None_not_Some in Hk.
  destruct (indexed_wf s c o now r) as [_ Hfresh]; try done.
  unfold bind, ret. pose proof (saver_save_indexes (saved o now c) (indexed o now c r s)) as Hs.
  destruct (saver_save sv_save (saved o now c) (indexed o now c r s)) as [[[]| |] st'];
    simpl in *; [|done..]. destruct Hs as (E1 & _ & E3 & E4 & _). intros [= <- <-].
  split; [|split].
  - apply eq_None_not_Some. intros Hl%(wf_heap _ _ Hw). lia.
  - by rewrite E1.
  - by refine (proj1 (proj2 (indexed_lookups s c o now r _ Hw Hfresh Hk E1 E3 E4))).
Qed.

(** ** Properties *)

(** C24: [save] of an order keeps the two indexes consistent (each stored order is
    found under its identifier and under its client order id, and nothing else
    is), rejects a duplicate identifier, an empty or a duplicate client order id
    leaving the store unchanged, and on success both lookups return the stored
    clone while every other order keeps its place; an exception of the saver
    leaves the order stored. *)
Theorem save_keeps_indexes s c o now : wf s c → c + 1 < 2 ^ 64 → id_ok o c →
  let r := save sv_save getRaw o now (s, c) in
  wf r.2.1 r.2.2 ∧
  match r.1 with
  | Ok l => ∃ raw, getRaw (o_clOrderId o) = Ok raw ∧
      order_at (o_orderId (saved o now c)) r.2.1 = Some (saved o now c) ∧
      locateByOrderId (o_orderId (saved o now c)) r.2.1 = Some l ∧
      locateByClOrderId raw r.2.1 = Some l ∧
      (∀ id x, order_at id s = Some x → order_at id r.2.1 = Some x)
  | Throw m => r.2 = (s, c) ∨
      ∃ sv, saver s = Some sv ∧ (sv_save (saved o now c) sv).1 = Throw m ∧
        order_at (o_orderId (saved o now c)) r.2.1 = Some (saved o now c)
  | Crash _ => True
  end.
Proof.
  intros Hw Hc Hok r. split; [by apply save_wf|]. subst r. rewrite save_run.
  destruct (isValidId _ && _) eqn:Hdup; [by left|].
  destruct (getRaw (o_clOrderId o)) as [r|m|w] eqn:Hr; [|by left|done].
  destruct (0 =? rd_length r) eqn:Hlen; [by left|].
  destruct (bool_decide (is_Some (ordersByClId s !! raw_key r))) eqn:Hk; [by left|].
  apply bool_decide_eq_false, eq_None_not_Some in Hk.
  destruct (indexed_wf s c o now r) as [Hw' Hfresh]; try done.
  unfold bind, ret. pose proof (saver_save_indexes (saved o now c) (indexed o now c r s)) as Hs.
  unfold saver_save in *. destruct (saver (indexed o now c r s).1) as [sv|] eqn:Esv; simpl in *.
  - destruct (sv_save (saved o now c) sv) as [[[]|m|w] sv'] eqn:Es; simpl; [| |done].
    + exists r. split; [done|]. by apply indexed_lookups.
    + right. exists sv. rewrite Es. split; [done|]. split; [done|]. 
      by refine (proj1 (indexed_lookups s c o now r _ Hw Hfresh Hk _ _ _)).
  - exists r. split; [done|]. by apply indexed_lookups.
Qed.

(** [save] of an execution that is not a trade stores a default-constructed
    report of its class under a new identifier: type, time, order and status of
    the report passed in are lost, and the identifier it carried is not kept; a
    trade is stored as passed in, except for its market. *)
Theorem saveExec_blanks_reports s c e now :
  executionsById s !! (IdTGenerator.getId now c).1 = None →
  match ex_body e with
  | XTrade t =>
      isValidId (ex_execId e) = true → executionsById s !! ex_execId e = None →
      ∃ e', (saveExec e now (s, c)).1 = Ok e' ∧ e' = ExecParams_copy e (XTrade t) ∧
        locateByExecId (ex_execId e) (saveExec e now (s, c)).2.1 = Some e'
  | _ =>
      ∃ e', (saveExec e now (s, c)).1 = Ok e' ∧ ex_execId e' = (IdTGenerator.getId now c).1 ∧
        locateByExecId (ex_execId e') (saveExec e now (s, c)).2.1 = Some e' ∧
        ex_type e' = INVALID_EXECTYPE ∧ ex_orderId e' = IdT0 ∧ ex_transactTime e' = 0 ∧
        ex_orderStatus e' = INVALID_ORDSTATUS
  end.
Proof.
  intros Hf. unfold locateByExecId, saveExec, bind, gets, modify, newId, ret, throw.
  destruct e as [ty tm oid xid st mk [|t| | | |]]; cbn [ex_body]; simpl in *;
    try (rewrite Hf; eexists; split; [reflexivity|]; split; [done|]; split;
         [apply lookup_insert_eq|done]).
  intros Hv Hx. rewrite Hv. simpl. rewrite Hx.
  eexists. split; [reflexivity|]. split; [done|]. apply lookup_insert_eq.
Qed.
End theory.

(** A reference store that resolves one client order id, and a saver that
    counts. *)
Definition ex_raw (i : IdT) : outcome RawDataEntry :=
  if decide (i = mkIdT 7 1) then Ok (mkRaw i STRING_RAWDATATYPE ["A"%char; "1"%char])
  else Throw "Unable to find RawData!".
Definition ex_saver (o : OrderEntry) : M nat unit := λ n, (Ok tt, S n).
Definition ex_store : t nat := mkStore ∅ 0%nat ∅ ∅ ∅ (Some 0%nat).
Definition ex_order : OrderEntry := OrderEntry_make IdT0 IdT0 (mkIdT 7 1) IdT0 IdT0 IdT0 IdT0 IdT0.

Lemma save_keeps_indexes_witness :
  let r := save ex_saver ex_raw ex_order 100 (ex_store, 1) in
  r.1 = Ok 0%nat ∧ locateByOrderId (mkIdT 1 100) r.2.1 = Some 0%nat ∧ wf ex_raw r.2.1 r.2.2.
Proof.
  split; [by vm_compute|]. split; [by vm_compute|].
  refine (proj1 (save_keeps_indexes ex_saver ex_raw ex_store 1 ex_order 100 _ _ _)); [|lia|].
  - by apply (wf_ext ex_raw create); [..|apply wf_create; lia].
  - intros H. by vm_compute in H.
Defined.

Definition ex_report : ExecutionEntry :=
  mkExec REJECT_EXECTYPE 5 (mkIdT 3 1) (mkIdT 9 1) REJECTED_ORDSTATUS "XNAS" (XReject "bad").

Lemma saveExec_blanks_reports_witness : ∃ e',
  (saveExec ex_report 100 (ex_store, 1)).1 = Ok e' ∧ ex_execId e' = mkIdT 1 100 ∧
  ex_type e' = INVALID_EXECTYPE.
Proof.
  assert (executionsById ex_store !! (IdTGenerator.getId 100 1).1 = None) as H by done.
  destruct (saveExec_blanks_reports ex_store 1 ex_report 100 H)
    as (e' & H1 & H2 & _ & H3 & _).
  exists e'. split; [exact H1|]. split; [exact H2|exact H3].
Defined.
End OrderStore.
