(* ===== verification/OrderBook.v ===== *)
(** The order book of [src/src/OrderBookImpl.cpp]: per instrument a buy and a
    sell multimap from price to order identifier, kept in price-time priority.
    [Multimap] models [std::multimap] with its comparator; [Book] the
    operations of [OrderBookImpl]. *)

From Stdlib Require Import String ZArith Lia.
From S2P Require Import Prelude Types.

Module Multimap.

(** [std::multimap<PriceT, IdT, cmp>] as the sequence its iterators visit.
    [insert] places an element after the elements with an equivalent key
    (C++11), [lower_bound] is the first element not before the key. *)
Abbreviation t := (list (PriceT * IdT)).

Fixpoint insert (cmp : PriceT → PriceT → bool) (k : PriceT) (v : IdT) (l : t) : t :=
  match l with
  | [] => [(k, v)]
  | (k', v') :: l' => if cmp k k' then (k, v) :: l else (k', v') :: insert cmp k v l'
  end.

(** The elements before [lower_bound(k)] and those from it on. *)
Fixpoint lower_bound (cmp : PriceT → PriceT → bool) (k : PriceT) (l : t) : t * t :=
  match l with
  | [] => ([], [])
  | (k', v') :: l' =>
      if cmp k' k then let r := lower_bound cmp k l' in ((k', v') :: r.1, r.2) else ([], l)
  end.

(** The erasing loop of [OrderBookImpl::remove] from the lower bound on: stop
    at the first element with another price, erase the first one with the
    identifier. *)
Fixpoint erase_loop (price : PriceT) (id : IdT) (l : t) : option t :=
  match l with
  | [] => None
  | (k, v) :: l' =>
      if px_eqb price k then
        if IdT_eqb v id then Some l' else option_map (cons (k, v)) (erase_loop price id l')
      else None
  end.

Definition erase (cmp : PriceT → PriceT → bool) (price : PriceT) (id : IdT) (l : t) : option t :=
  let r := lower_bound cmp price l in option_map (app r.1) (erase_loop price id r.2).

(** A comparator that orders the non-NaN prices by an integer rank. *)
Class PriceOrder (cmp : PriceT → PriceT → bool) := {
  rank : PriceT → Z;
  rank_cmp a b : px_isnan a = false → px_isnan b = false → cmp a b = (rank a <? rank b);
  rank_eq a b : px_isnan a = false → px_isnan b = false → px_eqb a b = (rank a =? rank b);
}.

#[global] Program Instance ascend : PriceOrder px_ltb := {| rank := px_key |}.
Next Obligation. intros. by apply px_ltb_spec. Qed.
Next Obligation. intros. by apply px_eqb_spec. Qed.
#[global] Program Instance descend : PriceOrder px_gtb := {| rank := λ p, - px_key p |}.
Next Obligation.
  intros a b Ha Hb. simpl. unfold px_gtb. rewrite px_ltb_spec by done.
  apply eq_true_iff_eq. rewrite !Z.ltb_lt. lia.
Qed.
Next Obligation.
  intros a b Ha Hb. simpl. rewrite px_eqb_spec by done.
  apply eq_true_iff_eq. rewrite !Z.eqb_eq. lia.
Qed.

Section theory.
Context (cmp : PriceT → PriceT → bool) `{!PriceOrder cmp}.

Definition no_nan (l : t) : Prop := Forall (λ e, px_isnan e.1 = false) l.
Definition rank_le (x y : PriceT * IdT) : Prop := rank x.1 <= rank y.1.
(** Sorted by price, all prices comparable. *)
Definition wf (l : t) : Prop := no_nan l ∧ StronglySorted rank_le l.

Lemma wf_nil : wf [].
Proof. split; constructor. Qed.

Lemma wf_cons_inv x l : wf (x :: l) →
  px_isnan x.1 = false ∧ wf l ∧ Forall (rank_le x) l.
Proof.
  intros [Hn Hs]. inversion_clear Hn. apply StronglySorted_inv in Hs as [? ?].
  repeat split; auto.
Qed.

Lemma wf_cons x l :
  px_isnan x.1 = false → wf l → Forall (rank_le x) l → wf (x :: l).
Proof. intros ? [? ?] ?. split; constructor; auto. Qed.

(** Where [insert] puts an element: after everything at least as good, before
    everything strictly worse. *)
Lemma insert_split k v l : wf l → px_isnan k = false →
  ∃ l1 l2, l = l1 ++ l2 ∧ insert cmp k v l = l1 ++ (k, v) :: l2 ∧
    Forall (λ e, rank e.1 <= rank k) l1 ∧ Forall (λ e, rank k < rank e.1) l2.
Proof.
  intros Hwf Hk. induction l as [|[k' v'] l IH]; simpl.
  { exists [], []. repeat split; constructor. }
  apply wf_cons_inv in Hwf as (Hk' & Hl & Hall); simpl in *.
  rewrite rank_cmp by done. destruct (Z.ltb_spec (rank k) (rank k')).
  - exists [], ((k', v') :: l). repeat split; [constructor|]. constructor; [done|].
    eapply Forall_impl; [exact Hall|]. unfold rank_le; simpl. lia.
  - destruct (IH Hl) as (l1 & l2 & -> & -> & H1 & H2).
    exists ((k', v') :: l1), l2. repeat split; auto.
Qed.

Lemma insert_wf k v l : wf l → px_isnan k = false → wf (insert cmp k v l).
Proof.
  intros Hwf Hk. induction l as [|[k' v'] l IH]; simpl.
  { apply wf_cons; auto using wf_nil. }
  pose proof Hwf as Hwf'. apply wf_cons_inv in Hwf as (Hk' & Hl & Hall); simpl in *.
  rewrite rank_cmp by done. destruct (Z.ltb_spec (rank k) (rank k')).
  - apply wf_cons; simpl; auto. constructor; [unfold rank_le; simpl; lia|].
    eapply Forall_impl; [exact Hall|]. unfold rank_le; simpl. lia.
  - apply wf_cons; simpl; auto.
    destruct (insert_split k v l Hl Hk) as (l1 & l2 & -> & -> & _ & _).
    apply Forall_app in Hall as [? ?]. apply Forall_app; split; auto.
Qed.

Lemma insert_perm k v l : insert cmp k v l ≡ₚ (k, v) :: l.
Proof.
  induction l as [|[k' v'] l IH]; simpl; [done|].
  destruct (cmp k k'); [done|]. rewrite IH. apply Permutation_swap.
Qed.

Definition is_entry (p : PriceT) (id : IdT) (e : PriceT * IdT) : bool :=
  px_eqb p e.1 && IdT_eqb e.2 id.

Lemma px_eqb_nan_l p q : px_isnan p = true → px_eqb p q = false.
Proof. unfold px_eqb. by intros ->. Qed.

Lemma is_entry_rank p id e :
  px_isnan e.1 = false → is_entry p id e = true → rank e.1 = rank p.
Proof.
  intros He. unfold is_entry. intros [Hp _]%andb_true_iff.
  destruct (px_isnan p) eqn:Hn; [by rewrite px_eqb_nan_l in Hp|].
  rewrite rank_eq in Hp by done. case_bool. done.
Qed.

Lemma erase_loop_skip p id l :
  wf l → Forall (λ e, rank p < rank e.1) l → px_isnan p = false →
  erase_loop p id l = None ∧ rm1 (is_entry p id) l = None.
Proof.
  intros [Hn _] Hall Hp. split.
  - destruct l as [|[k v] l]; [done|]. simpl. inversion Hall; inversion Hn; simplify_eq/=.
    rewrite rank_eq by done. destruct (Z.eqb_spec (rank p) (rank k)); [lia|done].
  - apply rm1_None. unfold no_nan in Hn. rewrite Forall_forall in *. intros e He.
    apply not_true_iff_false. intros E. apply is_entry_rank in E; [|by apply Hn].
    specialize (Hall e He). simpl in Hall. lia.
Qed.

Lemma erase_loop_rm1 p id l :
  wf l → Forall (λ e, rank p <= rank e.1) l → px_isnan p = false →
  erase_loop p id l = rm1 (is_entry p id) l.
Proof.
  intros Hwf Hall Hp. induction l as [|[k v] l IH]; [done|].
  pose proof (wf_cons_inv _ _ Hwf) as (Hk & Hl & Hge); simpl in *.
  apply Forall_cons in Hall as [Hpk Hall]; simpl in *.
  unfold is_entry at 1; simpl. destruct (px_eqb p k) eqn:E; simpl; [by rewrite IH|].
  rewrite rank_eq in E by done. case_bool.
  destruct (erase_loop_skip p id l Hl) as [_ ->]; [|done..].
  eapply Forall_impl; [exact Hge|]. unfold rank_le; simpl. lia.
Qed.

Lemma lower_bound_rm1 p id l :
  wf l → px_isnan p = false →
  rm1 (is_entry p id) l = option_map (app (lower_bound cmp p l).1)
    (erase_loop p id (lower_bound cmp p l).2).
Proof.
  intros Hwf Hp. induction l as [|[k v] l IH]; [done|].
  pose proof (wf_cons_inv _ _ Hwf) as (Hk & Hl & Hge); simpl in *.
  rewrite rank_cmp by done. destruct (Z.ltb_spec (rank k) (rank p)); cbn [fst snd].
  - unfold is_entry at 1; simpl. rewrite rank_eq by done.
    destruct (Z.eqb_spec (rank p) (rank k)); [lia|]. simpl. rewrite IH by done.
    by destruct (erase_loop p id (lower_bound cmp p l).2).
  - rewrite erase_loop_rm1;
      [simpl; by destruct (is_entry p id (k, v)), (rm1 (is_entry p id) l)|done|constructor; simpl; [lia|]|done].
    eapply Forall_impl; [exact Hge|]. unfold rank_le; simpl. lia.
Qed.

Lemma erase_loop_nan p id l : px_isnan p = true → erase_loop p id l = None.
Proof. intros. destruct l as [|[k v] l]; simpl; [done|]. by rewrite px_eqb_nan_l. Qed.

(** The lower-bound search of [remove], stopping at the first other price,
    erases exactly what a search of the whole multimap would. *)
Lemma erase_rm1 p id l : wf l → erase cmp p id l = rm1 (is_entry p id) l.
Proof.
  intros Hwf. unfold erase. destruct (px_isnan p) eqn:Hp.
  - rewrite erase_loop_nan by done. symmetry. apply rm1_None, Forall_forall.
    intros e _. unfold is_entry. by rewrite px_eqb_nan_l.
  - by rewrite lower_bound_rm1.
Qed.

(** One price level, in queue order. *)
Definition level (r : Z) (l : t) : t := filter (λ e, rank e.1 = r) l.

Lemma level_nil_gt k l : Forall (λ e, rank k < rank e.1) l → level (rank k) l = [].
Proof.
  intros H. unfold level. induction H as [|x l Hx _ IH]; [done|].
  rewrite filter_cons_False by lia. done.
Qed.

Lemma insert_level k v l r : wf l → px_isnan k = false →
  level r (insert cmp k v l) = level r (l ++ [(k, v)]).
Proof.
  intros Hwf Hk. destruct (insert_split k v l Hwf Hk) as (l1 & l2 & -> & -> & _ & H2).
  unfold level. rewrite !filter_app, filter_cons. case_decide as E; simpl in E.
  - subst r. fold (level (rank k) l2). rewrite (level_nil_gt k l2) by done.
    rewrite (filter_cons_True _ (k, v)) by done. by rewrite app_nil_r.
  - by rewrite (filter_cons_False _ (k, v)), filter_nil, app_nil_r by done.
Qed.

Lemma wf_sublist l l' : sublist l' l → wf l → wf l'.
Proof.
  induction 1 as [|x l' l Hs IH|x l' l Hs IH]; intros Hwf; [done|..].
  - apply wf_cons_inv in Hwf as (? & ? & Hall). apply wf_cons; auto.
    rewrite Forall_forall in *. intros y Hy. apply Hall.
    eapply elem_of_submseteq; [done|by apply sublist_submseteq].
  - apply wf_cons_inv in Hwf as (? & ? & _). auto.
Qed.

Lemma erase_wf p id l l' : erase cmp p id l = Some l' → wf l → wf l'.
Proof.
  intros E Hwf. rewrite erase_rm1 in E by done. by eapply wf_sublist, Hwf; eapply rm1_sublist.
Qed.

Lemma erase_insert k v l : wf l → px_isnan k = false →
  Forall (λ e, is_entry k v e = false) l → erase cmp k v (insert cmp k v l) = Some l.
Proof.
  intros Hwf Hk Hno. rewrite erase_rm1 by by apply insert_wf.
  destruct (insert_split k v l Hwf Hk) as (l1 & l2 & -> & -> & _ & _).
  apply Forall_app in Hno as [? _]. apply rm1_app_skip; [|done].
  unfold is_entry; simpl. rewrite rank_eq, Z.eqb_refl by done. by apply IdT_eqb_spec.
Qed.

(** ** Refinement: the multimap is the arrival sequence in price-time priority

    [arr] lists the resting entries in arrival order. *)
Definition refines (l arr : t) : Prop :=
  wf l ∧ no_nan arr ∧ ∀ r, level r l = level r arr.

Definition spec_add (k : PriceT) (v : IdT) (arr : t) : t := arr ++ [(k, v)].
Definition spec_remove (k : PriceT) (v : IdT) (arr : t) : option t := rm1 (is_entry k v) arr.

Lemma refines_nil : refines [] [].
Proof. split; [apply wf_nil|]. split; [constructor|done]. Qed.

Lemma refines_elem l arr e : refines l arr → e ∈ arr ↔ e ∈ l.
Proof.
  intros (_ & _ & H). specialize (H (rank e.1)). unfold level in H.
  assert (e ∈ filter (λ x, rank x.1 = rank e.1) l ↔
    e ∈ filter (λ x, rank x.1 = rank e.1) arr) as Hm by by rewrite H.
  rewrite !list_elem_of_filter in Hm. naive_solver.
Qed.

Lemma refines_add k v l arr : refines l arr → px_isnan k = false →
  refines (insert cmp k v l) (spec_add k v arr).
Proof.
  intros (Hwf & Hn & Hlv) Hk. split; [by apply insert_wf|]. split.
  - apply Forall_app; split; [done|]. by constructor.
  - intros r. rewrite insert_level by done. unfold spec_add, level in *.
    by rewrite !filter_app, Hlv.
Qed.

Lemma refines_remove k v l arr : refines l arr →
  match erase cmp k v l, spec_remove k v arr with
  | Some l', Some arr' => refines l' arr'
  | None, None => True
  | _, _ => False
  end.
Proof.
  intros Href. pose proof Href as (Hwf & Hn & Hlv). rewrite erase_rm1 by done.
  unfold spec_remove.
  assert (∀ (m : t), no_nan m → ∀ x, x ∈ m → is_entry k v x = true → rank x.1 = rank k) as Hr.
  { intros m Hm x Hx. apply is_entry_rank. by eapply (proj1 (Forall_forall _ _)) in Hm. }
  pose proof (rm1_filter (is_entry k v) (λ e, rank e.1 = rank k) l (Hr l (proj1 Hwf))) as E1.
  pose proof (rm1_filter (is_entry k v) (λ e, rank e.1 = rank k) arr (Hr arr Hn)) as E2.
  unfold level in Hlv. rewrite Hlv, E2 in E1.
  destruct (rm1 (is_entry k v) l) as [l'|] eqn:El,
    (rm1 (is_entry k v) arr) as [arr'|] eqn:Ea; simplify_eq/=; try done.
  split; [by eapply wf_sublist, Hwf; eapply rm1_sublist|]. split.
  { apply rm1_Some in Ea as (? & ? & ? & -> & -> & _). unfold no_nan in *.
    rewrite Forall_app, Forall_cons in Hn. apply Forall_app. naive_solver. }
  intros r. unfold level. destruct (decide (r = rank k)) as [->|Hne]; [done|].
  rewrite (filter_rm1_disjoint (is_entry k v) _ l l'), Hlv; [symmetry|..|done].
  - apply (filter_rm1_disjoint (is_entry k v)); [|done].
    intros x Hx Hix. rewrite (Hr arr Hn x Hx Hix). congruence.
  - intros x Hx Hix. rewrite (Hr l (proj1 Hwf) x Hx Hix). congruence.
Qed.

(** The front of the multimap is the earliest arrival among the best prices. *)
Lemma refines_front x l arr : refines (x :: l) arr →
  ∃ a1 a2, arr = a1 ++ x :: a2 ∧
    Forall (λ y, rank x.1 < rank y.1) a1 ∧ Forall (λ y, rank x.1 <= rank y.1) a2.
Proof.
  intros Href. pose proof Href as (Hwf & Hn & Hlv).
  assert (∀ y, y ∈ arr → rank x.1 <= rank y.1) as Hbest.
  { intros y Hy. apply (refines_elem _ _ _ Href) in Hy. apply wf_cons_inv in Hwf as (_ & _ & Hall).
    apply elem_of_cons in Hy as [->|Hy]; [lia|]. rewrite Forall_forall in Hall. by apply Hall. }
  specialize (Hlv (rank x.1)). unfold level in Hlv.
  rewrite filter_cons_True in Hlv by done. symmetry in Hlv.
  apply filter_app_inv_cons in Hlv as (a1 & a2 & -> & H1).
  exists a1, a2. split; [done|]. rewrite !Forall_forall. split; intros y Hy.
  - assert (rank x.1 <= rank y.1) by (apply Hbest; set_solver).
    assert (rank y.1 ≠ rank x.1); [|lia]. by eapply H1.
  - apply Hbest. set_solver.
Qed.
End theory.

End Multimap.

Module Book.

(** struct OrderBookImpl::OrdersGroup -- src/src/OrderBookImpl.h:68-75
    The two locks serialise the operations on one side; every operation below
    is one critical section. *)
Record OrdersGroup := mkGroup { buyOrder : Multimap.t; sellOrder : Multimap.t }.

(** OrderFunctor -- src/src/DataModelDef.h:279-293
    [match(id, &stop)] returns its result and the value it leaves in [stop],
    which is [false] at every call. *)
Record OrderFunctor := mkFunctor {
  fn_instrument : IdT; fn_side : Side; fn_match : IdT → bool * bool }.

(** struct BookLevel, BookSnapshot -- src/src/OrderBookImpl.h:29-40 *)
Record BookLevel := mkLevel { lv_price : PriceT; lv_totalQty : QuantityT; lv_orderCount : Z }.
Record BookSnapshot := mkSnap { bids : list BookLevel; asks : list BookLevel }.

(** class OrderBookImpl -- src/src/OrderBookImpl.h:42-82
    [SV] is the state of the attached [OrderSaver]; [None] is a null
    [storage_]. *)
Record OrderBookImpl (SV : Type) := mkBook {
  orderGroups : gmap IdT OrdersGroup;
  storage : option SV }.
Arguments mkBook {SV} _ _.
Arguments orderGroups {SV} _.
Arguments storage {SV} _.

(** OrderBookImpl::OrderBookImpl -- src/src/OrderBookImpl.cpp:97-97 *)
Definition empty_book (SV : Type) : OrderBookImpl SV := mkBook ∅ None.

Section ops.
Context {SV : Type} (sv_save : OrderEntry → M SV unit).

Definition with_groups (g : gmap IdT OrdersGroup) (b : OrderBookImpl SV) : OrderBookImpl SV :=
  mkBook g (storage b).

(** [storage_->save(order)], skipped when no saver is attached. *)
Definition saver_save (o : OrderEntry) : M (OrderBookImpl SV) unit := λ b,
  match storage b with
  | None => (Ok tt, b)
  | Some s => let r := sv_save o s in (r.1, mkBook (orderGroups b) (Some r.2))
  end.

(** OrderBookImpl::init -- src/src/OrderBookImpl.cpp:109-121
    [insert] does nothing for an instrument that is registered already. *)
Definition init (instr : gset IdT) (saver : SV) : M (OrderBookImpl SV) unit := λ b,
  match storage b with
  | Some _ => (Crash "assert", b)
  | None =>
      (Ok tt, mkBook (orderGroups b ∪ gset_to_gmap (mkGroup [] []) instr) (Some saver))
  end.

(** OrderBookImpl::add, the insertion -- src/src/OrderBookImpl.cpp:132-145
    The insertion shared by [add] and [restore]; [None] is an unsupported side. *)
Definition group_insert (o : OrderEntry) (g : OrdersGroup) : option OrdersGroup :=
  match o_side o with
  | BUY_SIDE =>
      Some (mkGroup (Multimap.insert px_gtb (o_price o) (o_orderId o) (buyOrder g)) (sellOrder g))
  | SELL_SIDE =>
      Some (mkGroup (buyOrder g) (Multimap.insert px_ltb (o_price o) (o_orderId o) (sellOrder g)))
  | _ => None
  end.

(** OrderBookImpl::add -- src/src/OrderBookImpl.cpp:123-156 *)
Definition add (o : OrderEntry) : M (OrderBookImpl SV) unit :=
  assert_ (isValidId (o_orderId o)) ;;;
  assert_ (isValidId (o_instrument o)) ;;;
  gs <- gets orderGroups ;;
  match gs !! o_instrument o with
  | None => throw "Unable to add order into book - instrument not registered!"
  | Some g =>
      match group_insert o g with
      | None => throw "Unable to add order into book - side is not supported!"
      | Some g' => modify (with_groups (<[o_instrument o := g']> gs)) ;;; saver_save o
      end
  end.

(** OrderBookImpl::restore -- src/src/OrderBookImpl.cpp:158-187 *)
Definition restore (o : OrderEntry) : M (OrderBookImpl SV) unit :=
  assert_ (isValidId (o_orderId o)) ;;;
  assert_ (isValidId (o_instrument o)) ;;;
  gs <- gets orderGroups ;;
  match gs !! o_instrument o with
  | None => throw "Unable to restore order into book - instrument not registered!"
  | Some g =>
      match group_insert o g with
      | None => throw "Unable to restore order into book - side is not supported!"
      | Some g' => modify (with_groups (<[o_instrument o := g']> gs))
      end
  end.

(** OrderBookImpl::remove -- src/src/OrderBookImpl.cpp:189-254 *)
Definition remove (o : OrderEntry) : M (OrderBookImpl SV) unit :=
  assert_ (isValidId (o_instrument o)) ;;;
  gs <- gets orderGroups ;;
  match gs !! o_instrument o with
  | None => throw "Unable to remove order from book - instrument not registered!"
  | Some g =>
      match o_side o with
      | BUY_SIDE =>
          match Multimap.erase px_gtb (o_price o) (o_orderId o) (buyOrder g) with
          | Some l => modify (with_groups (<[o_instrument o := mkGroup l (sellOrder g)]> gs))
          | None => throw "Unable to remove order from book - order not found!"
          end
      | SELL_SIDE =>
          match Multimap.erase px_ltb (o_price o) (o_orderId o) (sellOrder g) with
          | Some l => modify (with_groups (<[o_instrument o := mkGroup (buyOrder g) l]> gs))
          | None => throw "Unable to remove order from book - order not found!"
          end
      | _ => throw "Unable to remove order into book - side is not supported!"
      end
  end.

(** the loops of OrderBookImpl::find -- src/src/OrderBookImpl.cpp:263-276
    The search loop of [find] over one side. *)
Fixpoint find_loop (f : IdT → bool * bool) (l : Multimap.t) : IdT :=
  match l with
  | [] => IdT0
  | (_, id) :: l' =>
      let r := f id in if r.1 then id else if r.2 then IdT0 else find_loop f l'
  end.

(** OrderBookImpl::find -- src/src/OrderBookImpl.cpp:256-305 *)
Definition find (f : OrderFunctor) (b : OrderBookImpl SV) : outcome IdT :=
  match orderGroups b !! fn_instrument f with
  | None => Throw "Unknown instrument for the order's search"
  | Some g =>
      match fn_side f with
      | BUY_SIDE => Ok (find_loop (fn_match f) (buyOrder g))
      | SELL_SIDE => Ok (find_loop (fn_match f) (sellOrder g))
      | _ => Throw "Invalid Side for the order's search"
      end
  end.

(** the loops of OrderBookImpl::findAll -- src/src/OrderBookImpl.cpp:315-328
    The collecting loop of [findAll] over one side. *)
Fixpoint findAll_loop (f : IdT → bool * bool) (l : Multimap.t) : list IdT :=
  match l with
  | [] => []
  | (_, id) :: l' =>
      let r := f id in
      (if r.1 then [id] else []) ++ (if r.2 then [] else findAll_loop f l')
  end.

(** OrderBookImpl::findAll -- src/src/OrderBookImpl.cpp:307-356
    [result] is the queue the found identifiers are appended to. *)
Definition findAll (f : OrderFunctor) (result : list IdT) (b : OrderBookImpl SV) :
    outcome (list IdT) :=
  match orderGroups b !! fn_instrument f with
  | None => Throw "Unknown instrument for the order's search"
  | Some g =>
      match fn_side f with
      | BUY_SIDE => Ok (result ++ findAll_loop (fn_match f) (buyOrder g))
      | SELL_SIDE => Ok (result ++ findAll_loop (fn_match f) (sellOrder g))
      | _ => Throw "Invalid Side for the order's search"
      end
  end.

(** the first order of a side, OrderBookImpl::getTop -- src/src/OrderBookImpl.cpp:365-369 *)
Definition front (l : Multimap.t) : IdT :=
  match l with [] => IdT0 | (_, id) :: _ => id end.

(** OrderBookImpl::getTop -- src/src/OrderBookImpl.cpp:358-389 *)
Definition getTop (instrument : IdT) (side : Side) (b : OrderBookImpl SV) : outcome IdT :=
  match orderGroups b !! instrument with
  | None => Throw "Unknown instrument for the order's top"
  | Some g =>
      match side with
      | BUY_SIDE => Ok (front (buyOrder g))
      | SELL_SIDE => Ok (front (sellOrder g))
      | _ => Throw "Invalid Side for the order's top"
      end
  end.

(** a level of OrderBookImpl::getSnapshot -- src/src/OrderBookImpl.cpp:411-414
    [levels[price]] of a [std::map] with comparator [cmp], then the update of
    the level found or created. *)
Fixpoint level_upd (cmp : PriceT → PriceT → bool) (p : PriceT) (q : QuantityT)
    (ls : list BookLevel) : list BookLevel :=
  match ls with
  | [] => [mkLevel p (wrap32 q) 1]
  | l :: ls' =>
      if cmp p (lv_price l) then mkLevel p (wrap32 q) 1 :: ls
      else if cmp (lv_price l) p then l :: level_upd cmp p q ls'
      else mkLevel p (wrap32 (lv_totalQty l + q)) (wrap32 (lv_orderCount l + 1)) :: ls'
  end.

(** a side of OrderBookImpl::getSnapshot -- src/src/OrderBookImpl.cpp:403-420
    One side's aggregation in [getSnapshot]: orders the storage does not know
    are skipped. *)
Fixpoint aggregate (cmp : PriceT → PriceT → bool) (locate : IdT → option OrderEntry)
    (l : Multimap.t) (acc : list BookLevel) : list BookLevel :=
  match l with
  | [] => acc
  | (p, id) :: l' =>
      aggregate cmp locate l'
        (match locate id with None => acc | Some o => level_upd cmp p (o_leavesQty o) acc end)
  end.

(** OrderBookImpl::getSnapshot -- src/src/OrderBookImpl.cpp:391-447 *)
Definition getSnapshot (instrument : IdT) (locate : IdT → option OrderEntry)
    (b : OrderBookImpl SV) : BookSnapshot :=
  match orderGroups b !! instrument with
  | None => mkSnap [] []
  | Some g => mkSnap (aggregate px_gtb locate (buyOrder g) [])
                     (aggregate px_ltb locate (sellOrder g) [])
  end.

End ops.

(** ** Abstract book

    Per instrument the resting buy and sell entries in arrival order; adding
    appends, removing takes out the entry, and nothing else happens. *)

Abbreviation ABook := (gmap IdT (Multimap.t * Multimap.t)).

Inductive BookOp := OpAdd (o : OrderEntry) | OpRestore (o : OrderEntry) | OpRemove (o : OrderEntry).

Definition abs_insert (o : OrderEntry) (ab : ABook) : ABook :=
  if isValidId (o_orderId o) && isValidId (o_instrument o) then
    match ab !! o_instrument o, o_side o with
    | Some (ba, sa), BUY_SIDE =>
        <[o_instrument o := (Multimap.spec_add (o_price o) (o_orderId o) ba, sa)]> ab
    | Some (ba, sa), SELL_SIDE =>
        <[o_instrument o := (ba, Multimap.spec_add (o_price o) (o_orderId o) sa)]> ab
    | _, _ => ab
    end
  else ab.

Definition abs_remove (o : OrderEntry) (ab : ABook) : option ABook :=
  if isValidId (o_instrument o) then
    match ab !! o_instrument o, o_side o with
    | Some (ba, sa), BUY_SIDE =>
        (λ ba', <[o_instrument o := (ba', sa)]> ab) <$>
          Multimap.spec_remove (o_price o) (o_orderId o) ba
    | Some (ba, sa), SELL_SIDE =>
        (λ sa', <[o_instrument o := (ba, sa')]> ab) <$>
          Multimap.spec_remove (o_price o) (o_orderId o) sa
    | _, _ => None
    end
  else None.

Definition abs_op (op : BookOp) (ab : ABook) : ABook :=
  match op with
  | OpAdd o | OpRestore o => abs_insert o ab
  | OpRemove o => default ab (abs_remove o ab)
  end.

(** The prices of the orders put into the book are numbers. *)
Definition op_ok (op : BookOp) : Prop :=
  match op with
  | OpAdd o | OpRestore o => px_isnan (o_price o) = false
  | OpRemove _ => True
  end.

Definition group_refines (g : OrdersGroup) (a : Multimap.t * Multimap.t) : Prop :=
  Multimap.refines px_gtb (buyOrder g) a.1 ∧ Multimap.refines px_ltb (sellOrder g) a.2.

Definition book_refines {SV} (b : OrderBookImpl SV) (ab : ABook) : Prop :=
  ∀ i, option_relation group_refines (λ _, False) (λ _, False) (orderGroups b !! i) (ab !! i).

Definition group_wf (g : OrdersGroup) : Prop :=
  Multimap.wf px_gtb (buyOrder g) ∧ Multimap.wf px_ltb (sellOrder g).

(** The representation invariant: both sides of every instrument sorted. *)
Definition book_wf {SV} (b : OrderBookImpl SV) : Prop :=
  map_Forall (λ _, group_wf) (orderGroups b).

Section theory.
Context {SV : Type} (sv_save : OrderEntry → M SV unit).

Definition exec_op (op : BookOp) : M (OrderBookImpl SV) unit :=
  match op with
  | OpAdd o => add sv_save o
  | OpRestore o => restore o
  | OpRemove o => remove o
  end.

(** A client that catches every exception and goes on. *)
Definition exec_ops (ops : list BookOp) (b : OrderBookImpl SV) : OrderBookImpl SV :=
  foldl (λ b op, (exec_op op b).2) b ops.

Lemma book_refines_lookup (b : OrderBookImpl SV) ab i g : book_refines b ab →
  orderGroups b !! i = Some g → ∃ ba sa, ab !! i = Some (ba, sa) ∧
    Multimap.refines px_gtb (buyOrder g) ba ∧ Multimap.refines px_ltb (sellOrder g) sa.
Proof.
  intros H Eg. specialize (H i). rewrite Eg in H. destruct (ab !! i) as [[ba sa]|]; [|done].
  destruct H. eauto.
Qed.

Lemma book_refines_None (b : OrderBookImpl SV) ab i : book_refines b ab →
  orderGroups b !! i = None → ab !! i = None.
Proof. intros H Eg. specialize (H i). rewrite Eg in H. by destruct (ab !! i). Qed.

Lemma book_refines_groups (b b' : OrderBookImpl SV) ab :
  orderGroups b' = orderGroups b → book_refines b ab → book_refines b' ab.
Proof. unfold book_refines. by intros ->. Qed.

Lemma book_refines_insert (b : OrderBookImpl SV) ab i g a (s : option SV) : book_refines b ab →
  group_refines g a → book_refines (mkBook (<[i := g]> (orderGroups b)) s) (<[i := a]> ab).
Proof.
  intros H Hg j. simpl. destruct (decide (i = j)) as [->|]; [rewrite !lookup_insert_eq; by simpl|].
  rewrite !lookup_insert_ne by done. apply H.
Qed.

Lemma group_insert_refines (b : OrderBookImpl SV) ab o g (s : option SV) : book_refines b ab →
  px_isnan (o_price o) = false → isValidId (o_orderId o) = true →
  isValidId (o_instrument o) = true → orderGroups b !! o_instrument o = Some g →
  match group_insert o g with
  | Some g' => book_refines (mkBook (<[o_instrument o := g']> (orderGroups b)) s) (abs_insert o ab)
  | None => abs_insert o ab = ab
  end.
Proof.
  intros H Hp Hi1 Hi2 Eg. destruct (book_refines_lookup _ _ _ _ H Eg) as (ba & sa & Ea & Hb & Hs).
  unfold abs_insert, group_insert. rewrite Hi1, Hi2, Ea. simpl.
  destruct (o_side o); try done; apply book_refines_insert; try done;
    split; simpl; try done; by apply Multimap.refines_add; try apply _.
Qed.

Lemma saver_save_groups o (b : OrderBookImpl SV) :
  orderGroups (saver_save sv_save o b).2 = orderGroups b.
Proof. unfold saver_save. by destruct (storage b). Qed.

Lemma insert_refines (b : OrderBookImpl SV) ab o : book_refines b ab →
  px_isnan (o_price o) = false →
  book_refines (add sv_save o b).2 (abs_insert o ab) ∧
  book_refines (restore o b).2 (abs_insert o ab).
Proof.
  intros H Hp. unfold add, restore, assert_. run.
  destruct (isValidId (o_orderId o)) eqn:H1; simpl; [|unfold abs_insert; rewrite H1; done].
  destruct (isValidId (o_instrument o)) eqn:H2; simpl;
    [|unfold abs_insert; rewrite H1, H2; done].
  destruct (orderGroups b !! o_instrument o) as [g|] eqn:Eg; simpl.
  - pose proof (group_insert_refines b ab o g (storage b) H Hp H1 H2 Eg) as Hg.
    destruct (group_insert o g) as [g'|]; simpl; [|by rewrite Hg].
    split; [|done]. by eapply book_refines_groups, Hg; rewrite saver_save_groups.
  - unfold abs_insert. rewrite H1, H2, (book_refines_None b ab) by done. done.
Qed.

Lemma remove_refines (b : OrderBookImpl SV) ab o : book_refines b ab →
  isValidId (o_instrument o) = true →
  is_ok (remove o b).1 = bool_decide (is_Some (abs_remove o ab)) ∧
  book_refines (remove o b).2 (default ab (abs_remove o ab)).
Proof.
  intros H H2. unfold remove, assert_, abs_remove. run. rewrite H2; simpl.
  destruct (orderGroups b !! o_instrument o) as [g|] eqn:Eg; simpl.
  2: by rewrite (book_refines_None b ab).
  destruct (book_refines_lookup _ _ _ _ H Eg) as (ba & sa & -> & Hb & Hs).
  destruct (o_side o); try done.
  - pose proof (Multimap.refines_remove px_gtb (o_price o) (o_orderId o) _ _ Hb) as Hr.
    destruct (Multimap.erase px_gtb _ _ _), (Multimap.spec_remove _ _ _); try done.
    split; [done|]. by apply book_refines_insert.
  - pose proof (Multimap.refines_remove px_ltb (o_price o) (o_orderId o) _ _ Hs) as Hr.
    destruct (Multimap.erase px_ltb _ _ _), (Multimap.spec_remove _ _ _); try done.
    split; [done|]. by apply book_refines_insert.
Qed.

Lemma exec_op_refines (b : OrderBookImpl SV) ab op : book_refines b ab → op_ok op →
  book_refines (exec_op op b).2 (abs_op op ab).
Proof.
  intros H Hok. destruct op as [o|o|o]; simpl in *.
  - by apply insert_refines.
  - by apply insert_refines.
  - destruct (isValidId (o_instrument o)) eqn:H2; [by apply remove_refines|].
    unfold remove, abs_remove, assert_. run. by rewrite H2.
Qed.

Lemma exec_ops_refines ops (b : OrderBookImpl SV) ab : book_refines b ab → Forall op_ok ops →
  book_refines (exec_ops ops b) (foldl (λ ab op, abs_op op ab) ab ops).
Proof.
  intros H Hok. revert b ab H. unfold exec_ops.
  induction Hok as [|op ops Hop _ IH]; intros b ab H; simpl; [done|].
  by apply IH, exec_op_refines.
Qed.

Lemma init_refines instr s :
  book_refines (init instr s (empty_book SV)).2 (gset_to_gmap ([], []) instr).
Proof.
  intros i. simpl. rewrite map_empty_union, !lookup_gset_to_gmap.
  destruct (decide (i ∈ instr)); [|by rewrite !option_guard_False].
  rewrite !option_guard_True by done. simpl. split; apply Multimap.refines_nil.
Qed.

Lemma book_refines_wf (b : OrderBookImpl SV) ab : book_refines b ab → book_wf b.
Proof.
  intros H i g Eg. destruct (book_refines_lookup _ _ _ _ H Eg) as (? & ? & _ & Hb & Hs).
  split; [apply Hb|apply Hs].
Qed.

Lemma book_wf_lookup (b : OrderBookImpl SV) i g : book_wf b → orderGroups b !! i = Some g →
  Multimap.wf px_gtb (buyOrder g) ∧ Multimap.wf px_ltb (sellOrder g).
Proof. intros H Eg. exact (H i g Eg). Qed.

(** The side of a group an order belongs to. *)
Definition side_orders (sd : Side) (g : OrdersGroup) : option Multimap.t :=
  match sd with
  | BUY_SIDE => Some (buyOrder g)
  | SELL_SIDE => Some (sellOrder g)
  | _ => None
  end.

(** No entry of the order's side has its price and identifier. *)
Definition not_resting (o : OrderEntry) (g : OrdersGroup) : Prop :=
  ∃ l, side_orders (o_side o) g = Some l ∧
    Forall (λ e, Multimap.is_entry (o_price o) (o_orderId o) e = false) l.

Lemma remove_inserted (b : OrderBookImpl SV) (s : option SV) o g g' : book_wf b →
  isValidId (o_instrument o) = true → px_isnan (o_price o) = false →
  orderGroups b !! o_instrument o = Some g → not_resting o g → group_insert o g = Some g' →
  remove o (mkBook (<[o_instrument o := g']> (orderGroups b)) s) =
    (Ok tt, mkBook (orderGroups b) s).
Proof.
  intros Hwf H2 Hp Eg (l & El & Hno) Hg.
  destruct (book_wf_lookup _ _ _ Hwf Eg) as [Hb Hs].
  unfold remove, assert_. run. rewrite H2; simpl. rewrite lookup_insert_eq; simpl.
  unfold group_insert in Hg. destruct (o_side o); simplify_eq/=;
    rewrite (Multimap.erase_insert _) by done; unfold with_groups; simpl;
    rewrite insert_insert_eq, insert_id; try done; by destruct g.
Qed.

Lemma find_loop_findAll f l : find_loop f l = default IdT0 (head (findAll_loop f l)).
Proof.
  induction l as [|[p id] l IH]; simpl; [done|]. destruct (f id) as [[] []]; simpl; done.
Qed.

(** The entries a search visits: up to and including the first one at which
    the functor stops or, for [find], matches. *)
Lemma find_loop_spec f l :
  (∃ l1 p l2, l = l1 ++ (p, find_loop f l) :: l2 ∧ (f (find_loop f l)).1 = true ∧
     Forall (λ e, f e.2 = (false, false)) l1) ∨
  (find_loop f l = IdT0 ∧
   (Forall (λ e, f e.2 = (false, false)) l ∨
    ∃ l1 e l2, l = l1 ++ e :: l2 ∧ f e.2 = (false, true) ∧
      Forall (λ e, f e.2 = (false, false)) l1)).
Proof.
  induction l as [|[p id] l IH]; simpl; [right; eauto|].
  destruct (f id) as [[] sp] eqn:E; simpl.
  { left. exists [], p, l. rewrite E. auto. }
  destruct sp; simpl.
  { right. split; [done|]. right. exists [], (p, id), l. auto. }
  destruct IH as [(l1 & p' & l2 & Hl & Hm & Hall)|(Hz & [Hall|(l1 & e & l2 & Hl & He & Hall)])].
  - left. exists ((p, id) :: l1), p', l2. rewrite Hl at 1. auto.
  - right. auto.
  - right. split; [done|]. right. exists ((p, id) :: l1), e, l2. rewrite Hl. auto.
Qed.

Lemma remove_absent (b : OrderBookImpl SV) o g : book_wf b →
  isValidId (o_instrument o) = true → orderGroups b !! o_instrument o = Some g →
  not_resting o g →
  remove o b = (Throw "Unable to remove order from book - order not found!", b).
Proof.
  intros Hwf H2 Eg (l & El & Hno). destruct (book_wf_lookup _ _ _ Hwf Eg) as [Hb Hs].
  unfold remove, assert_. run. rewrite H2; simpl. rewrite Eg; simpl.
  destruct (o_side o); simplify_eq/=; rewrite (Multimap.erase_rm1 _) by done;
    by rewrite (proj2 (rm1_None _ _) Hno).
Qed.

Lemma refines_top cmp `{!Multimap.PriceOrder cmp} l arr : Multimap.refines cmp l arr →
  (arr = [] ∧ front l = IdT0 ∨ ∃ p a1 a2, arr = a1 ++ (p, front l) :: a2 ∧
    Forall (λ e, cmp p e.1 = true) a1 ∧ Forall (λ e, cmp e.1 p = false) a2).
Proof.
  intros Href. pose proof Href as (Hwf & Hn & Hlv). destruct l as [|[p id] l]; simpl.
  - left. split; [|done]. destruct arr as [|e arr]; [done|].
    apply (Multimap.refines_elem cmp _ _ e) in Href. set_solver.
  - right. destruct (Multimap.refines_front cmp _ _ _ Href) as (a1 & a2 & -> & H1 & H2).
    exists p, a1, a2. split; [done|]. unfold Multimap.no_nan in Hn.
    rewrite Forall_app, Forall_cons in Hn. destruct Hn as (Hn1 & Hnp & Hn2); simpl in *.
    rewrite !Forall_forall in *. split; intros e He; (rewrite Multimap.rank_cmp;
      [|first [done|by apply Hn1|by apply Hn2]..]).
    + apply Z.ltb_lt. by apply H1.
    + apply Z.ltb_ge. by apply H2.
Qed.

(** *** Aggregation of one side *)
Section aggregate.
Context (cmp : PriceT → PriceT → bool) `{!Multimap.PriceOrder cmp}.
Context (locate : IdT → option OrderEntry).

Definition lv_lt (x y : BookLevel) : Prop := Multimap.rank (lv_price x) < Multimap.rank (lv_price y).
(** Strictly sorted levels with comparable prices. *)
Definition levels_wf (ls : list BookLevel) : Prop :=
  Forall (λ l, px_isnan (lv_price l) = false) ls ∧ StronglySorted lv_lt ls.

(** Quantity and number of orders of the level of rank [r]. *)
Definition level_at (r : Z) (ls : list BookLevel) : option (Z * Z) :=
  (λ p, (lv_totalQty p.2, lv_orderCount p.2)) <$>
    list_find (λ l, Multimap.rank (lv_price l) = r) ls.

Definition bump (q : Z) (x : option (Z * Z)) : option (Z * Z) :=
  match x with
  | None => Some (wrap32 q, 1)
  | Some (t, c) => Some (wrap32 (t + q), wrap32 (c + 1))
  end.

Lemma level_at_nil r : level_at r [] = None.
Proof. done. Qed.

Lemma level_at_cons r l ls : level_at r (l :: ls) =
  if decide (Multimap.rank (lv_price l) = r) then Some (lv_totalQty l, lv_orderCount l)
  else level_at r ls.
Proof.
  unfold level_at; simpl. case_decide; [done|]. by destruct (list_find _ ls) as [[]|].
Qed.

Lemma level_at_above r ls : Forall (λ l, r < Multimap.rank (lv_price l)) ls →
  level_at r ls = None.
Proof.
  induction 1 as [|l ls Hl _ IH]; [done|]. rewrite level_at_cons, decide_False by lia. done.
Qed.

Lemma level_upd_keys p q ls l : l ∈ level_upd cmp p q ls →
  lv_price l = p ∨ l ∈ ls.
Proof.
  induction ls as [|l' ls IH]; simpl; [intros ->%list_elem_of_singleton; by left|].
  repeat case_match; rewrite ?elem_of_cons; naive_solver.
Qed.

Lemma levels_wf_cons l ls : levels_wf (l :: ls) ↔
  px_isnan (lv_price l) = false ∧ levels_wf ls ∧ Forall (lv_lt l) ls.
Proof.
  unfold levels_wf. rewrite Forall_cons. split.
  - intros [[? ?] [? ?]%StronglySorted_inv]. auto.
  - intros (? & [? ?] & ?). repeat split; auto. by constructor.
Qed.

Lemma level_upd_wf p q ls : levels_wf ls → px_isnan p = false →
  levels_wf (level_upd cmp p q ls).
Proof.
  intros Hwf Hp. induction ls as [|l ls IH]; simpl.
  { apply levels_wf_cons. repeat split; auto; constructor. }
  pose proof Hwf as (Hl & Hls & Hlt)%levels_wf_cons.
  rewrite (Multimap.rank_cmp p), (Multimap.rank_cmp (lv_price l)) by done.
  destruct (Z.ltb_spec (Multimap.rank p) (Multimap.rank (lv_price l)));
    [|destruct (Z.ltb_spec (Multimap.rank (lv_price l)) (Multimap.rank p))];
    apply levels_wf_cons; simpl; (split; [done|]); (split; [by auto|]).
  - constructor; [unfold lv_lt; simpl; lia|].
    eapply Forall_impl; [exact Hlt|]. unfold lv_lt; simpl. lia.
  - apply Forall_forall. intros l' [E|Hin]%level_upd_keys; [unfold lv_lt; rewrite E; lia|].
    rewrite Forall_forall in Hlt. auto.
  - eapply Forall_impl; [exact Hlt|]. unfold lv_lt; simpl. lia.
Qed.

Lemma level_upd_at p q ls r : levels_wf ls → px_isnan p = false →
  level_at r (level_upd cmp p q ls) =
  if decide (Multimap.rank p = r) then bump q (level_at r ls) else level_at r ls.
Proof.
  intros Hwf Hp. induction ls as [|l ls IH]; simpl.
  { rewrite level_at_cons; simpl. by case_decide. }
  apply levels_wf_cons in Hwf as (Hl & Hls & Hlt).
  rewrite (Multimap.rank_cmp p), (Multimap.rank_cmp (lv_price l)) by done.
  destruct (Z.ltb_spec (Multimap.rank p) (Multimap.rank (lv_price l)));
    [|destruct (Z.ltb_spec (Multimap.rank (lv_price l)) (Multimap.rank p))];
    rewrite !level_at_cons; simpl.
  - case_decide; [subst r|done]. rewrite decide_False by lia.
    rewrite level_at_above; [done|]. eapply Forall_impl; [exact Hlt|]. unfold lv_lt. lia.
  - rewrite IH by done. repeat case_decide; try done. lia.
  - repeat case_decide; try done; lia.
Qed.

(** What the snapshot should report: the located orders at a price. *)
Definition located (l : Multimap.t) (r : Z) : list Z :=
  omap (λ e, if decide (Multimap.rank e.1 = r) then o_leavesQty <$> locate e.2 else None) l.

Lemma aggregate_at l acc r : Multimap.no_nan l → levels_wf acc →
  levels_wf (aggregate cmp locate l acc) ∧
  level_at r (aggregate cmp locate l acc) = foldl (λ x q, bump q x) (level_at r acc) (located l r).
Proof.
  intros Hn. revert acc. induction Hn as [|[p id] l Hp _ IH]; intros acc Hwf; simpl; [done|].
  simpl in Hp. destruct (locate id) as [o|]; simpl.
  - destruct (IH (level_upd cmp p (o_leavesQty o) acc)) as [? ->]; [by apply level_upd_wf|].
    split; [done|]. rewrite level_upd_at by done. by case_decide.
  - destruct (IH acc Hwf) as [? ->]. split; [done|]. by case_decide.
Qed.

Lemma foldl_bump qs t c : foldl (λ x q, bump q x) (Some (wrap32 t, wrap32 c)) qs =
  Some (wrap32 (t + foldr Z.add 0 qs), wrap32 (c + Z.of_nat (length qs))).
Proof.
  revert t c. induction qs as [|q qs IH]; intros t c; simpl.
  - by rewrite !Z.add_0_r.
  - rewrite !wrap32_add_l, IH. do 3 f_equal; lia.
Qed.

Lemma foldl_bump_None qs : foldl (λ x q, bump q x) None qs =
  if decide (qs = []) then None
  else Some (wrap32 (foldr Z.add 0 qs), wrap32 (Z.of_nat (length qs))).
Proof.
  destruct qs as [|q qs]; cbn [foldl foldr length bump]; [done|].
  rewrite decide_False by done. change 1 with (wrap32 1). rewrite foldl_bump. do 3 f_equal; lia.
Qed.

Lemma aggregate_spec l r : Multimap.wf cmp l →
  levels_wf (aggregate cmp locate l []) ∧
  level_at r (aggregate cmp locate l []) =
    if decide (located l r = []) then None
    else Some (wrap32 (foldr Z.add 0 (located l r)), wrap32 (Z.of_nat (length (located l r)))).
Proof.
  intros [Hn _]. destruct (aggregate_at l [] r Hn) as [? E].
  { repeat constructor. }
  split; [done|]. by rewrite E, level_at_nil, foldl_bump_None.
Qed.
End aggregate.

(** ** Properties *)

(** C1: the book refines the abstract book: from an initialised book, after
    any sequence of [add], [restore] and [remove] calls -- failing ones
    included, whatever the attached saver does -- each side of each
    instrument is the abstract arrival sequence in price-time priority, and
    only registered instruments have one. *)
Theorem book_refinement instr s ops : Forall op_ok ops →
  book_refines (exec_ops ops (init instr s (empty_book SV)).2)
    (foldl (λ ab op, abs_op op ab) (gset_to_gmap ([], []) instr) ops).
Proof. apply exec_ops_refines, init_refines. Qed.

(** [remove] undoes [add]: an order that is not resting cannot be removed;
    once added -- also when the saver threw out of [add], the insertion
    stands then -- it can, and that gives back the groups the book had. *)
Theorem remove_undoes_add (b : OrderBookImpl SV) o g : book_wf b →
  isValidId (o_orderId o) = true → isValidId (o_instrument o) = true →
  px_isnan (o_price o) = false →
  orderGroups b !! o_instrument o = Some g → not_resting o g →
  let b' := (add sv_save o b).2 in
  remove o b = (Throw "Unable to remove order from book - order not found!", b) ∧
  remove o b' = (Ok tt, mkBook (orderGroups b) (storage b')).
Proof.
  intros Hwf H1 H2 Hp Eg Hno. split; [by eapply remove_absent|].
  unfold add, assert_. run. rewrite H1; simpl. rewrite H2; simpl. rewrite Eg; simpl.
  destruct (group_insert o g) as [g'|] eqn:Hg.
  - assert (∃ s, (saver_save sv_save o (with_groups (<[o_instrument o:=g']> (orderGroups b)) b)).2
      = mkBook (<[o_instrument o := g']> (orderGroups b)) s) as [s Es].
    { unfold saver_save; simpl. destruct (storage b); simpl; eauto. }
    rewrite Es. by apply (remove_inserted b s o g g').
  - destruct Hno as (l & El & _). unfold group_insert in Hg. by destruct (o_side o).
Qed.

(** [getTop] is the price-time priority: an invalid identifier when the
    side is empty, and otherwise the order that arrived first among those at
    the best price (highest for buy, lowest for sell). *)
Theorem getTop_priority (b : OrderBookImpl SV) ab i ba sa : book_refines b ab →
  ab !! i = Some (ba, sa) →
  (∃ id, getTop i BUY_SIDE b = Ok id ∧
    (ba = [] ∧ id = IdT0 ∨ ∃ p a1 a2, ba = a1 ++ (p, id) :: a2 ∧
       Forall (λ e, px_gtb p e.1 = true) a1 ∧ Forall (λ e, px_gtb e.1 p = false) a2)) ∧
  (∃ id, getTop i SELL_SIDE b = Ok id ∧
    (sa = [] ∧ id = IdT0 ∨ ∃ p a1 a2, sa = a1 ++ (p, id) :: a2 ∧
       Forall (λ e, px_ltb p e.1 = true) a1 ∧ Forall (λ e, px_ltb e.1 p = false) a2)).
Proof.
  intros H Ea. specialize (H i). rewrite Ea in H. unfold getTop.
  destruct (orderGroups b !! i) as [g|]; [|done]. destruct H as [Hb Hs]; simpl in *.
  split; eexists; (split; [done|]); by apply (refines_top _).
Qed.

(** [find] is the first hit of [findAll], errors included, and that hit is
    the first one in priority order: nothing visited before it matched or
    stopped the search. *)
Theorem find_first_match (b : OrderBookImpl SV) f :
  find f b = obind (findAll f [] b) (λ ids, Ok (default IdT0 (head ids))) ∧
  ∀ id g l, find f b = Ok id → orderGroups b !! fn_instrument f = Some g →
    side_orders (fn_side f) g = Some l →
    (∃ l1 p l2, l = l1 ++ (p, id) :: l2 ∧ (fn_match f id).1 = true ∧
       Forall (λ e, fn_match f e.2 = (false, false)) l1) ∨
    (id = IdT0 ∧
     (Forall (λ e, fn_match f e.2 = (false, false)) l ∨
      ∃ l1 e l2, l = l1 ++ e :: l2 ∧ fn_match f e.2 = (false, true) ∧
        Forall (λ e, fn_match f e.2 = (false, false)) l1)).
Proof.
  unfold find, findAll. split.
  - destruct (orderGroups b !! fn_instrument f); [|done].
    destruct (fn_side f); simpl; rewrite ?find_loop_findAll; done.
  - intros id g l Hf Eg El. rewrite Eg in Hf.
    destruct (fn_side f); simplify_eq/=; apply find_loop_spec.
Qed.

(** C31: the snapshot aggregates the book: for each side the levels are
    strictly sorted by price, best first; a price has a level exactly when
    some resting order at it is in the order storage, and the level carries
    the number of those orders and the sum of their leaves quantities (both
    in 32-bit arithmetic). *)
Theorem getSnapshot_aggregates (b : OrderBookImpl SV) i g locate r : book_wf b →
  orderGroups b !! i = Some g →
  let snap := getSnapshot i locate b in
  let report qs := if decide (qs = []) then None
                   else Some (wrap32 (foldr Z.add 0 qs), wrap32 (Z.of_nat (length qs))) in
  levels_wf px_gtb (bids snap) ∧ levels_wf px_ltb (asks snap) ∧
  level_at px_gtb r (bids snap) = report (located px_gtb locate (buyOrder g) r) ∧
  level_at px_ltb r (asks snap) = report (located px_ltb locate (sellOrder g) r).
Proof.
  intros Hwf Eg. destruct (book_wf_lookup _ _ _ Hwf Eg) as [Hb Hs].
  unfold getSnapshot. rewrite Eg; simpl.
  destruct (aggregate_spec px_gtb locate _ r Hb), (aggregate_spec px_ltb locate _ r Hs). auto.
Qed.
End theory.

(** ** Witnesses: a book with one instrument and a saver that fails *)

Definition ex_instr : IdT := mkIdT 7 1.
Definition ex_order (n : Z) (sd : Side) (px : Z) : OrderEntry :=
  mkOrder (mkIdT n 1) IdT0 (px_of_pos px) NEW_ORDSTATUS sd LIMIT_ORDERTYPE (10 * n) 0 (10 * n)
    DAY_TIF px0 px0 px0 1 1 0 0 _3_SETTLTYPE AGENCY_CAPACITY USD_CURRENCY 0 0 0 SMP0
    ex_instr IdT0 IdT0 IdT0 [] IdT0 IdT0 IdT0 IdT0.
Definition ex_saver : OrderEntry → M unit unit := λ _, throw "disk full".
Definition ex_ops : list BookOp :=
  [OpAdd (ex_order 1 BUY_SIDE 100); OpAdd (ex_order 2 BUY_SIDE 101);
   OpRestore (ex_order 3 BUY_SIDE 101); OpAdd (ex_order 4 SELL_SIDE 102);
   OpAdd (ex_order 5 CROSS_SIDE 102); OpRemove (ex_order 9 SELL_SIDE 102)].
Definition ex_book : OrderBookImpl unit :=
  exec_ops ex_saver ex_ops (init {[ex_instr]} tt (empty_book unit)).2.
Definition ex_abook : ABook :=
  foldl (λ ab op, abs_op op ab) (gset_to_gmap ([], []) {[ex_instr]}) ex_ops.

Lemma ex_ops_ok : Forall op_ok ex_ops.
Proof. repeat constructor. Qed.

Lemma ex_book_refines : book_refines ex_book ex_abook.
Proof. apply exec_ops_refines; [apply init_refines|apply ex_ops_ok]. Qed.

Lemma book_refinement_witness :
  Forall op_ok ex_ops ∧
  (front <$> (buyOrder <$> orderGroups ex_book !! ex_instr)) = Some (mkIdT 2 1) ∧
  book_refines ex_book ex_abook.
Proof.
  split; [exact ex_ops_ok|]. split; [by vm_compute|].
  exact (book_refinement ex_saver {[ex_instr]} tt ex_ops ex_ops_ok).
Defined.

Definition ex_group : OrdersGroup :=
  mkGroup [(px_of_pos 101, mkIdT 2 1); (px_of_pos 101, mkIdT 3 1); (px_of_pos 100, mkIdT 1 1)]
    [(px_of_pos 102, mkIdT 4 1)].

Lemma ex_book_group : orderGroups ex_book !! ex_instr = Some ex_group.
Proof. by vm_compute. Qed.

Lemma remove_undoes_add_witness :
  remove (ex_order 6 BUY_SIDE 101) (add ex_saver (ex_order 6 BUY_SIDE 101) ex_book).2 =
  (Ok tt, mkBook (orderGroups ex_book)
     (storage (add ex_saver (ex_order 6 BUY_SIDE 101) ex_book).2)).
Proof.
  refine (proj2 (remove_undoes_add ex_saver ex_book (ex_order 6 BUY_SIDE 101) ex_group
    (book_refines_wf _ _ ex_book_refines) eq_refl eq_refl eq_refl ex_book_group _)).
  exists (buyOrder ex_group). split; [reflexivity|]. repeat constructor.
Defined.

Lemma getTop_priority_witness :
  ∃ ba sa, ex_abook !! ex_instr = Some (ba, sa) ∧
  ∃ id, getTop ex_instr BUY_SIDE ex_book = Ok id ∧
    (ba = [] ∧ id = IdT0 ∨ ∃ p a1 a2, ba = a1 ++ (p, id) :: a2 ∧
       Forall (λ e, px_gtb p e.1 = true) a1 ∧ Forall (λ e, px_gtb e.1 p = false) a2).
Proof.
  exists [(px_of_pos 100, mkIdT 1 1); (px_of_pos 101, mkIdT 2 1); (px_of_pos 101, mkIdT 3 1)],
    [(px_of_pos 102, mkIdT 4 1)].
  split; [by vm_compute|].
  exact (proj1 (getTop_priority ex_book ex_abook ex_instr _ [(px_of_pos 102, mkIdT 4 1)]
    ex_book_refines ltac:(by vm_compute))).
Defined.

(** A search that accepts the order 3 and stops at the order 1. *)
Definition ex_fn : OrderFunctor :=
  mkFunctor ex_instr BUY_SIDE (λ i, (id_ i =? 3, id_ i =? 1)).

Lemma find_first_match_witness :
  ∃ l1 p l2, buyOrder ex_group = l1 ++ (p, mkIdT 3 1) :: l2 ∧
    Forall (λ e, fn_match ex_fn e.2 = (false, false)) l1.
Proof.
  destruct (proj2 (find_first_match ex_book ex_fn) (mkIdT 3 1) ex_group (buyOrder ex_group)
    ltac:(by vm_compute) ex_book_group eq_refl) as [(l1 & p & l2 & H1 & _ & H2)|[H _]];
    [exists l1, p, l2; split; assumption|discriminate H].
Defined.

Definition ex_locate (i : IdT) : option OrderEntry :=
  if id_ i =? 2 then Some (ex_order 2 BUY_SIDE 101)
  else if id_ i =? 3 then Some (ex_order 3 BUY_SIDE 101) else None.

Lemma getSnapshot_aggregates_witness :
  bids (getSnapshot ex_instr ex_locate ex_book) = [mkLevel (px_of_pos 101) 50 2] ∧
  level_at px_gtb (- px_key (px_of_pos 101)) (bids (getSnapshot ex_instr ex_locate ex_book)) =
    Some (50, 2).
Proof.
  split; [by vm_compute|].
  rewrite (proj1 (proj2 (proj2 (getSnapshot_aggregates ex_book ex_instr ex_group ex_locate _
    (book_refines_wf _ _ ex_book_refines) ex_book_group)))).
  by vm_compute.
Defined.

End Book.
