(* ===== verification/LinkTree.v ===== *)
(** The dependency tree of transactions, [src/src/NLinkedTree.cpp]: a
    transaction becomes ready when no earlier live transaction uses one of its
    objects. *)

From Stdlib Require Import String ZArith Lia.
From S2P Require Import Prelude Types.

(** enum ObjectType -- src/src/TransactionDef.h:50-56 *)
Inductive ObjectType :=
  invalid_ObjectType | instrument_ObjectType | order_ObjectType | execution_ObjectType.
#[global] Instance ObjectType_dec : EqDecision ObjectType. Proof. solve_decision. Defined.
#[global] Program Instance ObjectType_enum : Enum ObjectType := {|
  enum_all := [invalid_ObjectType; instrument_ObjectType; order_ObjectType;
               execution_ObjectType] |}.
Next Obligation. solve_enum. Qed.

(** struct ObjectInTransaction -- src/src/TransactionDef.h:58-78
    Two objects are the same when type and identifier are. *)
Record ObjectInTransaction := mkObj { ob_type : ObjectType; ob_id : IdT }.
#[global] Instance Obj_dec : EqDecision ObjectInTransaction. Proof. solve_decision. Defined.
#[global] Program Instance Obj_countable : Countable ObjectInTransaction :=
  inj_countable (λ o, (enum_code (ob_type o), ob_id o))
    (λ p, (λ t, mkObj t p.2) <$> enum_of_code p.1) _.
Next Obligation. intros [t i]. simpl. by rewrite enum_of_code_code. Qed.

(** const size_t DEPENDANT_OBJECT_LIMIT -- src/src/TransactionDef.h:80-87
    [ObjectsInTransaction]: the array prefix [list_[0..size_)]. *)
Definition DEPENDANT_OBJECT_LIMIT : nat := 10.
Abbreviation ObjectsInTransaction := (list ObjectInTransaction).

Module NLinkTree.

Abbreviation K := IdT.
Abbreviation O := ObjectInTransaction.

(** struct KParam and its NTreeNode -- src/src/NLinkedTree.h:62-86
    One node per live key: a node pointer is the node's key. *)
Record Node (V : Type) := mkNode {
  parents : gset K; children : gset K; value : V; dependsOn : ObjectsInTransaction }.
Arguments mkNode {V} _ _ _ _.
Arguments parents {V} _.
Arguments children {V} _.
Arguments value {V} _.
Arguments dependsOn {V} _.

(** class NLinkTree -- src/src/NLinkedTree.h:93-127
    [root] lists the ready transactions, [depends] maps an object to its users
    ([OParam::usedIn_], an ordered set), [current] is the iterator. *)
Record t (V : Type) := mkTree {
  root : list K; keys : gmap K (Node V); depends : gmap O (list K); current : option K }.
Arguments mkTree {V} _ _ _ _.
Arguments root {V} _.
Arguments keys {V} _.
Arguments depends {V} _.
Arguments current {V} _.

Section ops.
Context {V : Type}.
Implicit Types (tr : t V) (k key : K).

(** NLinkTree::NLinkTree -- src/src/NLinkedTree.cpp:139-143 *)
Definition empty : t V := mkTree [] ∅ ∅ None.

(** NLinkTree::clear -- src/src/NLinkedTree.cpp:150-177
    [current_] is not reset. *)
Definition clear (tr : t V) : t V := mkTree [] ∅ ∅ (current tr).

(** [std::set<K>::insert] on the sorted sequence of its elements. *)
Fixpoint kset_insert (k : K) (l : list K) : list K :=
  match l with
  | [] => [k]
  | x :: l' => if IdT_ltb k x then k :: l
               else if IdT_ltb x k then x :: kset_insert k l' else l
  end.

(** NLinkTree::add, first loop -- src/src/NLinkedTree.cpp:195-221
    The first loop of [add]: enter the key as the last user of each object and
    collect the former last users. *)
Fixpoint add_depends (key : K) (depend : list O) (deps : gmap O (list K)) (prnts : gset K) :
    outcome (gmap O (list K) * gset K) :=
  match depend with
  | [] => Ok (deps, prnts)
  | obj :: depend' =>
      if negb (isValidId (ob_id obj)) then Crash "assert"
      else match deps !! obj with
           | None => add_depends key depend' (<[obj := [key]]> deps) prnts
           | Some usedIn =>
               match last usedIn with
               | None => Crash "assert"
               | Some p =>
                   if IdT_ltb p key then
                     add_depends key depend' (<[obj := kset_insert key usedIn]> deps)
                       ({[p]} ∪ prnts)
                   else Crash "assert"
               end
           end
  end.

Definition add_child (k : K) (n : Node V) : Node V :=
  mkNode (parents n) ({[k]} ∪ children n) (value n) (dependsOn n).

(** NLinkTree::add -- src/src/NLinkedTree.cpp:179-268
    Returns the result and [*readyToExecuteAdded]. *)
Definition add (key : K) (v : V) (depend : ObjectsInTransaction) : M (t V) (bool * Z) := λ tr,
  if negb (bool_decide (map_Forall (λ k _, IdT_lt k key) (keys tr))) then (Crash "assert", tr)
  else if bool_decide (is_Some (keys tr !! key)) then (Ok (false, 0), tr)
  else match add_depends key depend (depends tr) ∅ with
       | Ok (deps, prnts) =>
           let found := filter (λ p, is_Some (keys tr !! p)) prnts in
           let keys' := map_imap (λ k n, Some (if bool_decide (k ∈ found)
                                               then add_child key n else n)) (keys tr) in
           let isroot := bool_decide (prnts = ∅) in
           (Ok (true, if isroot then 1 else 0),
            mkTree (if isroot then root tr ++ [key] else root tr)
              (<[key := mkNode found ∅ v depend]> keys') deps (current tr))
       | Throw m => (Throw m, tr)
       | Crash w => (Crash w, tr)
       end.

(** The elements before and after a key of an ordered set. *)
Fixpoint kset_split (key : K) (l : list K) : option (list K * list K) :=
  match l with
  | [] => None
  | x :: l' => if IdT_eqb x key then Some ([], l')
               else (λ p, (x :: p.1, p.2)) <$> kset_split key l'
  end.

(** [operator<] on [ChildElement] -- src/src/NLinkedTree.cpp:29-46 *)
Definition ChildElement_ltb (l r : K * K) : bool :=
  if IdT_eqb l.1 r.1 then IdT_ltb l.2 r.2 else IdT_ltb l.1 r.1.

(** [std::set<ChildElement>::insert]. *)
Fixpoint childn_insert (e : K * K) (l : list (K * K)) : list (K * K) :=
  match l with
  | [] => [e]
  | x :: l' => if ChildElement_ltb e x then e :: l
               else if ChildElement_ltb x e then x :: childn_insert e l' else l
  end.

(** NLinkTree::remove, loop over the objects -- src/src/NLinkedTree.cpp:346-405
    The loop of [remove] over the objects: take the key out of each object's
    users and collect the (next, previous) users. *)
Fixpoint unlink_depends (key : K) (depend : list O) (deps : gmap O (list K))
    (childn : list (K * K)) : gmap O (list K) * list (K * K) :=
  match depend with
  | [] => (deps, childn)
  | obj :: depend' =>
      match deps !! obj with
      | None | Some [] => unlink_depends key depend' deps childn
      | Some usedIn =>
          match kset_split key usedIn with
          | None => unlink_depends key depend' deps childn
          | Some (before, after) =>
              let child := default IdT0 (head after) in
              let prnt := default IdT0 (last before) in
              let childn' :=
                if negb (IdT_eqb IdT0 child) || negb (IdT_eqb IdT0 prnt)
                then childn_insert (child, prnt) childn else childn in
              let deps' := match before ++ after with
                           | [] => delete obj deps
                           | l => <[obj := l]> deps
                           end in
              unlink_depends key depend' deps' childn'
          end
      end
  end.

Definition del_child (k : K) (n : Node V) : Node V :=
  mkNode (parents n) (children n ∖ {[k]}) (value n) (dependsOn n).
Definition set_parents (ps : gset K) (n : Node V) : Node V :=
  mkNode ps (children n) (value n) (dependsOn n).

(** NLinkTree::remove, loop over the children -- src/src/NLinkedTree.cpp:407-458
    The loop of [remove] over the collected pairs: bind each child to the
    parent, or make it ready. *)
Fixpoint relink (key : K) (childn : list (K * K)) (ks : gmap K (Node V)) (rt : list K)
    (ready : Z) : gmap K (Node V) * list K * Z :=
  match childn with
  | [] => (ks, rt, ready)
  | (child, prnt) :: rest =>
      let prntIt := if IdT_eqb IdT0 prnt then None else ks !! prnt in
      let ks := match prntIt with Some n => <[prnt := del_child key n]> ks | None => ks end in
      if IdT_eqb IdT0 child then relink key rest ks rt ready
      else match ks !! child with
           | None => relink key rest ks rt ready
           | Some n =>
               let ps := parents n ∖ {[key]} in
               match prntIt with
               | Some _ => relink key rest (<[child := set_parents ({[prnt]} ∪ ps) n]> ks) rt ready
               | None =>
                   let ks := <[child := set_parents ps n]> ks in
                   let lastPair := match rest with
                                   | [] => true
                                   | (c, _) :: _ => negb (IdT_eqb child c)
                                   end in
                   if bool_decide (ps = ∅) && lastPair
                   then relink key rest ks (rt ++ [child]) (ready + 1)
                   else relink key rest ks rt ready
               end
           end
  end.

(** The predecessor of [current_] in the root list. *)
Fixpoint pred_in (k : K) (l : list K) : option K :=
  match l with
  | x :: ((y :: _) as l') => if IdT_eqb y k then Some x else pred_in k l'
  | _ => None
  end.

Definition root_erase (k : K) (l : list K) : list K :=
  default l (rm1 (λ x, IdT_eqb x k) l).

(** NLinkTree::remove -- src/src/NLinkedTree.cpp:270-466 *)
Definition remove (key : K) : M (t V) (bool * Z) := λ tr,
  match keys tr !! key with
  | None => (Ok (false, 0), tr)
  | Some nd =>
      let ks := delete key (keys tr) in
      let isroot := bool_decide (parents nd = ∅) in
      if isroot && bool_decide (root tr = [])
      then (Ok (false, 0), mkTree (root tr) ks (depends tr) (current tr))
      else
        let cur := if isroot && bool_decide (current tr = Some key) then
                     match root tr with
                     | x :: _ => if IdT_eqb x key then None
                                 else match pred_in key (root tr) with
                                      | Some y => Some y
                                      | None => current tr
                                      end
                     | [] => current tr
                     end
                   else current tr in
        let rt := if isroot then root_erase key (root tr) else root tr in
        let du := unlink_depends key (dependsOn nd) (depends tr) [] in
        let r := relink key du.2 ks rt 0 in
        (Ok (true, r.2), mkTree r.1.2 r.1.1 du.1 cur)
  end.

(** NLinkTree::getParents -- src/src/NLinkedTree.cpp:468-486 *)
Definition getParents (key : K) (tr : t V) (out : gset K) : option (gset K) :=
  (λ n, parents n ∪ out) <$> keys tr !! key.

(** NLinkTree::getChildren -- src/src/NLinkedTree.cpp:488-506 *)
Definition getChildren (key : K) (tr : t V) (out : gset K) : option (gset K) :=
  (λ n, children n ∪ out) <$> keys tr !! key.

(** The element after the first occurrence of a key. *)
Fixpoint after_in (k : K) (l : list K) : option K :=
  match l with
  | [] => None
  | x :: l' => if IdT_eqb k x then head l' else after_in k l'
  end.

(** Reading [node->key_] and [node->value_] through a pointer of the root list. *)
Definition deref (tr : t V) (k : K) : outcome (K * V) :=
  match keys tr !! k with
  | Some n => Ok (k, value n)
  | None => Crash "dangling node pointer"
  end.

(** NLinkTree::next(after, key, value) -- src/src/NLinkedTree.cpp:508-552 *)
Definition next_after (after : K) (tr : t V) : outcome (option (K * V)) :=
  match (if IdT_eqb IdT0 after then head (root tr) else after_in after (root tr)) with
  | None => Ok None
  | Some k => obind (deref tr k) (λ kv, Ok (Some kv))
  end.

(** NLinkTree::next(key, value) -- src/src/NLinkedTree.cpp:554-609 *)
Definition next : M (t V) (option (K * V)) := λ tr,
  match (match current tr with
         | None => head (root tr)
         | Some c => after_in c (root tr)
         end) with
  | None => (Ok None, tr)
  | Some k =>
      match deref tr k with
      | Ok kv => (Ok (Some kv), mkTree (root tr) (keys tr) (depends tr) (Some k))
      | Throw m => (Throw m, tr)
      | Crash w => (Crash w, tr)
      end
  end.

(** NLinkTree::isCurrentValid -- src/src/NLinkedTree.cpp:644-659 *)
Definition isCurrentValid (tr : t V) : bool :=
  match current tr with
  | None => false
  | Some c => bool_decide (c ∈ root tr)
  end.

(** NLinkTree::current -- src/src/NLinkedTree.cpp:611-642 *)
Definition getCurrent (tr : t V) : outcome (option (K * V)) :=
  match current tr with
  | None => Ok None
  | Some c => if bool_decide (c ∈ root tr) then obind (deref tr c) (λ kv, Ok (Some kv))
              else Ok None
  end.
End ops.

(** ** Ordered sets as sorted lists *)

(** [x] is immediately followed by [y]. *)
Fixpoint adj (l : list K) (x y : K) : Prop :=
  match l with
  | [] => False
  | z :: l' => (z = x ∧ head l' = Some y) ∨ adj l' x y
  end.

Lemma adj_elem l x y : adj l x y → x ∈ l ∧ y ∈ l.
Proof.
  induction l as [|z l IH]; simpl; [done|]. intros [[-> H]|H].
  - destruct l; simplify_eq/=. set_solver.
  - apply IH in H as [??]. set_solver.
Qed.

Lemma adj_app l1 l2 x y :
  adj (l1 ++ l2) x y ↔ adj l1 x y ∨ adj l2 x y ∨ (last l1 = Some x ∧ head l2 = Some y).
Proof.
  induction l1 as [|z l1 IH]; simpl; [naive_solver|]. rewrite IH.
  destruct l1 as [|w l1]; simpl; [|naive_solver].
  destruct l2; simpl; naive_solver.
Qed.

Lemma adj_first l x k : last l = Some x → adj (l ++ [k]) x k.
Proof. intros. apply adj_app. auto. Qed.

Definition sorted : list K → Prop := StronglySorted IdT_lt.

Lemma sorted_app l1 l2 : sorted (l1 ++ l2) ↔
  sorted l1 ∧ sorted l2 ∧ ∀ x y, x ∈ l1 → y ∈ l2 → IdT_lt x y.
Proof.
  induction l1 as [|z l1 IH]; simpl.
  { split; [|naive_solver]. intros ?. split; [constructor|]. set_solver. }
  split.
  - intros [H1 H2]%StronglySorted_inv. apply IH in H1 as (? & ? & Hxy).
    rewrite Forall_app, !Forall_forall in H2. destruct H2.
    split; [constructor; [done|by apply Forall_forall]|]. split; [done|].
    intros x y [->|?]%elem_of_cons ?; auto.
  - intros ([H1 H2]%StronglySorted_inv & ? & Hxy). constructor.
    + apply IH. split; [done|]. split; [done|]. intros. apply Hxy; set_solver.
    + rewrite Forall_app. split; [done|]. apply Forall_forall. intros. apply Hxy; set_solver.
Qed.

Lemma sorted_NoDup l : sorted l → NoDup l.
Proof.
  induction 1 as [|x l _ IH Hall]; constructor; [|done].
  rewrite Forall_forall in Hall. intros Hx. by apply (irreflexivity IdT_lt x), Hall.
Qed.

Lemma adj_lt l x y : sorted l → adj l x y → IdT_lt x y.
Proof.
  induction 1 as [|z l _ IH Hall]; simpl; [done|]. intros [[-> H]|H]; [|auto].
  rewrite Forall_forall in Hall. apply Hall. destruct l; simplify_eq/=. left.
Qed.

(** Something precedes every element that is not the least one. *)
Lemma adj_pred_exists l x y : sorted l → x ∈ l → y ∈ l → IdT_lt x y → ∃ p, adj l p y.
Proof.
  intros Hl. revert x. induction Hl as [|z l Hs IH Hall]; intros x; simpl; [set_solver|].
  rewrite Forall_forall in Hall. intros Hx Hy Hxy. apply elem_of_cons in Hy as [->|Hy].
  { exfalso. apply elem_of_cons in Hx as [->|Hx]; [by apply (irreflexivity IdT_lt z)|].
    eapply IdT_lt_asym; [exact Hxy|auto]. }
  destruct l as [|w l]; [set_solver|]. destruct (decide (w = y)) as [->|Hne].
  { exists z. auto. }
  destruct (IH w ltac:(left) Hy) as [p Hp]; [|exists p; by right].
  inversion Hs; subst. apply elem_of_cons in Hy as [?|Hy]; [congruence|].
  rewrite Forall_forall in *. auto.
Qed.

Lemma kset_insert_last k l : (∀ x, x ∈ l → IdT_lt x k) → kset_insert k l = l ++ [k].
Proof.
  induction l as [|x l IH]; intros Hl; simpl; [done|].
  assert (IdT_lt x k) as Hx by (apply Hl; left).
  destruct (IdT_ltb k x) eqn:E; [by apply IdT_lt_asym in Hx|].
  rewrite Hx, IH; [done|]. intros. apply Hl. by right.
Qed.

Lemma kset_split_Some k l b a : kset_split k l = Some (b, a) → l = b ++ k :: a.
Proof.
  revert b. induction l as [|x l IH]; intros b; simpl; [done|].
  destruct (IdT_eqb x k) eqn:E.
  - intros [= <- <-]. by apply IdT_eqb_spec in E as ->.
  - destruct (kset_split k l) as [[b' a']|] eqn:E'; [|done]. intros [= <- <-].
    by rewrite (IH b').
Qed.

Lemma kset_split_elem k l : k ∈ l → is_Some (kset_split k l).
Proof.
  induction l as [|x l IH]; simpl; [set_solver|]. intros H.
  destruct (IdT_eqb x k) eqn:E; [eauto|]. apply elem_of_cons in H as [->|H].
  - by rewrite (proj2 (IdT_eqb_spec x x)) in E.
  - destruct (IH H) as [? ->]. eauto.
Qed.

Lemma IdT_eqb_false x y : IdT_eqb x y = false ↔ x ≠ y.
Proof. rewrite <- not_true_iff_false, IdT_eqb_spec. done. Qed.

(** The children set is an ordered set too. *)
Definition ce_lt (l r : K * K) : Prop := IdT_lt l.1 r.1 ∨ (l.1 = r.1 ∧ IdT_lt l.2 r.2).

Lemma ChildElement_ltb_spec l r : ChildElement_ltb l r = true ↔ ce_lt l r.
Proof.
  unfold ChildElement_ltb, ce_lt. destruct (IdT_eqb l.1 r.1) eqn:E.
  - apply IdT_eqb_spec in E as ->. fold (IdT_lt l.2 r.2). split; [auto|].
    intros [H|[_ H]]; [|done]. by apply (irreflexivity IdT_lt) in H.
  - apply IdT_eqb_false in E. fold (IdT_lt l.1 r.1). naive_solver.
Qed.

Lemma ce_lt_trans x y z : ce_lt x y → ce_lt y z → ce_lt x z.
Proof.
  unfold ce_lt. rewrite !IdT_lt_spec. destruct x as [[] []], y as [[] []], z as [[] []]; simpl.
  intros [?|[[= -> ->] ?]] [?|[[= -> ->] ?]]; try (left; lia). right. split; [done|lia].
Qed.

Lemma ce_lt_total x y : ¬ ce_lt x y → ¬ ce_lt y x → x = y.
Proof.
  unfold ce_lt. destruct x as [a b], y as [c d]; simpl. intros H1 H2.
  destruct (trichotomy IdT_lt a c) as [?|[->|?]]; [naive_solver| |naive_solver].
  destruct (trichotomy IdT_lt b d) as [?|[->|?]]; naive_solver.
Qed.

Lemma childn_insert_spec e l : StronglySorted ce_lt l →
  StronglySorted ce_lt (childn_insert e l) ∧ ∀ x, x ∈ childn_insert e l ↔ x = e ∨ x ∈ l.
Proof.
  induction 1 as [|y l Hs [IH1 IH2] Hall]; simpl.
  { split; [repeat constructor|]. set_solver. }
  destruct (ChildElement_ltb e y) eqn:E1; [|destruct (ChildElement_ltb y e) eqn:E2].
  - apply ChildElement_ltb_spec in E1. split; [|set_solver].
    constructor; [by constructor|]. constructor; [done|].
    eapply Forall_impl; [exact Hall|]. intros z. by apply ce_lt_trans.
  - apply ChildElement_ltb_spec in E2. split; [|set_solver]. constructor; [done|].
    rewrite Forall_forall in *. intros z [->|?]%IH2; auto.
  - assert (e = y) as ->.
    { apply ce_lt_total; rewrite <- ChildElement_ltb_spec; congruence. }
    split; [by constructor|]. set_solver.
Qed.

(** ** Loop specifications *)

Definition users (deps : gmap O (list K)) (o : O) : list K := default [] (deps !! o).

Lemma users_insert deps o l o' :
  users (<[o := l]> deps) o' = if decide (o = o') then l else users deps o'.
Proof.
  unfold users. case_decide as E; [subst; by rewrite lookup_insert_eq|].
  by rewrite lookup_insert_ne.
Qed.

Lemma users_delete deps o o' :
  users (delete o deps) o' = if decide (o = o') then [] else users deps o'.
Proof.
  unfold users. case_decide as E; [subst; by rewrite lookup_delete_eq|].
  by rewrite lookup_delete_ne.
Qed.

Definition no_empty (deps : gmap O (list K)) : Prop := ∀ o, deps !! o ≠ Some [].

Lemma add_depends_spec key depend deps ps :
  NoDup depend → Forall (λ o, isValidId (ob_id o) = true) depend → no_empty deps →
  (∀ o k, o ∈ depend → k ∈ users deps o → IdT_lt k key) →
  ∃ deps' ps', add_depends key depend deps ps = Ok (deps', ps') ∧ no_empty deps' ∧
    (∀ o, users deps' o = if decide (o ∈ depend) then users deps o ++ [key] else users deps o) ∧
    (∀ p, p ∈ ps' ↔ p ∈ ps ∨ ∃ o, o ∈ depend ∧ last (users deps o) = Some p).
Proof.
  intros Hnd. revert deps ps. induction Hnd as [|o depend Ho Hnd IH]; intros deps ps Hv Hne Hlt.
  { exists deps, ps. split; [done|]. split; [done|]. split; [|set_solver].
    intros o. by rewrite decide_False by set_solver. }
  apply Forall_cons in Hv as [Hvo Hv].
  set (l := users deps o).
  set (ps1 := match last l with Some p => {[p]} ∪ ps | None => ps end).
  assert (add_depends key (o :: depend) deps ps =
    add_depends key depend (<[o := l ++ [key]]> deps) ps1) as ->.
  { simpl. rewrite Hvo; simpl. subst ps1 l. unfold users in *.
    destruct (deps !! o) as [l|] eqn:E; simpl; [|done].
    destruct (last l) as [p|] eqn:El; [|apply last_None in El as ->; by destruct (Hne o)].
    assert (∀ k, k ∈ l → IdT_lt k key) as Hl.
    { intros k Hk. apply (Hlt o); [left|]. by rewrite E. }
    rewrite (Hl p) by by apply last_Some_elem_of. by rewrite kset_insert_last. }
  destruct (IH (<[o := l ++ [key]]> deps) ps1) as (deps' & ps' & -> & Hne' & Hu' & Hp'); [done|..].
  - intros o'. destruct (decide (o = o')) as [->|]; [rewrite lookup_insert_eq; by destruct l|].
    by rewrite lookup_insert_ne.
  - intros o' k Ho'. rewrite users_insert, decide_False by (by intros <-).
    apply Hlt. by right.
  - exists deps', ps'. split; [done|]. split; [done|]. split.
    + intros o'. rewrite Hu', users_insert. destruct (decide (o = o')) as [<-|].
      * rewrite decide_False by done. by rewrite decide_True by left.
      * destruct (decide (o' ∈ depend)); [by rewrite decide_True by (by right)|].
        rewrite decide_False; [done|]. set_solver.
    + intros p. rewrite Hp'. subst ps1.
      assert (∀ o', o' ∈ depend → users (<[o := l ++ [key]]> deps) o' = users deps o') as Hsame.
      { intros o' Ho'. by rewrite users_insert, decide_False by (by intros <-). }
      split.
      * intros [H|(o' & Ho' & H)]; [|rewrite Hsame in H by done; set_solver].
        destruct (last l) as [q|] eqn:El; [|by left]. apply elem_of_union in H as [H|H]; [|by left].
        apply elem_of_singleton in H as ->. right. exists o. split; [left|done].
      * intros [H|(o' & Ho' & H)]; [left; by destruct (last l); set_solver|].
        apply elem_of_cons in Ho' as [->|Ho']; [left; fold l in H; rewrite H; set_solver|].
        right. exists o'. by rewrite Hsame.
Qed.

(** The pair [remove] records for an object whose users are [b ++ key :: a]. *)
Definition pair_of (b a : list K) : K * K := (default IdT0 (head a), default IdT0 (last b)).

Lemma unlink_depends_spec key depend deps childn :
  NoDup depend → (∀ o, o ∈ depend → key ∈ users deps o) → no_empty deps →
  StronglySorted ce_lt childn →
  let r := unlink_depends key depend deps childn in
  no_empty r.1 ∧ StronglySorted ce_lt r.2 ∧
  (∀ o, o ∉ depend → users r.1 o = users deps o) ∧
  (∀ o b a, o ∈ depend → kset_split key (users deps o) = Some (b, a) → users r.1 o = b ++ a) ∧
  (∀ e, e ∈ r.2 ↔ e ∈ childn ∨ e ≠ (IdT0, IdT0) ∧
     ∃ o b a, o ∈ depend ∧ kset_split key (users deps o) = Some (b, a) ∧ e = pair_of b a).
Proof.
  intros Hnd. revert deps childn.
  induction Hnd as [|o depend Ho Hnd IH]; intros deps childn Hkey Hne Hs.
  { simpl. repeat split; try done; set_solver. }
  destruct (kset_split_elem key (users deps o)) as [[b a] Hsp]; [apply Hkey; left|].
  set (deps1 := match b ++ a with [] => delete o deps | l => <[o := l]> deps end).
  set (childn1 := if negb (IdT_eqb IdT0 (pair_of b a).1) || negb (IdT_eqb IdT0 (pair_of b a).2)
                  then childn_insert (pair_of b a) childn else childn).
  assert (unlink_depends key (o :: depend) deps childn =
    unlink_depends key depend deps1 childn1) as ->.
  { cbn [unlink_depends]. unfold users in Hsp, Hkey.
    destruct (deps !! o) as [[|x l]|] eqn:E; [done| |done].
    change (default [] (Some (x :: l))) with (x :: l) in Hsp. rewrite Hsp. done. }
  assert (users deps1 o = b ++ a) as Hu1.
  { subst deps1. destruct (b ++ a); [by rewrite users_delete, decide_True|].
    by rewrite users_insert, decide_True. }
  assert (∀ o', o ≠ o' → users deps1 o' = users deps o') as Hu2.
  { intros o' Hoo. subst deps1.
    destruct (b ++ a); [by rewrite users_delete, decide_False|by rewrite users_insert, decide_False]. }
  assert (no_empty deps1) as Hne1.
  { intros o'. subst deps1. specialize (Hne o'). destruct (b ++ a), (decide (o = o')) as [->|];
      rewrite ?lookup_delete_eq, ?lookup_delete_ne, ?lookup_insert_eq, ?lookup_insert_ne; done. }
  assert (StronglySorted ce_lt childn1 ∧
    ∀ e, e ∈ childn1 ↔ e ∈ childn ∨ e ≠ (IdT0, IdT0) ∧ e = pair_of b a) as [Hs1 Hc1].
  { subst childn1. destruct (childn_insert_spec (pair_of b a) childn Hs) as [Hsi Hei].
    destruct (pair_of b a) as [c p]; simpl.
    destruct (IdT_eqb IdT0 c) eqn:Ec, (IdT_eqb IdT0 p) eqn:Ep; simpl;
      rewrite ?IdT_eqb_spec, ?IdT_eqb_false in *; subst;
      (split; [done|]); intros e; rewrite ?Hei; naive_solver. }
  destruct (IH deps1 childn1) as (H1 & H2 & H3 & H4 & H5); [|done..|].
  { intros o' Ho'. rewrite Hu2 by (by intros ->). apply Hkey. by right. }
  split; [done|]. split; [done|]. split; [|split].
  - intros o' [? ?]%not_elem_of_cons. rewrite H3, Hu2 by done. done.
  - intros o' b' a' [->|Ho']%elem_of_cons Hsp'.
    + rewrite Hsp in Hsp'. simplify_eq. by rewrite H3, Hu1.
    + apply H4; [done|]. by rewrite Hu2 by (by intros ->).
  - intros e. rewrite H5, Hc1. split.
    + intros [[?|[? ->]]|(? & o' & b' & a' & Ho' & Hsp' & ->)]; [by left|..]; right; (split; [done|]).
      * exists o, b, a. split; [left|done].
      * exists o', b', a'. rewrite Hu2 in Hsp' by (by intros ->). split; [by right|done].
    + intros [?|(? & o' & b' & a' & [->|Ho']%elem_of_cons & Hsp' & ->)]; [by left; left|..].
      * rewrite Hsp in Hsp'. simplify_eq. left. by right.
      * right. split; [done|]. exists o', b', a'. rewrite Hu2 by (by intros ->). done.
Qed.

(** Pointwise relation of two node maps with the same keys. *)
Abbreviation node_rel R ks ks' :=
  (∀ k, option_relation (R k) (λ _, False) (λ _, False) (ks !! k) (ks' !! k)).

Section relink.
Context {V : Type}.

(** What the binding loop does to the node of [k], for the recorded pairs. *)
Definition relinked (key : K) (childn : list (K * K)) (k : K) (n n' : Node V) : Prop :=
  value n' = value n ∧ dependsOn n' = dependsOn n ∧
  (∀ x, x ∈ children n' ↔ x ∈ children n ∧ (x ≠ key ∨ ∀ c, (c, k) ∉ childn)) ∧
  (∀ x, x ∈ parents n' ↔
     (x ∈ parents n ∧ (x ≠ key ∨ ∀ p, (k, p) ∉ childn)) ∨ ((k, x) ∈ childn ∧ x ≠ IdT0)).

Lemma relinked_trans key c p rest k n n1 n2 : p ≠ key ∨ p = IdT0 →
  relinked key [(c, p)] k n n1 → relinked key rest k n1 n2 →
  relinked key ((c, p) :: rest) k n n2.
Proof.
  intros Hp (E1 & E2 & Hc1 & Hp1) (E3 & E4 & Hc2 & Hp2).
  split; [congruence|]. split; [congruence|]. split; intros x.
  - rewrite Hc2, Hc1. split.
    + intros [[? H1] H2]. split; [done|]. destruct (decide (x = key)) as [->|]; [|by left].
      right. set_solver.
    + intros [? [?|H]]; [auto|]. split; [split; [done|]|]; right; set_solver.
  - rewrite Hp2, Hp1. split.
    + intros [[[[? H1]|[? ?]] H2]|[? ?]].
      * left. split; [done|]. destruct (decide (x = key)) as [->|]; [|by left]. right. set_solver.
      * right. set_solver.
      * right. set_solver.
    + intros [[? [?|H]]|[[[= -> ->]|H]%elem_of_cons ?]];
        [left; split; [left; split; [done|by left]|by left]|..].
      * left. split; [left; split; [done|]|]; right; set_solver.
      * left. split; [right; set_solver|]. naive_solver.
      * right. set_solver.
Qed.

Definition last_pair (c : K) (rest : list (K * K)) : bool :=
  match rest with [] => true | (c', _) :: _ => negb (IdT_eqb c c') end.

Lemma last_pair_spec c p rest : StronglySorted ce_lt ((c, p) :: rest) →
  last_pair c rest = true ↔ ∀ q, (c, q) ∉ rest.
Proof.
  intros [Hs Hall]%StronglySorted_inv. destruct rest as [|[c' p'] rest]; simpl; [set_solver|].
  rewrite negb_true_iff, IdT_eqb_false. split; [|intros H ->; by apply (H p'); left].
  intros Hne q Hq. apply elem_of_cons in Hq as [[= -> ->]|Hq]; [done|].
  apply StronglySorted_inv in Hs as [_ Hs]. rewrite !Forall_forall in *.
  assert (ce_lt (c, p) (c', p')) as H1 by (apply Hall; left).
  apply Hs in Hq. unfold ce_lt in *; simpl in *. rewrite !IdT_lt_spec in *.
  destruct c, c'; simpl in *. naive_solver lia.
Qed.

Lemma last_pair_false c rest : last_pair c rest = false → ∃ q, (c, q) ∈ rest.
Proof.
  destruct rest as [|[c' p'] rest]; simpl; [done|].
  intros ->%negb_false_iff%IdT_eqb_spec. exists p'. left.
Qed.

(** One pair's effect on a node, as a function. *)
Definition relink1 (key c p k : K) (n : Node V) : Node V :=
  mkNode (if decide (k = c) then
            if decide (p = IdT0) then parents n ∖ {[key]} else {[p]} ∪ (parents n ∖ {[key]})
          else parents n)
    (if decide (k = p) then children n ∖ {[key]} else children n) (value n) (dependsOn n).

Lemma relink1_relinked key c p k n : k ≠ IdT0 → relinked key [(c, p)] k n (relink1 key c p k n).
Proof.
  intros Hk. unfold relink1. split; [done|]. split; [done|]. split; intros x; simpl.
  - destruct (decide (k = p)) as [->|]; [|set_solver].
    rewrite elem_of_difference, elem_of_singleton. split; [naive_solver|].
    intros [? [?|H]]; [done|]. destruct (H c). left.
  - destruct (decide (k = c)) as [->|]; [|set_solver].
    assert ((x ∈ parents n ∧ (x ≠ key ∨ ∀ q, (c, q) ∉ [(c, p)])) ↔ x ∈ parents n ∖ {[key]}) as ->.
    { rewrite elem_of_difference, elem_of_singleton. split; [|naive_solver].
      intros [? [?|H]]; [done|]. destruct (H p). left. }
    rewrite list_elem_of_singleton. case_decide; set_solver.
Qed.

(** One iteration of the binding loop. *)
Lemma relink_step key c p rest (ks : gmap K (Node V)) rt ready :
  (c ≠ IdT0 → is_Some (ks !! c)) → (p ≠ IdT0 → is_Some (ks !! p)) →
  ks !! key = None → ks !! IdT0 = None →
  ∃ ks1 push, relink key ((c, p) :: rest) ks rt ready =
      relink key rest ks1 (rt ++ push) (ready + Z.of_nat (length push)) ∧
    node_rel (relinked key [(c, p)]) ks ks1 ∧
    push = match ks1 !! c with
           | Some n => if IdT_eqb IdT0 p && bool_decide (parents n = ∅) && last_pair c rest
                       then [c] else []
           | None => []
           end.
Proof.
  intros Hc Hp Hkey H0. cbn [relink]. fold (last_pair c rest).
  set (prntIt := if IdT_eqb IdT0 p then None else ks !! p).
  set (ks0 := match prntIt with Some n => <[p := del_child key n]> ks | None => ks end).
  assert (∀ k, ks0 !! k = relink1 key IdT0 p k <$> ks !! k) as Hks0.
  { intros k. subst ks0 prntIt. destruct (IdT_eqb IdT0 p) eqn:E.
    - apply IdT_eqb_spec in E as <-. destruct (ks !! k) as [n|] eqn:Ek; [|done]. simpl.
      unfold relink1. rewrite !decide_False by congruence. by destruct n.
    - apply IdT_eqb_false in E. destruct Hp as [np Ep]; [done|]. rewrite Ep.
      destruct (decide (k = p)) as [->|Hk].
      + rewrite lookup_insert_eq, Ep; simpl. unfold relink1.
        by rewrite decide_False, decide_True by done.
      + rewrite lookup_insert_ne by done. destruct (ks !! k) as [n|] eqn:Ek; [|done]; simpl.
        unfold relink1. rewrite !decide_False by congruence. by destruct n. }
  assert (∀ ks1 : gmap K (Node V), (∀ k, ks1 !! k = relink1 key c p k <$> ks !! k) →
    node_rel (relinked key [(c, p)]) ks ks1) as Hrel.
  { intros ks1 E k. rewrite E. destruct (ks !! k) eqn:Ek; [|done]. apply relink1_relinked.
    congruence. }
  destruct (IdT_eqb IdT0 c) eqn:Ec.
  { apply IdT_eqb_spec in Ec as <-. exists ks0, []. rewrite app_nil_r, Z.add_0_r.
    split; [done|]. split; [by apply Hrel|]. by rewrite Hks0, H0. }
  apply IdT_eqb_false in Ec. destruct (Hc ltac:(congruence)) as [n En].
  assert (∀ n1, n1 = relink1 key c p c n → node_rel (relinked key [(c, p)]) ks (<[c := n1]> ks0)) as Hins.
  { intros n1 ->. apply Hrel. intros k. destruct (decide (k = c)) as [->|Hk].
    - by rewrite lookup_insert_eq, En.
    - rewrite lookup_insert_ne, Hks0 by done. destruct (ks !! k) as [m|] eqn:Ek; [|done]; simpl.
      unfold relink1. rewrite (decide_False (P := k = IdT0)) by congruence.
      by rewrite (decide_False (P := k = c)). }
  rewrite Hks0, En. cbn [fmap option_fmap option_map].
  replace (parents (relink1 key IdT0 p c n)) with (parents n)
    by (simpl; by rewrite decide_False).
  subst prntIt. destruct (IdT_eqb IdT0 p) eqn:Ep.
  - apply IdT_eqb_spec in Ep as <-. set (ks1 := <[c := _]> ks0).
    exists ks1, (if bool_decide (parents n ∖ {[key]} = ∅) && last_pair c rest then [c] else []).
    split; [by destruct (_ && _); rewrite ?app_nil_r, ?Z.add_0_r|]. split.
    + apply Hins. unfold relink1, set_parents; simpl.
      by rewrite (decide_True (P := c = c)) by done.
    + subst ks1. rewrite lookup_insert_eq. done.
  - apply IdT_eqb_false in Ep. destruct Hp as [np ->]; [done|].
    eexists _, []. rewrite app_nil_r, Z.add_0_r. split; [done|]. split.
    + apply Hins. unfold relink1, set_parents; simpl.
      by rewrite (decide_True (P := c = c)), (decide_False (P := p = IdT0)) by done.
    + by rewrite lookup_insert_eq.
Qed.

Lemma node_rel_None R (ks ks' : gmap K (Node V)) k :
  node_rel R ks ks' → ks !! k = None ↔ ks' !! k = None.
Proof. intros H. specialize (H k). by destruct (ks !! k), (ks' !! k). Qed.

Lemma node_rel_Some R (ks ks' : gmap K (Node V)) k n' :
  node_rel R ks ks' → ks' !! k = Some n' → ∃ n, ks !! k = Some n ∧ R k n n'.
Proof. intros H E. specialize (H k). rewrite E in H. destruct (ks !! k); naive_solver. Qed.

Lemma node_rel_is_Some R (ks ks' : gmap K (Node V)) k :
  node_rel R ks ks' → is_Some (ks !! k) → is_Some (ks' !! k).
Proof. intros H [n E]. specialize (H k). rewrite E in H. destruct (ks' !! k); naive_solver. Qed.

Lemma relinked_unpaired key childn k n n' : (∀ p, (k, p) ∉ childn) →
  relinked key childn k n n' → parents n' = parents n.
Proof. intros Hno (_ & _ & _ & Hp). apply set_eq. intros x. rewrite Hp. naive_solver. Qed.

Lemma relink_spec key childn (ks : gmap K (Node V)) rt ready :
  StronglySorted ce_lt childn →
  (∀ c p, (c, p) ∈ childn → (c ≠ IdT0 → is_Some (ks !! c)) ∧ (p ≠ IdT0 → is_Some (ks !! p))) →
  ks !! key = None → ks !! IdT0 = None →
  ∃ ks' new, relink key childn ks rt ready = (ks', rt ++ new, ready + Z.of_nat (length new)) ∧
    node_rel (relinked key childn) ks ks' ∧
    NoDup new ∧
    (∀ k, k ∈ new ↔ (∃ p, (k, p) ∈ childn) ∧ ∃ n', ks' !! k = Some n' ∧ parents n' = ∅).
Proof.
  revert ks rt ready. induction childn as [|[c p] rest IH]; intros ks rt ready Hs Hin Hkey H0.
  { exists ks, []. simpl. rewrite app_nil_r, Z.add_0_r. split; [done|].
    split; [|split; [constructor|set_solver]].
    intros k. destruct (ks !! k) as [n|]; simpl; [|done].
    split; [done|]. split; [done|]. split; set_solver. }
  destruct (Hin c p ltac:(left)) as [Hc Hp].
  destruct (relink_step key c p rest ks rt ready Hc Hp Hkey H0) as (ks1 & push & -> & Hrel1 & Hpush).
  pose proof Hs as [Hs' _]%StronglySorted_inv.
  destruct (IH ks1 (rt ++ push) (ready + Z.of_nat (length push)) Hs') as (ks' & new & -> & Hrel2 & Hnd & Hnew).
  { intros c' p' H'. destruct (Hin c' p') as [??]; [by right|].
    split; intros; eapply node_rel_is_Some; eauto. }
  { by apply (node_rel_None _ _ _ key Hrel1). }
  { by apply (node_rel_None _ _ _ IdT0 Hrel1). }
  assert (p ≠ key ∨ p = IdT0) as Hpk.
  { destruct (decide (p = IdT0)) as [|Hn]; [by right|left]. intros ->.
    destruct (Hp Hn). congruence. }
  pose proof (last_pair_spec c p rest Hs) as Hlast.
  assert (∀ k, k ∈ push → k = c ∧ (∀ q, (c, q) ∉ rest) ∧ ∃ n', ks' !! c = Some n' ∧ parents n' = ∅) as Hpush1.
  { intros k Hk. rewrite Hpush in Hk. destruct (ks1 !! c) as [n1|] eqn:E1; [|set_solver].
    destruct (_ && last_pair c rest) eqn:Eb; [|set_solver].
    apply list_elem_of_singleton in Hk as ->. case_bool. split; [done|].
    rename select (last_pair _ _ = true) into Hlp. pose proof (proj1 Hlast Hlp).
    split; [done|]. specialize (Hrel2 c). rewrite E1 in Hrel2.
    destruct (ks' !! c) as [n'|]; [|done]. exists n'. split; [done|].
    erewrite (relinked_unpaired key rest); eauto. }
  exists ks', (push ++ new). split; [|split; [|split]].
  - rewrite app_assoc, length_app. f_equal. lia.
  - intros k. specialize (Hrel1 k). specialize (Hrel2 k).
    destruct (ks !! k), (ks1 !! k), (ks' !! k); try done. by eapply relinked_trans.
  - apply NoDup_app. split; [|split; [|done]].
    + rewrite Hpush. repeat case_match; auto using NoDup_nil_2, NoDup_singleton.
    + intros k (-> & Hno & _)%Hpush1 Hk. apply Hnew in Hk as [[q Hq] _]. by apply (Hno q).
  - intros k. rewrite elem_of_app, Hnew. split.
    + intros [(-> & _ & ?)%Hpush1|[[q Hq] ?]]; (split; [|done]); [exists p; left|].
      exists q. by right.
    + intros [[q Hq] (n' & En' & Hn')].
      apply elem_of_cons in Hq as [[= -> ->]|Hq]; [|right; by eauto].
      destruct (last_pair c rest) eqn:El; [left|right; eauto using last_pair_false].
      destruct (node_rel_Some _ _ _ _ _ Hrel2 En') as (n1 & E1 & Hr2).
      rewrite Hpush, E1. apply (relinked_unpaired _ _ _ _ _ (proj1 Hlast eq_refl)) in Hr2.
      rewrite (bool_decide_true (parents n1 = ∅)) by congruence.
      destruct (IdT_eqb IdT0 p) eqn:Ep; [simpl; left|]. exfalso.
      destruct (node_rel_Some _ _ _ _ _ Hrel1 E1) as (n & _ & _ & _ & _ & Hpa).
      apply IdT_eqb_false in Ep.
      assert (p ∈ parents n1); [|set_solver]. apply Hpa. right. split; [left|done].
Qed.
End relink.

(** ** The representation invariant *)
Section theory.
Context {V : Type}.
Implicit Types (tr : t V).

Definition live tr (k : K) : Prop := is_Some (keys tr !! k).

(** The objects of a live transaction. *)
Definition uses tr (k : K) (o : O) : Prop := ∃ n, keys tr !! k = Some n ∧ o ∈ dependsOn n.

Record Inv tr : Prop := {
  inv_no_empty : no_empty (depends tr);
  inv_sorted o : sorted (users (depends tr) o);
  inv_users o k : k ∈ users (depends tr) o ↔ uses tr k o;
  inv_parents k n : keys tr !! k = Some n →
    ∀ p, p ∈ parents n ↔ ∃ o, o ∈ dependsOn n ∧ adj (users (depends tr) o) p k;
  inv_root_nodup : NoDup (root tr);
  inv_root k : k ∈ root tr ↔ ∃ n, keys tr !! k = Some n ∧ parents n = ∅;
  inv_children p n c : keys tr !! p = Some n → c ∈ children n →
    ∃ nc, keys tr !! c = Some nc ∧ p ∈ parents nc;
  inv_current k : current tr = Some k → k ∈ root tr;
  inv_valid k : live tr k → isValidId k = true;
  inv_nodup k n : keys tr !! k = Some n → NoDup (dependsOn n);
}.

Lemma inv_empty : Inv empty.
Proof.
  split; unfold live, uses, no_empty, users, empty; simpl; intros *; rewrite ?lookup_empty;
    try done; try constructor; simpl; try set_solver; by intros (? & ? & ?).
Qed.

Lemma inv_nonzero tr k : Inv tr → live tr k → k ≠ IdT0.
Proof. intros Hi Hl%(inv_valid _ Hi) ->. done. Qed.

(** The precondition of [add] that its assertions state. *)
Definition add_pre tr (key : K) (depend : ObjectsInTransaction) : Prop :=
  isValidId key = true ∧ (∀ k, live tr k → IdT_lt k key) ∧ NoDup depend ∧
  Forall (λ o, isValidId (ob_id o) = true) depend.

(** The tree [add] builds, with the looked-up nodes made explicit. *)
Lemma add_run tr key v depend : Inv tr → add_pre tr key depend →
  ∃ ks deps ps, add key v depend tr =
      (Ok (true, if decide (ps = ∅) then 1 else 0),
       mkTree (root tr ++ if decide (ps = ∅) then [key] else [])
         (<[key := mkNode ps ∅ v depend]> ks) deps (current tr)) ∧
    keys tr !! key = None ∧ no_empty deps ∧
    (∀ k, ks !! k = (λ n, if decide (k ∈ ps) then add_child key n else n) <$> keys tr !! k) ∧
    (∀ o, users deps o = if decide (o ∈ depend) then users (depends tr) o ++ [key]
                         else users (depends tr) o) ∧
    (∀ p, p ∈ ps ↔ ∃ o, o ∈ depend ∧ last (users (depends tr) o) = Some p).
Proof.
  intros Hi (Hvk & Hlt & Hnd & Hvo).
  assert (keys tr !! key = None) as Hnew.
  { apply eq_None_not_Some. intros Hl. by apply (irreflexivity IdT_lt key), Hlt. }
  destruct (add_depends_spec key depend (depends tr) ∅ Hnd Hvo (inv_no_empty _ Hi))
    as (deps & ps & Hadd & Hne & Hu & Hps).
  { intros o k _ (n & Hn & _)%(inv_users _ Hi). apply Hlt. eexists; eauto. }
  assert (∀ p, p ∈ ps ↔ ∃ o, o ∈ depend ∧ last (users (depends tr) o) = Some p) as Hps'.
  { intros p. rewrite Hps. set_solver. }
  unfold add. rewrite bool_decide_true; [|intros k n Hk; apply Hlt; eexists; eauto].
  rewrite (bool_decide_false (is_Some _)); [|by rewrite Hnew; intros []]. simpl. rewrite Hadd.
  assert (filter (λ p, is_Some (keys tr !! p)) ps = ps) as ->.
  { apply set_eq. intros p. rewrite elem_of_filter. split; [naive_solver|]. intros Hp.
    split; [|done]. apply Hps' in Hp as (o & _ & Hl%last_Some_elem_of).
    apply (inv_users _ Hi) in Hl as (n & Hn & _). eauto. }
  eexists _, deps, ps. split; [|split; [done|split; [done|split; [|done]]]].
  - case_decide as E; [by rewrite bool_decide_true|]. rewrite bool_decide_false by done.
    by rewrite app_nil_r.
  - intros k. rewrite map_lookup_imap. destruct (keys tr !! k); simpl; [|done].
    by case_bool_decide; case_decide.
Qed.

(** The tree after [add], seen from the facts [add_run] gives. *)
Section added.
Context tr (key : K) (v : V) (depend : ObjectsInTransaction) (ks : gmap K (Node V))
  (deps : gmap O (list K)) (ps : gset K).
Context (Hi : Inv tr) (Hpre : add_pre tr key depend) (Hnew : keys tr !! key = None)
  (Hks : ∀ k, ks !! k = (λ n, if decide (k ∈ ps) then add_child key n else n) <$> keys tr !! k)
  (Hu : ∀ o, users deps o = if decide (o ∈ depend) then users (depends tr) o ++ [key]
                            else users (depends tr) o)
  (Hps : ∀ p, p ∈ ps ↔ ∃ o, o ∈ depend ∧ last (users (depends tr) o) = Some p).

Definition added : t V :=
  mkTree (root tr ++ if decide (ps = ∅) then [key] else [])
    (<[key := mkNode ps ∅ v depend]> ks) deps (current tr).

Lemma live_not_added k : live tr k → k ≠ key.
Proof. intros [n ?] ->. congruence. Qed.

Lemma user_live o k : k ∈ users (depends tr) o → live tr k.
Proof. intros (n & ? & ?)%(inv_users _ Hi). eexists; eauto. Qed.

Lemma added_inv k n : keys added !! k = Some n →
  (k = key ∧ n = mkNode ps ∅ v depend) ∨
  (k ≠ key ∧ ∃ n0, keys tr !! k = Some n0 ∧ parents n = parents n0 ∧ dependsOn n = dependsOn n0 ∧
    children n = if decide (k ∈ ps) then {[key]} ∪ children n0 else children n0).
Proof.
  simpl. destruct (decide (k = key)) as [->|Hk].
  - rewrite lookup_insert_eq. intros [= <-]. auto.
  - rewrite lookup_insert_ne, Hks by done. destruct (keys tr !! k) as [n0|]; [|done].
    intros [= <-]. right. split; [done|]. exists n0. by case_decide.
Qed.

Lemma added_fwd k n0 : keys tr !! k = Some n0 →
  ∃ n, keys added !! k = Some n ∧ parents n = parents n0 ∧ dependsOn n = dependsOn n0.
Proof.
  intros E. simpl. rewrite lookup_insert_ne by (intros <-; congruence).
  rewrite Hks, E. eexists; split; [done|]. by case_decide.
Qed.

Lemma added_key : keys added !! key = Some (mkNode ps ∅ v depend).
Proof. apply lookup_insert_eq. Qed.

Lemma added_live k : live added k ↔ k = key ∨ live tr k.
Proof.
  unfold live; simpl. rewrite lookup_insert_is_Some, Hks, fmap_is_Some.
  destruct (decide (k = key)); naive_solver.
Qed.

Lemma added_uses k o : uses added k o ↔ (k = key ∧ o ∈ depend) ∨ uses tr k o.
Proof.
  unfold uses. split.
  - intros (n & [[-> ->]|(Hk & n0 & ? & ? & E & ?)]%added_inv & Ho); [by left|].
    right. exists n0. by rewrite <- E.
  - intros [[-> ?]|(n0 & (n & ? & ? & E)%added_fwd & ?)].
    + eexists. by rewrite added_key.
    + exists n. by rewrite E.
Qed.

Lemma added_parents k n : keys added !! k = Some n →
  ∀ p, p ∈ parents n ↔ ∃ o, o ∈ dependsOn n ∧ adj (users deps o) p k.
Proof.
  intros [[-> ->]|(Hk & n0 & E & -> & -> & _)]%added_inv p; simpl.
  - rewrite Hps. apply exist_proper. intros o. split.
    + intros [Ho ?]. split; [done|]. rewrite Hu, decide_True by done. by apply adj_first.
    + intros [Ho H]. split; [done|]. rewrite Hu, decide_True, adj_app in H by done.
      destruct H as [H|[H|[H _]]]; [|by destruct H as [[_ ?]|]|done].
      apply adj_elem in H as [_ H]. by apply user_live, live_not_added in H.
  - rewrite (inv_parents _ Hi k n0 E). apply exist_proper. intros o. rewrite Hu.
    destruct (decide (o ∈ depend)); [|done]. rewrite adj_app. simpl. naive_solver.
Qed.

Lemma added_root k : k ∈ root added ↔ ∃ n, keys added !! k = Some n ∧ parents n = ∅.
Proof.
  simpl root. rewrite elem_of_app, (inv_root _ Hi). split.
  - intros [(n0 & (n & ? & <- & _)%added_fwd & ?)|Hk]; [by eauto|].
    destruct (decide (ps = ∅)); [|set_solver]. apply list_elem_of_singleton in Hk as ->.
    eexists. by rewrite added_key.
  - intros (n & [[-> ->]|(Hk & n0 & ? & -> & _)]%added_inv & Hpa); [|left; by eauto].
    right. simpl in Hpa. rewrite decide_True by done. left.
Qed.

Lemma added_children p n c : keys added !! p = Some n → c ∈ children n →
  ∃ nc, keys added !! c = Some nc ∧ p ∈ parents nc.
Proof.
  intros [[-> ->]|(Hk & n0 & E & _ & _ & ->)]%added_inv Hc; [set_solver|].
  assert (c ∈ children n0 → ∃ nc, keys added !! c = Some nc ∧ p ∈ parents nc) as Hold.
  { intros Hc0. destruct (inv_children _ Hi p n0 c E Hc0) as (nc & (n' & ? & <- & _)%added_fwd & ?).
    eauto. }
  destruct (decide (p ∈ ps)); [|auto].
  apply elem_of_union in Hc as [->%elem_of_singleton|Hc]; [|auto].
  eexists. by rewrite added_key.
Qed.

Lemma added_Inv : no_empty deps → Inv added.
Proof.
  intros Hne. destruct Hpre as (Hvk & Hlt & Hnd & _).
  split; [done| | |apply added_parents| |apply added_root|apply added_children| | |].
  - intros o. simpl. rewrite Hu. destruct (decide (o ∈ depend)); [|apply Hi].
    apply sorted_app. split; [apply Hi|]. split; [repeat constructor|].
    intros x y ? ->%list_elem_of_singleton. eauto using user_live.
  - intros o k. rewrite added_uses, <- (inv_users _ Hi). simpl. rewrite Hu.
    destruct (decide (o ∈ depend)); set_solver.
  - simpl. apply NoDup_app. split; [apply Hi|]. split.
    + intros k (n & ? & _)%(inv_root _ Hi). assert (k ≠ key) by (intros ->; congruence).
      case_decide; set_solver.
    + case_decide; auto using NoDup_nil_2, NoDup_singleton.
  - intros k Hk%(inv_current _ Hi). simpl. set_solver.
  - intros k [->|Hk]%added_live; [done|]. by apply (inv_valid _ Hi).
  - intros k n [[-> ->]|(Hk & n0 & E & _ & -> & _)]%added_inv; [done|]. by apply (inv_nodup _ Hi k).
Qed.
End added.

Lemma add_ok tr key v depend : Inv tr → add_pre tr key depend →
  ∃ tr' ready, add key v depend tr = (Ok (true, ready), tr') ∧ Inv tr' ∧
    (∀ k, live tr' k ↔ k = key ∨ live tr k) ∧
    (∀ k o, uses tr' k o ↔ (k = key ∧ o ∈ depend) ∨ uses tr k o) ∧
    root tr' = root tr ++ (if ready =? 1 then [key] else []) ∧ (ready = 0 ∨ ready = 1) ∧
    current tr' = current tr ∧ value <$> keys tr' !! key = Some v.
Proof.
  intros Hi Hpre.
  destruct (add_run tr key v depend Hi Hpre) as (ks & deps & ps & -> & Hnew & Hne & Hks & Hu & Hps).
  eexists (added tr key v depend ks deps ps), _. split; [done|].
  split; [by apply added_Inv|]. split; [intros k; by apply added_live|].
  split; [intros k o; by apply added_uses|]. simpl. rewrite lookup_insert_eq. case_decide; auto.
Qed.

(** *** Removal *)

Lemma kset_split_unique key b a : NoDup (b ++ key :: a) →
  kset_split key (b ++ key :: a) = Some (b, a).
Proof.
  intros Hnd. induction b as [|x b IH]; simpl.
  - by rewrite (proj2 (IdT_eqb_spec key key)).
  - inversion Hnd; subst. rewrite (proj2 (IdT_eqb_false x key)) by set_solver.
    by rewrite IH.
Qed.

Lemma adj_remove b a key p k : p ≠ key → k ≠ key →
  adj (b ++ key :: a) p k → adj (b ++ a) p k.
Proof. intros Hp Hk. rewrite !adj_app. simpl. naive_solver. Qed.

Lemma adj_unremove b a key p k : adj (b ++ a) p k →
  adj (b ++ key :: a) p k ∨ (last b = Some p ∧ head a = Some k).
Proof. rewrite !adj_app. simpl. naive_solver. Qed.

Lemma adj_key b a key k : NoDup (b ++ key :: a) → adj (b ++ key :: a) key k → head a = Some k.
Proof.
  intros (_ & Hb & Ha)%NoDup_app. rewrite adj_app; simpl.
  intros [H|[[[_ H]|H]|[H _]]].
  - apply adj_elem in H as [H _]. exfalso. apply (Hb key H). left.
  - done.
  - apply adj_elem in H as [H _]. inversion Ha. done.
  - apply last_Some_elem_of in H. exfalso. apply (Hb key H). left.
Qed.

Lemma pred_in_spec k l : NoDup l → k ∈ l → head l ≠ Some k →
  ∃ y, pred_in k l = Some y ∧ y ∈ l ∧ y ≠ k.
Proof.
  intros Hnd. induction Hnd as [|x l Hx Hnd IH]; intros Hk Hh; simpl in *; [set_solver|].
  assert (k ∈ l) as Hkl by set_solver. destruct l as [|y l]; [set_solver|].
  destruct (IdT_eqb y k) eqn:E.
  - exists x. split; [done|]. split; [left|]. congruence.
  - apply IdT_eqb_false in E. destruct IH as (z & Ez & ? & ?); [done|simpl; congruence|].
    exists z. split; [done|]. split; [by right|done].
Qed.

(** The neighbours of a key among the users of an object are other live keys. *)
Lemma neighbours_live tr key o b a : Inv tr → users (depends tr) o = b ++ key :: a →
  ((pair_of b a).1 ≠ IdT0 → is_Some (delete key (keys tr) !! (pair_of b a).1)) ∧
  ((pair_of b a).2 ≠ IdT0 → is_Some (delete key (keys tr) !! (pair_of b a).2)).
Proof.
  intros Hi E.
  assert (∀ k, k ∈ b ∨ k ∈ a → is_Some (delete key (keys tr) !! k)) as Hl.
  { intros k Hk. pose proof (sorted_NoDup _ (inv_sorted _ Hi o)) as Hnd. rewrite E in Hnd.
    apply NoDup_app in Hnd as (_ & Hb & Ha). inversion Ha; subst.
    rewrite lookup_delete_ne by (intros <-; set_solver).
    assert (k ∈ users (depends tr) o) as Hku by (rewrite E; set_solver).
    apply (inv_users _ Hi) in Hku as (n & ? & _). eauto. }
  split; intros Hne0; apply Hl.
  - right. destruct a; simpl in *; [done|left].
  - left. simpl in *. destruct (last b) eqn:El; simpl in *; [|done]. by apply last_Some_elem_of.
Qed.

(** The iterator steps back from a removed node. *)
Lemma remove_cursor tr key nd k : Inv tr → keys tr !! key = Some nd →
  (if bool_decide (parents nd = ∅) && bool_decide (current tr = Some key) then
     match root tr with
     | x :: _ => if IdT_eqb x key then None
                 else match pred_in key (root tr) with
                      | Some y => Some y
                      | None => current tr
                      end
     | [] => current tr
     end
   else current tr) = Some k → k ∈ root tr ∧ k ≠ key.
Proof.
  intros Hi End. pose proof (inv_root _ Hi key) as Hrk. pose proof (inv_current _ Hi) as Hcur.
  case_bool_decide as Ep; simpl.
  2: { intros Ek. split; [by apply Hcur|]. intros ->. apply Hcur, Hrk in Ek as (n & ? & ?).
       congruence. }
  case_bool_decide as Ec; [|intros Ek; split; [by apply Hcur|congruence]].
  assert (key ∈ root tr) as Hin by (apply Hrk; eauto).
  destruct (root tr) as [|x l] eqn:El; [set_solver|].
  destruct (IdT_eqb x key) eqn:Ex; [done|]. apply IdT_eqb_false in Ex.
  destruct (pred_in_spec key (x :: l)) as (y & -> & ? & ?); [rewrite <- El; apply Hi|done|simpl; congruence|].
  by intros [= <-].
Qed.

(** The tree [remove] builds, with its loops replaced by their effect. *)
Lemma remove_run tr key nd : Inv tr → keys tr !! key = Some nd →
  ∃ ks deps childn new cur, remove key tr =
      (Ok (true, Z.of_nat (length new)),
       mkTree ((if decide (parents nd = ∅) then root_erase key (root tr) else root tr) ++ new)
         ks deps cur) ∧
    (∀ k, cur = Some k → k ∈ root tr ∧ k ≠ key) ∧
    no_empty deps ∧
    (∀ o, o ∉ dependsOn nd → users deps o = users (depends tr) o) ∧
    (∀ o b a, o ∈ dependsOn nd → users (depends tr) o = b ++ key :: a → users deps o = b ++ a) ∧
    (∀ e, e ∈ childn ↔ e ≠ (IdT0, IdT0) ∧ ∃ o b a, o ∈ dependsOn nd ∧
       users (depends tr) o = b ++ key :: a ∧ e = pair_of b a) ∧
    node_rel (relinked key childn) (delete key (keys tr)) ks ∧
    NoDup new ∧
    (∀ k, k ∈ new ↔ (∃ p, (k, p) ∈ childn) ∧ ∃ n', ks !! k = Some n' ∧ parents n' = ∅).
Proof.
  intros Hi End.
  assert (∀ o, NoDup (users (depends tr) o)) as Hund by (intros; apply sorted_NoDup, Hi).
  assert (∀ o b a, kset_split key (users (depends tr) o) = Some (b, a) ↔
    users (depends tr) o = b ++ key :: a) as Hsp.
  { intros o b a. split; [apply kset_split_Some|]. intros E. specialize (Hund o).
    rewrite E in *. by apply kset_split_unique. }
  destruct (unlink_depends_spec key (dependsOn nd) (depends tr) []) as (Hne & Hs & Hu1 & Hu2 & Hc).
  { by eapply inv_nodup. }
  { intros o Ho. apply (inv_users _ Hi). exists nd. done. }
  { apply Hi. }
  { constructor. }
  setoid_rewrite Hsp in Hu2. setoid_rewrite Hsp in Hc.
  set (du := unlink_depends key (dependsOn nd) (depends tr) []) in *.
  set (rt := if decide (parents nd = ∅) then root_erase key (root tr) else root tr).
  destruct (relink_spec key du.2 (delete key (keys tr)) rt 0) as (ks & new & Er & Hrel & Hnd & Hnew).
  { done. }
  { intros c p Hcp. apply Hc in Hcp as [Hcp|(_ & o & b & a & Ho & E & [= -> ->])]; [set_solver|].
    by destruct (neighbours_live tr key o b a Hi E). }
  { by rewrite lookup_delete_eq. }
  { apply eq_None_not_Some. intros Hs0. rewrite lookup_delete_is_Some in Hs0.
    destruct Hs0 as [_ Hs0]. by apply (inv_nonzero tr IdT0 Hi Hs0). }
  eexists ks, du.1, du.2, new, _. split; [|split; [|split; [done|split; [done|split; [done|split]]]]].
  - unfold remove. rewrite End. fold du.
    assert (bool_decide (parents nd = ∅) && bool_decide (root tr = []) = false) as ->.
    { destruct (bool_decide (parents nd = ∅)) eqn:Ep; [|done]. case_bool.
      assert (key ∈ root tr) as Hk by (apply (inv_root _ Hi); eauto).
      apply bool_decide_false. intros E. rewrite E in Hk. set_solver. }
    assert ((if bool_decide (parents nd = ∅) then root_erase key (root tr) else root tr) = rt) as ->.
    { subst rt. by case_bool_decide; case_decide. }
    rewrite Er. simpl. reflexivity.
  - intros k. by apply (remove_cursor tr key nd).
  - intros e. rewrite Hc. set_solver.
  - done.
Qed.

Lemma root_erase_elem k x l : NoDup l → x ∈ root_erase k l ↔ x ∈ l ∧ x ≠ k.
Proof.
  intros Hnd. unfold root_erase. destruct (rm1 (λ x, IdT_eqb x k) l) as [l'|] eqn:E; simpl.
  - apply rm1_Some in E as (l1 & y & l2 & -> & -> & ->%IdT_eqb_spec & _).
    rewrite !elem_of_app, elem_of_cons. apply NoDup_app in Hnd as (_ & H1 & H2).
    inversion H2; subst. split; [|naive_solver]. intros Hx. split; [naive_solver|].
    intros ->. destruct Hx as [Hx|Hx]; [by apply (H1 k Hx); left|done].
  - apply rm1_None in E. rewrite Forall_forall in E. split; [|naive_solver]. intros Hx.
    split; [done|]. by apply IdT_eqb_false, E.
Qed.

Lemma root_erase_NoDup k l : NoDup l → NoDup (root_erase k l).
Proof.
  intros Hnd. unfold root_erase. destruct (rm1 _ l) eqn:E; [|done].
  apply rm1_sublist in E. by eapply sublist_NoDup.
Qed.

(** What [remove] records: the pairs of (next, previous) users. *)
Definition pairs_of tr (key : K) (nd : Node V) (childn : list (K * K)) : Prop :=
  ∀ e, e ∈ childn ↔ e ≠ (IdT0, IdT0) ∧ ∃ o b a, o ∈ dependsOn nd ∧
    users (depends tr) o = b ++ key :: a ∧ e = pair_of b a.

Lemma users_split tr key nd o : Inv tr → keys tr !! key = Some nd →
  o ∈ dependsOn nd → ∃ b a, users (depends tr) o = b ++ key :: a ∧ NoDup (b ++ key :: a).
Proof.
  intros Hi End Ho. assert (key ∈ users (depends tr) o) as Hk.
  { apply (inv_users _ Hi). exists nd. done. }
  apply list_elem_of_split in Hk as (b & a & E). exists b, a. split; [done|].
  rewrite <- E. apply sorted_NoDup, Hi.
Qed.

(** A live key is recorded as a child exactly when the removed key is a parent. *)
Lemma pairs_of_child tr key nd childn k n : Inv tr → keys tr !! key = Some nd →
  pairs_of tr key nd childn → keys tr !! k = Some n →
  (∃ p, (k, p) ∈ childn) ↔ key ∈ parents n.
Proof.
  intros Hi End Hc En. assert (k ≠ IdT0) as Hk0 by (apply (inv_nonzero tr); [done|by eexists]).
  rewrite (inv_parents _ Hi k n En). split.
  - intros [p (_ & o & b & a & Ho & E & [= Hh _])%Hc].
    assert (head a = Some k) as Ha by (destruct (head a); simpl in *; congruence).
    assert (adj (users (depends tr) o) key k) as Hadj.
    { rewrite E, adj_app. simpl. auto. }
    exists o. split; [|done]. apply adj_elem in Hadj as [_ Hku].
    apply (inv_users _ Hi) in Hku as (n' & ? & ?). congruence.
  - intros (o & Ho & Hadj). pose proof (adj_elem _ _ _ Hadj) as [Hku _].
    apply (inv_users _ Hi) in Hku as (nd' & E' & Hod).
    assert (nd' = nd) as -> by congruence.
    destruct (users_split tr key nd o Hi End Hod) as (b & a & E & Hnd).
    rewrite E in Hadj. apply (adj_key b a key k Hnd) in Hadj.
    exists (default IdT0 (last b)). apply Hc. split; [congruence|].
    exists o, b, a. unfold pair_of. rewrite Hadj. done.
Qed.

Lemma adj_key_pred b a key p : NoDup (b ++ key :: a) → adj (b ++ key :: a) p key →
  last b = Some p.
Proof.
  intros (_ & Hb & Ha)%NoDup_app. inversion Ha; subst. rewrite adj_app; simpl.
  intros [H|[[[_ H]|H]|[H _]]]; [..|done].
  - apply adj_elem in H as [_ H]. exfalso. apply (Hb key H). left.
  - destruct a; simplify_eq/=. set_solver.
  - apply adj_elem in H as [_ H]. done.
Qed.

Lemma pairs_of_parent tr key nd childn p : Inv tr → keys tr !! key = Some nd →
  pairs_of tr key nd childn → p ∈ parents nd → ∃ c, (c, p) ∈ childn.
Proof.
  intros Hi End Hc (o & Ho & Hadj)%(inv_parents _ Hi key nd End).
  destruct (users_split tr key nd o Hi End Ho) as (b & a & E & Hnd).
  assert (p ≠ IdT0) as Hp0.
  { apply adj_elem in Hadj as [Hp _]. apply (inv_users _ Hi) in Hp as (m & ? & _).
    apply (inv_nonzero tr); [done|by eexists]. }
  rewrite E in Hadj. apply (adj_key_pred b a key p Hnd) in Hadj.
  exists (default IdT0 (head a)). apply Hc. split; [congruence|]. exists o, b, a.
  unfold pair_of. by rewrite Hadj.
Qed.

(** The parents after the binding loop are the predecessors after the removal. *)
Lemma remove_parents tr key nd childn deps k n n' : Inv tr → keys tr !! key = Some nd →
  pairs_of tr key nd childn →
  (∀ o, o ∉ dependsOn nd → users deps o = users (depends tr) o) →
  (∀ o b a, o ∈ dependsOn nd → users (depends tr) o = b ++ key :: a → users deps o = b ++ a) →
  k ≠ key → keys tr !! k = Some n → relinked key childn k n n' →
  ∀ p, p ∈ parents n' ↔ ∃ o, o ∈ dependsOn n ∧ adj (users deps o) p k.
Proof.
  intros Hi End Hc Hu1 Hu2 Hk En (_ & _ & _ & Hp') p. rewrite Hp'.
  pose proof (pairs_of_child tr key nd childn k n Hi End Hc En) as Hpair.
  assert (k ≠ IdT0) as Hk0 by (apply (inv_nonzero tr); [done|by eexists]).
  assert (∀ o x, x ∈ users (depends tr) o → ∃ m, keys tr !! x = Some m ∧ o ∈ dependsOn m) as Hus.
  { intros o x Hx. by apply (inv_users _ Hi) in Hx. }
  split.
  - intros [[Hpa Hno]|[(_ & o & b & a & Ho & E & [= Hh Hl])%Hc Hp0]].
    + assert (p ≠ key) as Hpk.
      { intros ->. destruct Hno as [?|Hno]; [done|]. apply Hpair in Hpa as [q ?]. by apply (Hno q). }
      apply (inv_parents _ Hi k n En) in Hpa as (o & Ho & Hadj). exists o. split; [done|].
      destruct (decide (o ∈ dependsOn nd)) as [Hod|]; [|by rewrite Hu1].
      destruct (users_split tr key nd o Hi End Hod) as (b & a & E & _).
      rewrite (Hu2 o b a) by done. rewrite E in Hadj. by eapply adj_remove.
    + exists o. assert (head a = Some k) as Ha by (destruct (head a); simpl in *; congruence).
      assert (last b = Some p) as Hb by (destruct (last b); simpl in *; congruence).
      split; [|rewrite (Hu2 o b a), adj_app by done; auto].
      destruct (Hus o k) as (m & ? & ?); [|congruence]. rewrite E.
      apply elem_of_app. right. right. destruct a; simplify_eq/=. left.
  - intros (o & Ho & Hadj). rewrite (inv_parents _ Hi k n En).
    destruct (decide (o ∈ dependsOn nd)) as [Hod|Hod].
    + destruct (users_split tr key nd o Hi End Hod) as (b & a & E & Hnd).
      rewrite (Hu2 o b a) in Hadj by done. pose proof (adj_elem _ _ _ Hadj) as [Hpe _].
      assert (p ≠ key) as Hpk.
      { intros ->. apply NoDup_app in Hnd as (_ & H1 & H2). inversion H2; subst.
        apply elem_of_app in Hpe as [Hpe|?]; [by apply (H1 key Hpe); left|done]. }
      apply (adj_unremove b a key) in Hadj as [Hadj|[Hb Ha]].
      * left. split; [exists o; by rewrite E|by left].
      * right. assert (p ≠ IdT0).
        { destruct (Hus o p) as (m & ? & _); [rewrite E; set_solver|].
          apply (inv_nonzero tr); [done|by eexists]. }
        split; [|done]. apply Hc. split; [congruence|]. exists o, b, a.
        unfold pair_of. by rewrite Ha, Hb.
    + rewrite Hu1 in Hadj by done. left. split; [by eauto|]. left. intros ->.
      apply adj_elem in Hadj as [Hke _]. apply Hus in Hke as (m & ? & ?). congruence.
Qed.

(** The tree after [remove], seen from the facts [remove_run] gives. *)
Section removed.
Context tr (key : K) (nd : Node V) (ks : gmap K (Node V)) (deps : gmap O (list K))
  (childn : list (K * K)) (new : list K) (cur : option K).
Context (Hi : Inv tr) (End : keys tr !! key = Some nd)
  (Hu1 : ∀ o, o ∉ dependsOn nd → users deps o = users (depends tr) o)
  (Hu2 : ∀ o b a, o ∈ dependsOn nd → users (depends tr) o = b ++ key :: a → users deps o = b ++ a)
  (Hc : pairs_of tr key nd childn)
  (Hrel : node_rel (relinked key childn) (delete key (keys tr)) ks)
  (Hnew : ∀ k, k ∈ new ↔ (∃ p, (k, p) ∈ childn) ∧ ∃ n', ks !! k = Some n' ∧ parents n' = ∅).

Definition removed : t V := mkTree (root_erase key (root tr) ++ new) ks deps cur.

Lemma removed_inv k n' : ks !! k = Some n' →
  k ≠ key ∧ ∃ n, keys tr !! k = Some n ∧ relinked key childn k n n'.
Proof. intros (n & [Hk ?]%lookup_delete_Some & ?)%(node_rel_Some _ _ _ _ _ Hrel). eauto. Qed.

Lemma removed_fwd k n : k ≠ key → keys tr !! k = Some n →
  ∃ n', ks !! k = Some n' ∧ relinked key childn k n n'.
Proof.
  intros Hk E. specialize (Hrel k). rewrite lookup_delete_ne, E in Hrel by done.
  destruct (ks !! k); [eauto|done].
Qed.

Lemma removed_live k : live removed k ↔ live tr k ∧ k ≠ key.
Proof.
  unfold live; simpl. split.
  - intros [n' (? & n & ? & _)%removed_inv]. eauto.
  - intros [[n E] Hk]. destruct (removed_fwd k n Hk E) as (? & ? & _). eauto.
Qed.

Lemma removed_uses k o : uses removed k o ↔ uses tr k o ∧ k ≠ key.
Proof.
  unfold uses; simpl. split.
  - intros (n' & (? & n & ? & _ & E & _)%removed_inv & ?). rewrite E in *. eauto.
  - intros [(n & E & ?) Hk]. destruct (removed_fwd k n Hk E) as (n' & ? & _ & E' & _).
    exists n'. by rewrite E'.
Qed.

Lemma removed_fresh k : k ∈ new → k ∉ root tr.
Proof.
  intros (Hp & n' & (Hk & n & En & _)%removed_inv & _)%Hnew Hr.
  apply (pairs_of_child tr key nd childn k n) in Hp; [|done..].
  apply (inv_root _ Hi) in Hr as (m & ? & ?). simplify_eq. set_solver.
Qed.

Lemma removed_sorted o : sorted (users deps o).
Proof.
  destruct (decide (o ∈ dependsOn nd)) as [Ho|]; [|rewrite Hu1 by done; apply Hi].
  destruct (users_split tr key nd o Hi End Ho) as (b & a & E & _). rewrite (Hu2 o b a) by done.
  pose proof (inv_sorted _ Hi o) as Hs. rewrite E in Hs.
  apply sorted_app in Hs as (? & [? ?]%StronglySorted_inv & Hba).
  apply sorted_app. split; [done|]. split; [done|]. intros. apply Hba; [done|by right].
Qed.

Lemma removed_users o k : k ∈ users deps o ↔ uses removed k o.
Proof.
  rewrite removed_uses, <- (inv_users _ Hi).
  destruct (decide (o ∈ dependsOn nd)) as [Ho|Ho].
  - destruct (users_split tr key nd o Hi End Ho) as (b & a & E & Hnd).
    rewrite (Hu2 o b a), E by done. apply NoDup_app in Hnd as (_ & H1 & H2).
    inversion H2; subst. rewrite !elem_of_app, elem_of_cons.
    split; [|naive_solver]. intros Hx. split; [naive_solver|]. intros ->.
    destruct Hx as [Hx|?]; [by apply (H1 key Hx); left|done].
  - rewrite Hu1 by done. split; [|by intros [? _]]. intros Hx. split; [done|]. intros ->.
    apply (inv_users _ Hi) in Hx as (m & ? & ?). congruence.
Qed.

(** The parents of a child of the removed key change, those of others do not. *)
Lemma removed_unpaired k n n' : keys tr !! k = Some n → relinked key childn k n n' →
  key ∉ parents n → parents n' = parents n.
Proof.
  intros En Hr Hk. apply (relinked_unpaired key childn k n n'); [|done].
  intros p Hp. apply Hk, (pairs_of_child tr key nd childn k n); eauto.
Qed.

Lemma removed_root k : k ∈ root removed ↔ ∃ n, ks !! k = Some n ∧ parents n = ∅.
Proof.
  simpl. rewrite elem_of_app, root_erase_elem, (inv_root _ Hi), Hnew by apply Hi. split.
  - intros [[(n & En & Hpa) Hk]|[_ ?]]; [|done].
    destruct (removed_fwd k n Hk En) as (n' & En' & Hr). exists n'. split; [done|].
    rewrite (removed_unpaired k n n'); [done..|set_solver].
  - intros (n' & En' & Hpa). pose proof En' as (Hk & n & En & Hr)%removed_inv.
    destruct (decide (key ∈ parents n)) as [Hkn|Hkn].
    + right. split; [|by eauto]. by apply (pairs_of_child tr key nd childn k n).
    + left. split; [|done]. exists n. split; [done|]. by rewrite <- (removed_unpaired k n n').
Qed.

Lemma removed_children p np c : ks !! p = Some np → c ∈ children np →
  ∃ nc, ks !! c = Some nc ∧ p ∈ parents nc.
Proof.
  intros (Hp & n & En & _ & _ & Hch & _)%removed_inv [Hcn Hno]%Hch.
  destruct (inv_children _ Hi p n c En Hcn) as (nc & Enc & Hpc).
  assert (c ≠ key) as Hck.
  { intros ->. assert (nc = nd) as -> by congruence. destruct Hno as [?|Hno]; [done|].
    destruct (pairs_of_parent tr key nd childn p Hi End Hc Hpc) as [c' ?]. by apply (Hno c'). }
  destruct (removed_fwd c nc Hck Enc) as (nc' & Enc' & _ & _ & _ & Hpa). exists nc'. split; [done|].
  apply Hpa. left. split; [done|by left].
Qed.

Lemma removed_Inv : no_empty deps → NoDup new → (∀ k, cur = Some k → k ∈ root tr ∧ k ≠ key) →
  Inv removed.
Proof.
  intros Hne Hndn Hcur.
  split; [done|apply removed_sorted|apply removed_users| | |apply removed_root|apply removed_children| | |].
  - intros k n' (Hk & n & En & Hr)%removed_inv p. pose proof Hr as (_ & -> & _).
    by apply (remove_parents tr key nd childn).
  - apply NoDup_app. split; [apply root_erase_NoDup, Hi|]. split; [|done].
    intros k [Hk _]%root_erase_elem Hn; [by apply (removed_fresh k)|apply Hi].
  - intros k [Hk1 Hk2]%Hcur. apply elem_of_app. left. apply root_erase_elem; [apply Hi|done].
  - intros k [Hk _]%removed_live. by apply (inv_valid _ Hi).
  - intros k n' (_ & n & En & _ & -> & _)%removed_inv. by apply (inv_nodup _ Hi k).
Qed.
End removed.

Lemma remove_ok tr key nd : Inv tr → keys tr !! key = Some nd →
  ∃ tr' new, remove key tr = (Ok (true, Z.of_nat (length new)), tr') ∧ Inv tr' ∧
    (∀ k, live tr' k ↔ live tr k ∧ k ≠ key) ∧
    (∀ k o, uses tr' k o ↔ uses tr k o ∧ k ≠ key) ∧
    root tr' = root_erase key (root tr) ++ new ∧ (∀ k, k ∈ new → k ∉ root tr).
Proof.
  intros Hi End.
  destruct (remove_run tr key nd Hi End) as
    (ks & deps & childn & new & cur & -> & Hcur & Hne & Hu1 & Hu2 & Hc & Hrel & Hndn & Hnew).
  assert ((if decide (parents nd = ∅) then root_erase key (root tr) else root tr) =
    root_erase key (root tr)) as ->.
  { case_decide as Ep; [done|]. unfold root_erase. rewrite (proj2 (rm1_None _ _)); [done|].
    apply Forall_forall. intros k Hk. apply IdT_eqb_false. intros ->.
    apply (inv_root _ Hi) in Hk as (? & ? & ?). congruence. }
  exists (removed tr key ks deps new cur), new. split; [done|].
  split; [by eapply removed_Inv|]. split; [intros k; by eapply removed_live|].
  split; [intros k o; by eapply removed_uses|]. split; [done|]. by eapply removed_fresh.
Qed.

(** *** What readiness means *)

Lemma ready_no_earlier tr k : Inv tr →
  k ∈ root tr ↔ live tr k ∧ ∀ k' o, uses tr k' o → uses tr k o → ¬ IdT_lt k' k.
Proof.
  intros Hi. rewrite (inv_root _ Hi). split.
  - intros (n & En & Hpa). split; [by eexists|]. intros k' o Hu' Hu Hlt.
    pose proof Hu as (n' & ? & Ho). assert (n' = n) as -> by congruence.
    apply (inv_users _ Hi) in Hu', Hu.
    destruct (adj_pred_exists _ k' k (inv_sorted _ Hi o) Hu' Hu Hlt) as [p Hp].
    assert (p ∈ parents n); [|set_solver]. apply (inv_parents _ Hi k n En). eauto.
  - intros [[n En] Hno]. exists n. split; [done|]. apply set_eq. intros p.
    split; [|set_solver]. intros (o & Ho & Hadj)%(inv_parents _ Hi k n En).
    exfalso. apply (Hno p o); [|by exists n|by eapply adj_lt; [apply Hi|]].
    apply (inv_users _ Hi). by apply adj_elem in Hadj as [? _].
Qed.

Lemma next_ok tr : Inv tr →
  ∃ r tr', next tr = (Ok r, tr') ∧ Inv tr' ∧ root tr' = root tr ∧ keys tr' = keys tr ∧
    match r with
    | Some (k, v) => (∃ n, keys tr !! k = Some n ∧ value n = v) ∧ k ∈ root tr ∧
        current tr' = Some k ∧
        match current tr with None => head (root tr) = Some k | Some c => after_in c (root tr) = Some k end
    | None => tr' = tr ∧
        match current tr with None => root tr = [] | Some c => last (root tr) = Some c end
    end.
Proof.
  intros Hi. unfold next.
  assert (∀ c l, c ∈ l → after_in c l = None → last l = Some c) as Hlast.
  { intros c l. induction l as [|x l IH]; simpl; [set_solver|]. intros Hc.
    destruct (IdT_eqb c x) eqn:E.
    - apply IdT_eqb_spec in E as ->. by destruct l.
    - apply IdT_eqb_false in E. intros ?. destruct l; [set_solver|]. apply IH; set_solver. }
  assert (∀ c l k, after_in c l = Some k → k ∈ l) as Hafter.
  { intros c l k. induction l as [|x l IH]; simpl; [done|].
    destruct (IdT_eqb c x); [destruct l; simpl; set_solver|set_solver]. }
  assert (∀ k, match current tr with None => head (root tr) = Some k
    | Some c => after_in c (root tr) = Some k end → k ∈ root tr) as Hin.
  { intros k. destruct (current tr); [apply Hafter|]. destruct (root tr); simpl; set_solver. }
  destruct (match current tr with None => head (root tr) | Some c => after_in c (root tr) end)
    as [k|] eqn:E.
  - assert (k ∈ root tr) as Hk by (apply Hin; by destruct (current tr)).
    pose proof Hk as (n & En & _)%(inv_root _ Hi). unfold deref. rewrite En.
    eexists _, _. split; [done|]. split; [|by destruct (current tr); eauto 10].
    destruct Hi. split; simpl; auto. by intros ? [= <-].
  - eexists _, _. split; [done|]. split; [done|]. split; [done|]. split; [done|]. split; [done|].
    pose proof (inv_current _ Hi) as Hc.
    destruct (current tr) as [c|]; [by apply Hlast; auto|]. by destruct (root tr).
Qed.

(** *** Reachable trees

    [add] under the precondition it asserts, [remove] of any key and [next],
    in any order. *)
Inductive step : t V → t V → Prop :=
  | step_add tr key v depend : add_pre tr key depend → step tr (add key v depend tr).2
  | step_remove tr key : step tr (remove key tr).2
  | step_next tr : step tr (next tr).2.

Definition reachable tr : Prop := rtc step empty tr.

Lemma step_inv tr tr' : step tr tr' → Inv tr → Inv tr'.
Proof.
  intros [? key v depend Hpre|? key|?] Hi.
  - by destruct (add_ok _ key v depend Hi Hpre) as (? & ? & -> & ? & _).
  - destruct (keys tr0 !! key) as [nd|] eqn:E.
    + by destruct (remove_ok _ key nd Hi E) as (? & ? & -> & ? & _).
    + unfold remove. by rewrite E.
  - by destruct (next_ok _ Hi) as (? & ? & -> & ? & _).
Qed.

Lemma reachable_inv tr : reachable tr → Inv tr.
Proof.
  intros H. cut (Inv empty → Inv tr); [auto using inv_empty|].
  induction H as [|? ? ? Hs _ IH]; [done|]. intros. by apply IH, (step_inv x).
Qed.

(** ** Properties *)

(** C8: in every reachable tree a transaction is ready (a child of the root)
    exactly when it is live and no live transaction with a smaller identifier
    uses one of its objects; so two ready transactions never share an object. *)
Theorem ready_iff_no_earlier_conflict tr : reachable tr →
  (∀ k, k ∈ root tr ↔ live tr k ∧ ∀ k' o, uses tr k' o → uses tr k o → ¬ IdT_lt k' k) ∧
  (∀ k1 k2 o, k1 ∈ root tr → k2 ∈ root tr → uses tr k1 o → uses tr k2 o → k1 = k2).
Proof.
  intros Hi%reachable_inv. pose proof (λ k, ready_no_earlier tr k Hi) as H.
  split; [done|]. intros k1 k2 o [_ H1]%H [_ H2]%H U1 U2.
  destruct (trichotomy IdT_lt k1 k2) as [?|[?|?]];
    [by destruct (H2 k1 o U1 U2)|done|by destruct (H1 k2 o U2 U1)].
Qed.

Lemma least_root tr k : Inv tr → live tr k → (∀ k', live tr k' → ¬ IdT_lt k' k) → k ∈ root tr.
Proof.
  intros Hi Hk Hmin. apply (ready_no_earlier tr); [done|]. split; [done|].
  intros k' o (n & ? & _) _. apply Hmin. by eexists.
Qed.

Lemma live_root tr k : Inv tr → live tr k → root tr ≠ [].
Proof.
  intros Hi Hk. destruct (minimal_exists_elem_of_L IdT_lt (dom (keys tr))) as (m & Hm & Hmin).
  { apply elem_of_dom in Hk. set_solver. }
  assert (m ∈ root tr) as Hr; [|by destruct (root tr); set_solver].
  apply least_root; [done|by apply elem_of_dom in Hm|]. intros k' Hk' Hlt.
  apply (irreflexivity IdT_lt m). eapply transitivity; [|exact Hlt].
  apply Hmin; [by apply elem_of_dom|done].
Qed.

(** Progress: while a transaction is live, some transaction is ready, and
    the least live key is always among the ready ones. *)
Theorem least_key_is_ready tr k : reachable tr → live tr k →
  root tr ≠ [] ∧ ((∀ k', live tr k' → ¬ IdT_lt k' k) → k ∈ root tr).
Proof. intros Hi%reachable_inv Hk. split; [by eapply live_root|by apply least_root]. Qed.

(** The reference structure never dangles: in a reachable tree every node
    pointer held by the root list, a parents or children set, an object's
    users or the iterator refers to a live node, and [next] and
    [getCurrent] never read a removed node. *)
Theorem no_dangling_nodes tr : reachable tr →
  Forall (live tr) (root tr) ∧
  (∀ k n, keys tr !! k = Some n →
     (∀ p, p ∈ parents n → live tr p) ∧ (∀ c, c ∈ children n → live tr c)) ∧
  (∀ o, Forall (live tr) (users (depends tr) o)) ∧
  (∀ k, current tr = Some k → live tr k) ∧
  (∃ r tr', next tr = (Ok r, tr')) ∧ (∃ r, getCurrent tr = Ok r).
Proof.
  intros Hi%reachable_inv.
  assert (∀ o k, k ∈ users (depends tr) o → live tr k) as Hu.
  { intros o k (n & ? & _)%(inv_users _ Hi). by eexists. }
  assert (∀ k, k ∈ root tr → live tr k) as Hr.
  { intros k (n & ? & _)%(inv_root _ Hi). by eexists. }
  split; [by apply Forall_forall|]. split; [|split; [by intros; apply Forall_forall; eauto|]].
  - intros k n En. split.
    + intros p (o & _ & [Hp _]%adj_elem)%(inv_parents _ Hi k n En). by eapply Hu.
    + intros c Hc. destruct (inv_children _ Hi k n c En Hc) as (? & ? & _). by eexists.
  - split; [intros k Hk%(inv_current _ Hi); auto|]. split.
    + destruct (next_ok tr Hi) as (r & tr' & ? & _). eauto.
    + unfold getCurrent, deref. destruct (current tr) as [c|]; [|eauto].
      case_bool_decide as Hc; [|eauto]. destruct (Hr c Hc) as [n ->]. simpl. eauto.
Qed.

(** [remove] of a live key deletes it and nothing else, keeps the other
    ready transactions ready in their order, appends the transactions it
    makes ready, and reports how many those are. *)
Theorem remove_reports_new_ready tr key : reachable tr → live tr key →
  ∃ tr' new, remove key tr = (Ok (true, Z.of_nat (length new)), tr') ∧ reachable tr' ∧
    (∀ k, live tr' k ↔ live tr k ∧ k ≠ key) ∧
    root tr' = root_erase key (root tr) ++ new ∧ (∀ k, k ∈ new → k ∉ root tr).
Proof.
  intros Hr [nd End]. pose proof (reachable_inv _ Hr) as Hi.
  destruct (remove_ok tr key nd Hi End) as (tr' & new & E & _ & Hl & _ & Hroot & Hn).
  exists tr', new. split; [done|]. split; [|done]. eapply rtc_r; [exact Hr|].
  pose proof (step_remove tr key) as Hs. by rewrite E in Hs.
Qed.

End theory.

(** ** Witnesses: four transactions over three objects *)

Definition ex_key (n : Z) : K := mkIdT n 1.
Definition ex_obj (n : Z) : O := mkObj order_ObjectType (mkIdT (100 + n) 1).

Definition ex_tree1 : t Z := (add (ex_key 1) 11 [ex_obj 1; ex_obj 2] empty).2.
Definition ex_tree2 : t Z := (add (ex_key 2) 12 [ex_obj 2; ex_obj 3] ex_tree1).2.
Definition ex_tree3 : t Z := (add (ex_key 3) 13 [ex_obj 3] ex_tree2).2.
Definition ex_tree4 : t Z := (add (ex_key 4) 14 [ex_obj 4] ex_tree3).2.
Definition ex_tree : t Z := (next ex_tree4).2.

(** Decide the precondition of [add] on a concrete tree. *)
Definition add_pre_b {V} (tr : t V) (key : K) (depend : ObjectsInTransaction) : bool :=
  isValidId key && bool_decide (map_Forall (λ k _, IdT_lt k key) (keys tr))
  && bool_decide (NoDup depend) && bool_decide (Forall (λ o, isValidId (ob_id o) = true) depend).

Lemma add_pre_b_spec {V} (tr : t V) key depend :
  add_pre_b tr key depend = true → add_pre tr key depend.
Proof.
  unfold add_pre_b, add_pre. intros H. case_bool. split; [done|]. split; [|done].
  intros k [n Hk]. rename select (map_Forall _ _) into Hall. by apply (Hall k n).
Qed.

Lemma ex_tree_reachable : reachable ex_tree.
Proof.
  apply (rtc_l step empty ex_tree1); [apply step_add, add_pre_b_spec; by vm_compute|].
  apply (rtc_l step ex_tree1 ex_tree2); [apply step_add, add_pre_b_spec; by vm_compute|].
  apply (rtc_l step ex_tree2 ex_tree3); [apply step_add, add_pre_b_spec; by vm_compute|].
  apply (rtc_l step ex_tree3 ex_tree4); [apply step_add, add_pre_b_spec; by vm_compute|].
  apply (rtc_l step ex_tree4 ex_tree); [apply step_next|]. apply rtc_refl.
Qed.

Lemma ex_tree_live n : 1 <= n <= 4 → live ex_tree (ex_key n).
Proof.
  intros H. assert (n = 1 ∨ n = 2 ∨ n = 3 ∨ n = 4) as Hn by lia.
  unfold live. destruct Hn as [->|[->|[->| ->]]]; eexists; by vm_compute.
Qed.

Lemma ready_iff_no_earlier_conflict_witness :
  root ex_tree = [ex_key 1; ex_key 4] ∧
  (ex_key 1 ∈ root ex_tree ↔ live ex_tree (ex_key 1) ∧
     ∀ k' o, uses ex_tree k' o → uses ex_tree (ex_key 1) o → ¬ IdT_lt k' (ex_key 1)).
Proof.
  split; [by vm_compute|].
  exact (proj1 (ready_iff_no_earlier_conflict ex_tree ex_tree_reachable) (ex_key 1)).
Defined.

Lemma least_key_is_ready_witness : root ex_tree ≠ [].
Proof.
  exact (proj1 (least_key_is_ready ex_tree (ex_key 1) ex_tree_reachable
    (ex_tree_live 1 ltac:(lia)))).
Defined.

Lemma no_dangling_nodes_witness : current ex_tree = Some (ex_key 1) ∧
  Forall (live ex_tree) (root ex_tree).
Proof.
  split; [by vm_compute|].
  exact (proj1 (no_dangling_nodes ex_tree ex_tree_reachable)).
Defined.

Lemma remove_reports_new_ready_witness :
  root (remove (ex_key 1) ex_tree).2 = [ex_key 4; ex_key 2] ∧
  ∃ tr' new, remove (ex_key 1) ex_tree = (Ok (true, Z.of_nat (length new)), tr') ∧ reachable tr' ∧
    (∀ k, live tr' k ↔ live ex_tree k ∧ k ≠ ex_key 1) ∧
    root tr' = root_erase (ex_key 1) (root ex_tree) ++ new ∧ (∀ k, k ∈ new → k ∉ root ex_tree).
Proof.
  split; [by vm_compute|].
  exact (remove_reports_new_ready ex_tree (ex_key 1) ex_tree_reachable
    (ex_tree_live 1 ltac:(lia))).
Defined.

Definition ex_chain : t Z :=
  (remove (ex_key 2) (add (ex_key 3) 13 [ex_obj 1]
    (add (ex_key 2) 12 [ex_obj 1] (add (ex_key 1) 11 [ex_obj 1] empty).2).2).2).2.

(** [getChildren] does not list every blocked transaction: when the middle
      one of three transactions on one object is removed, the last is bound to
      the first as its parent but is not entered into the first one's
      children. *)
Theorem getChildren_misses_rebound_child :
  reachable ex_chain ∧
  getParents (ex_key 3) ex_chain ∅ = Some {[ex_key 1]} ∧
  getChildren (ex_key 1) ex_chain ∅ = Some ∅.
Proof.
  split; [|by vm_compute].
  set (t1 := (add (ex_key 1) 11 [ex_obj 1] (empty (V := Z))).2).
  set (t2 := (add (ex_key 2) 12 [ex_obj 1] t1).2).
  set (t3 := (add (ex_key 3) 13 [ex_obj 1] t2).2).
  apply (rtc_l step empty t1); [apply step_add, add_pre_b_spec; by vm_compute|].
  apply (rtc_l step t1 t2); [apply step_add, add_pre_b_spec; by vm_compute|].
  apply (rtc_l step t2 t3); [apply step_add, add_pre_b_spec; by vm_compute|].
  apply (rtc_l step t3 ex_chain); [apply step_remove|]. apply rtc_refl.
Qed.

End NLinkTree.
