(* ===== verification/TxScope.v ===== *)
(** Transactions, [src/src/TransactionScope.cpp] and [src/src/TransactionDef.h]:
    the list of operations with its stages, the objects it touches, its
    execution with rollback, and the bump arena its operations live in. *)

From Stdlib Require Import String ZArith Lia.
From S2P Require Import Prelude Types LinkTree.

(** ** What a transaction promises to the transaction manager *)

(** class Transaction -- src/src/TransactionDef.h:184-197
    [related] is [getRelatedObjects]; the laws are what [NLinkTree::add]
    asserts of the objects it is given. *)
Class Transaction (T : Type) := {
  transactionId : T → IdT;
  setTransactionId : IdT → T → T;
  getRelatedObjects : T → outcome ObjectsInTransaction;
  related_nodup t objs : getRelatedObjects t = Ok objs → NoDup objs;
  related_valid t objs : getRelatedObjects t = Ok objs →
    Forall (λ o, isValidId (ob_id o) = true) objs;
  related_setId t i : getRelatedObjects (setTransactionId i t) = getRelatedObjects t;
}.

(** class Operation -- src/src/TransactionDef.h:131-163
    The identifiers of the objects an operation touches. *)
Class Operation (Op : Type) := {
  getObjectId : Op → IdT;
  getRelatedId : Op → IdT;
}.

Module TransactionScope.

(** class TransactionScope -- src/src/TransactionScope.h:27-100
    [arenaOffset_] is the bump pointer of the operation arena. *)
Record t (Op : Type) := mkScope {
  operations : list Op; stageBoundaries : list nat; ts_id : IdT; arenaOffset : Z }.
Arguments mkScope {Op} _ _ _ _.
Arguments operations {Op} _.
Arguments stageBoundaries {Op} _.
Arguments ts_id {Op} _.
Arguments arenaOffset {Op} _.

(** static constexpr size_t ARENA_SIZE -- src/src/TransactionScope.h:30-32 *)
Definition ARENA_SIZE : Z := 2048.

Section ops.
Context {Op : Type}.
Implicit Types (sc : t Op).

(** TransactionScope::TransactionScope -- src/src/TransactionScope.cpp:57-57 *)
Definition empty : t Op := mkScope [] [] IdT0 0.

(** TransactionScope::reset -- src/src/TransactionScope.cpp:67-87 *)
Definition reset sc : t Op := mkScope [] [] IdT0 0.

(** TransactionScope::arenaAllocate -- src/src/TransactionScope.cpp:89-100
    The offset of the block in the buffer; [None] is a null pointer. *)
Definition arenaAllocate (size align : Z) sc : option Z * t Op :=
  let padding := (align - arenaOffset sc `mod` align) `mod` align in
  let newOffset := wrap64 (arenaOffset sc + padding + size) in
  if ARENA_SIZE <? newOffset then (None, sc)
  else (Some (arenaOffset sc + padding),
        mkScope (operations sc) (stageBoundaries sc) (ts_id sc) newOffset).

(** TransactionScope::isFromArena -- src/src/TransactionScope.cpp:102-107 *)
Definition isFromArena (base p : Z) : bool := (base <=? p) && (p <? base + ARENA_SIZE).

(** TransactionScope::addOperation -- src/src/TransactionScope.cpp:147-150 *)
Definition addOperation (op : Op) sc : t Op :=
  mkScope (operations sc ++ [op]) (stageBoundaries sc) (ts_id sc) (arenaOffset sc).

(** [while (!v.empty() && v.back() >= n) v.pop_back();] on the reversed vector. *)
Fixpoint pop_while_ge (n : nat) (rl : list nat) : list nat :=
  match rl with
  | [] => []
  | x :: rl' => if (n <=? x)%nat then pop_while_ge n rl' else rl
  end.

(** TransactionScope::removeLastOperation -- src/src/TransactionScope.cpp:152-167 *)
Definition removeLastOperation sc : t Op :=
  match operations sc with
  | [] => sc
  | _ =>
      let ops := removelast (operations sc) in
      mkScope ops (rev (pop_while_ge (length ops) (rev (stageBoundaries sc))))
        (ts_id sc) (arenaOffset sc)
  end.

(** TransactionScope::startNewStage -- src/src/TransactionScope.cpp:169-175 *)
Definition startNewStage sc : nat * t Op :=
  (length (stageBoundaries sc),
   mkScope (operations sc) (stageBoundaries sc ++ [length (operations sc)])
     (ts_id sc) (arenaOffset sc)).

(** TransactionScope::removeStage -- src/src/TransactionScope.cpp:177-198 *)
Definition removeStage (stageId : nat) : M (t Op) unit := λ sc,
  match stageBoundaries sc !! stageId with
  | None => (Throw "TransactionScope::removeStage(): invalid stage id!", sc)
  | Some stageStart =>
      (Ok tt, mkScope (take stageStart (operations sc)) (take stageId (stageBoundaries sc))
                (ts_id sc) (arenaOffset sc))
  end.

(** TransactionScope::transactionId, setTransactionId -- src/src/TransactionScope.cpp:200-203 *)
Definition set_id (i : IdT) sc : t Op :=
  mkScope (operations sc) (stageBoundaries sc) i (arenaOffset sc).

Section related.
Context `{Operation Op}.

Definition too_many : string :=
  "getRelatedObjects() failed to fill ObjectsInTransactionT, transaction use too many objects!".

(** TransactionScope::getRelatedObjects, one object -- src/src/TransactionScope.cpp:215-233
    Append an object unless one with its identifier is listed already. *)
Definition note_object (ty : ObjectType) (i : IdT) (objs : ObjectsInTransaction) :
    outcome ObjectsInTransaction :=
  if existsb (λ o, IdT_eqb i (ob_id o)) objs then Ok objs
  else if (length objs =? DEPENDANT_OBJECT_LIMIT)%nat then Throw too_many
  else Ok (objs ++ [mkObj ty i]).

(** TransactionScope::getRelatedObjects, the loop -- src/src/TransactionScope.cpp:209-258 *)
Fixpoint related_loop (ops : list Op) (objs : ObjectsInTransaction) :
    outcome ObjectsInTransaction :=
  match ops with
  | [] => Ok objs
  | op :: ops' =>
      if negb (isValidId (getObjectId op)) then Crash "assert"
      else
        obind (note_object order_ObjectType (getObjectId op) objs) (λ objs,
        obind (if isValidId (getRelatedId op)
               then note_object instrument_ObjectType (getRelatedId op) objs else Ok objs)
          (λ objs, related_loop ops' objs))
  end.

(** TransactionScope::getRelatedObjects -- src/src/TransactionScope.cpp:205-259 *)
Definition related sc : outcome ObjectsInTransaction := related_loop (operations sc) [].
End related.

Section execute.
Context {W : Type} (execute rollback : Op → M W unit).

(** TransactionScope::executeTransaction, rollback -- src/src/TransactionScope.cpp:285-301
    The rollback loop: from the failed operation down to the first; an
    exception out of a rollback ends the loop and is swallowed. *)
Fixpoint rollback_loop (done : list Op) : M W unit := λ w,
  match done with
  | [] => (Ok tt, w)
  | op :: done' =>
      match rollback op w with
      | (Ok _, w') => rollback_loop done' w'
      | (Throw _, w') => (Ok tt, w')
      | (Crash c, w') => (Crash c, w')
      end
  end.

(** TransactionScope::executeTransaction, commit -- src/src/TransactionScope.cpp:268-283
    The commit loop; [done] holds the operations executed so far, last
    first. *)
Fixpoint commit_loop (ops done : list Op) : M W bool := λ w,
  match ops with
  | [] => (Ok true, w)
  | op :: ops' =>
      match execute op w with
      | (Ok _, w') => commit_loop ops' (op :: done) w'
      | (Throw _, w') =>
          match rollback_loop (op :: done) w' with
          | (Ok _, w'') => (Ok false, w'')
          | (Throw m, w'') => (Throw m, w'')
          | (Crash c, w'') => (Crash c, w'')
          end
      | (Crash c, w') => (Crash c, w')
      end
  end.

(** TransactionScope::executeTransaction -- src/src/TransactionScope.cpp:261-302 *)
Definition executeTransaction sc : M W bool := commit_loop (operations sc) [].
End execute.
End ops.

(** ** Stages *)
Section stages.
Context {Op : Type}.
Implicit Types (sc : t Op).

Inductive ScopeOp :=
  | SAdd (op : Op) | SRemoveLast | SStart | SRemove (stageId : nat) | SAlloc (size align : Z).

Definition run_op (o : ScopeOp) sc : t Op :=
  match o with
  | SAdd op => addOperation op sc
  | SRemoveLast => removeLastOperation sc
  | SStart => (startNewStage sc).2
  | SRemove i => (removeStage i sc).2
  | SAlloc size align => (arenaAllocate size align sc).2
  end.

Definition run_ops (l : list ScopeOp) sc : t Op := foldl (λ sc o, run_op o sc) sc l.

(** Stage starts ascend and none lies beyond the operations, so the [erase]
    of [removeStage] stays inside the vector. *)
Definition scope_wf sc : Prop :=
  StronglySorted le (stageBoundaries sc) ∧
  Forall (λ b, b <= length (operations sc))%nat (stageBoundaries sc).

Lemma StronglySorted_le_snoc l n :
  StronglySorted le l → Forall (λ b, b <= n)%nat l → StronglySorted le (l ++ [n]).
Proof.
  induction 1 as [|x l Hs IH Hall]; simpl; intros Hn; [repeat constructor|].
  apply Forall_cons in Hn as [??]. constructor; [auto|]. apply Forall_app; auto.
Qed.

Lemma StronglySorted_le_app_l (l1 l2 : list nat) :
  StronglySorted le (l1 ++ l2) → StronglySorted le l1.
Proof.
  induction l1 as [|x l1 IH]; simpl; [constructor|].
  intros [? [? _]%Forall_app]%StronglySorted_inv. constructor; auto.
Qed.

Lemma pop_while_ge_spec n (l : list nat) : StronglySorted le l →
  ∃ l1 l2, l = l1 ++ l2 ∧ rev (pop_while_ge n (rev l)) = l1 ∧
    Forall (λ b, b < n)%nat l1 ∧ Forall (λ b, n <= b)%nat l2.
Proof.
  induction l as [|x l IH] using rev_ind; intros Hs; [exists [], []; auto|].
  rewrite rev_unit; simpl. destruct (Nat.leb_spec n x).
  - destruct (IH (StronglySorted_le_app_l _ _ Hs)) as (l1 & l2 & -> & -> & ? & ?).
    exists l1, (l2 ++ [x]). rewrite app_assoc. repeat split; auto. apply Forall_app; auto.
  - exists (l ++ [x]), []. rewrite app_nil_r. simpl. rewrite rev_involutive.
    repeat split; auto. apply Forall_app. split; [|auto].
    apply Forall_forall. intros y Hy. apply list_elem_of_split in Hy as (a & b & ->).
    rewrite <- app_assoc in Hs. simpl in Hs.
    assert (y <= x)%nat; [|lia]. clear -Hs. induction a as [|z a IH]; simpl in *.
    + apply StronglySorted_inv in Hs as [_ Hs]. rewrite Forall_forall in Hs. apply Hs. set_solver.
    + apply IH. by apply StronglySorted_inv in Hs as [? _].
Qed.

Lemma run_op_wf o sc : scope_wf sc → scope_wf (run_op o sc).
Proof.
  intros [Hs Hb]. destruct o as [op| | |i|size align]; simpl.
  - split; simpl; [done|]. eapply Forall_impl; [exact Hb|]. simpl. intros. rewrite length_app. lia.
  - unfold removeLastOperation. destruct (operations sc) as [|x ops] eqn:E; [by split; [|rewrite E]|].
    destruct (pop_while_ge_spec (length (removelast (x :: ops))) _ Hs)
      as (l1 & l2 & El & -> & H1 & H2).
    split; simpl; [rewrite El in Hs; by eapply StronglySorted_le_app_l|].
    eapply Forall_impl; [exact H1|]. simpl. lia.
  - split; simpl; [by apply StronglySorted_le_snoc|]. apply Forall_app; auto.
  - unfold removeStage. destruct (stageBoundaries sc !! i) as [b|] eqn:Ei; [|done].
    rewrite <- (take_drop_middle _ _ _ Ei) in Hs, Hb. split; simpl.
    + by eapply StronglySorted_le_app_l.
    + apply Forall_app in Hb as [_ Hb]. apply Forall_cons in Hb as [Hb _].
      rewrite length_take. apply Forall_forall. intros x Hx.
      apply list_elem_of_split in Hx as (l1 & l2 & Hl). rewrite Hl in Hs.
      assert (x <= b)%nat; [|lia]. clear -Hs. induction l1 as [|z l1 IH]; simpl in *.
      * apply StronglySorted_inv in Hs as [_ Hs]. rewrite Forall_forall in Hs. apply Hs. set_solver.
      * apply IH. by apply StronglySorted_inv in Hs as [? _].
  - unfold arenaAllocate. by case_match.
Qed.

Lemma run_ops_wf l sc : scope_wf sc → scope_wf (run_ops l sc).
Proof. revert sc. induction l as [|o l IH]; simpl; intros; [done|]. by apply IH, run_op_wf. Qed.

(** The operations a stage body may do: everything that does not reach below
    the stage. *)
Definition in_stage (sid : nat) (o : ScopeOp) : Prop :=
  match o with
  | SAdd _ | SStart | SAlloc _ _ => True
  | SRemove i => (sid < i)%nat
  | SRemoveLast => False
  end.

Definition extends sc sc' : Prop :=
  ∃ ops bs, operations sc' = operations sc ++ ops ∧
    stageBoundaries sc' = stageBoundaries sc ++ length (operations sc) :: bs ∧
    Forall (λ b, length (operations sc) <= b)%nat bs ∧ ts_id sc' = ts_id sc.

Lemma extends_run o sc sc' : extends sc sc' → in_stage (length (stageBoundaries sc)) o →
  extends sc (run_op o sc').
Proof.
  intros (ops & bs & Eo & Eb & Hbs & Ei) Hin. destruct o as [op| | |i|size align]; simpl in *.
  - exists (ops ++ [op]), bs. simpl. by rewrite Eo, app_assoc.
  - done.
  - exists ops, (bs ++ [length (operations sc')]). simpl. rewrite Eb, <- app_assoc. repeat split; try done.
    apply Forall_app. split; [done|]. rewrite Eo, length_app. constructor; [lia|constructor].
  - unfold removeStage. destruct (stageBoundaries sc' !! i) as [b|] eqn:Eib; [|by exists ops, bs].
    simpl. rewrite Eb in Eib. rewrite lookup_app_r in Eib by lia.
    destruct (i - length (stageBoundaries sc))%nat as [|j] eqn:Ej; [lia|]. simpl in Eib.
    assert (length (operations sc) <= b)%nat as Hb.
    { apply list_elem_of_lookup_2 in Eib. rewrite Forall_forall in Hbs. auto. }
    exists (take (b - length (operations sc)) ops), (take j bs).
    rewrite Eo, Eb, !take_app, (take_ge (operations sc)), (take_ge (stageBoundaries sc)), Ej by lia.
    repeat split; try done. by apply Forall_take.
  - exists ops, bs. unfold arenaAllocate. by case_match.
Qed.

(** The stage starts stay in ascending order inside the operation vector
    under every sequence of scope operations, and a stage is a
    sub-transaction: [removeStage] of the stage just started discards exactly
    what was done since [startNewStage]. *)
Theorem removeStage_discards_stage sc body : scope_wf sc →
  let st := startNewStage sc in
  Forall (in_stage st.1) body →
  let r := removeStage st.1 (run_ops body st.2) in
  scope_wf r.2 ∧ r.1 = Ok tt ∧ operations r.2 = operations sc ∧
  stageBoundaries r.2 = stageBoundaries sc ∧ ts_id r.2 = ts_id sc.
Proof.
  intros Hwf st Hbody r.
  assert (scope_wf r.2) as Hr.
  { apply (run_op_wf (SRemove _)), run_ops_wf. by apply (run_op_wf SStart). }
  assert (extends sc (run_ops body st.2)) as (ops & bs & Eo & Eb & _ & Ei).
  { assert (extends sc st.2) as H0 by (exists [], []; simpl; by rewrite app_nil_r).
    clear r Hr. revert H0. generalize (st.2). induction Hbody as [|o body Ho _ IH]; simpl; [done|].
    intros sc' H0. by apply IH, extends_run. }
  split; [done|]. subst r. unfold removeStage, st; simpl in *.
  rewrite Eb, lookup_app_r, Nat.sub_diag by lia. simpl.
  by rewrite Eo, !take_app_length.
Qed.
End stages.

(** ** Related objects *)
Section related_theory.
Context {Op : Type} `{Operation Op}.
Implicit Types (sc : t Op) (objs : ObjectsInTransaction).

(** The references of an operation, in the order they are noted. *)
Definition op_refs (op : Op) : list (ObjectType * IdT) :=
  (order_ObjectType, getObjectId op) ::
  if isValidId (getRelatedId op) then [(instrument_ObjectType, getRelatedId op)] else [].

Fixpoint note_all (refs : list (ObjectType * IdT)) objs : outcome ObjectsInTransaction :=
  match refs with
  | [] => Ok objs
  | (ty, i) :: refs' => obind (note_object ty i objs) (note_all refs')
  end.

Lemma note_all_app r1 r2 objs :
  note_all (r1 ++ r2) objs = obind (note_all r1 objs) (note_all r2).
Proof.
  revert objs. induction r1 as [|[ty i] r1 IH]; simpl; intros; [done|].
  destruct (note_object ty i objs); simpl; auto.
Qed.

Lemma related_loop_notes ops objs :
  Forall (λ op, isValidId (getObjectId op) = true) ops →
  related_loop ops objs = note_all (mjoin (op_refs <$> ops)) objs.
Proof.
  intros Hv. revert objs. induction Hv as [|op ops Hop _ IH]; intros objs; [done|].
  cbn [related_loop fmap list_fmap mjoin list_join]. rewrite Hop, note_all_app. unfold op_refs; simpl.
  destruct (note_object order_ObjectType (getObjectId op) objs) as [o1| |]; simpl; [|done..].
  destruct (isValidId (getRelatedId op)); simpl; [|apply IH].
  destruct (note_object _ _ o1) as [o2| |]; simpl; [apply IH|done..].
Qed.

Definition ids objs : list IdT := ob_id <$> objs.

Lemma note_object_seen i objs :
  existsb (λ o, IdT_eqb i (ob_id o)) objs = bool_decide (i ∈ ids objs).
Proof.
  unfold ids. induction objs as [|o objs IH];
    [symmetry; apply bool_decide_false; set_solver|].
  cbn [existsb fmap list_fmap]. rewrite IH. destruct (IdT_eqb i (ob_id o)) eqn:E; simpl.
  - apply IdT_eqb_spec in E as ->. symmetry. apply bool_decide_true. left.
  - apply NLinkTree.IdT_eqb_false in E. apply bool_decide_ext. set_solver.
Qed.

(** Noting references collects their identifiers without repetition and fails
    exactly when there are more than [DEPENDANT_OBJECT_LIMIT] of them. *)
Lemma note_all_spec refs objs : NoDup (ids objs) → (length objs <= DEPENDANT_OBJECT_LIMIT)%nat →
  let all : gset IdT := list_to_set (ids objs ++ refs.*2) in
  if decide (size all <= DEPENDANT_OBJECT_LIMIT)%nat then
    ∃ objs', note_all refs objs = Ok objs' ∧ NoDup (ids objs') ∧
      (∀ i, i ∈ ids objs' ↔ i ∈ ids objs ++ refs.*2)
  else note_all refs objs = Throw too_many.
Proof.
  revert objs. induction refs as [|[ty i] refs IH]; intros objs Hnd Hlen; cbn [note_all].
  { simpl. rewrite app_nil_r, decide_True; [by eauto|].
    rewrite size_list_to_set by done. unfold ids. by rewrite length_fmap. }
  rewrite fmap_cons. cbn [snd]. unfold note_object. rewrite note_object_seen.
  case_bool_decide as Hi; cbn [obind].
  - assert ((list_to_set (ids objs ++ i :: refs.*2) : gset IdT) =
      list_to_set (ids objs ++ refs.*2)) as -> by set_solver.
    specialize (IH objs Hnd Hlen). cbn zeta in IH. case_decide; [|done].
    destruct IH as (objs' & -> & ? & Hin). exists objs'. split; [done|]. split; [done|].
    intros j. rewrite Hin. set_solver.
  - destruct (Nat.eqb_spec (length objs) DEPENDANT_OBJECT_LIMIT) as [El|El]; cbn [obind].
    + rewrite decide_False; [done|]. intros Hsz.
      assert ((list_to_set (i :: ids objs) : gset IdT) ⊆ list_to_set (ids objs ++ i :: refs.*2))
        as Hsub by set_solver.
      apply subseteq_size in Hsub. rewrite size_list_to_set in Hsub by by constructor.
      simpl in Hsub. unfold ids in *. rewrite length_fmap in Hsub. lia.
    + specialize (IH (objs ++ [mkObj ty i])). unfold ids in *.
      rewrite fmap_app, length_app in IH. simpl in IH. rewrite <- app_assoc in IH. simpl in IH.
      apply IH; [|lia]. apply NoDup_app. split; [done|]. split; [set_solver|apply NoDup_singleton].
Qed.

Lemma related_invalid ops objs objs' : related_loop ops objs = Ok objs' →
  Forall (λ op, isValidId (getObjectId op) = true) ops.
Proof.
  revert objs. induction ops as [|op ops IH]; intros objs; simpl; [auto|].
  destruct (isValidId (getObjectId op)) eqn:Hv; simpl; [|done].
  destruct (note_object _ _ _) as [o1| |]; simpl; [|done..].
  destruct (if isValidId _ then _ else _) as [o2| |]; simpl; [|done..]. eauto.
Qed.

Lemma related_ok sc objs : related sc = Ok objs →
  NoDup (ids objs) ∧ (length objs <= DEPENDANT_OBJECT_LIMIT)%nat ∧
  Forall (λ i, isValidId i = true) (ids objs) ∧
  (∀ i, i ∈ ids objs ↔ ∃ op, op ∈ operations sc ∧ i ∈ (op_refs op).*2).
Proof.
  intros E. unfold related in E. pose proof (related_invalid _ _ _ E) as Hv.
  rewrite related_loop_notes in E by done.
  pose proof (note_all_spec (mjoin (op_refs <$> operations sc)) []) as Hs. simpl in Hs.
  assert (∀ i, i ∈ (mjoin (op_refs <$> operations sc)).*2 ↔
    ∃ op, op ∈ operations sc ∧ i ∈ (op_refs op).*2) as Hrefs.
  { intros i. rewrite list_elem_of_fmap. setoid_rewrite list_elem_of_fmap.
    setoid_rewrite list_elem_of_join. setoid_rewrite list_elem_of_fmap. naive_solver. }
  case_decide as Hsz; [|by rewrite Hs in E; [|constructor|unfold DEPENDANT_OBJECT_LIMIT; lia]].
  destruct Hs as (objs' & E' & Hnd & Hin); [constructor|unfold DEPENDANT_OBJECT_LIMIT; lia|].
  rewrite E' in E. simplify_eq. split; [done|]. split.
  - rewrite <- (length_fmap ob_id), <- (size_list_to_set (C := gset IdT)) by done.
    etrans; [|exact Hsz]. apply subseteq_size. intros j. rewrite !elem_of_list_to_set. apply Hin.
  - split; [|intros i; rewrite Hin; apply Hrefs].
    apply Forall_forall. intros i (op & Hop & Hi)%Hin%Hrefs. rewrite Forall_forall in Hv.
    unfold op_refs in Hi; simpl in Hi. apply elem_of_cons in Hi as [->|Hi]; [by apply Hv|].
    destruct (isValidId (getRelatedId op)) eqn:Er; set_solver.
Qed.

(** [getRelatedObjects] lists the identifiers of the operations' objects,
    each once and all valid; with valid object identifiers it succeeds exactly
    when there are at most ten different ones and throws otherwise. *)
Theorem getRelatedObjects_complete sc :
  Forall (λ op, isValidId (getObjectId op) = true) (operations sc) →
  let wanted : gset IdT := list_to_set (mjoin (op_refs <$> operations sc)).*2 in
  if decide (size wanted <= DEPENDANT_OBJECT_LIMIT)%nat then
    ∃ objs, related sc = Ok objs ∧ NoDup (ids objs) ∧ list_to_set (ids objs) = wanted ∧
      Forall (λ i, isValidId i = true) (ids objs)
  else related sc = Throw too_many.
Proof.
  intros Hv wanted. pose proof (note_all_spec (mjoin (op_refs <$> operations sc)) []) as Hs.
  simpl in Hs. fold wanted in Hs.
  assert (related sc = note_all (mjoin (op_refs <$> operations sc)) []) as E
    by by apply related_loop_notes.
  destruct (decide (size wanted <= DEPENDANT_OBJECT_LIMIT)%nat).
  - destruct Hs as (objs & E' & Hnd & Hin); [constructor|unfold DEPENDANT_OBJECT_LIMIT; lia|].
    exists objs. rewrite E. split; [done|]. split; [done|]. split.
    + apply set_eq. intros j. subst wanted. rewrite !elem_of_list_to_set. apply Hin.
    + rewrite <- E in E'. by apply related_ok in E' as (_ & _ & ? & _).
  - rewrite E. apply Hs; [constructor|unfold DEPENDANT_OBJECT_LIMIT; lia].
Qed.
End related_theory.

(** A scope is what the transaction manager expects of a transaction. *)
#[global] Program Instance scope_transaction `{Operation Op} : Transaction (t Op) := {|
  transactionId := ts_id;
  setTransactionId := set_id;
  getRelatedObjects := related |}.
Next Obligation.
  intros Op HOp sc objs (Hnd & _)%related_ok. by eapply NoDup_fmap_1.
Qed.
Next Obligation.
  intros Op HOp sc objs (_ & _ & Hv & _)%related_ok. by apply Forall_fmap in Hv.
Qed.
Next Obligation. done. Qed.

(** ** Execution and rollback *)
Section execution_theory.
Context {Op W : Type} (execute rollback : Op → M W unit).
Implicit Types (sc : t Op).

(** [run] applied to each operation in turn, all of them returning. *)
Inductive all_ok (run : Op → M W unit) : list Op → W → W → Prop :=
  | all_ok_nil w : all_ok run [] w w
  | all_ok_cons op ops w w1 w2 :
      run op w = (Ok tt, w1) → all_ok run ops w1 w2 → all_ok run (op :: ops) w w2.

Lemma commit_loop_ok ops dn w w' : all_ok execute ops w w' →
  commit_loop execute rollback ops dn w = (Ok true, w').
Proof.
  intros H. revert dn. induction H as [|op ops w w1 w2 E _ IH]; intros dn; simpl; [done|].
  by rewrite E.
Qed.

Lemma rollback_loop_ok ops w w' : all_ok rollback ops w w' →
  rollback_loop rollback ops w = (Ok tt, w').
Proof. induction 1 as [|op ops w w1 w2 E _ IH]; simpl; [done|]. by rewrite E. Qed.

Lemma commit_loop_fail ops1 op ops2 dn w w1 w2 w3 m :
  all_ok execute ops1 w w1 → execute op w1 = (Throw m, w2) →
  all_ok rollback (op :: rev ops1 ++ dn) w2 w3 →
  commit_loop execute rollback (ops1 ++ op :: ops2) dn w = (Ok false, w3).
Proof.
  intros H. revert dn. induction H as [w|o ops w w1' w1 E _ IH]; intros dn Ef Hr.
  - cbn [commit_loop app]. rewrite Ef. simpl in Hr. by rewrite (rollback_loop_ok _ _ _ Hr).
  - cbn [commit_loop app]. rewrite E. apply IH; [done|]. simpl in Hr. by rewrite <- app_assoc in Hr.
Qed.

(** [run] applied to operations in turn up to one that throws [m]. *)
Definition stops_at (run : Op → M W unit) (ops : list Op) w (op : Op) (rest : list Op) (m : string) w2 : Prop :=
  ∃ ops1 w1, ops = ops1 ++ op :: rest ∧ all_ok run ops1 w w1 ∧ run op w1 = (Throw m, w2).

(** The same up to one that ends the process. *)
Definition dies_in (run : Op → M W unit) (ops : list Op) w : Prop :=
  ∃ ops1 op rest w1 c w2, ops = ops1 ++ op :: rest ∧ all_ok run ops1 w w1 ∧ run op w1 = (Crash c, w2).

Lemma stops_at_cons run ops w w1 o op rest m w2 : run o w = (Ok tt, w1) → stops_at run ops w1 op rest m w2 →
  stops_at run (o :: ops) w op rest m w2.
Proof. intros E (ops1 & w3 & -> & Hok & Hf). exists (o :: ops1), w3. split; [done|]. split; [by econstructor|done]. Qed.

Lemma dies_in_cons run ops w w1 o : run o w = (Ok tt, w1) → dies_in run ops w1 → dies_in run (o :: ops) w.
Proof. intros E (ops1 & op & rest & w3 & c & w2 & -> & Hok & Hf). exists (o :: ops1), op, rest, w3, c, w2. split; [done|]. split; [by econstructor|done]. Qed.

Lemma rollback_loop_outcome ops w : match rollback_loop rollback ops w with
  | (Ok _, w') => all_ok rollback ops w w' ∨ ∃ op rest m, stops_at rollback ops w op rest m w'
  | (Throw _, _) => False
  | (Crash _, _) => dies_in rollback ops w
  end.
Proof.
  revert w. induction ops as [|o ops IH]; intros w; cbn [rollback_loop]; [left; constructor|].
  destruct (rollback o w) as [[[]|m|c] w1] eqn:E.
  - specialize (IH w1). destruct (rollback_loop rollback ops w1) as [[u|m|c] w']; [|done|by eapply dies_in_cons].
    destruct IH as [IH|(op & rest & m & IH)]; [left; by econstructor|right]. exists op, rest, m. by eapply stops_at_cons.
  - right. exists o, ops, m, [], w. split; [done|]. split; [constructor|done].
  - exists [], o, ops, w, c, w1. split; [done|]. split; [constructor|done].
Qed.

(** What committing [ops] leaves when [dn] was executed before, last first. *)
Definition commits ops dn w (r : outcome bool * W) : Prop :=
  match r with
  | (Ok true, w') => all_ok execute ops w w'
  | (Ok false, w') => ∃ ops1 op ops2 m w2, ops = ops1 ++ op :: ops2 ∧ stops_at execute ops w op ops2 m w2 ∧
      (all_ok rollback (op :: rev ops1 ++ dn) w2 w' ∨
       ∃ op' rest m', stops_at rollback (op :: rev ops1 ++ dn) w2 op' rest m' w')
  | (Throw _, _) => False
  | (Crash _, _) => dies_in execute ops w ∨
      ∃ ops1 op ops2 m w2, ops = ops1 ++ op :: ops2 ∧ stops_at execute ops w op ops2 m w2 ∧ dies_in rollback (op :: rev ops1 ++ dn) w2
  end.

Lemma commit_loop_outcome ops dn w : commits ops dn w (commit_loop execute rollback ops dn w).
Proof.
  revert dn w. induction ops as [|o ops IH]; intros dn w; cbn [commit_loop]; [constructor|].
  destruct (execute o w) as [[[]|m|c] w1] eqn:E.
  - specialize (IH (o :: dn) w1). destruct (commit_loop execute rollback ops (o :: dn) w1) as [[[]|m|c] w']; cbn [commits] in *.
    + by econstructor.
    + destruct IH as (ops1 & op & ops2 & m & w2 & -> & Hs & Hr). exists (o :: ops1), op, ops2, m, w2. split; [done|].
      split; [by eapply stops_at_cons|]. cbn [rev]. by rewrite <- app_assoc.
    + done.
    + destruct IH as [IH|(ops1 & op & ops2 & m & w2 & -> & Hs & Hr)]; [left; by eapply dies_in_cons|right].
      exists (o :: ops1), op, ops2, m, w2. split; [done|]. split; [by eapply stops_at_cons|]. cbn [rev]. by rewrite <- app_assoc.
  - assert (stops_at execute (o :: ops) w o ops m w1) as Hs by (exists [], w; split; [done|split; [constructor|done]]).
    pose proof (rollback_loop_outcome (o :: dn) w1) as Hr. destruct (rollback_loop rollback (o :: dn) w1) as [[u|m'|c] w']; cbn [commits].
    + exists [], o, ops, m, w1. by split_and!.
    + done.
    + right. exists [], o, ops, m, w1. by split_and!.
  - left. exists [], o, ops, w, c, w1. split; [done|]. split; [constructor|done].
Qed.

(** C21: Every way a transaction can end, whatever its operations do.  [true] means that
    every operation was executed, in order, and returned.  [false] means that one threw
    after those before it had returned, that none after it was executed, and that
    rollback began with the operation that threw, itself included, and went back
    to the first one -- all of them, or up to a rollback that threw, whose exception is
    swallowed and after which the operations before it stay executed.  No exception
    leaves [executeTransaction]; the process ends only in an operation's [execute] or
    [rollback]. *)
Theorem executeTransaction_outcome sc w : commits (operations sc) [] w (executeTransaction execute rollback sc w).
Proof. apply commit_loop_outcome. Qed.

(** [executeTransaction] on failure: when an operation throws, the ones
    before it are rolled back, last first, but so is the failed operation
    itself, and it is rolled back first. *)
Theorem executeTransaction_rolls_back_failed sc ops1 op ops2 w w1 w2 w3 w4 m :
  operations sc = ops1 ++ op :: ops2 →
  all_ok execute ops1 w w1 → execute op w1 = (Throw m, w2) →
  rollback op w2 = (Ok tt, w3) → all_ok rollback (rev ops1) w3 w4 →
  executeTransaction execute rollback sc w = (Ok false, w4).
Proof.
  intros Eo Hok Ef Er Hr. unfold executeTransaction. rewrite Eo.
  eapply commit_loop_fail; [done|exact Ef|]. rewrite app_nil_r. by econstructor.
Qed.
End execution_theory.

(** ** The arena *)
Section arena.
Context {Op : Type}.

(** Allocate a sequence of (size, align) requests; the blocks obtained, as
    (offset, size). *)
Fixpoint alloc_all (reqs : list (Z * Z)) (sc : t Op) : list (Z * Z) * t Op :=
  match reqs with
  | [] => ([], sc)
  | (size, align) :: reqs' =>
      let a := arenaAllocate size align sc in
      let r := alloc_all reqs' a.2 in
      (match a.1 with Some off => (off, size) :: r.1 | None => r.1 end, r.2)
  end.

Definition req_ok (r : Z * Z) : Prop := 0 <= r.1 < 2 ^ 32 ∧ 0 < r.2 < 2 ^ 16.

Lemma arenaAllocate_spec size align (sc : t Op) : req_ok (size, align) →
  0 <= arenaOffset sc <= ARENA_SIZE →
  let r := arenaAllocate size align sc in
  0 <= arenaOffset r.2 <= ARENA_SIZE ∧
  match r.1 with
  | Some off => arenaOffset sc <= off ∧ off `mod` align = 0 ∧ off + size = arenaOffset r.2
  | None => r.2 = sc
  end.
Proof.
  intros [Hs Ha] Ho. unfold arenaAllocate. simpl in *.
  set (off := arenaOffset sc) in *. set (pad := (align - off `mod` align) `mod` align).
  assert (0 <= pad < align) as Hpad by (apply Z.mod_pos_bound; lia).
  unfold ARENA_SIZE in *. rewrite wrap64_small by (unfold is_u64; lia).
  destruct (Z.ltb_spec 2048 (off + pad + size)); simpl; [done|].
  split; [lia|]. split; [lia|]. split; [|lia]. subst pad.
  rewrite Zplus_mod_idemp_r. replace (off + (align - off `mod` align))
    with ((off - off `mod` align) + 1 * align) by lia.
  rewrite Z_mod_plus_full, Zminus_mod_idemp_r, Z.sub_diag. apply Z.mod_0_l. lia.
Qed.

(** The operation arena: from a scope with a valid bump pointer every
    sequence of allocations yields blocks that are aligned, lie inside the
    buffer and do not overlap, and the bump pointer stays inside the buffer. *)
Theorem arena_blocks_disjoint reqs (sc : t Op) :
  Forall req_ok reqs → 0 <= arenaOffset sc <= ARENA_SIZE →
  let r := alloc_all reqs sc in
  0 <= arenaOffset r.2 <= ARENA_SIZE ∧
  Forall (λ b, arenaOffset sc <= b.1 ∧ b.1 + b.2 <= arenaOffset r.2) r.1 ∧
  StronglySorted (λ b c, b.1 + b.2 <= c.1) r.1.
Proof.
  intros Hr. revert sc. induction Hr as [|[size align] reqs Hreq Hrs IH]; intros sc Ho; simpl.
  { repeat split; auto; try lia; constructor. }
  destruct (arenaAllocate_spec size align sc Hreq Ho) as [Ho1 Hspec].
  destruct (IH (arenaAllocate size align sc).2 Ho1) as (Ho2 & Hin & Hsort).
  split; [done|]. destruct (arenaAllocate size align sc) as [[off|] sc1]; simpl in *.
  - destruct Hspec as (H1 & _ & H2). destruct Hreq as [Hsz _]. simpl in Hsz.
    assert (arenaOffset sc1 <= arenaOffset (alloc_all reqs sc1).2) as Hmono.
    { clear -Hrs Ho1. revert sc1 Ho1. induction Hrs as [|[s a] rs Hra _ IH]; intros; simpl; [lia|].
      destruct (arenaAllocate_spec s a sc1 Hra Ho1) as [? Hsp]. destruct Hra as [? _]; simpl in *.
      specialize (IH (arenaAllocate s a sc1).2 ltac:(done)).
      destruct (arenaAllocate s a sc1) as [[?|] ?]; simpl in *; [lia|by subst]. }
    split.
    + constructor; simpl; [lia|]. eapply Forall_impl; [exact Hin|]. simpl. lia.
    + constructor; [done|]. eapply Forall_impl; [exact Hin|]. simpl. lia.
  - by subst sc1.
Qed.
End arena.

(** ** Witnesses *)

(** Operations on a log: a non-negative one is appended, a negative one fails. *)
Definition ex_execute (n : Z) : M (list Z) unit :=
  if n <? 0 then throw "refused" else modify (cons n).
Definition ex_rollback (n : Z) : M (list Z) unit :=
  if n <? 0 then ret tt else modify tail.
Definition ex_scope : t Z := foldl (λ sc n, addOperation n sc) empty [1; 2; -1; 3].

Lemma executeTransaction_rolls_back_failed_witness :
  executeTransaction ex_execute ex_rollback ex_scope [7] = (Ok false, [7]).
Proof.
  apply (executeTransaction_rolls_back_failed ex_execute ex_rollback ex_scope [1; 2] (-1) [3]
    [7] [2; 1; 7] [2; 1; 7] [2; 1; 7] [7] "refused"); try reflexivity;
    repeat (econstructor; [reflexivity|]); constructor.
Defined.

Lemma removeStage_discards_stage_witness :
  operations (removeStage 0 (run_ops [SAdd 8; SStart; SAlloc 100 16; SAdd 9; SRemove 1]
    (startNewStage ex_scope).2)).2 = [1; 2; -1; 3].
Proof.
  refine (proj1 (proj2 (proj2 (removeStage_discards_stage ex_scope
    [SAdd 8; SStart; SAlloc 100 16; SAdd 9; SRemove 1] _ _)))).
  - split; constructor.
  - repeat constructor.
Defined.

#[local] Instance ex_operation : Operation Z := {|
  getObjectId := λ n, mkIdT n 1; getRelatedId := λ n, mkIdT (n mod 3) 1 |}.

Lemma getRelatedObjects_complete_witness :
  ∃ objs, related (foldl (λ sc n, addOperation n sc) empty [4; 5; 4; 6]) = Ok objs ∧
    ids objs = [mkIdT 4 1; mkIdT 1 1; mkIdT 5 1; mkIdT 2 1; mkIdT 6 1] ∧
    NoDup (ids objs).
Proof.
  destruct (getRelatedObjects_complete (foldl (λ sc n, addOperation n sc) empty [4; 5; 4; 6])
    ltac:(repeat constructor)) as (objs & E & Hnd & _).
  exists objs. split; [exact E|]. split; [|exact Hnd]. vm_compute in E. injection E as <-. reflexivity.
Defined.

Lemma arena_blocks_disjoint_witness :
  (alloc_all [(160, 16); (100, 16); (2000, 16); (40, 16)] ex_scope).1 =
    [(0, 160); (160, 100); (272, 40)] ∧
  0 <= arenaOffset (alloc_all [(160, 16); (100, 16); (2000, 16); (40, 16)] ex_scope).2 <= ARENA_SIZE.
Proof.
  split; [reflexivity|].
  refine (proj1 (arena_blocks_disjoint [(160, 16); (100, 16); (2000, 16); (40, 16)] ex_scope _ _));
    [repeat constructor; simpl; lia|vm_compute; split; discriminate].
Defined.

End TransactionScope.
