(* ===== verification/OpMem.v ===== *)
(** The memory of operations, [src/src/TransactionScope.cpp] and the arena guard of
    [src/src/Processor.cpp]: which allocations come from the arena of a scope and
    which from the heap, and who frees them. *)

From Stdlib Require Import String ZArith Lia.
From S2P Require Import Prelude Types TxScope.
#[local] Open Scope string_scope.
#[local] Open Scope Z_scope.

Module OperationMemory.

(** A scope whose operations are pointers, at the address of its buffer. *)
Abbreviation scope := (TransactionScope.t Z).
Abbreviation ops := (TransactionScope.operations).
Abbreviation isFromArena := (TransactionScope.isFromArena).

(** s_activeScope and arenaBuffer_ -- src/src/TransactionScope.h:66-94
    [heap] holds the live blocks of [::operator new], [scopes] every scope with
    the address of its [arenaBuffer_], [active] the thread-local [s_activeScope] of
    each thread that has one. *)
Record Mem := mkMem { heap : gset Z; scopes : gmap nat (Z * scope); active : gmap nat nat }.

Definition set_heap h (m : Mem) : Mem := mkMem h (scopes m) (active m).
Definition set_scope i x (m : Mem) : Mem := mkMem (heap m) (<[i := x]> (scopes m)) (active m).
Definition set_active a (m : Mem) : Mem := mkMem (heap m) (scopes m) a.

(** A call through a pointer to a scope that is gone is undefined behaviour. *)
Definition deref (i : nat) : M Mem (Z * scope) := λ m,
  match scopes m !! i with Some x => (Ok x, m) | None => (Crash "scope used after its destruction", m) end.

(** [::operator new], at the address [p] the allocator chooses, and
    [::operator delete], which may be given live blocks only. *)
Definition heap_new (p : Z) : M Mem Z := modify (λ m, set_heap ({[p]} ∪ heap m) m) ;;; ret p.
Definition heap_free (p : Z) : M Mem unit :=
  h <- gets heap ;;
  if bool_decide (p ∈ h) then modify (set_heap (h ∖ {[p]})) else crash "free of an address that is not a live block".

(** Operation::operator new -- src/src/TransactionScope.cpp:27-37
    [alignof(std::max_align_t)] is 16. *)
Definition operator_new (th : nat) (size p : Z) : M Mem Z :=
  a <- gets active ;;
  match a !! th with
  | None => heap_new p
  | Some i =>
      x <- deref i ;;
      match TransactionScope.arenaAllocate size 16 x.2 with
      | (Some off, sc') => modify (set_scope i (x.1, sc')) ;;; ret (x.1 + off)
      | (None, _) => heap_new p
      end
  end.

(** Operation::operator delete -- src/src/TransactionScope.cpp:39-55 *)
Definition operator_delete (th : nat) (p : Z) : M Mem unit :=
  if p =? 0 then ret tt
  else
    a <- gets active ;;
    match a !! th with
    | None => heap_free p
    | Some i => x <- deref i ;; if isFromArena x.1 p then ret tt else heap_free p
    end.

(** TransactionScope::destroyOperation -- src/src/TransactionScope.cpp:109-121
    [base] is the address of the buffer of the scope. *)
Definition destroyOperation (base p : Z) : M Mem unit :=
  if p =? 0 then ret tt
  else if isFromArena base p then ret tt else heap_free p.

(** The loop of the destructor -- src/src/TransactionScope.cpp:61-64 *)
Fixpoint destroy_all (base : Z) (l : list Z) : M Mem unit :=
  match l with
  | [] => ret tt
  | p :: l' => destroyOperation base p ;;; destroy_all base l'
  end.

(** TransactionScope::addOperation -- src/src/TransactionScope.cpp:147-150 *)
Definition addOperation (i : nat) (p : Z) : M Mem unit :=
  x <- deref i ;; modify (set_scope i (x.1, TransactionScope.addOperation p x.2)).

(** TransactionScope::removeLastOperation -- src/src/TransactionScope.cpp:152-167 *)
Definition removeLastOperation (i : nat) : M Mem unit :=
  x <- deref i ;;
  match last (ops x.2) with
  | None => ret tt
  | Some p =>
      destroyOperation x.1 p ;;;
      modify (set_scope i (x.1, TransactionScope.removeLastOperation x.2))
  end.

(** TransactionScope::removeStage -- src/src/TransactionScope.cpp:177-198 *)
Definition removeStage (i sid : nat) : M Mem unit :=
  x <- deref i ;;
  match TransactionScope.stageBoundaries x.2 !! sid with
  | None => throw "TransactionScope::removeStage(): invalid stage id!"
  | Some start =>
      destroy_all x.1 (drop start (ops x.2)) ;;;
      modify (set_scope i (x.1, (TransactionScope.removeStage sid x.2).2))
  end.

(** TransactionScope::startNewStage -- src/src/TransactionScope.cpp:169-175 *)
Definition startNewStage (i : nat) : M Mem unit :=
  x <- deref i ;; modify (set_scope i (x.1, (TransactionScope.startNewStage x.2).2)).

(** TransactionScope::reset -- src/src/TransactionScope.cpp:67-87 *)
Definition reset (i : nat) : M Mem unit :=
  x <- deref i ;; destroy_all x.1 (ops x.2) ;;; modify (set_scope i (x.1, TransactionScope.reset x.2)).

(** TransactionScope::~TransactionScope -- src/src/TransactionScope.cpp:59-65 *)
Definition destructor (i : nat) : M Mem unit :=
  x <- deref i ;; destroy_all x.1 (ops x.2) ;;;
  modify (λ m, mkMem (heap m) (delete i (scopes m)) (active m)).

(** TransactionScope::TransactionScope -- src/src/TransactionScope.cpp:57-57 *)
Definition constructor (i : nat) (base : Z) : M Mem unit :=
  modify (set_scope i (base, TransactionScope.empty)).

(** TransactionScope::swap -- src/src/TransactionScope.cpp:123-140
    Every member is exchanged, the bytes of the buffers too; the buffers stay where
    they are, and so do the addresses the operations have. *)
Definition swap (i j : nat) : M Mem unit :=
  x <- deref i ;; y <- deref j ;;
  modify (λ m, set_scope j (y.1, x.2) (set_scope i (x.1, y.2) m)).

(** ScopeArenaGuard::ScopeArenaGuard -- src/src/Processor.cpp:36-39 *)
Definition guard (th i : nat) : M Mem unit := modify (λ m, set_active (<[th := i]> (active m)) m).

(** ScopeArenaGuard::~ScopeArenaGuard -- src/src/Processor.cpp:40-43 *)
Definition unguard (th : nat) : M Mem unit := modify (λ m, set_active (delete th (active m)) m).

(** *** What threads do with operations

    [CAdd] creates an operation and gives it to a scope; [CDrop] creates one that is
    destroyed before it is given away (an exception unwinds the [unique_ptr]). *)
Inductive Cmd :=
  | CGuard (th i : nat) | CUnguard (th : nat)
  | CAdd (th i : nat) (size p : Z) | CDrop (th : nat) (size p : Z)
  | CRemoveLast (i : nat) | CStage (i : nat) | CRemoveStage (i sid : nat) | CReset (i : nat)
  | CCreate (i : nat) (base : Z) | CDestroy (i : nat).

Definition exec (c : Cmd) : M Mem unit :=
  match c with
  | CGuard th i => guard th i
  | CUnguard th => unguard th
  | CAdd th i size p => q <- operator_new th size p ;; addOperation i q
  | CDrop th size p => q <- operator_new th size p ;; operator_delete th q
  | CRemoveLast i => removeLastOperation i
  | CStage i => startNewStage i
  | CRemoveStage i sid => removeStage i sid
  | CReset i => reset i
  | CCreate i base => constructor i base
  | CDestroy i => destructor i
  end.

(** An address the allocator may return: not null, in no live block and in no
    scope. *)
Definition free_address (m : Mem) (p : Z) : Prop :=
  0 < p ∧ (p ∉ heap m) ∧ ∀ i b sc, scopes m !! i = Some (b, sc) → isFromArena b p = false.

(** The scope a thread allocates from, if it has one, is alive. *)
Definition active_live (m : Mem) (th : nat) : Prop := ∀ i, active m !! th = Some i → is_Some (scopes m !! i).

(** What a single call needs: operations go into the scope the thread's guard is
    for (or any scope when no guard is there), and scopes exist while they are used.
    That the handlers meet this is proved below ([handlers_allowed]). *)
Definition allowed (m : Mem) (c : Cmd) : Prop :=
  match c with
  | CGuard _ i | CRemoveLast i | CStage i | CRemoveStage i _ | CReset i | CDestroy i => is_Some (scopes m !! i)
  | CUnguard _ => True
  | CAdd th i size p =>
      is_Some (scopes m !! i) ∧ (active m !! th = Some i ∨ active m !! th = None) ∧ 0 < size < 2 ^ 32 ∧ free_address m p
  | CDrop th size p => active_live m th ∧ 0 < size < 2 ^ 32 ∧ free_address m p
  | CCreate i base => scopes m !! i = None ∧ 0 < base ∧ (∀ p, p ∈ heap m → isFromArena base p = false) ∧
      ∀ j b sc, scopes m !! j = Some (b, sc) → b + TransactionScope.ARENA_SIZE <= base ∨ base + TransactionScope.ARENA_SIZE <= b
  end.

Inductive step : Mem → Mem → Prop :=
  | s_exec m c : allowed m c → step m (exec c m).2.

Definition reachable (m : Mem) : Prop := rtc step (mkMem ∅ ∅ ∅) m.

(** ** The invariant *)

(** A pointer a scope at [b] may hold: an allocated place of its own arena, or a
    live block. *)
Definition held (m : Mem) (b : Z) (sc : scope) (p : Z) : Prop :=
  0 < p ∧ (isFromArena b p = true ∧ p < b + TransactionScope.arenaOffset sc ∨ isFromArena b p = false ∧ p ∈ heap m).

Record Inv (m : Mem) : Prop := mkInv {
  i_base i b sc : scopes m !! i = Some (b, sc) → 0 < b ∧ 0 <= TransactionScope.arenaOffset sc <= TransactionScope.ARENA_SIZE;
  i_held i b sc : scopes m !! i = Some (b, sc) → Forall (held m b sc) (ops sc);
  i_nodup i b sc : scopes m !! i = Some (b, sc) → NoDup (ops sc);
  i_apart i j b c sc sd p : scopes m !! i = Some (b, sc) → scopes m !! j = Some (c, sd) → i ≠ j → p ∈ ops sc → p ∉ ops sd;
  i_disj i j b c sc sd : scopes m !! i = Some (b, sc) → scopes m !! j = Some (c, sd) → i ≠ j →
    b + TransactionScope.ARENA_SIZE <= c ∨ c + TransactionScope.ARENA_SIZE <= b;
  i_heap p i b sc : p ∈ heap m → scopes m !! i = Some (b, sc) → isFromArena b p = false;
  i_owned p : p ∈ heap m → ∃ i b sc, scopes m !! i = Some (b, sc) ∧ p ∈ ops sc;
}.

Lemma isFromArena_spec b p : isFromArena b p = true ↔ b <= p < b + TransactionScope.ARENA_SIZE.
Proof. unfold isFromArena. rewrite andb_true_iff, Z.leb_le, Z.ltb_lt. done. Qed.

Lemma arena_other b c p : b + TransactionScope.ARENA_SIZE <= c ∨ c + TransactionScope.ARENA_SIZE <= b →
  isFromArena b p = true → isFromArena c p = false.
Proof. intros H Hp. apply not_true_iff_false. rewrite isFromArena_spec in *. lia. Qed.

Lemma deref_ok i x m : scopes m !! i = Some x → deref i m = (Ok x, m).
Proof. intros E. unfold deref. by rewrite E. Qed.

(** The heap of a state in which the pointers [l] were destroyed. *)
Definition freed (l : list Z) (m : Mem) : Mem := set_heap (heap m ∖ list_to_set l) m.

Lemma destroy_all_spec b sc (l : list Z) m : NoDup l → Forall (held m b sc) l →
  (∀ p, p ∈ heap m → isFromArena b p = false) → destroy_all b l m = (Ok tt, freed l m).
Proof.
  revert m. induction l as [|p l IH]; intros m Hnd Hl Hh; simpl.
  { unfold freed, set_heap. simpl. rewrite difference_empty_L. by destruct m. }
  apply NoDup_cons in Hnd as [Hp Hnd]. apply Forall_cons in Hl as [[H0 Hc] Hl].
  assert (destroyOperation b p m = (Ok tt, freed [p] m)) as E.
  { unfold destroyOperation. destruct (Z.eqb_spec p 0); [lia|]. destruct Hc as [[Ha _]|[Ha Hin]]; rewrite Ha.
    all: unfold heap_free, freed, set_heap; simpl; rewrite ?union_empty_r_L; run.
    - assert (p ∉ heap m) by (intros Hin; rewrite (Hh _ Hin) in Ha; discriminate).
      rewrite difference_disjoint_L by set_solver. by destruct m.
    - by rewrite bool_decide_true. }
  rewrite (bind_ok _ _ _ _ _ E), IH; [|done| |].
  - unfold freed, set_heap. simpl. f_equal. f_equal. apply set_eq. set_solver.
  - apply Forall_forall. intros q Hq. rewrite Forall_forall in Hl. destruct (Hl q Hq) as [? [?|[? ?]]]; split; auto.
    right. split; [done|]. simpl. assert (q ≠ p) by congruence. set_solver.
  - intros q Hq. apply Hh. simpl in Hq. set_solver.
Qed.

(** One scope and the heap change: what keeps the invariant. *)
Lemma replace_inv i b sc sc' h m : Inv m → scopes m !! i = Some (b, sc) →
  0 <= TransactionScope.arenaOffset sc' <= TransactionScope.ARENA_SIZE → NoDup (ops sc') →
  Forall (held (set_heap h m) b sc') (ops sc') →
  (∀ p, p ∈ ops sc' → p ∈ ops sc ∨ ∀ j c sd, j ≠ i → scopes m !! j = Some (c, sd) → p ∉ ops sd) →
  (∀ p, p ∈ h → p ∈ heap m ∨ ∀ j c sd, scopes m !! j = Some (c, sd) → isFromArena c p = false) →
  (∀ p, p ∈ heap m → p ∈ h ∨ p ∈ ops sc) →
  (∀ p, p ∈ h → p ∈ ops sc' ∨ p ∈ heap m ∧ (p ∉ ops sc)) →
  Inv (set_scope i (b, sc') (set_heap h m)).
Proof.
  intros HI Hi Hoff Hnd Hh Hfresh Hheap Hkeep Hown.
  assert (∀ j c sd, <[i := (b, sc')]> (scopes m) !! j = Some (c, sd) →
    ∃ sd0, scopes m !! j = Some (c, sd0) ∧ (i = j ∧ sd = sc' ∧ c = b ∨ i ≠ j ∧ sd = sd0)) as Hold.
  { intros j c sd. rewrite lookup_insert_Some. intros [[<- [= <- <-]]|[Hn E]]; eauto 10. }
  assert (∀ j c sd p, j ≠ i → scopes m !! j = Some (c, sd) → p ∈ ops sc' → p ∉ ops sd) as Hapart.
  { intros j c sd p Hn E Hp. destruct (Hfresh p Hp) as [Hp'|?]; [|by eauto]. by apply (i_apart _ HI _ _ _ _ _ _ p Hi E (not_eq_sym Hn)). }
  split; simpl; intros *.
  - intros (sd0 & E & [(<- & -> & ->)|[? ->]])%Hold; [|by eapply i_base]. split; [by apply (i_base _ HI _ _ _ Hi)|done].
  - intros (sd0 & E & [(<- & -> & ->)|[Hn ->]])%Hold; [done|]. pose proof (i_held _ HI _ _ _ E) as Hf. rewrite Forall_forall in *.
    intros p Hp. destruct (Hf p Hp) as (? & [?|[? Hm]]); split; auto. right. split; [done|]. simpl.
    destruct (Hkeep p Hm) as [?|Hc]; [done|]. by destruct (i_apart _ HI _ _ _ _ _ _ p Hi E Hn Hc).
  - intros (sd0 & E & [(<- & -> & ->)|[? ->]])%Hold; [done|by eapply i_nodup].
  - intros (s1 & E1 & [(<- & -> & ->)|[H1 ->]])%Hold (s2 & E2 & [(<- & -> & ->)|[H2 ->]])%Hold Hn Hp; try done.
    + exact (Hapart _ _ _ _ (not_eq_sym Hn) E2 Hp).
    + intros Hq. exact (Hapart _ _ _ _ Hn E1 Hq Hp).
    + exact (i_apart _ HI _ _ _ _ _ _ _ E1 E2 Hn Hp).
  - intros (s1 & E1 & _)%Hold (s2 & E2 & _)%Hold. by eapply i_disj.
  - intros Hp (s1 & E1 & _)%Hold. destruct (Hheap _ Hp) as [?|?]; [by eapply i_heap|by eauto].
  - intros Hp. destruct (Hown p Hp) as [?|[Hm Hn]]; [exists i, b, sc'; by rewrite lookup_insert_eq|].
    destruct (i_owned _ HI p Hm) as (j & c & sd & E & Hin). exists j, c, sd. rewrite lookup_insert_ne; [done|]. by intros ->; rewrite E in Hi; simplify_eq.
Qed.

(** A scope that gives up the last operations of its list, and their memory. *)
Lemma drop_inv i b sc sc' l m : Inv m → scopes m !! i = Some (b, sc) → ops sc = (ops sc' ++ l)%list →
  0 <= TransactionScope.arenaOffset sc' <= TransactionScope.ARENA_SIZE →
  (TransactionScope.arenaOffset sc' = TransactionScope.arenaOffset sc ∨ ops sc' = []) →
  destroy_all b l m = (Ok tt, freed l m) ∧ Inv (set_scope i (b, sc') (freed l m)).
Proof.
  intros HI Hi Hops Hoff Hkeep. pose proof (i_nodup _ HI _ _ _ Hi) as Hnd. pose proof (i_held _ HI _ _ _ Hi) as Hh.
  rewrite Hops in Hnd, Hh. apply NoDup_app in Hnd as (Hnd1 & Hx & Hnd2). apply Forall_app in Hh as [Hh1 Hh2]. split.
  { by apply (destroy_all_spec b sc); try done; intros; eapply i_heap. }
  apply (replace_inv i b sc); rewrite ?Hops; try done.
  - rewrite Forall_forall in *. intros p Hp. destruct (Hh1 p Hp) as [? [[? ?]|[? ?]]]; split; auto; [left|right; simpl; set_solver].
    destruct Hkeep as [->|Hk]; [done|]. rewrite Hk in Hp. set_solver.
  - set_solver.
  - set_solver.
  - intros p Hp. destruct (decide (p ∈ l)); set_solver.
  - intros p Hp. destruct (decide (p ∈ ops sc')); set_solver.
Qed.

(** A scope whose arena or stages grow. *)
Lemma same_ops_inv i b sc sc' m : Inv m → scopes m !! i = Some (b, sc) → ops sc' = ops sc →
  TransactionScope.arenaOffset sc <= TransactionScope.arenaOffset sc' <= TransactionScope.ARENA_SIZE →
  Inv (set_scope i (b, sc') m).
Proof.
  intros HI Hi Ho Hoff. destruct (i_base _ HI _ _ _ Hi) as [? ?].
  replace m with (set_heap (heap m) m) by by destruct m. apply (replace_inv i b sc); rewrite ?Ho; auto; try lia; try (by eapply i_nodup).
  - pose proof (i_held _ HI _ _ _ Hi) as Hh. eapply Forall_impl; [done|]. intros p (? & [[? ?]|[? ?]]); split; auto. left. split; [done|lia].
  - intros p Hp. destruct (decide (p ∈ ops sc)); auto.
Qed.

(** A scope that gets a new operation, in its arena or on the heap. *)
Lemma op_added_inv i b sc sc' q h m : Inv m → scopes m !! i = Some (b, sc) → ops sc' = (ops sc ++ [q])%list →
  TransactionScope.arenaOffset sc <= TransactionScope.arenaOffset sc' <= TransactionScope.ARENA_SIZE →
  (h = heap m ∧ b + TransactionScope.arenaOffset sc <= q < b + TransactionScope.arenaOffset sc' ∨ h = {[q]} ∪ heap m ∧ free_address m q) →
  Inv (set_scope i (b, sc') (set_heap h m)).
Proof.
  intros HI Hi Ho Hoff Hq. destruct (i_base _ HI _ _ _ Hi) as [? ?]. pose proof (i_held _ HI _ _ _ Hi) as Hh.
  assert (∀ j c sd, scopes m !! j = Some (c, sd) → q ∉ ops sd) as Hfresh.
  { intros j c sd E Hin. pose proof (i_held _ HI _ _ _ E) as Hf. rewrite Forall_forall in Hf.
    destruct (Hf q Hin) as (_ & [[Ha Hlt]|[Ha Hin']]), Hq as [[_ Hq]|[_ (_ & Hn & Hfree)]]; try done.
    - destruct (decide (i = j)) as [<-|Hne]; [rewrite Hi in E; simplify_eq; lia|].
      pose proof (i_disj _ HI _ _ _ _ _ _ Hi E Hne). rewrite isFromArena_spec in Ha. lia.
    - by rewrite (Hfree _ _ _ E) in Ha.
    - pose proof (i_heap _ HI _ _ _ _ Hin' Hi) as Hb. apply not_true_iff_false in Hb. rewrite isFromArena_spec in Hb. lia. }
  apply (replace_inv i b sc); rewrite ?Ho; auto; try lia.
  - apply NoDup_app. split; [by eapply i_nodup|]. split; [|apply NoDup_singleton]. intros p Hp ->%list_elem_of_singleton. by eapply Hfresh.
  - apply Forall_app. split.
    + eapply Forall_impl; [done|]. intros p (? & [[? ?]|[? ?]]); split; auto; [left; split; [done|lia]|right]. split; [done|].
      destruct Hq as [[-> _]|[-> _]]; simpl; set_solver.
    + constructor; [|done]. destruct Hq as [[-> Hq]|[-> (? & ? & Hfree)]]; split; try lia; [left; rewrite isFromArena_spec; lia|right; simpl; split; [by eauto|set_solver]].
  - intros p [Hp| ->%list_elem_of_singleton]%elem_of_app; eauto.
  - intros p Hp. destruct Hq as [[-> Hq]|[-> (? & ? & Hfree)]]; [auto|]. apply elem_of_union in Hp as [->%elem_of_singleton|]; eauto.
  - intros p Hp. destruct Hq as [[-> Hq]|[-> _]]; set_solver.
  - intros p Hp. destruct (decide (p ∈ ops sc)); [set_solver|]. destruct Hq as [[-> Hq]|[-> _]]; set_solver.
Qed.

(** Allocation: a place of the arena of the active scope, or a heap block. *)
Lemma operator_new_spec th size p m : Inv m → active_live m th → 0 < size < 2 ^ 32 →
  (∃ i b sc off sc', active m !! th = Some i ∧ scopes m !! i = Some (b, sc) ∧ operator_new th size p m = (Ok (b + off), set_scope i (b, sc') m) ∧
     ops sc' = ops sc ∧ TransactionScope.arenaOffset sc <= off < TransactionScope.arenaOffset sc' ∧ TransactionScope.arenaOffset sc' <= TransactionScope.ARENA_SIZE) ∨
  operator_new th size p m = (Ok p, set_heap ({[p]} ∪ heap m) m).
Proof.
  intros HI Hl Hs. unfold operator_new. run. destruct (active m !! th) as [i|] eqn:Ea; [|by right].
  destruct (Hl i Ea) as [[b sc] E]. rewrite (deref_ok i (b, sc) m E). simpl.
  pose proof (TransactionScope.arenaAllocate_spec size 16 sc) as Hsp. destruct (i_base _ HI _ _ _ E) as [_ Ho].
  specialize (Hsp ltac:(split; simpl; lia) Ho). destruct (TransactionScope.arenaAllocate size 16 sc) as [[off|] sc'] eqn:Eal; [|by right].
  simpl in Hsp. destruct Hsp as (? & ? & ? & ?). left. exists i, b, sc, off, sc'. split_and!; try done; try lia.
  unfold TransactionScope.arenaAllocate in Eal. case_match; by simplify_eq.
Qed.

Lemma heap_new_free p m : p ∉ heap m → heap_free p (set_heap ({[p]} ∪ heap m) m) = (Ok tt, m).
Proof.
  intros Hp. unfold heap_free. run. rewrite bool_decide_true by set_solver. unfold set_heap. simpl.
  replace (({[p]} ∪ heap m) ∖ {[p]}) with (heap m) by (apply set_eq; intros q; destruct (decide (q = p)); set_solver). by destruct m.
Qed.

Lemma cadd_inv th i size p m : Inv m → allowed m (CAdd th i size p) →
  (∀ w, (exec (CAdd th i size p) m).1 ≠ Crash w) ∧ Inv (exec (CAdd th i size p) m).2.
Proof.
  intros HI ([[b sc] E] & Hact & Hs & Hf). simpl.
  assert (active_live m th) as Hl by (intros j; destruct Hact as [->| ->]; [intros [= <-]; by rewrite E|done]).
  destruct (operator_new_spec th size p m HI Hl Hs) as [(j & c & sd & off & sd' & Ej & Es & En & Ho & Hoff & Hm)|En];
    rewrite (bind_ok _ _ _ _ _ En); unfold addOperation.
  - destruct Hact as [Hact|Hact]; rewrite Hact in Ej; [|done]. injection Ej as <-. rewrite E in Es. injection Es as <- <-.
    rewrite (bind_ok _ _ _ (b, sd') _ (deref_ok _ _ _ (lookup_insert_eq _ _ _))). split; [done|]. simpl. unfold set_scope. simpl.
    rewrite insert_insert_eq. apply (op_added_inv i b sc _ (b + off) (heap m)); try done; simpl; [by rewrite Ho|lia|left; split; [done|lia]].
  - rewrite (bind_ok _ _ _ (b, sc) _ (deref_ok i (b, sc) (set_heap ({[p]} ∪ heap m) m) E)). split; [done|]. simpl.
    apply (op_added_inv i b sc _ p); try done; simpl; [|by right]. destruct (i_base _ HI _ _ _ E). lia.
Qed.

Lemma cdrop_inv th size p m : Inv m → allowed m (CDrop th size p) →
  (exec (CDrop th size p) m).1 = Ok tt ∧ Inv (exec (CDrop th size p) m).2.
Proof.
  intros HI (Hl & Hs & Hp0 & Hpn & Hfree). simpl.
  destruct (operator_new_spec th size p m HI Hl Hs) as [(j & c & sd & off & sd' & Ej & Es & En & Ho & Hoff & Hm)|En];
    rewrite (bind_ok _ _ _ _ _ En); unfold operator_delete.
  - destruct (i_base _ HI _ _ _ Es) as [? ?]. destruct (Z.eqb_spec (c + off) 0); [lia|]. run. rewrite Ej.
    rewrite (deref_ok j (c, sd')) by apply lookup_insert_eq. simpl.
    assert (isFromArena c (c + off) = true) as -> by (rewrite isFromArena_spec; lia). split; [done|]. apply (same_ops_inv j c sd); try done. lia.
  - destruct (Z.eqb_spec p 0); [lia|]. run. destruct (active m !! th) as [i|] eqn:Ea; [|by rewrite heap_new_free].
    destruct (Hl i Ea) as [[b sc] E]. rewrite (deref_ok i (b, sc)) by done. simpl. rewrite (Hfree _ _ _ E). by rewrite heap_new_free.
Qed.

Lemma removeLast_ops (sc : scope) l p : ops sc = (l ++ [p])%list →
  ops (TransactionScope.removeLastOperation sc) = l ∧ TransactionScope.arenaOffset (TransactionScope.removeLastOperation sc) = TransactionScope.arenaOffset sc.
Proof.
  intros E. unfold TransactionScope.removeLastOperation. destruct (ops sc) as [|y l0] eqn:Eo; [by destruct l|]. cbn [TransactionScope.operations].
  split; [|done]. rewrite E. apply removelast_last.
Qed.

(** The calls that destroy operations. *)
Lemma cremove_inv c m : Inv m → allowed m c → match c with CRemoveLast _ | CRemoveStage _ _ | CReset _ => True | _ => False end →
  (∀ w, (exec c m).1 ≠ Crash w) ∧ Inv (exec c m).2.
Proof.
  intros HI Ha Hc. destruct c as [| | | |i| |i sid|i| |]; try done; destruct Ha as [[b sc] E]; simpl;
    unfold removeLastOperation, removeStage, reset; rewrite (bind_ok _ _ _ _ _ (deref_ok _ _ _ E)); simpl;
    destruct (i_base _ HI _ _ _ E) as [? ?].
  - destruct (last (ops sc)) as [p|] eqn:El; [|done]. apply last_Some in El as [l' El].
    destruct (removeLast_ops sc l' p El) as [Eo Ef].
    destruct (drop_inv i b sc (TransactionScope.removeLastOperation sc) [p] m HI E) as [Hd Hi]; [by rewrite Eo|by rewrite Ef|by left|].
    simpl in Hd. unfold bind, ret in *. destruct (destroyOperation b p m) as [[[]| |] m']; simpl in *; by simplify_eq.
  - unfold TransactionScope.removeStage. destruct (TransactionScope.stageBoundaries sc !! sid) as [start|]; [|done].
    edestruct (drop_inv i b sc (TransactionScope.mkScope (take start (ops sc)) (take sid (TransactionScope.stageBoundaries sc))
      (TransactionScope.ts_id sc) (TransactionScope.arenaOffset sc)) (drop start (ops sc)) m HI E) as [Hd Hi]; [simpl; by rewrite take_drop|done|by left|].
    rewrite (bind_ok _ _ _ _ _ Hd). split; [done|exact Hi].
  - edestruct (drop_inv i b sc (TransactionScope.reset sc) (ops sc) m HI E) as [Hd Hi]; [done|done|by right|].
    rewrite (bind_ok _ _ _ _ _ Hd). split; [done|exact Hi].
Qed.

Lemma create_inv i base m : Inv m → allowed m (CCreate i base) → Inv (exec (CCreate i base) m).2.
Proof.
  intros HI (Hn & Hb & Hh & Hd). simpl. unfold set_scope. simpl.
  assert (∀ j c sd, <[i := (base, TransactionScope.empty)]> (scopes m) !! j = Some (c, sd) →
    i = j ∧ c = base ∧ sd = TransactionScope.empty ∨ i ≠ j ∧ scopes m !! j = Some (c, sd)) as Hold.
  { intros j c sd. rewrite lookup_insert_Some. intros [[<- [= <- <-]]|[? E]]; auto. }
  split; simpl; intros *.
  - intros [(<- & -> & ->)|[? E]]%Hold; [by split|by eapply i_base].
  - intros [(<- & -> & ->)|[? E]]%Hold; [constructor|by eapply (i_held m)].
  - intros [(<- & -> & ->)|[? E]]%Hold; [constructor|by eapply i_nodup].
  - intros [(<- & -> & ->)|[? E1]]%Hold [(<- & -> & ->)|[? E2]]%Hold Hne Hp; try done; [set_solver|set_solver|].
    exact (i_apart _ HI _ _ _ _ _ _ _ E1 E2 Hne Hp).
  - intros [(<- & -> & ->)|[? E1]]%Hold [(<- & -> & ->)|[? E2]]%Hold Hne; [done|apply or_comm; by eapply Hd|by eapply Hd|].
    exact (i_disj _ HI _ _ _ _ _ _ E1 E2 Hne).
  - intros Hp [(<- & -> & ->)|[? E]]%Hold; [by apply Hh|by eapply i_heap].
  - intros Hp. destruct (i_owned _ HI p Hp) as (j & c & sd & E & Hin). exists j, c, sd. rewrite lookup_insert_ne; [done|congruence].
Qed.

(** Destroying a scope is a reset after which it is gone. *)
Lemma destroy_inv i m : Inv m → allowed m (CDestroy i) → (exec (CDestroy i) m).1 = Ok tt ∧ Inv (exec (CDestroy i) m).2.
Proof.
  intros HI [[b sc] E]. simpl. unfold destructor. rewrite (bind_ok _ _ _ _ _ (deref_ok _ _ _ E)).
  destruct (i_base _ HI _ _ _ E) as [? ?].
  destruct (drop_inv i b sc (TransactionScope.reset sc) (ops sc) m HI E) as [Hd Hi]; [done|done|by right|].
  rewrite (bind_ok _ _ _ _ _ Hd). split; [done|]. simpl.
  assert (∀ j x, delete i (scopes m) !! j = Some x → <[i := (b, TransactionScope.reset sc)]> (scopes m) !! j = Some x) as Hold.
  { intros j x. rewrite lookup_delete_Some. intros [Hn Ej]. by rewrite lookup_insert_ne. }
  destruct Hi as [H1 H2 H3 H4 H5 H6 H7]. simpl in *. split; simpl; eauto.
  intros p Hp. destruct (H7 p Hp) as (j & c & sd & Ej & Hin). exists j, c, sd. split; [|done].
    apply lookup_insert_Some in Ej as [[<- [= <- <-]]|[Hn Ej]]; [set_solver|]. by rewrite lookup_delete_ne.
Qed.

Lemma exec_inv c m : Inv m → allowed m c → (∀ w, (exec c m).1 ≠ Crash w) ∧ Inv (exec c m).2.
Proof.
  intros HI Ha. destruct c; try (by apply cremove_inv).
  - split; [done|]. by destruct HI.
  - split; [done|]. by destruct HI.
  - by apply cadd_inv.
  - destruct (cdrop_inv th size p m HI Ha) as [-> ?]. done.
  - destruct Ha as [[b sc] E]. simpl. unfold startNewStage. rewrite (bind_ok _ _ _ _ _ (deref_ok _ _ _ E)). split; [done|].
    apply (same_ops_inv i b sc); try done. simpl. destruct (i_base _ HI _ _ _ E). lia.
  - split; [done|]. by apply create_inv.
  - destruct (destroy_inv i m HI Ha) as [-> ?]. done.
Qed.

Lemma mem_reachable_inv m : reachable m → Inv m.
Proof.
  intros Hr. unfold reachable in Hr. remember (mkMem ∅ ∅ ∅) as m0 eqn:E0.
  assert (Inv m0) as HI by (subst; split; simpl; intros *; rewrite ?lookup_empty; set_solver). clear E0.
  induction Hr as [|m1 m2 m3 [m c Ha] _ IH]; [done|]. apply IH. by apply exec_inv.
Qed.

(** ** The handlers

    Who owns a scope: [holds] is the scope a handler of the thread is filling (its
    [PooledTransactionScope] that was not released yet), [submitted] those that were
    given to the transaction manager.  Every other scope is in the pool. *)
Record Sys := mkSys { mem : Mem; holds : gmap nat nat; submitted : gset nat }.

(** The scope is in the pool, unused. *)
Definition pooled (s : Sys) (i : nat) : Prop :=
  is_Some (scopes (mem s) !! i) ∧ (i ∉ submitted s) ∧ ∀ th, holds s !! th ≠ Some i.

(** What a handler does with its scope and the operations in it, and what becomes of the
    scope.  [HNew]: a scope made because the slot was empty or the pool exhausted;
    [HBare]: one used without a guard.  [HLeave] is the end of the guard of a handler
    that released its scope: until then [s_activeScope] may point to a scope that
    was destroyed. *)
Inductive HCmd :=
  | HAcquire (th i : nat) | HNew (th i : nat) (base : Z) | HBare (th i : nat) (base : Z)
  | HAdd (th : nat) (size p : Z) | HDrop (th : nat) (size p : Z)
  | HRemoveLast (th : nat) | HStage (th : nat) | HRemoveStage (th sid : nat)
  | HSubmit (th : nat) | HLeave (th : nat) | HAbandon (th : nat) | HDelete (th : nat)
  | HRetire (i : nat) | HDiscard (i : nat).

Definition on_held (s : Sys) (th : nat) (c : nat → M Mem unit) : M Mem unit :=
  match holds s !! th with Some i => c i | None => crash "no scope" end.

(** Processor::onEvent, Processor::onDeferedEvent, the scope -- src/src/Processor.cpp:127-155
    Acquisition resets a scope of the pool ([TransactionScopePool::acquire]); the guard ends
    before the scope goes back ([~ScopeArenaGuard], [~PooledTransactionScope]). *)
Definition hmem (s : Sys) (c : HCmd) : M Mem unit :=
  match c with
  | HAcquire th i => reset i ;;; guard th i
  | HNew th i base => constructor i base ;;; guard th i
  | HBare th i base => constructor i base
  | HAdd th size p => on_held s th (λ i, exec (CAdd th i size p))
  | HDrop th size p => on_held s th (λ _, exec (CDrop th size p))
  | HRemoveLast th => on_held s th removeLastOperation
  | HStage th => on_held s th startNewStage
  | HRemoveStage th sid => on_held s th (λ i, removeStage i sid)
  | HSubmit th => on_held s th (λ _, ret tt)
  | HLeave th | HAbandon th => unguard th
  | HDelete th => unguard th ;;; on_held s th destructor
  | HRetire i | HDiscard i => destructor i
  end.

(** Who owns what afterwards. *)
Definition hown (c : HCmd) (s : Sys) : gmap nat nat * gset nat :=
  match c with
  | HAcquire th i | HNew th i _ | HBare th i _ => (<[th := i]> (holds s), submitted s)
  | HSubmit th => (delete th (holds s), match holds s !! th with Some i => {[i]} ∪ submitted s | None => submitted s end)
  | HAbandon th | HDelete th => (delete th (holds s), submitted s)
  | HRetire i => (holds s, submitted s ∖ {[i]})
  | _ => (holds s, submitted s)
  end.

(** When the code makes the call: a handler acquires a scope that is in the pool (or makes
    one, where no scope or block is) while it holds none, creates operations and ends only
    with a scope it holds, and a submitted scope is destroyed once; the allocator
    returns addresses that are free. *)
Definition hallowed (s : Sys) (c : HCmd) : Prop :=
  match c with
  | HAcquire th i => holds s !! th = None ∧ pooled s i
  | HNew th i base => holds s !! th = None ∧ allowed (mem s) (CCreate i base)
  | HBare th i base => holds s !! th = None ∧ active (mem s) !! th = None ∧ allowed (mem s) (CCreate i base)
  | HAdd th size p | HDrop th size p => is_Some (holds s !! th) ∧ 0 < size < 2 ^ 32 ∧ free_address (mem s) p
  | HRemoveLast th | HStage th | HRemoveStage th _ | HSubmit th | HAbandon th | HDelete th => is_Some (holds s !! th)
  | HLeave th => holds s !! th = None
  | HRetire i => i ∈ submitted s
  | HDiscard i => pooled s i
  end.

Definition hnext (s : Sys) (c : HCmd) : Sys := mkSys (hmem s c (mem s)).2 (hown c s).1 (hown c s).2.

Inductive hstep : Sys → Sys → Prop := h_exec s c : hallowed s c → hstep s (hnext s c).

Definition hreachable (s : Sys) : Prop := rtc hstep (mkSys (mkMem ∅ ∅ ∅) ∅ ∅) s.

(** A scope that is held or submitted is alive and has one owner, and the thread that
    holds it allocates from it. *)
Record HInv (s : Sys) : Prop := mkHInv {
  h_mem : Inv (mem s);
  h_held th i : holds s !! th = Some i → is_Some (scopes (mem s) !! i) ∧ (i ∉ submitted s) ∧
    (active (mem s) !! th = Some i ∨ active (mem s) !! th = None);
  h_one th th' i : holds s !! th = Some i → holds s !! th' = Some i → th = th';
  h_sub i : i ∈ submitted s → is_Some (scopes (mem s) !! i);
}.

(** Calls that leave the scopes alive and the guards alone. *)
Definition keeps_scopes (m m' : Mem) : Prop := active m' = active m ∧ ∀ i, is_Some (scopes m !! i) → is_Some (scopes m' !! i).

Lemma keeps_refl m : keeps_scopes m m.
Proof. done. Qed.
Lemma keeps_set i x m : keeps_scopes m (set_scope i x m).
Proof. split; [done|]. intros j Hj. cbn. destruct (decide (i = j)) as [->|]; [rewrite lookup_insert_eq; by eexists|by rewrite lookup_insert_ne]. Qed.
Lemma keeps_heap h m : keeps_scopes m (set_heap h m).
Proof. done. Qed.
Lemma keeps_trans m1 m2 m3 : keeps_scopes m1 m2 → keeps_scopes m2 m3 → keeps_scopes m1 m3.
Proof. intros [E1 H1] [E2 H2]. split; [congruence|auto]. Qed.

Definition kept_by {A} (c : M Mem A) : Prop := ∀ m, keeps_scopes m (c m).2.

Lemma kept_bind {A B} (c : M Mem A) (k : A → M Mem B) : kept_by c → (∀ a, kept_by (k a)) → kept_by (bind c k).
Proof.
  intros Hc Hk m. specialize (Hc m). unfold bind. destruct (c m) as [[a|?|?] m']; cbn in *; [|done|done].
  eapply keeps_trans; [exact Hc|apply Hk].
Qed.
Lemma kept_ret {A} (a : A) : kept_by (ret a).
Proof. intros m. apply keeps_refl. Qed.
Lemma kept_deref i : kept_by (deref i).
Proof. intros m. unfold deref. by destruct (scopes m !! i). Qed.
Lemma kept_free p : kept_by (heap_free p).
Proof. intros m. unfold heap_free. run. by case_bool_decide. Qed.
Lemma kept_set i x : kept_by (modify (set_scope i x)).
Proof. intros m. apply keeps_set. Qed.
Lemma kept_gets {A} (f : Mem → A) : kept_by (gets f).
Proof. intros m. apply keeps_refl. Qed.
Lemma kept_destroy base p : kept_by (destroyOperation base p).
Proof. unfold destroyOperation. destruct (p =? 0), (isFromArena base p); auto using kept_ret, kept_free. Qed.
Lemma kept_destroy_all base l : kept_by (destroy_all base l).
Proof. induction l as [|p l IH]; [apply kept_ret|]. apply kept_bind; [apply kept_destroy|auto]. Qed.
Create HintDb kept.
#[local] Hint Resolve kept_bind kept_ret kept_deref kept_free kept_set kept_gets kept_destroy kept_destroy_all : kept.

Lemma kept_new th size p : kept_by (operator_new th size p).
Proof.
  unfold operator_new. apply kept_bind; [auto with kept|]. intros a.
  assert (kept_by (heap_new p)) as Hn by (apply kept_bind; [intros m; apply keeps_heap|auto with kept]).
  destruct (a !! th) as [i|]; [|done]. apply kept_bind; [auto with kept|]. intros x.
  destruct (TransactionScope.arenaAllocate _ _ _) as [[off|] sc']; auto with kept.
Qed.
Lemma kept_delete th p : kept_by (operator_delete th p).
Proof.
  unfold operator_delete. destruct (p =? 0); [apply kept_ret|]. apply kept_bind; [auto with kept|]. intros a.
  destruct (a !! th); [|auto with kept]. apply kept_bind; [auto with kept|]. intros x. destruct (isFromArena x.1 p); auto with kept.
Qed.

Lemma kept_exec c : match c with CAdd _ _ _ _ | CDrop _ _ _ | CRemoveLast _ | CStage _ | CRemoveStage _ _ | CReset _ => True | _ => False end →
  kept_by (exec c).
Proof.
  destruct c; try done; intros _; cbn [exec].
  - apply kept_bind; [apply kept_new|]. intros q. unfold addOperation. auto with kept.
  - apply kept_bind; [apply kept_new|apply kept_delete].
  - unfold removeLastOperation. apply kept_bind; [auto with kept|]. intros x. destruct (last _); auto with kept.
  - unfold startNewStage. auto with kept.
  - unfold removeStage. apply kept_bind; [auto with kept|]. intros x. destruct (_ !! sid); [auto with kept|]. intros m. apply keeps_refl.
  - unfold reset. auto with kept.
Qed.

Lemma reset_ok i m : Inv m → is_Some (scopes m !! i) → ∃ m', reset i m = (Ok tt, m') ∧ Inv m' ∧ keeps_scopes m m'.
Proof.
  intros HI [[b sc] E]. destruct (cremove_inv (CReset i) m HI) as [_ Hi]; [by eexists|done|]. cbn [exec] in Hi.
  pose proof (kept_exec (CReset i) I m) as Hk. cbn [exec] in Hk. exists (reset i m).2. split; [|done].
  unfold reset. rewrite (bind_ok _ _ _ _ _ (deref_ok _ _ _ E)). cbn [fst snd].
  edestruct (drop_inv i b sc (TransactionScope.reset sc) (ops sc) m HI E) as [Hd _]; [done|split; [done|cbn; unfold TransactionScope.ARENA_SIZE; lia]|by right|].
  by rewrite (bind_ok _ _ _ _ _ Hd).
Qed.

Lemma on_held_eq s th i (c : nat → M Mem unit) : holds s !! th = Some i → on_held s th c = c i.
Proof. unfold on_held. by intros ->. Qed.

(** Everything a handler does is allowed: its scope is alive and its thread's. *)
Lemma handlers_allowed s th i : HInv s → holds s !! th = Some i →
  is_Some (scopes (mem s) !! i) ∧ active_live (mem s) th ∧ (active (mem s) !! th = Some i ∨ active (mem s) !! th = None).
Proof.
  intros HI Hh. destruct (h_held _ HI _ _ Hh) as (Hs & _ & Ha). split_and!; try done. intros j Hj. destruct Ha as [Ha|Ha]; congruence.
Qed.

(** A call on the scope a thread holds. *)
Lemma call_inv s th i c : HInv s → holds s !! th = Some i → allowed (mem s) c → kept_by (exec c) →
  (∀ w, (exec c (mem s)).1 ≠ Crash w) ∧ HInv (mkSys (exec c (mem s)).2 (holds s) (submitted s)).
Proof.
  intros HI Hh Ha Hk. destruct (exec_inv c (mem s) (h_mem _ HI) Ha) as [Hc Hi]. split; [done|]. destruct (Hk (mem s)) as [Eact Hsc].
  split; cbn [mem holds submitted]; [done| | |].
  - intros th' i' H'. destruct (h_held _ HI _ _ H') as (? & ? & ?). rewrite Eact. auto.
  - apply (h_one _ HI).
  - intros i' H'. apply Hsc. by apply (h_sub _ HI).
Qed.

(** A scope that nobody had becomes the thread's. *)
Lemma acquired_inv s th i m : HInv s → holds s !! th = None → Inv m → active m = active (mem s) →
  (∀ j, is_Some (scopes (mem s) !! j) → is_Some (scopes m !! j)) → is_Some (scopes m !! i) →
  i ∉ submitted s → (∀ th', holds s !! th' ≠ Some i) → ∀ g : bool,
  (g = false → active m !! th = None) →
  HInv (mkSys (if g then set_active (<[th := i]> (active m)) m else m) (<[th := i]> (holds s)) (submitted s)).
Proof.
  intros HI Hn Him Ea Hsc Hi Hsub Hone g Hg.
  set (m' := if g then _ else _). assert (scopes m' = scopes m) as Es by (by destruct g).
  assert (active m' !! th = Some i ∨ active m' !! th = None) as Hth
    by (destruct g; [left; apply lookup_insert_eq|right; by apply Hg]).
  assert (∀ th', th' ≠ th → active m' !! th' = active (mem s) !! th') as Hoth
    by (intros th' Hne; unfold m'; destruct g; cbn; [rewrite lookup_insert_ne by done|]; by rewrite Ea).
  split; cbn [mem holds submitted].
  - destruct g; [|done]. by destruct Him.
  - intros th' j. rewrite Es. destruct (decide (th' = th)) as [->|Hne].
    + rewrite lookup_insert_eq. intros [= <-]. by split_and!.
    + rewrite lookup_insert_ne, Hoth by done. intros H'. destruct (h_held _ HI _ _ H') as (? & ? & ?). auto.
  - intros t1 t2 j. destruct (decide (t1 = th)) as [->|H1], (decide (t2 = th)) as [->|H2];
      rewrite ?lookup_insert_eq, ?lookup_insert_ne by done; intros E1 E2; simplify_eq; try done.
    + by destruct (Hone t2).
    + by destruct (Hone t1).
    + by apply (h_one _ HI _ _ j).
  - intros j Hj. rewrite Es. by apply Hsc, (h_sub _ HI).
Qed.

(** A thread that holds nothing any more, and its guard's end. *)
Lemma released_inv s th i m sub : HInv s → holds s !! th = Some i → Inv m →
  (∀ j, is_Some (scopes (mem s) !! j) → i ≠ j → is_Some (scopes m !! j)) →
  (∀ t, t ≠ th → active m !! t = active (mem s) !! t) →
  (sub = submitted s ∨ sub = {[i]} ∪ submitted s ∧ is_Some (scopes m !! i)) →
  HInv (mkSys m (delete th (holds s)) sub).
Proof.
  intros HI Hh Him Hsc Hact Hsub. destruct (h_held _ HI _ _ Hh) as (_ & Hni & _).
  assert (∀ t j, delete th (holds s) !! t = Some j → t ≠ th ∧ holds s !! t = Some j ∧ i ≠ j) as Hd.
  { intros t j. rewrite lookup_delete_Some. intros [Hne Hj]. split; [done|]. split; [done|]. intros ->. by destruct (h_one _ HI _ _ _ Hh Hj). }
  split; cbn [mem holds submitted]; [done| | |].
  - intros t j (Hne & Hj & Hij)%Hd. destruct (h_held _ HI _ _ Hj) as (? & ? & ?). rewrite Hact by done. split; [auto|]. split; [|done].
    destruct Hsub as [->|[-> _]]; set_solver.
  - intros t1 t2 j (_ & H1 & _)%Hd (_ & H2 & _)%Hd. by apply (h_one _ HI _ _ j).
  - intros j Hj. destruct (decide (i = j)) as [<-|Hne]; [destruct Hsub as [->|[_ ?]]; done|].
    apply Hsc; [|done]. apply (h_sub _ HI). destruct Hsub as [->|[-> _]]; set_solver.
Qed.

(** A destructor takes its scope away and leaves the others and the guards. *)
Lemma destructor_scopes i m : Inv (destructor i m).2 → (destructor i m).1 = Ok tt →
  active (destructor i m).2 = active m ∧ ∀ j, scopes (destructor i m).2 !! j = delete i (scopes m) !! j.
Proof.
  intros _. unfold destructor, bind. destruct (deref i m) as [[x|?|?] m1] eqn:Ed; [|done|done].
  assert (m1 = m) as -> by (unfold deref in Ed; destruct (scopes m !! i); congruence).
  destruct (destroy_all x.1 (ops x.2) m) as [[[]|?|?] m2] eqn:Eh; [|done|done]. intros _. cbn.
  assert (active m2 = active m ∧ scopes m2 = scopes m) as [-> ->]; [|done].
  clear -Eh. revert m Eh. generalize (ops x.2). intros l. induction l as [|p l IH]; intros m Eh; cbn in Eh; [by injection Eh as <-|].
  apply bind_ok_inv in Eh as ([] & m1 & E1 & E2). destruct (IH _ E2) as [-> ->]. unfold destroyOperation in E1.
  destruct (p =? 0); [by injection E1 as <-|]. destruct (isFromArena x.1 p); [by injection E1 as <-|].
  unfold heap_free in E1. cbn in E1. unfold bind, gets in E1. case_bool_decide; [|done]. by injection E1 as <-.
Qed.

(** A scope that is made now has no owner yet. *)
Lemma fresh_scope s i : HInv s → scopes (mem s) !! i = None → (i ∉ submitted s) ∧ ∀ th, holds s !! th ≠ Some i.
Proof.
  intros HI Hn. split.
  - intros Hi. destruct (h_sub _ HI i Hi) as [? ?]. congruence.
  - intros th Hh. destruct (h_held _ HI _ _ Hh) as ([? ?] & _). congruence.
Qed.

(** Scopes that go away without an owner. *)
Lemma destroyed_inv s i sub : HInv s → is_Some (scopes (mem s) !! i) → (∀ th, holds s !! th ≠ Some i) →
  i ∉ sub → sub ⊆ submitted s → (destructor i (mem s)).1 = Ok tt ∧ HInv (mkSys (destructor i (mem s)).2 (holds s) sub).
Proof.
  intros HI Hi Hno Hn Hsub. destruct (destroy_inv i (mem s) (h_mem _ HI) Hi) as [E HIm]. cbn [exec] in E, HIm. split; [done|].
  destruct (destructor_scopes i (mem s) HIm E) as [Ea Es].
  split; cbn [mem holds submitted]; [done| |apply (h_one _ HI)|].
  - intros th j H'. destruct (h_held _ HI _ _ H') as (? & ? & ?). rewrite Ea, Es. rewrite lookup_delete_ne by (intros ->; by destruct (Hno th)). set_solver.
  - intros j Hj. rewrite Es, lookup_delete_ne by (intros ->; done). apply (h_sub _ HI). set_solver.
Qed.

(** A handler's call never crashes and keeps the owners. *)
Lemma hstep_inv s c : HInv s → hallowed s c → (∀ w, (hmem s c (mem s)).1 ≠ Crash w) ∧ HInv (hnext s c).
Proof.
  intros HI Ha. unfold hnext. destruct c as [th i|th i base|th i base|th size p|th size p|th|th|th sid|th|th|th|th|i|i];
    cbn [hallowed hmem hown fst snd] in *.
  - destruct Ha as (Hn & Hs & Hsub & Hone). destruct (reset_ok i (mem s) (h_mem _ HI) Hs) as (m' & E & Him & Ek & Hk).
    rewrite (bind_ok _ _ _ _ _ E). split; [done|]. apply (acquired_inv s th i m' HI Hn Him Ek Hk (Hk i Hs) Hsub Hone true). done.
  - destruct Ha as (Hn & Hc). pose proof (create_inv i base (mem s) (h_mem _ HI) Hc) as Him. cbn [exec] in Him.
    destruct (fresh_scope s i HI (proj1 Hc)) as [Hsub Hone]. unfold bind, constructor, modify, guard in *. cbn [fst snd] in *. split; [done|].
    apply (acquired_inv s th i _ HI Hn Him eq_refl (proj2 (keeps_set _ _ _)) ltac:(cbn; rewrite lookup_insert_eq; by eexists) Hsub Hone true). done.
  - destruct Ha as (Hn & Hact & Hc). pose proof (create_inv i base (mem s) (h_mem _ HI) Hc) as Him. cbn [exec] in Him.
    destruct (fresh_scope s i HI (proj1 Hc)) as [Hsub Hone]. unfold constructor, modify in *. cbn [fst snd] in *. split; [done|].
    apply (acquired_inv s th i _ HI Hn Him eq_refl (proj2 (keeps_set _ _ _)) ltac:(cbn; rewrite lookup_insert_eq; by eexists) Hsub Hone false). done.
  - destruct Ha as ([i Hi] & Hsz & Hf). rewrite (on_held_eq s th i _ Hi). destruct (handlers_allowed s th i HI Hi) as (Hs & _ & Hact).
    apply (call_inv s th i (CAdd th i size p) HI Hi); [done|by apply (kept_exec (CAdd th i size p))].
  - destruct Ha as ([i Hi] & Hsz & Hf). rewrite (on_held_eq s th i _ Hi). destruct (handlers_allowed s th i HI Hi) as (_ & Hl & _).
    apply (call_inv s th i (CDrop th size p) HI Hi); [done|by apply (kept_exec (CDrop th size p))].
  - destruct Ha as [i Hi]. rewrite (on_held_eq s th i _ Hi). destruct (handlers_allowed s th i HI Hi) as (Hs & _).
    apply (call_inv s th i (CRemoveLast i) HI Hi); [done|by apply (kept_exec (CRemoveLast i))].
  - destruct Ha as [i Hi]. rewrite (on_held_eq s th i _ Hi). destruct (handlers_allowed s th i HI Hi) as (Hs & _).
    apply (call_inv s th i (CStage i) HI Hi); [done|by apply (kept_exec (CStage i))].
  - destruct Ha as [i Hi]. rewrite (on_held_eq s th i _ Hi). destruct (handlers_allowed s th i HI Hi) as (Hs & _).
    apply (call_inv s th i (CRemoveStage i sid) HI Hi); [done|by apply (kept_exec (CRemoveStage i sid))].
  - destruct Ha as [i Hi]. rewrite (on_held_eq s th i _ Hi), Hi. split; [done|]. cbn [ret snd].
    apply (released_inv s th i); try done; [apply HI|]. right. split; [done|]. by apply (h_held _ HI _ _ Hi).
  - split; [done|]. unfold unguard, modify. cbn [snd]. split; cbn [mem holds submitted set_active scopes active]; [by destruct (h_mem _ HI)| |apply HI|apply HI].
    intros t j H'. destruct (h_held _ HI _ _ H') as (? & ? & ?). split; [done|]. split; [done|].
    rewrite lookup_delete_ne by (intros ->; congruence). done.
  - destruct Ha as [i Hi]. split; [done|]. unfold unguard, modify. cbn [snd]. apply (released_inv s th i); try done; [by destruct (h_mem _ HI)| |by left].
    intros t Hne. cbn. by rewrite lookup_delete_ne.
  - destruct Ha as [i Hi]. rewrite (on_held_eq s th i _ Hi). set (m1 := (unguard th (mem s)).2).
    assert (Inv m1) as Hm1 by (by destruct (h_mem _ HI)). destruct (h_held _ HI _ _ Hi) as (Hs & _).
    destruct (destroy_inv i m1 Hm1 Hs) as [E Him]. cbn [exec] in E, Him. destruct (destructor_scopes i m1 Him E) as [Ea Es].
    rewrite (bind_ok (unguard th) _ _ tt m1) by done. split; [by rewrite E|].
    apply (released_inv s th i); try done; [| |by left].
    + intros j Hj Hne. rewrite Es, lookup_delete_ne by done. done.
    + intros t Hne. rewrite Ea. cbn. by rewrite lookup_delete_ne.
  - destruct (destroyed_inv s i (submitted s ∖ {[i]}) HI) as [-> ?]; [by apply HI| |set_solver|set_solver|done].
    intros th Hh. by destruct (h_held _ HI _ _ Hh) as (_ & ? & _).
  - destruct Ha as (Hs & Hsub & Hone). destruct (destroyed_inv s i (submitted s) HI) as [-> ?]; done.
Qed.

Lemma hreachable_inv s : hreachable s → HInv s.
Proof.
  intros Hr. apply (rtc_ind_r (R := hstep) HInv (mkSys (mkMem ∅ ∅ ∅) ∅ ∅)); [|intros s1 s2 _ [? ? Ha] IH; by apply hstep_inv|done].
  split; cbn; [split; cbn; intros *; rewrite ?lookup_empty; set_solver|intros *; by rewrite lookup_empty..|set_solver].
Qed.

(** ** Theorems *)

(** C22: Memory safety of operations, in every interleaving of handlers that use scopes as
    the processor does: a handler takes a scope from the pool or makes one, sets its
    guard, creates operations into this scope, destroys them half built and removes
    operations and stages of it, and then gives the scope away or leaves it; submitted
    scopes are destroyed by whoever executed them, also while the guard of the handler
    still points to them.  No call then frees an address that is not a live block
    (no arena address, no block twice) or uses a dead scope; a scope that is held or submitted is alive, and the
    thread that holds it allocates from it; the live heap blocks are exactly the
    operations that did not fit into the arena of their scope (nothing leaks); and
    every operation is in one place of one scope. *)
Theorem operation_memory_safe s : hreachable s →
  (∀ c, hallowed s c → ∀ w, (hmem s c (mem s)).1 ≠ Crash w) ∧
  (∀ th i, holds s !! th = Some i → is_Some (scopes (mem s) !! i) ∧ (i ∉ submitted s) ∧
     (active (mem s) !! th = Some i ∨ active (mem s) !! th = None)) ∧
  (∀ i, i ∈ submitted s → is_Some (scopes (mem s) !! i)) ∧
  (∀ p, p ∈ heap (mem s) ↔ ∃ i b sc, scopes (mem s) !! i = Some (b, sc) ∧ p ∈ ops sc ∧ isFromArena b p = false) ∧
  (∀ i b sc, scopes (mem s) !! i = Some (b, sc) → NoDup (ops sc) ∧
    ∀ j c sd p, scopes (mem s) !! j = Some (c, sd) → p ∈ ops sc → p ∈ ops sd → i = j).
Proof.
  intros HS%hreachable_inv. pose proof (h_mem _ HS) as HI. split; [by intros c Ha; apply hstep_inv|]. split; [apply HS|]. split; [apply HS|]. split.
  - intros p. split.
    + intros Hp. destruct (i_owned _ HI p Hp) as (i & b & sc & E & Hin). exists i, b, sc. split_and!; try done. by eapply i_heap.
    + intros (i & b & sc & E & Hin & Ha). pose proof (i_held _ HI _ _ _ E) as Hf. rewrite Forall_forall in Hf.
      destruct (Hf p Hin) as (_ & [[Ht _]|[_ ?]]); [congruence|done].
  - intros i b sc E. split; [by eapply i_nodup|]. intros j c sd p E2 Hp Hq. destruct (decide (i = j)) as [|Hn]; [done|].
    by destruct (i_apart _ HI _ _ _ _ _ _ p E E2 Hn Hp).
Qed.

Lemma destroy_all_crashes b (l : list Z) p m : p ∈ l → p ≠ 0 → isFromArena b p = false → p ∉ heap m → ∃ w, (destroy_all b l m).1 = Crash w.
Proof.
  intros Hin Hp Ha. revert m. induction l as [|q l IH]; [set_solver|]. intros m Hm. cbn [destroy_all]. unfold bind.
  destruct (decide (q = p)) as [->|Hn].
  { unfold destroyOperation. rewrite (proj2 (Z.eqb_neq p 0) Hp), Ha. unfold heap_free. run. rewrite bool_decide_false by done. eauto. }
  assert (p ∈ l) as Hl by set_solver. destruct (destroyOperation b q m) as [r m'] eqn:E.
  assert ((p ∉ heap m') ∧ (r = Ok tt ∨ ∃ w, r = Crash w)) as [Hm' [->|[w ->]]]; [|by apply IH|by eexists].
  unfold destroyOperation, heap_free in E. run. repeat case_match; simplify_eq; simpl; split; eauto; set_solver.
Qed.

(** [swap] exchanges the lists of operations, but an operation keeps its address in
    the buffer of the scope it was created in: after the exchange of a scope that
    has an operation in its arena, resetting the other one frees an address inside
    a scope. *)
Theorem swap_breaks_arena m i j b c sc sd p : reachable m → i ≠ j → scopes m !! i = Some (b, sc) → scopes m !! j = Some (c, sd) →
  p ∈ ops sc → isFromArena b p = true → ∃ m' w, swap i j m = (Ok tt, m') ∧ (reset j m').1 = Crash w.
Proof.
  intros HI%mem_reachable_inv Hn Ei Ej Hp Ha. exists (set_scope j (c, sc) (set_scope i (b, sd) m)).
  pose proof (i_held _ HI _ _ _ Ei) as Hf. rewrite Forall_forall in Hf. destruct (Hf p Hp) as [H0 _].
  destruct (destroy_all_crashes c (ops sc) p (set_scope j (c, sc) (set_scope i (b, sd) m))) as [w Hw]; try done; [lia| | |].
  - apply (arena_other b); [|done]. exact (i_disj _ HI _ _ _ _ _ _ Ei Ej Hn).
  - intros Hh. by rewrite (i_heap _ HI _ _ _ _ Hh Ei) in Ha.
  - exists w. unfold swap, reset. rewrite (bind_ok _ _ _ _ _ (deref_ok _ _ _ Ei)), (bind_ok _ _ _ _ _ (deref_ok _ _ _ Ej)). split; [done|].
    rewrite (bind_ok _ _ _ (c, sc) _ (deref_ok _ _ _ (lookup_insert_eq _ _ _))). simpl. unfold bind.
    destruct (destroy_all c (ops sc) _) as [[]]; simpl in Hw; by simplify_eq.
Qed.

(** ** Two scopes; the second operation of the first does not fit into its arena *)

Definition ex_cmds : list Cmd := [CCreate 0 4096; CCreate 1 8192; CGuard 7 0; CAdd 7 0 1000 20000; CAdd 7 0 1200 20000; CUnguard 7].

Definition exec_all (l : list Cmd) (m : Mem) : Mem := foldl (λ m c, (exec c m).2) m l.
Abbreviation ex_mem := (exec_all ex_cmds (mkMem ∅ ∅ ∅)).

Lemma free_address_check m p : bool_decide (0 < p) && bool_decide (p ∉ heap m) && bool_decide (map_Forall (λ _ x, isFromArena x.1 p = false) (scopes m)) = true →
  free_address m p.
Proof. rewrite !andb_true_iff, !bool_decide_eq_true. intros [[? ?] Hf]. split_and!; try done. intros i b sc E. exact (Hf i (b, sc) E). Qed.

Lemma ex_mem_reachable : reachable ex_mem.
Proof.
  unfold reachable, exec_all, ex_cmds. cbn [foldl]. repeat (eapply rtc_r; [|apply s_exec]); [apply rtc_refl|..].
  - split; [done|]. split; [done|]. split; [set_solver|]. intros j b sc Hj. by vm_compute in Hj.
  - split; [done|]. split; [done|]. split; [set_solver|]. intros j b sc Hj. left. revert Hj. cbn. rewrite lookup_insert_Some.
    intros [[_ [= <- _]]|[_ Hj]]; [by vm_compute|]. by vm_compute in Hj.
  - by eexists.
  - split; [by eexists|]. split; [by left|]. split; [lia|]. apply free_address_check. by vm_compute.
  - split; [by eexists|]. split; [by left|]. split; [lia|]. apply free_address_check. by vm_compute.
  - done.
Qed.

(** Two handlers: the first fills its scope, whose second operation goes to the heap, and
    submits it, its guard still set; the second has made another scope. *)
Definition ex_hcmds : list HCmd := [HNew 7 0 4096; HNew 8 1 8192; HAdd 7 1000 20000; HAdd 7 1200 20000; HSubmit 7].
Abbreviation ex_sys := (foldl hnext (mkSys (mkMem ∅ ∅ ∅) ∅ ∅) ex_hcmds).

Lemma ex_sys_reachable : hreachable ex_sys.
Proof.
  unfold hreachable, ex_hcmds. cbn [foldl]. repeat (eapply rtc_r; [|apply h_exec]); [apply rtc_refl|..].
  - split; [done|]. split; [done|]. split; [done|]. split; [set_solver|]. intros j b sc Hj. by vm_compute in Hj.
  - split; [done|]. split; [done|]. split; [done|]. split; [set_solver|]. intros j b sc Hj. left. revert Hj. cbn. rewrite lookup_insert_Some.
    intros [[_ [= <- _]]|[_ Hj]]; [by vm_compute|]. by vm_compute in Hj.
  - split; [by eexists|]. split; [lia|]. apply free_address_check. by vm_compute.
  - split; [by eexists|]. split; [lia|]. apply free_address_check. by vm_compute.
  - by eexists.
Qed.

Lemma operation_memory_safe_witness : (scopes (mem ex_sys) !! 0%nat = Some (4096, TransactionScope.mkScope [4096; 20000] [] IdT0 1000)) ∧
  (∀ w, (hmem ex_sys (HRetire 0) (mem ex_sys)).1 ≠ Crash w) ∧ 20000 ∈ heap (mem ex_sys).
Proof.
  destruct (operation_memory_safe ex_sys ex_sys_reachable) as (H1 & _ & _ & H2 & _). split; [by vm_compute|]. split.
  - apply H1. assert (submitted ex_sys = {[0%nat]}) as E by (vm_compute; reflexivity). cbn [hallowed]. rewrite E. set_solver.
  - apply H2. eexists 0%nat, _, _. split; [by vm_compute|]. split; [set_solver|by vm_compute].
Defined.

Lemma swap_breaks_arena_witness : ∃ m' w, swap 0 1 ex_mem = (Ok tt, m') ∧ (reset 1 m').1 = Crash w.
Proof.
  apply (swap_breaks_arena ex_mem 0 1 4096 8192 (TransactionScope.mkScope [4096; 20000] [] IdT0 1000) TransactionScope.empty 4096).
  - exact ex_mem_reachable.
  - discriminate.
  - by vm_compute.
  - by vm_compute.
  - set_solver.
  - reflexivity.
Defined.
End OperationMemory.
