(* ===== verification/TxMgr.v ===== *)
(** The transaction manager, [src/src/TransactionMgr.cpp].  Every access to the
    tree happens under [lock_]; an operation is the sequence of its critical
    sections. *)

From Stdlib Require Import String ZArith Lia.
From S2P Require Import Prelude Types IdGen LinkTree TxScope.

Module TransactionMgr.

(** class TransactionMgr -- src/src/TransactionMgr.h:38-72
    [observed] tells whether an observer is attached, [notified] counts the
    calls of its [onReadyToExecute]. *)
Record t (T : Type) := mkMgr {
  idGenerator : option IdTGenerator.t; started : bool; transactionTree : NLinkTree.t T;
  observed : bool; notified : nat }.
Arguments mkMgr {T} _ _ _ _ _.
Arguments idGenerator {T} _.
Arguments started {T} _.
Arguments transactionTree {T} _.
Arguments observed {T} _.
Arguments notified {T} _.

Section ops.
Context {T : Type} `{Transaction T}.
Implicit Types (m : t T).

(** TransactionMgr::TransactionMgr -- src/src/TransactionMgr.cpp:21-21 *)
Definition create : t T := mkMgr None false NLinkTree.empty false 0.

(** TransactionMgr::attach -- src/src/TransactionMgr.cpp:29-35 *)
Definition attach : M (t T) unit :=
  o <- gets observed ;;
  assert_ (negb o) ;;;
  modify (λ m, mkMgr (idGenerator m) (started m) (transactionTree m) true (notified m)).

(** TransactionMgr::detach -- src/src/TransactionMgr.cpp:37-43 *)
Definition detach : M (t T) bool :=
  o <- gets observed ;;
  modify (λ m, mkMgr (idGenerator m) (started m) (transactionTree m) false (notified m)) ;;;
  ret o.

(** TransactionMgr::init -- src/src/TransactionMgr.cpp:45-52 *)
Definition init (gen : IdTGenerator.t) : M (t T) unit :=
  st <- gets started ;;
  assert_ (negb st) ;;;
  g <- gets idGenerator ;;
  assert_ (bool_decide (g = None)) ;;;
  modify (λ m, mkMgr (Some gen) true (transactionTree m) (observed m) (notified m)).

(** TransactionMgr::stop -- src/src/TransactionMgr.cpp:54-62 *)
Definition stop : M (t T) unit :=
  st <- gets started ;;
  assert_ st ;;;
  modify (λ m, mkMgr (idGenerator m) false (transactionTree m) (observed m) (notified m)).

(** Run an operation of the tree. *)
Definition on_tree {A} (c : M (NLinkTree.t T) A) : M (t T) A := λ m,
  let r := c (transactionTree m) in
  (r.1, mkMgr (idGenerator m) (started m) r.2 (observed m) (notified m)).

(** [idGenerator_->getId()] *)
Definition new_id (now : Z) : M (t T) IdT := λ m,
  match idGenerator m with
  | None => (Crash "null idGenerator_", m)
  | Some g => let r := IdTGenerator.getId now g in
      (Ok r.1, mkMgr (Some r.2) (started m) (transactionTree m) (observed m) (notified m))
  end.

(** [if ((0 < ready2Exec) && (nullptr != localObs)) localObs->onReadyToExecute();] *)
Definition notify (ready2Exec : Z) : M (t T) unit := λ m,
  (Ok tt, if (0 <? ready2Exec) && observed m
          then mkMgr (idGenerator m) (started m) (transactionTree m) (observed m) (S (notified m))
          else m).

(** TransactionMgr::addTransaction -- src/src/TransactionMgr.cpp:64-94 *)
Definition addTransaction (tr : T) (now : Z) : M (t T) unit :=
  st <- gets started ;;
  assert_ st ;;;
  assert_ (negb (isValidId (transactionId tr))) ;;;
  g <- gets idGenerator ;;
  assert_ (bool_decide (g ≠ None)) ;;;
  objects <- (λ m, (getRelatedObjects tr, m)) ;;
  id <- new_id now ;;
  r <- on_tree (NLinkTree.add id (setTransactionId id tr) objects) ;;
  notify r.2.

(** TransactionMgr::removeTransaction -- src/src/TransactionMgr.cpp:96-116 *)
Definition removeTransaction (id : IdT) : M (t T) bool :=
  st <- gets started ;;
  assert_ st ;;;
  assert_ (isValidId id) ;;;
  r <- on_tree (NLinkTree.remove id) ;;
  notify r.2 ;;;
  ret r.1.

(** TransactionMgr::getParentTransactions -- src/src/TransactionMgr.cpp:118-125 *)
Definition getParentTransactions (id : IdT) (parent : gset IdT) : M (t T) (option (gset IdT)) :=
  st <- gets started ;;
  assert_ st ;;;
  gets (λ m, NLinkTree.getParents id (transactionTree m) parent).

(** TransactionMgr::getRelatedTransactions -- src/src/TransactionMgr.cpp:127-134 *)
Definition getRelatedTransactions (id : IdT) (related : gset IdT) : M (t T) (option (gset IdT)) :=
  st <- gets started ;;
  assert_ st ;;;
  gets (λ m, NLinkTree.getChildren id (transactionTree m) related).

(** TransactionMgr::next -- src/src/TransactionMgr.cpp:141-145 *)
Definition next : M (t T) (option (IdT * T)) := on_tree NLinkTree.next.

(** TransactionMgr::get -- src/src/TransactionMgr.cpp:147-151 *)
Definition get : M (t T) (option (IdT * T)) := λ m,
  (NLinkTree.getCurrent (transactionTree m), m).

(** TransactionMgr::isValid -- src/src/TransactionMgr.cpp:153-157 *)
Definition isValid (m : t T) : bool := NLinkTree.isCurrentValid (transactionTree m).
End ops.

Abbreviation live m := (NLinkTree.live (transactionTree m)).
Abbreviation uses m := (NLinkTree.uses (transactionTree m)).
Abbreviation ready m := (NLinkTree.root (transactionTree m)).

Section theory.
Context {T : Type} `{Transaction T}.
Implicit Types (m : t T).

(** The clock shows a time whose low 32 bits are not zero. *)
Definition clock_ok (now : Z) : Prop := wrap32 now ≠ 0.

(** A started manager whose counter is above every live identifier. *)
Record Inv m (c : Z) : Prop := {
  inv_started : started m = true;
  inv_counter : idGenerator m = Some c;
  inv_range : 0 < c < 2 ^ 64;
  inv_tree : NLinkTree.Inv (transactionTree m);
  inv_below k : live m k → id_ k < c;
}.

Lemma init_inv c : 0 < c < 2 ^ 64 → Inv (init c create).2 c.
Proof.
  intros Hc. split; try done; [apply NLinkTree.inv_empty|].
  intros k [n Hk]. simpl in Hk. by rewrite lookup_empty in Hk.
Qed.

Lemma notify_spec r m : ∃ m', notify r m = (Ok tt, m') ∧ idGenerator m' = idGenerator m ∧
  started m' = started m ∧ transactionTree m' = transactionTree m ∧ observed m' = observed m ∧
  notified m' = if observed m && (0 <? r) then S (notified m) else notified m.
Proof.
  unfold notify. eexists. split; [done|]. destruct (0 <? r), (observed m) eqn:E; simpl; done.
Qed.

(** What [addTransaction] does to a good manager. *)
Lemma addTransaction_ok m c tr now objs : Inv m c → c + 1 < 2 ^ 64 → clock_ok now →
  isValidId (transactionId tr) = false → getRelatedObjects tr = Ok objs →
  ∃ m', addTransaction tr now m = (Ok tt, m') ∧ Inv m' (c + 1) ∧
    (∀ k, live m' k ↔ k = mkIdT c (wrap32 now) ∨ live m k) ∧
    (∀ k o, uses m' k o ↔ (k = mkIdT c (wrap32 now) ∧ o ∈ objs) ∨ uses m k o) ∧
    observed m' = observed m ∧
    (∃ new, ready m' = ready m ++ new ∧ (∀ k, k ∈ new → k = mkIdT c (wrap32 now)) ∧
      notified m' = (if observed m && negb (bool_decide (new = [])) then S (notified m) else notified m) ∧
      NLinkTree.current (transactionTree m') = NLinkTree.current (transactionTree m)) ∧
    NLinkTree.value <$> NLinkTree.keys (transactionTree m') !! mkIdT c (wrap32 now) =
      Some (setTransactionId (mkIdT c (wrap32 now)) tr).
Proof.
  intros Hi Hc Hnow Hid Hobjs. pose proof Hi as [Hs Hg Hr Ht Hb].
  assert (NLinkTree.add_pre (transactionTree m) (mkIdT c (wrap32 now)) objs) as Hpre.
  { split; [apply (IdTGenerator.getId_valid now c); [lia|done]|]. split.
    - intros k Hk%Hb. by apply (IdTGenerator.getId_fresh now c).
    - split; [by eapply related_nodup|by eapply related_valid]. }
  destruct (NLinkTree.add_ok _ _ (setTransactionId (mkIdT c (wrap32 now)) tr) objs Ht Hpre)
    as (tree' & rdy & Ea & Hi' & Hl & Hu & Hroot & Hrdy & Hcur & Hval).
  unfold addTransaction, assert_. run. rewrite Hs; simpl. rewrite Hid; simpl.
  rewrite Hg; simpl. rewrite Hobjs; simpl.
  unfold new_id. rewrite Hg; simpl. unfold on_tree; simpl. rewrite Ea; simpl.
  rewrite wrap64_small by (unfold is_u64; lia).
  match goal with |- context [notify rdy ?x] =>
    destruct (notify_spec rdy x) as (m' & En & E1 & E2 & E3 & E4 & E5) end.
  simpl in *. exists m'. rewrite E3. split; [done|].
  split; [|split; [done|split; [done|split; [congruence|split; [|done]]]]].
  - split; [congruence|exact E1|lia|by rewrite E3|].
    rewrite E3. intros k [->|Hk%Hb]%Hl; simpl; lia.
  - eexists. split; [exact Hroot|]. rewrite E5.
    destruct Hrdy as [-> | ->]; simpl; (split; [set_solver|]); (split; [|done]); destruct (observed m); done.
Qed.

Lemma removeTransaction_ok m c k : Inv m c → live m k →
  ∃ m' new, removeTransaction k m = (Ok true, m') ∧ Inv m' c ∧
    (∀ j, live m' j ↔ live m j ∧ j ≠ k) ∧
    (∀ j o, uses m' j o ↔ uses m j o ∧ j ≠ k) ∧ observed m' = observed m ∧
    ready m' = NLinkTree.root_erase k (ready m) ++ new ∧ (∀ j, j ∈ new → j ∉ ready m) ∧
    notified m' = (if observed m && negb (bool_decide (new = [])) then S (notified m) else notified m).
Proof.
  intros Hi [nd End]. pose proof Hi as [Hs Hg Hr Ht Hb].
  destruct (NLinkTree.remove_ok _ k nd Ht End) as (tree' & new & Er & Hi' & Hl & Hu & Hroot & Hn).
  unfold removeTransaction, assert_, bind, ret, gets. rewrite Hs.
  rewrite (NLinkTree.inv_valid _ Ht k) by by eexists. unfold on_tree. cbn [fst snd].
  rewrite Er. cbn [fst snd].
  match goal with |- context [notify ?r ?x] =>
    destruct (notify_spec r x) as (m' & En & E1 & E2 & E3 & E4 & E5) end.
  rewrite En. simpl in *. exists m', new. rewrite E3. split; [done|].
  split; [|split; [done|split; [done|split; [congruence|split; [done|split; [done|]]]]]].
  - split; [congruence|congruence|lia|by rewrite E3|]. rewrite E3. intros j [Hj _]%Hl. auto.
  - rewrite E5. destruct new; simpl; destruct (observed m); done.
Qed.

(** ** Histories

    A run of the system: transactions are submitted, workers advance the
    iterator and complete ready transactions, other components draw
    identifiers, observers come and go.  The log lists the completed
    transactions with their objects, in completion order. *)
Definition log_entry : Type := IdT * ObjectsInTransaction.

Definition may_draw m : Prop := ∀ c, idGenerator m = Some c → c + 1 < 2 ^ 64.

Inductive mstep : t T * list log_entry → t T * list log_entry → Prop :=
  | ms_add m log tr now objs :
      may_draw m → clock_ok now → isValidId (transactionId tr) = false →
      getRelatedObjects tr = Ok objs → mstep (m, log) ((addTransaction tr now m).2, log)
  | ms_complete m log k n :
      k ∈ ready m → NLinkTree.keys (transactionTree m) !! k = Some n →
      mstep (m, log) ((removeTransaction k m).2, log ++ [(k, NLinkTree.dependsOn n)])
  | ms_next m log : mstep (m, log) ((next m).2, log)
  | ms_draw m log now : may_draw m → mstep (m, log) ((new_id now m).2, log)
  | ms_attach m log : mstep (m, log) ((attach m).2, log)
  | ms_detach m log : mstep (m, log) ((detach m).2, log).

Definition history (m : t T) (log : list log_entry) : Prop :=
  rtc mstep ((init IdTGenerator.init create).2, []) (m, log).

Definition conflict_lt (x y : log_entry) : Prop :=
  ∀ o, o ∈ x.2 → o ∈ y.2 → IdT_lt x.1 y.1.

Definition hist_inv (m : t T) (log : list log_entry) : Prop := ∃ c,
  Inv m c ∧ Forall (λ x, id_ x.1 < c) log ∧
  Forall (λ x, ∀ k o, o ∈ x.2 → uses m k o → IdT_lt x.1 k) log ∧
  StronglySorted conflict_lt log.

Lemma inv_ext m m' c : idGenerator m' = idGenerator m → started m' = started m →
  NLinkTree.Inv (transactionTree m') → (∀ k, live m' k → live m k) → Inv m c → Inv m' c.
Proof. intros E1 E2 Ht Hl [? ? ? ? Hb]. split; try congruence; auto. Qed.

Lemma hist_inv_ext m m' log : hist_inv m log →
  idGenerator m' = idGenerator m → started m' = started m →
  transactionTree m' = transactionTree m → hist_inv m' log.
Proof.
  intros (c & Hi & H1 & H2 & H3) E1 E2 E3. exists c. split; [|by rewrite E3].
  eapply inv_ext; [done..| |by rewrite E3|exact Hi]. rewrite E3. apply Hi.
Qed.

Lemma StronglySorted_snoc {A} (R : A → A → Prop) l x :
  StronglySorted R l → Forall (λ y, R y x) l → StronglySorted R (l ++ [x]).
Proof.
  induction 1 as [|y l Hs IH Hall]; simpl; intros Hx; [repeat constructor|].
  apply Forall_cons in Hx as [? ?]. constructor; [auto|]. apply Forall_app; auto.
Qed.

Lemma hist_inv_add m log tr now objs : hist_inv m log → may_draw m → clock_ok now →
  isValidId (transactionId tr) = false → getRelatedObjects tr = Ok objs →
  hist_inv (addTransaction tr now m).2 log.
Proof.
  intros (c & Hi & H1 & H2 & H3) Hd Hn Hid Ho.
  destruct (addTransaction_ok m c tr now objs) as (m' & -> & Hi' & _ & Hu & _);
    [done|by apply Hd, Hi|done..|].
  exists (c + 1). split; [done|]. split; [|split; [|done]].
  - eapply Forall_impl; [exact H1|]. simpl. lia.
  - rewrite !Forall_forall in *. intros x Hx k o Hxo [[-> _]|Hk]%Hu; [|by apply (H2 x Hx k o)].
    apply (IdTGenerator.getId_fresh now c), (H1 x Hx).
Qed.

Lemma hist_inv_complete m log k n : hist_inv m log → k ∈ ready m →
  NLinkTree.keys (transactionTree m) !! k = Some n →
  hist_inv (removeTransaction k m).2 (log ++ [(k, NLinkTree.dependsOn n)]).
Proof.
  intros (c & Hi & H1 & H2 & H3) Hk En.
  assert (live m k) as Hlk by by eexists.
  destruct (removeTransaction_ok m c k Hi Hlk) as (m' & new & -> & Hi' & Hl & Hu & _).
  assert (∀ o, o ∈ NLinkTree.dependsOn n → uses m k o) as Hko by (intros; by exists n).
  exists c. split; [done|]. split; [|split].
  - apply Forall_app. split; [done|]. constructor; [|constructor]. simpl. by apply (inv_below _ _ Hi).
  - apply Forall_app. split.
    + eapply Forall_impl; [exact H2|]. intros x Hx j o Hxo [Hj _]%Hu. by eapply Hx.
    + constructor; [|constructor]. intros j o Ho [Hj Hjk]%Hu; simpl.
      apply (NLinkTree.ready_no_earlier _ k (inv_tree _ _ Hi)) in Hk as [_ Hno].
      destruct (trichotomy IdT_lt k j) as [?|[->|Hlt]]; [done|done|].
      by destruct (Hno j o Hj (Hko o Ho)).
  - apply StronglySorted_snoc; [done|]. eapply Forall_impl; [exact H2|].
    intros x Hx o Hxo Ho. eapply Hx; [exact Hxo|]. by apply Hko.
Qed.

Lemma mstep_inv x y : mstep x y → hist_inv x.1 x.2 → hist_inv y.1 y.2.
Proof.
  intros [m log tr now objs ? ? ? ?|m log k n ? ?|m log|m log now Hd|m log|m log] Hh; simpl in *.
  - by eapply hist_inv_add.
  - by apply hist_inv_complete.
  - destruct Hh as (c & Hi & H1 & H2 & H3).
    destruct (NLinkTree.next_ok _ (inv_tree _ _ Hi)) as (r & tr' & E & Ht & _ & Ek & _).
    unfold next, on_tree. rewrite E. simpl. exists c. split.
    + apply (inv_ext m); try done. unfold NLinkTree.live. simpl. by rewrite Ek.
    + split; [done|]. split; [|done]. unfold NLinkTree.uses in *. simpl. by rewrite Ek.
  - destruct Hh as (c & Hi & H1 & H2 & H3). pose proof (inv_counter _ _ Hi) as Hg.
    pose proof (inv_range _ _ Hi). specialize (Hd c Hg).
    unfold new_id. rewrite Hg. simpl. rewrite wrap64_small by (unfold is_u64; lia).
    exists (c + 1). split; [|split; [|done]].
    + destruct Hi as [? ? ? ? Hb]. split; simpl; try done; [lia|]. intros k Hk%Hb. lia.
    + eapply Forall_impl; [exact H1|]. simpl. lia.
  - unfold attach, assert_. run. by destruct (observed m); simpl; [|eapply hist_inv_ext].
  - unfold detach. run. by eapply hist_inv_ext.
Qed.

Lemma history_inv m log : history m log → hist_inv m log.
Proof.
  intros Hr. assert (hist_inv (init IdTGenerator.init create).2 []) as H0.
  { exists IdTGenerator.init. split; [apply init_inv; unfold IdTGenerator.init; lia|].
    repeat split; constructor. }
  revert H0. unfold history in Hr.
  change (hist_inv (init IdTGenerator.init create).2 []) with
    (let x := ((init IdTGenerator.init create).2, [] : list log_entry) in hist_inv x.1 x.2).
  change (hist_inv m log) with (let x := (m, log) in hist_inv x.1 x.2).
  induction Hr as [x|x y z Hs _ IH]; [done|]. intros. by apply IH, (mstep_inv x).
Qed.

(** ** Properties *)

(** C11: conflict serialisation: in every history of the manager, of two
    completed transactions that share an object the one submitted first (the
    smaller identifier) completed first, and no live transaction precedes a
    completed one it conflicts with. *)
Theorem conflicts_complete_in_order m log : history m log →
  StronglySorted conflict_lt log ∧
  ∀ x k o, x ∈ log → o ∈ x.2 → uses m k o → IdT_lt x.1 k.
Proof.
  intros (c & _ & _ & H2 & H3)%history_inv. split; [done|].
  intros x k o Hx. rewrite Forall_forall in H2. by apply (H2 x Hx).
Qed.

(** [addTransaction] of a transaction with a related-object list succeeds
    in every history before the counter wraps: the fresh identifier is above
    all others, the transaction becomes live, and the observer is notified
    exactly when it is ready at once. *)
Theorem addTransaction_accepts m log c tr now objs : history m log →
  idGenerator m = Some c → c + 1 < 2 ^ 64 → clock_ok now →
  isValidId (transactionId tr) = false → getRelatedObjects tr = Ok objs →
  ∃ m' new, addTransaction tr now m = (Ok tt, m') ∧
    (∀ k, live m k → IdT_lt k (mkIdT c (wrap32 now))) ∧
    (∀ k, live m' k ↔ k = mkIdT c (wrap32 now) ∨ live m k) ∧
    ready m' = ready m ++ new ∧ (∀ k, k ∈ new → k = mkIdT c (wrap32 now)) ∧
    notified m' = (if observed m && negb (bool_decide (new = []))
                   then S (notified m) else notified m).
Proof.
  intros (c' & Hi & _)%history_inv Hg Hc Hn Hid Ho.
  assert (c' = c) as -> by (pose proof (inv_counter _ _ Hi); congruence).
  destruct (addTransaction_ok m c tr now objs)
    as (m' & E & _ & Hl & _ & _ & (new & Hr & Hnew & Hnot & _) & _); [done..|].
  exists m', new. split; [done|]. split; [|done].
  intros k Hk%(inv_below _ _ Hi). by apply (IdTGenerator.getId_fresh now c).
Qed.

(** No wake-up is lost on completion: [removeTransaction] of a live
    transaction in any history succeeds, and when a transaction becomes ready
    by it while an observer is attached, the observer is notified. *)
Theorem removeTransaction_wakes m log k : history m log → live m k →
  ∃ m' new, removeTransaction k m = (Ok true, m') ∧
    (∀ j, live m' j ↔ live m j ∧ j ≠ k) ∧
    ready m' = NLinkTree.root_erase k (ready m) ++ new ∧ (∀ j, j ∈ new → j ∉ ready m) ∧
    notified m' = (if observed m && negb (bool_decide (new = []))
                   then S (notified m) else notified m).
Proof.
  intros (c & Hi & _)%history_inv Hk.
  destruct (removeTransaction_ok m c k Hi Hk) as (m' & new & E & _ & Hl & _ & _ & Hr & Hn & Hnot).
  eauto 10.
Qed.
End theory.

(** ** Witnesses: two conflicting transactions and an independent one *)

#[local] Instance ex_operation : Operation Z := {|
  getObjectId := λ n, mkIdT n 1; getRelatedId := λ _, IdT0 |}.

Definition ex_tr (l : list Z) : TransactionScope.t Z := TransactionScope.mkScope l [] IdT0 0.
Abbreviation ex_mgr_t := (t (TransactionScope.t Z)).
Definition ex_m0 : ex_mgr_t := (init IdTGenerator.init create).2.
Definition ex_m1 : ex_mgr_t := (attach ex_m0).2.
Definition ex_m2 : ex_mgr_t := (addTransaction (ex_tr [5; 6]) 1000 ex_m1).2.
Definition ex_m3 : ex_mgr_t := (addTransaction (ex_tr [6; 7]) 1001 ex_m2).2.
Definition ex_m4 : ex_mgr_t := (addTransaction (ex_tr [8]) 1001 ex_m3).2.
Definition ex_m5 : ex_mgr_t := (removeTransaction (mkIdT 1 1000) ex_m4).2.
Definition ex_m6 : ex_mgr_t := (removeTransaction (mkIdT 2 1001) ex_m5).2.
Definition ex_objs (l : list Z) : ObjectsInTransaction :=
  (λ n, mkObj order_ObjectType (mkIdT n 1)) <$> l.
Definition ex_log : list log_entry :=
  [(mkIdT 1 1000, ex_objs [5; 6]); (mkIdT 2 1001, ex_objs [6; 7])].

Lemma ex_add (m m' : ex_mgr_t) c l now log : m' = (addTransaction (ex_tr l) now m).2 →
  idGenerator m = Some c → c + 1 < 2 ^ 64 → wrap32 now ≠ 0 →
  TransactionScope.related (ex_tr l) = Ok (ex_objs l) → mstep (m, log) (m', log).
Proof.
  intros -> Hc ? ? ?. apply (ms_add m log (ex_tr l) now (ex_objs l)); try done.
  intros c'. by rewrite Hc; intros [= <-].
Qed.

Lemma ex_complete (m m' : ex_mgr_t) k l log : m' = (removeTransaction k m).2 →
  k ∈ ready m →
  (NLinkTree.dependsOn <$> NLinkTree.keys (transactionTree m) !! k) = Some (ex_objs l) →
  mstep (m, log) (m', log ++ [(k, ex_objs l)]).
Proof.
  intros -> Hk (n & En & ->)%fmap_Some. by apply ms_complete.
Qed.

Lemma ex_history4 : history ex_m4 [].
Proof.
  apply (rtc_l mstep _ (ex_m1, [])); [apply ms_attach|].
  apply (rtc_l mstep _ (ex_m2, [])); [apply (ex_add _ _ 1 [5; 6] 1000); by vm_compute|].
  apply (rtc_l mstep _ (ex_m3, [])); [apply (ex_add _ _ 2 [6; 7] 1001); by vm_compute|].
  apply (rtc_l mstep _ (ex_m4, [])); [apply (ex_add _ _ 3 [8] 1001); by vm_compute|].
  apply rtc_refl.
Qed.

Lemma ex_history : history ex_m6 ex_log.
Proof.
  eapply rtc_r; [eapply rtc_r; [exact ex_history4|]|].
  - apply (ex_complete ex_m4 ex_m5 (mkIdT 1 1000) [5; 6] []); [done| |by vm_compute].
    apply list_elem_of_lookup. exists 0%nat. by vm_compute.
  - apply (ex_complete ex_m5 ex_m6 (mkIdT 2 1001) [6; 7]); [done| |by vm_compute].
    apply list_elem_of_lookup. exists 1%nat. by vm_compute.
Qed.

Lemma conflicts_complete_in_order_witness : StronglySorted conflict_lt ex_log.
Proof. exact (proj1 (conflicts_complete_in_order ex_m6 ex_log ex_history)). Defined.

Lemma addTransaction_accepts_witness :
  notified ex_m4 = 2%nat ∧
  ∃ m', addTransaction (ex_tr [7]) 1002 ex_m4 = (Ok tt, m') ∧
    ∀ k, live m' k ↔ k = mkIdT 4 1002 ∨ live ex_m4 k.
Proof.
  split; [by vm_compute|].
  destruct (addTransaction_accepts ex_m4 [] 4 (ex_tr [7]) 1002 (ex_objs [7]) ex_history4
    eq_refl ltac:(lia) ltac:(by vm_compute) eq_refl ltac:(by vm_compute))
    as (m' & new & E & _ & Hl & _).
  exists m'. split; [exact E|exact Hl].
Defined.

Lemma ex_live : live ex_m4 (mkIdT 1 1000).
Proof. eexists; by vm_compute. Qed.

Lemma removeTransaction_wakes_witness :
  notified (removeTransaction (mkIdT 1 1000) ex_m4).2 = 3%nat ∧
  ∃ m' new, removeTransaction (mkIdT 1 1000) ex_m4 = (Ok true, m') ∧
    ready m' = NLinkTree.root_erase (mkIdT 1 1000) (ready ex_m4) ++ new.
Proof.
  split; [by vm_compute|].
  destruct (removeTransaction_wakes ex_m4 [] (mkIdT 1 1000) ex_history4 ex_live)
    as (m' & new & E & _ & Hr & _).
  exists m', new. split; [exact E|exact Hr].
Defined.

End TransactionMgr.
