(* ===== verification/Engine.v ===== *)
(** The state the order engine works on: the stores, the book, the scope being
    filled, the deferred events and the outgoing queues, with the accesses the
    components share; the operations of a transaction and the deferred events
    as data ([src/src/TrOperations.h], [src/src/DeferedEvents.h]). *)

From Stdlib Require Import Ascii String ZArith Lia.
From S2P Require Import Prelude Types IdGen WideData OrderStore OrderBook LinkTree TxScope.

Abbreviation loc := OrderStore.loc.

(** ** Operations of a transaction *)

(** class CreateExecReportTrOperation ... MatchOrderTrOperation -- src/src/TrOperations.h:26-198
    Every operation carries the order identifier it was created for and, where
    the constructor is given one, the instrument's.  [op] names the operation
    object, whose [eventCountBefore_] is written when it executes; an order
    taken by reference or by pointer is a location. *)
Inductive TrOp :=
  | CreateExecReport (status : OrderStatus) (execType : ExecType) (orderId : IdT)
  | CreateTradeExecReport (trade : ExecTradeParams) (status : OrderStatus) (orderId : IdT)
  | CreateRejectExecReport (reason : StringT) (status : OrderStatus) (orderId : IdT)
  | CreateReplaceExecReport (origOrderId : IdT) (status : OrderStatus) (orderId : IdT)
  | CreateCorrectExecReport (correct : ExecCorrectParams) (status : OrderStatus) (orderId : IdT)
  | AddToOrderBook (order : loc) (orderId instrId : IdT)
  | RemoveFromOrderBook (order : loc) (orderId instrId : IdT)
  | EnqueueReplaceReceived (evntOrderId replId orderId instrId : IdT)
  | EnqueueExecReplace (evntOrderId replId orderId : IdT)
  | EnqueueReplaceRejected (evntOrderId replId orderId : IdT)
  | CancelReject (status : OrderStatus) (orderId : IdT)
  | MatchOrder (op : nat) (order : loc) (orderId : IdT).

#[global] Instance TrOp_Operation : Operation TrOp := {|
  getObjectId o := match o with
    | CreateExecReport _ _ i | CreateTradeExecReport _ _ i | CreateRejectExecReport _ _ i
    | CreateReplaceExecReport _ _ i | CreateCorrectExecReport _ _ i | AddToOrderBook _ i _
    | RemoveFromOrderBook _ i _ | EnqueueReplaceReceived _ _ i _ | EnqueueExecReplace _ _ i
    | EnqueueReplaceRejected _ _ i | CancelReject _ i | MatchOrder _ _ i => i
    end;
  getRelatedId o := match o with
    | AddToOrderBook _ _ j | RemoveFromOrderBook _ _ j | EnqueueReplaceReceived _ _ _ j => j
    | _ => IdT0
    end |}.

(** ** Deferred events *)

(** struct TradeParams -- src/src/DeferedEvents.h:54-62 *)
Record TradeParams := mkTP { td_lastQty : QuantityT; td_lastPx : PriceT; td_order : loc }.

(** struct ExecutionDeferedEvent, MatchOrderDeferedEvent, CancelOrderDeferedEvent -- src/src/DeferedEvents.h:66-99 *)
Inductive DeferedEvent :=
  | ExecutionDefered (baseOrder : loc) (trades : list TradeParams)
  | MatchOrderDefered (order : loc)
  | CancelOrderDefered (order : loc) (cancelReason : StringT).

(** ** Queues *)

(** enum ProcessEvent::EventType -- src/src/QueuesDef.h:105-111 *)
Inductive ProcessEventType :=
  PE_INVALID | PE_ON_REPLACE_RECEVIED | PE_ON_EXEC_REPLACE | PE_ON_REPLACE_REJECTED.

(** struct ProcessEvent -- src/src/QueuesDef.h:103-122 *)
Record ProcessEvent := mkPE { pe_type : ProcessEventType; pe_id : IdT }.

(** struct ExecReportEvent, CancelRejectEvent, BusinessRejectEvent -- src/src/QueuesDef.h:88-101
    What [OutQueues::push] is given, with the target it is pushed to. *)
Inductive OutEvent :=
  | OutExecReport (execId : IdT) (target : StringT)
  | OutCancelReject (target : StringT)
  | OutBusinessReject (target : StringT).

(** ** The state *)

(** What the engine reads and writes.  [SO] and [SD] are the states of the
    attached order and data savers.  [w_eventCount] holds the
    [eventCountBefore_] of the operation objects, [w_newOp] the next object's
    name. *)
Record World (SO SD : Type) := mkWorld {
  w_store : OrderStore.t SO; w_gen : IdTGenerator.t; w_book : Book.OrderBookImpl SO;
  w_wide : WideData.t SD; w_scope : TransactionScope.t TrOp; w_newOp : nat;
  w_events : list DeferedEvent; w_eventCount : gmap nat nat;
  w_in : list ProcessEvent; w_out : list OutEvent }.
Arguments mkWorld {SO SD} _ _ _ _ _ _ _ _ _ _.
Arguments w_store {SO SD} _.
Arguments w_gen {SO SD} _.
Arguments w_book {SO SD} _.
Arguments w_wide {SO SD} _.
Arguments w_scope {SO SD} _.
Arguments w_newOp {SO SD} _.
Arguments w_events {SO SD} _.
Arguments w_eventCount {SO SD} _.
Arguments w_in {SO SD} _.
Arguments w_out {SO SD} _.

Section access.
Context {SO SD : Type}.
Abbreviation W := (World SO SD).
Implicit Types (w : W).

Definition set_store s c w : W :=
  mkWorld s c (w_book w) (w_wide w) (w_scope w) (w_newOp w) (w_events w) (w_eventCount w) (w_in w) (w_out w).
Definition set_book b w : W :=
  mkWorld (w_store w) (w_gen w) b (w_wide w) (w_scope w) (w_newOp w) (w_events w) (w_eventCount w) (w_in w) (w_out w).
Definition set_wide d w : W :=
  mkWorld (w_store w) (w_gen w) (w_book w) d (w_scope w) (w_newOp w) (w_events w) (w_eventCount w) (w_in w) (w_out w).
Definition set_scope sc n w : W :=
  mkWorld (w_store w) (w_gen w) (w_book w) (w_wide w) sc n (w_events w) (w_eventCount w) (w_in w) (w_out w).
Definition set_events e w : W :=
  mkWorld (w_store w) (w_gen w) (w_book w) (w_wide w) (w_scope w) (w_newOp w) e (w_eventCount w) (w_in w) (w_out w).
Definition set_eventCount n c w : W :=
  mkWorld (w_store w) (w_gen w) (w_book w) (w_wide w) (w_scope w) (w_newOp w) (w_events w)
    (<[n := c]> (w_eventCount w)) (w_in w) (w_out w).
Definition push_in e w : W :=
  mkWorld (w_store w) (w_gen w) (w_book w) (w_wide w) (w_scope w) (w_newOp w) (w_events w)
    (w_eventCount w) (w_in w ++ [e]) (w_out w).
Definition push_out e w : W :=
  mkWorld (w_store w) (w_gen w) (w_book w) (w_wide w) (w_scope w) (w_newOp w) (w_events w)
    (w_eventCount w) (w_in w) (w_out w ++ [e]).

Definition lift {A} (o : outcome A) : M W A := λ w, (o, w).

Definition on_store {A} (c : M (OrderStore.t SO * IdTGenerator.t) A) : M W A := λ w,
  let r := c (w_store w, w_gen w) in (r.1, set_store r.2.1 r.2.2 w).
Definition on_book {A} (c : M (Book.OrderBookImpl SO) A) : M W A := λ w,
  let r := c (w_book w) in (r.1, set_book r.2 w).
Definition on_wide {A} (c : M (WideData.t SD) A) : M W A := λ w,
  let r := c (w_wide w) in (r.1, set_wide r.2 w).

(** [evnt.transaction_->addOperation(op)] *)
Definition addOp (op : TrOp) : M W unit :=
  modify (λ w, set_scope (TransactionScope.addOperation op (w_scope w)) (w_newOp w) w).

(** [new MatchOrderTrOperation(order)], then [addOperation]. *)
Definition addMatch (l : loc) (orderId : IdT) : M W unit :=
  modify (λ w, set_scope (TransactionScope.addOperation (MatchOrder (w_newOp w) l orderId) (w_scope w))
                 (S (w_newOp w)) w).

(** Reading and writing through an [OrderEntry] pointer. *)
Definition deref (l : loc) : M W OrderEntry := λ w,
  match OrderStore.heap (w_store w) !! l with
  | Some o => (Ok o, w)
  | None => (Crash "dangling order pointer", w)
  end.

Definition set_heap l o (s : OrderStore.t SO) : OrderStore.t SO :=
  OrderStore.mkStore (<[l := o]> (OrderStore.heap s)) (OrderStore.nextLoc s) (OrderStore.ordersById s)
    (OrderStore.ordersByClId s) (OrderStore.executionsById s) (OrderStore.saver s).

Definition assign (l : loc) (f : OrderEntry → OrderEntry) : M W unit :=
  o <- deref l ;; modify (λ w, set_store (set_heap l (f o) (w_store w)) (w_gen w) w).

(** Dereferencing a pointer that may be null. *)
Definition nonnull {A} (p : option A) : M W A :=
  match p with Some x => ret x | None => crash "assert" end.

(** [clOrderId_.get()] in the current reference data. *)
Definition getRaw w (i : IdT) : outcome RawDataEntry := WideData.getRawData i (w_wide w).
End access.

(** ** Lemmas on the accesses *)
Section lemmas.
Context {SO SD : Type}.
Implicit Types (w : World SO SD).

Definition heap_at w (l : loc) : option OrderEntry := OrderStore.heap (w_store w) !! l.

Lemma deref_some w l o : heap_at w l = Some o → deref l w = (Ok o, w).
Proof. unfold heap_at, deref. by intros ->. Qed.

Lemma assign_some w l f o : heap_at w l = Some o →
  assign l f w = (Ok tt, set_store (set_heap l (f o) (w_store w)) (w_gen w) w).
Proof. intros H. unfold assign, bind. by rewrite (deref_some _ _ _ H). Qed.

Lemma heap_at_set w l o c : heap_at (set_store (set_heap l o (w_store w)) c w) l = Some o.
Proof. apply lookup_insert_eq. Qed.

Lemma heap_at_set_ne w l o c l' : l ≠ l' →
  heap_at (set_store (set_heap l o (w_store w)) c w) l' = heap_at w l'.
Proof. apply lookup_insert_ne. Qed.
End lemmas.
