(* ===== verification/Queues.v ===== *)
(** The incoming and outgoing queues, [src/src/IncomingQueues.cpp],
    [src/src/OutgoingQueues.cpp] and the events of [src/src/QueuesDef.h]. *)

From Stdlib Require Import String ZArith Lia.
From S2P Require Import Prelude Types IdGen WideData OrderStore OrderBook LinkTree TxScope Engine.

(** enum OrderChangeStateEvent::StateChangeType -- src/src/QueuesDef.h:72-78 *)
Inductive StateChangeType := INVALID_CHANGE | SUSPEND | RESUME | FINISH.
#[global] Instance StateChangeType_dec : EqDecision StateChangeType. Proof. solve_decision. Defined.

(** enum TimerEvent::TimerType -- src/src/QueuesDef.h:125-131 *)
Inductive TimerType := INVALID_TIMER | EXPIRATION | DAY_END | DAY_START.
#[global] Instance TimerType_dec : EqDecision TimerType. Proof. solve_decision. Defined.

#[global] Instance ProcessEventType_dec : EqDecision ProcessEventType. Proof. solve_decision. Defined.
#[global] Instance ProcessEvent_dec : EqDecision ProcessEvent. Proof. solve_decision. Defined.

(** struct OrderEvent, OrderCancelEvent, OrderReplaceEvent, OrderChangeStateEvent, TimerEvent -- src/src/QueuesDef.h:35-86
    The alternatives of [EventVariant]; an order pointer may be null.
    [TimerEvent] is at lines 123-139. *)
Inductive InEvent :=
  | OrderEvent (order : option loc)
  | OrderCancelEvent (id : IdT) (cancelReason : StringT)
  | OrderReplaceEvent (id : IdT) (replacementOrder : option loc)
  | OrderChangeStateEvent (id : IdT) (changeType : StateChangeType)
  | ProcessEv (e : ProcessEvent)
  | TimerEvent (id : IdT) (timerType : TimerType).

Module IncomingQueues.

(** struct IncomingQueues::QueuedEvent -- src/src/IncomingQueues.h:62-74 *)
Record QueuedEvent := mkQE { source : string; event : InEvent }.

(** class IncomingQueues -- src/src/IncomingQueues.h:29-85
    [eventQueue] is the sequence the concurrent queue hands out; [observed]
    tells whether an observer is attached and [notified] counts the calls of
    its [onNewEvent]; [deleted] lists the orders the queue has freed. *)
Record t := mkQ {
  processor : option nat; observed : bool; notified : nat;
  eventQueue : list QueuedEvent; queueSize : Z; pendingEvent : option QueuedEvent;
  deleted : list loc }.

(** IncomingQueues::IncomingQueues -- src/src/IncomingQueues.cpp:22-25 *)
Definition create : t := mkQ None false 0 [] 0 None [].

(** [eventQueue_.push(e)] *)
Definition enqueue (e : QueuedEvent) (s : t) : t :=
  mkQ (processor s) (observed s) (notified s) (eventQueue s ++ [e]) (queueSize s) (pendingEvent s) (deleted s).
(** [eventQueue_.try_pop(event)] *)
Definition try_pop (s : t) : option (QueuedEvent * t) :=
  match eventQueue s with
  | [] => None
  | e :: q => Some (e, mkQ (processor s) (observed s) (notified s) q (queueSize s) (pendingEvent s) (deleted s))
  end.
(** [queueSize_.fetch_add(1)], [queueSize_.fetch_sub(1)] on a [u32]. *)
Definition count (d : Z) (s : t) : t :=
  mkQ (processor s) (observed s) (notified s) (eventQueue s) (wrap32 (queueSize s + d)) (pendingEvent s) (deleted s).
Definition set_pending (p : option QueuedEvent) (s : t) : t :=
  mkQ (processor s) (observed s) (notified s) (eventQueue s) (queueSize s) p (deleted s).
Definition notify (s : t) : t :=
  if observed s
  then mkQ (processor s) (observed s) (S (notified s)) (eventQueue s) (queueSize s) (pendingEvent s) (deleted s)
  else s.
(** [std::unique_ptr<OrderEntry> ord(orderEvt->order_)] going out of scope. *)
Definition order_of (e : InEvent) : list loc :=
  match e with OrderEvent (Some l) => [l] | _ => [] end.
Definition dispose (e : QueuedEvent) (s : t) : t :=
  mkQ (processor s) (observed s) (notified s) (eventQueue s) (queueSize s) (pendingEvent s)
    (deleted s ++ order_of (event e)).

(** IncomingQueues::push, six overloads -- src/src/IncomingQueues.cpp:210-283 *)
Definition push (src : string) (e : InEvent) (s : t) : t :=
  notify (count 1 (enqueue (mkQE src e) s)).

(** IncomingQueues::attach(InQueuesObserver) -- src/src/IncomingQueues.cpp:45-55
    [obs] tells whether the new observer is not null. *)
Definition attach (obs : bool) (s : t) : bool * t :=
  let s' := mkQ (processor s) obs (notified s) (eventQueue s) (queueSize s) (pendingEvent s) (deleted s) in
  (observed s, if 0 <? queueSize s' then notify s' else s').

(** IncomingQueues::detach -- src/src/IncomingQueues.cpp:57-61 *)
Definition detach (s : t) : bool * t :=
  (observed s, mkQ (processor s) false (notified s) (eventQueue s) (queueSize s) (pendingEvent s) (deleted s)).

(** IncomingQueues::attach(InQueueProcessor), detachProcessor -- src/src/IncomingQueues.cpp:33-43 *)
Definition attachProcessor (obs : option nat) (s : t) : option nat * t :=
  (processor s, mkQ obs (observed s) (notified s) (eventQueue s) (queueSize s) (pendingEvent s) (deleted s)).

(** IncomingQueues::size -- src/src/IncomingQueues.cpp:63-66 *)
Definition size (s : t) : Z := queueSize s.

Section dispatch.
(** The processor the events go to: a callback over a state of its own. *)
Context {P : Type} (onEvent : string → InEvent → M P unit).

(** IncomingQueues::dispatchEvent -- src/src/IncomingQueues.cpp:176-208 *)
Definition dispatchEvent (e : QueuedEvent) : M (t * P) unit := λ sp,
  let r := onEvent (source e) (event e) sp.2 in (r.1, (sp.1, r.2)).

(** IncomingQueues::top -- src/src/IncomingQueues.cpp:68-99 *)
Definition top : M (t * P) bool := λ sp,
  match pendingEvent sp.1 with
  | Some e => (dispatchEvent e ;;; ret true) sp
  | None =>
      match try_pop sp.1 with
      | None => (Ok false, sp)
      | Some (e, s) => (dispatchEvent e ;;; ret true) (set_pending (Some e) s, sp.2)
      end
  end.

(** IncomingQueues::pop() -- src/src/IncomingQueues.cpp:101-134 *)
Definition pop (s : t) : bool * t :=
  match pendingEvent s with
  | Some e => (true, count (-1) (set_pending None (dispose e s)))
  | None =>
      match try_pop s with
      | None => (false, s)
      | Some (e, s) => (true, count (-1) (dispose e s))
      end
  end.

(** IncomingQueues::pop(InQueueProcessor) -- src/src/IncomingQueues.cpp:136-174
    The order of an [OrderEvent] is freed when the call ends, also by an
    exception of the processor. *)
Definition popTo : M (t * P) bool := λ sp,
  match (match pendingEvent sp.1 with
         | Some e => Some (e, set_pending None sp.1)
         | None => try_pop sp.1
         end) with
  | None => (Ok false, sp)
  | Some (e, s) =>
      let r := (dispatchEvent e ;;; ret true) (count (-1) s, sp.2) in
      (r.1, (dispose e r.2.1, r.2.2))
  end.
End dispatch.

(** IncomingQueues::clear, the loop -- src/src/IncomingQueues.cpp:302-310
    The draining loop of [clear]. *)
Definition drain (l : list QueuedEvent) (d : list loc) : list loc :=
  foldl (λ d e, d ++ order_of (event e)) d l.

(** IncomingQueues::clear -- src/src/IncomingQueues.cpp:285-315 *)
Definition clear (s : t) : t :=
  mkQ (processor s) (observed s) (notified s) [] 0 None
    (drain (eventQueue s) (drain (option_list (pendingEvent s)) (deleted s))).

(** ** The queue as a first-in-first-out sequence *)

Section theory.
Context {P : Type} (onEvent : string → InEvent → M P unit).

(** What waits in the queue: the event [top] has shown, then the rest. *)
Definition waiting (s : t) : list QueuedEvent := option_list (pendingEvent s) ++ eventQueue s.

(** The calls of the interface, and what a call gives back to its caller:
    nothing, the flag or the exception of [top] and of the two forms of [pop],
    whether an observer was attached before. *)
Inductive call := Push (src : string) (e : InEvent) | Top | Pop | PopTo | Attach (obs : bool) | Detach | Clear.
Inductive reply := Void | Answer (r : outcome bool) | Previous (obs : bool).

Definition exec (c : call) (sp : t * P) : reply * (t * P) :=
  match c with
  | Push src e => (Void, (push src e sp.1, sp.2))
  | Top => let r := top onEvent sp in (Answer r.1, r.2)
  | Pop => let r := pop sp.1 in (Answer (Ok r.1), (r.2, sp.2))
  | PopTo => let r := popTo onEvent sp in (Answer r.1, r.2)
  | Attach b => let r := attach b sp.1 in (Previous r.1, (r.2, sp.2))
  | Detach => let r := detach sp.1 in (Previous r.1, (r.2, sp.2))
  | Clear => (Void, (clear sp.1, sp.2))
  end.

(** The replies to a sequence of calls, with the last state. *)
Fixpoint replies {S} (f : call → S → reply * S) (cs : list call) (x : S) : list reply * S :=
  match cs with
  | [] => ([], x)
  | c :: cs => let r := f c x in let rs := replies f cs r.2 in (r.1 :: rs.1, rs.2)
  end.

(** The specification: a list, the events taken out of it, what the processor
    was given, whether somebody observes and how often it was told. *)
Record spec := mkSpec { s_list : list QueuedEvent; s_gone : list QueuedEvent; s_proc : P; s_obs : bool; s_told : nat }.

Definition give (e : QueuedEvent) (p : P) : P := (onEvent (source e) (event e) p).2.
(** The flag, unless the processor threw. *)
Definition shown (e : QueuedEvent) (p : P) : outcome bool :=
  match (onEvent (source e) (event e) p).1 with Ok _ => Ok true | Throw m => Throw m | Crash w => Crash w end.

Definition spec_exec (c : call) (x : spec) : reply * spec :=
  match c with
  | Push src e => (Void, mkSpec (s_list x ++ [mkQE src e]) (s_gone x) (s_proc x) (s_obs x) (s_told x + if s_obs x then 1 else 0))
  | Top => match s_list x with
           | e :: _ => (Answer (shown e (s_proc x)), mkSpec (s_list x) (s_gone x) (give e (s_proc x)) (s_obs x) (s_told x))
           | [] => (Answer (Ok false), x)
           end
  | Pop => match s_list x with
           | e :: l => (Answer (Ok true), mkSpec l (s_gone x ++ [e]) (s_proc x) (s_obs x) (s_told x))
           | [] => (Answer (Ok false), x)
           end
  | PopTo => match s_list x with
             | e :: l => (Answer (shown e (s_proc x)), mkSpec l (s_gone x ++ [e]) (give e (s_proc x)) (s_obs x) (s_told x))
             | [] => (Answer (Ok false), x)
             end
  | Attach b => (Previous (s_obs x), mkSpec (s_list x) (s_gone x) (s_proc x) b
                   (s_told x + if b && (0 <? wrap32 (Z.of_nat (length (s_list x)))) then 1 else 0))
  | Detach => (Previous (s_obs x), mkSpec (s_list x) (s_gone x) (s_proc x) false (s_told x))
  | Clear => (Void, mkSpec [] (s_gone x ++ s_list x) (s_proc x) (s_obs x) (s_told x))
  end.

(** The orders that new-order events carry. *)
Definition new_orders (l : list QueuedEvent) : list loc :=
  omap (λ e, match event e with OrderEvent o => o | _ => None end) l.

Definition refines (sp : t * P) (x : spec) : Prop :=
  waiting sp.1 = s_list x ∧ sp.2 = s_proc x ∧ deleted sp.1 = new_orders (s_gone x) ∧
  size sp.1 = wrap32 (Z.of_nat (length (s_list x))) ∧ observed sp.1 = s_obs x ∧ notified sp.1 = s_told x.

Lemma order_of_event e : order_of (event e) = new_orders [e].
Proof. by destruct e as [? [[]| | | | |]]. Qed.

Lemma new_orders_snoc l e : new_orders (l ++ [e]) = new_orders l ++ order_of (event e).
Proof. rewrite order_of_event. apply omap_app. Qed.

Lemma drain_orders l d : drain l d = d ++ new_orders l.
Proof.
  revert d. induction l as [|e l IH]; intros d; simpl; [by rewrite app_nil_r|].
  rewrite IH, order_of_event, <- (assoc_L (++)). f_equal. by destruct e as [? [[]| | | | |]].
Qed.

Lemma wrap32_succ z : wrap32 (wrap32 (Z.of_nat z) + 1) = wrap32 (Z.of_nat (z + 1)).
Proof. rewrite wrap32_add_l. f_equal. lia. Qed.

Lemma wrap32_pred z : wrap32 (wrap32 (Z.of_nat (S z)) + -1) = wrap32 (Z.of_nat z).
Proof. rewrite wrap32_add_l. f_equal. lia. Qed.

Lemma notify_same s : waiting (notify s) = waiting s ∧ deleted (notify s) = deleted s ∧
  size (notify s) = size s ∧ observed (notify s) = observed s ∧
  notified (notify s) = (notified s + if observed s then 1 else 0)%nat.
Proof. unfold notify, waiting, size. destruct (observed s) eqn:E; rewrite ?E; simpl; repeat split; lia. Qed.

(** The first waiting event, and the queue without it. *)
Definition take_first (s : t) : option (QueuedEvent * t) :=
  match pendingEvent s with
  | Some e => Some (e, set_pending None s)
  | None => try_pop s
  end.

Lemma take_first_spec s : match take_first s with
  | None => waiting s = []
  | Some (e, s') => waiting s = e :: waiting s' ∧ deleted s' = deleted s ∧ size s' = size s ∧
                     observed s' = observed s ∧ notified s' = notified s
  end.
Proof.
  unfold take_first, try_pop, waiting, size. destruct (pendingEvent s); simpl; [done|].
  by destruct (eventQueue s).
Qed.

Lemma pop_take_first s : pop s = match take_first s with
  | None => (false, s)
  | Some (e, s') => (true, count (-1) (dispose e s'))
  end.
Proof.
  unfold pop, take_first. destruct (pendingEvent s); [done|]. by destruct (try_pop s) as [[]|].
Qed.

Lemma dispatch_state e (sp : t * P) :
  (dispatchEvent onEvent e ;;; ret true) sp = (shown e sp.2, (sp.1, give e sp.2)).
Proof. unfold dispatchEvent, bind, give, shown, ret. by destruct (onEvent _ _ _) as [[] ?]. Qed.

(** The call [c] on related states gives the specified reply, and related
    states again. *)
Definition simulated (c : call) : Prop := ∀ sp x, refines sp x →
  (exec c sp).1 = (spec_exec c x).1 ∧ refines (exec c sp).2 (spec_exec c x).2.

Lemma push_simulated src e : simulated (Push src e).
Proof.
  intros [s p] [l gone q ob n] (Hw & Hp & Hd & Hs & Ho & Hn); simpl in *. subst. split; [done|].
  destruct (notify_same (count 1 (enqueue (mkQE src e) s))) as (E1 & E2 & E3 & E4 & E5).
  unfold refines, push; cbn [fst snd s_list s_gone s_proc s_obs s_told]. rewrite E1, E2, E3, E4, E5, length_app.
  unfold waiting, size in *; simpl. rewrite Hs, wrap32_succ. by rewrite (assoc_L (++)).
Qed.

Lemma top_simulated : simulated Top.
Proof.
  intros [s p] [l gone q ob n] (Hw & Hp & Hd & Hs & Ho & Hn); simpl in *. subst.
  unfold top, refines, waiting, size in *; cbn [fst snd].
  destruct (pendingEvent s) as [e|] eqn:Ep; simpl in *.
  { rewrite dispatch_state. simpl. by rewrite Ep. }
  unfold try_pop. destruct (eventQueue s) as [|e qs] eqn:Eq; simpl in *; [by rewrite Ep, Eq|].
  by rewrite dispatch_state.
Qed.

Lemma pop_simulated : simulated Pop.
Proof.
  intros [s p] [l gone q ob n] (Hw & Hp & Hd & Hs & Ho & Hn); simpl in *. subst.
  pose proof (take_first_spec s) as Ht. rewrite pop_take_first.
  destruct (take_first s) as [[e s']|]; [|by rewrite Ht; simpl; rewrite Ht in Hs].
  destruct Ht as (Ht & Ed & Es & Eo & En). rewrite Ht in *. simpl. split; [done|].
  unfold refines, waiting, size in *; simpl in *.
  by rewrite Ed, Es, Eo, En, Hd, new_orders_snoc, Hs, wrap32_pred.
Qed.

Lemma popTo_simulated : simulated PopTo.
Proof.
  intros [s p] [l gone q ob n] (Hw & Hp & Hd & Hs & Ho & Hn); simpl in *. subst.
  pose proof (take_first_spec s) as Ht. unfold popTo; cbn [fst snd].
  change (match pendingEvent s with Some e => Some (e, set_pending None s) | None => try_pop s end) with (take_first s).
  destruct (take_first s) as [[e s']|]; [|by rewrite Ht; simpl; rewrite Ht in Hs].
  destruct Ht as (Ht & Ed & Es & Eo & En). rewrite Ht in *. rewrite dispatch_state. simpl. split; [done|].
  unfold refines, waiting, size in *; simpl in *.
  by rewrite Ed, Es, Eo, En, Hd, new_orders_snoc, Hs, wrap32_pred.
Qed.

Lemma attach_simulated b : simulated (Attach b).
Proof.
  intros [s p] [l gone q ob n] (Hw & Hp & Hd & Hs & Ho & Hn); simpl in *. subst. split; [done|].
  unfold attach, refines; cbn [fst snd s_list s_gone s_proc s_obs s_told]. simpl queueSize. unfold size in *. rewrite <- Hs.
  destruct (0 <? queueSize s).
  - match goal with |- context [notify ?y] => destruct (notify_same y) as (E1 & E2 & E3 & E4 & E5) end.
    unfold size in *. rewrite E1, E2, E3, E4, E5. simpl. by rewrite andb_true_r.
  - rewrite andb_false_r, Nat.add_0_r. done.
Qed.

Lemma clear_simulated : simulated Clear.
Proof.
  intros [s p] [l gone q ob n] (Hw & Hp & Hd & Hs & Ho & Hn); simpl in *. subst. split; [done|].
  unfold refines, clear, waiting, size; simpl. rewrite !drain_orders, Hd.
  unfold new_orders. rewrite !omap_app. by rewrite (assoc_L (++)).
Qed.

Lemma exec_simulated c : simulated c.
Proof.
  destruct c; [apply push_simulated|apply top_simulated|apply pop_simulated|apply popTo_simulated|
    apply attach_simulated| |apply clear_simulated].
  intros [s p] [l gone q ob n] (Hw & Hp & Hd & Hs & Ho & Hn); simpl in *. by subst.
Qed.

Lemma replies_simulated cs sp x : refines sp x →
  (replies exec cs sp).1 = (replies spec_exec cs x).1 ∧ refines (replies exec cs sp).2 (replies spec_exec cs x).2.
Proof.
  revert sp x. induction cs as [|c cs IH]; intros sp x H; simpl; [done|].
  destruct (exec_simulated c sp x H) as [E H']. destruct (IH _ _ H') as [E' ?]. by rewrite E, E'.
Qed.

Lemma create_refines p : refines (create, p) (mkSpec [] [] p false 0).
Proof. done. Qed.

(** C28: whatever calls are made, the incoming queue is a first-in-first-out
    list, and every call answers as that list says: [push] appends; [top] shows
    the first event to the processor without taking it, and shows the same one
    again; both forms of [pop] take the first, whether or not [top] has shown
    it and whether or not the processor throws; the flag is false on the empty
    list and otherwise true, or the processor's exception; [size] is the length
    on 32 bits.  An observer is told of every event pushed while it is attached,
    and at its attaching when the size is not 0.  The orders deleted are those
    carried by the new-order events that have left the list, one deletion for
    each, in that order.  A replacement order is not among what the queue
    deletes (see [replacement_never_deleted]). *)
Theorem queue_refines_fifo cs p :
  let code := replies exec cs (create, p) in
  let list := replies spec_exec cs (mkSpec [] [] p false 0) in
  code.1 = list.1 ∧ refines code.2 list.2.
Proof. apply replies_simulated, create_refines. Qed.

(** What waits and what is gone was pushed. *)
Lemma spec_exec_pushed c x e : e ∈ s_list (spec_exec c x).2 ++ s_gone (spec_exec c x).2 →
  e ∈ s_list x ++ s_gone x ∨ c = Push (source e) (event e).
Proof.
  destruct x as [l gone q ob n], c as [src ev| | | |b| |]; simpl; rewrite ?elem_of_app; [|destruct l; set_solver..].
  rewrite list_elem_of_singleton. intros [[H| ->]|H]; [by left; left|by right|by left; right].
Qed.

Lemma spec_gone_pushed e cs x : e ∈ s_list (replies spec_exec cs x).2 ++ s_gone (replies spec_exec cs x).2 →
  e ∈ s_list x ++ s_gone x ∨ Push (source e) (event e) ∈ cs.
Proof.
  revert x. induction cs as [|c cs IH]; intros x H; simpl in *; [by left|].
  destruct (IH _ H) as [[?| ->]%spec_exec_pushed|?]; [by left|right; left|right; right]; done.
Qed.

(** The replacement order of an [OrderReplaceEvent], which the session allocates
    for the event (src/app/WsSession.cpp:184), is never deleted by the queue,
    neither by [pop] nor by [clear], unless a new-order event carries it too. *)
Theorem replacement_never_deleted cs p l :
  (∀ src, Push src (OrderEvent (Some l)) ∉ cs) → l ∉ deleted (replies exec cs (create, p)).2.1.
Proof.
  intros Hn Hl. destruct (replies_simulated cs _ _ (create_refines p)) as (_ & _ & _ & Hd & _).
  rewrite Hd in Hl. unfold new_orders in Hl. apply list_elem_of_omap in Hl as (e & He & Eo).
  destruct (spec_gone_pushed e cs (mkSpec [] [] p false 0)) as [H|H]; [set_solver|set_solver|].
  destruct e as [src []]; simpl in *; try done. subst. by apply (Hn src).
Qed.
End theory.

(** A processor that counts the events it is given and throws at a cancel. *)
Definition ex_processor (src : string) (e : InEvent) : M nat unit := λ n,
  match e with OrderCancelEvent _ _ => (Throw "no such order", S n) | _ => (Ok tt, S n) end.

(** [top], then both pops: the cancel throws and is gone all the same, the order 4
    is deleted once and the replacement order 5 never. *)
Example ex_calls :
  let cs := [Attach true; Push "a" (OrderEvent (Some 4%nat)); Push "a" (OrderReplaceEvent (mkIdT 1 1) (Some 5%nat));
             Push "a" (OrderCancelEvent (mkIdT 1 1) "x"); Top; PopTo; Pop; PopTo; PopTo; Clear; Detach] in
  let r := replies (exec ex_processor) cs (create, 0%nat) in
  r.1 = [Previous false; Void; Void; Void; Answer (Ok true); Answer (Ok true); Answer (Ok true);
         Answer (Throw "no such order"); Answer (Ok false); Void; Previous true] ∧
  deleted r.2.1 = [4%nat] ∧ r.2.2 = 3%nat ∧ notified r.2.1 = 3%nat.
Proof. by vm_compute. Qed.

(** ** Concurrent producers and consumers

    The operations the program runs concurrently are [push] and [popTo]: [push]
    enqueues, then counts; [popTo] dequeues, counts and then dispatches.  A
    configuration holds the queue, how many pushes have enqueued and not counted
    yet, the events dequeued and not counted yet, and the events dispatched. *)

Record conf := mkConf { c_queue : t; c_adding : nat; c_popped : list QueuedEvent; c_given : list QueuedEvent }.

Inductive qstep : conf → conf → Prop :=
  | q_enqueue e s a p g : qstep (mkConf s a p g) (mkConf (enqueue e s) (S a) p g)
  | q_count_up s a p g : qstep (mkConf s (S a) p g) (mkConf (notify (count 1 s)) a p g)
  | q_dequeue e s s' a p g : try_pop s = Some (e, s') →
      qstep (mkConf s a p g) (mkConf s' a (p ++ [e]) g)
  | q_count_down e s a p1 p2 g :
      qstep (mkConf s a (p1 ++ e :: p2) g) (mkConf (count (-1) s) a (p1 ++ p2) (g ++ [e])).

(** The counter against the events it should count. *)
Definition counted (c : conf) : Prop :=
  queueSize (c_queue c) =
    wrap32 (Z.of_nat (length (eventQueue (c_queue c)) + length (c_popped c)) - Z.of_nat (c_adding c)).

Lemma qstep_counted c c' : qstep c c' → counted c → counted c'.
Proof.
  unfold counted. intros [e s a p g|s a p g|e s s' a p g Ht|e s a p1 p2 g] H; simpl in *.
  - rewrite H, length_app. simpl. f_equal. lia.
  - unfold notify. destruct (observed _); simpl; rewrite H, wrap32_add_l; f_equal; lia.
  - unfold try_pop in Ht. destruct (eventQueue s) eqn:E; [done|]. injection Ht as <- <-. simpl in *.
    rewrite H, length_app. simpl. f_equal. lia.
  - rewrite H, wrap32_add_l, !length_app. simpl. f_equal. lia.
Qed.

(** With any number of threads pushing and popping, the counter is the
    number of waiting events plus the pops that have not been counted yet minus
    the pushes that have not, on 32 bits.  So [size] is exact when no call is in
    progress; a pop that overtakes the counting of its push makes it wrap
    around to 4294967295 until the push counts. *)
Theorem size_lags c : rtc qstep (mkConf create 0 [] []) c →
  counted c ∧
  (c_adding c = 0%nat → c_popped c = [] →
     size (c_queue c) = wrap32 (Z.of_nat (length (eventQueue (c_queue c))))) ∧
  (eventQueue (c_queue c) = [] → c_popped c = [] → c_adding c = 1%nat → size (c_queue c) = 2 ^ 32 - 1).
Proof.
  intros Hr. assert (counted c) as Hc.
  { assert (counted (mkConf create 0 [] [])) as H0 by done. revert H0.
    induction Hr as [|x y z Hs _ IH]; [done|]. intros Hx. by eapply IH, qstep_counted. }
  split; [done|]. unfold counted, size in *. split.
  - intros Ha Hp. rewrite Hc, Ha, Hp. simpl. f_equal. lia.
  - intros He Hp Ha. rewrite Hc, He, Ha, Hp. by vm_compute.
Qed.

(** ** Witness: a push whose event is popped before it is counted. *)
Definition ex_event : QueuedEvent := mkQE "ws" (OrderCancelEvent (mkIdT 7 1) "user").
Definition ex_conf : conf := mkConf (count (-1) create) 1 [] [ex_event].

Lemma ex_conf_steps : rtc qstep (mkConf create 0 [] []) ex_conf.
Proof.
  eapply rtc_l; [apply (q_enqueue ex_event)|].
  eapply rtc_l; [by apply (q_dequeue ex_event _ create)|].
  eapply rtc_l; [apply (q_count_down ex_event _ _ [] [])|]. apply rtc_refl.
Qed.

Lemma size_lags_witness : size (c_queue ex_conf) = 4294967295 ∧ counted ex_conf.
Proof.
  destruct (size_lags ex_conf ex_conf_steps) as (H1 & _ & H3). split; [|exact H1].
  rewrite H3; reflexivity.
Defined.
End IncomingQueues.

Module OutgoingQueues.

(** class OutgoingQueues -- src/src/OutgoingQueues.h:27-59
    The queue of events with their targets. *)
Definition t : Type := list OutEvent.

(** OutgoingQueues::push, three overloads -- src/src/OutgoingQueues.cpp:41-87 *)
Definition push (e : OutEvent) (q : t) : t := q ++ [e].

(** OutgoingQueues::clear -- src/src/OutgoingQueues.cpp:30-39 *)
Definition clear (q : t) : t := [].
End OutgoingQueues.
