(* ===== verification/Tasks.v ===== *)
(** The task manager, [src/src/TaskManager.cpp]: its pools of processors and the
    tasks that run ready transactions and incoming events, as a transition system
    whose steps are the critical sections of the code. *)

From Stdlib Require Import String ZArith Lia Permutation.
From S2P Require Import Prelude Types IdGen LinkTree TxScope TxMgr.

Module TaskManager.

(** ** Processor pools *)

(** TaskManager, the pools of processors -- src/src/TaskManager.h:140-148
    A vector of processors with the index of the last available one:
    [transactProcessors_] and [lastAvailableTransactProcessor_], or the two of events. *)
Record Pool := mkPool { slots : list (option nat); lastAvailable : Z }.

(** TaskManager::TaskManager -- src/src/TaskManager.cpp:34-68
    A pool of [n] processors. *)
Definition pool_create (n : nat) : Pool := mkPool (Some <$> seq 0 n) (Z.of_nat n - 1).

(** TaskManager::onNewEvent, taking a processor -- src/src/TaskManager.cpp:242-245
    [proc = processors_[lastIdx]; processors_[lastIdx] = nullptr;] and the decrement. *)
Definition take_last : M Pool nat := λ p,
  match slots p !! Z.to_nat (lastAvailable p) with
  | Some (Some x) => (Ok x, mkPool (<[Z.to_nat (lastAvailable p) := None]> (slots p)) (lastAvailable p - 1))
  | Some None => (Crash "assert", p)
  | None => (Crash "out of range", p)
  end.

(** TaskManager::finishEvent -- src/src/TaskManager.cpp:279-285 *)
Definition give_back (x : nat) : M Pool unit := λ p,
  let v := lastAvailable p + 1 in
  if (0 <=? v) && (v <? Z.of_nat (length (slots p))) then (Ok tt, mkPool (<[Z.to_nat v := Some x]> (slots p)) v)
  else (Crash "out of range", p).

(** ** Transactions *)

(** Where a thread stands: before a call of [onReadyToExecute]; in a task, before
    [process], before the processor is given back, before [removeTransaction]. *)
Inductive Act := Call | Run (k : IdT) (proc : nat) | Fin (k : IdT) (proc : nat) | Rem (k : IdT).

Section transactions.
Context {T : Type} `{Transaction T}.
Abbreviation Core := (TransactionMgr.t T * Pool)%type.

Definition on_pool {A} (c : M Pool A) : M Core A := λ s, let r := c s.2 in (r.1, (s.1, r.2)).
Definition on_mgr {A} (c : M (TransactionMgr.t T) A) : M Core A := λ s, let r := c s.1 in (r.1, (r.2, s.2)).

(** TaskManager::onReadyToExecute -- src/src/TaskManager.cpp:166-215
    The part under [transactLock_]; the task it starts, if any. *)
Definition onReadyToExecute : M Core (list Act) :=
  p <- gets snd ;;
  if lastAvailable p <? 0 then ret []
  else
    r <- on_mgr TransactionMgr.next ;;
    match r with
    | None => ret []
    | Some (k, _) => proc <- on_pool take_last ;; ret [Run k proc]
    end.

(** The observer's call by the manager, if it made one. *)
Definition calls (before after : TransactionMgr.t T) : list Act :=
  replicate (TransactionMgr.notified after - TransactionMgr.notified before) Call.

(** TaskManager::finishTransaction -- src/src/TaskManager.cpp:217-230
    Its second half, and the call of [onReadyToExecute] that follows it in the task. *)
Definition finish (k : IdT) : M Core (list Act) := λ s,
  match on_mgr (TransactionMgr.removeTransaction k) s with
  | (Ok _, s') => (Ok (calls s.1 s'.1 ++ [Call]), s')
  | (Throw m, s') => (Throw m, s')
  | (Crash w, s') => (Crash w, s')
  end.

(** the task of onReadyToExecute -- src/src/TaskManager.cpp:206-213
    The next critical section of a thread, and where it leaves off.  [returns] is the
    outcome of [proc->process(id, tr)]: an exception leaves the lambda, and what follows
    the call, the give-back and the removal included, is not executed.  A task that the
    task group drops after the exception of another one has the same effect. *)
Definition perform (returns : bool) (a : Act) : M Core (list Act) :=
  match a with
  | Call => onReadyToExecute
  | Run k proc => ret (if returns then [Fin k proc] else [])
  | Fin k proc => on_pool (give_back proc) ;;; ret [Rem k]
  | Rem k => finish k
  end.

(** The transaction and the processor that a task takes with it when [process] throws. *)
Definition lose (returns : bool) (a : Act) : list (IdT * nat) :=
  match a with Run k proc => if returns then [] else [(k, proc)] | _ => [] end.

(** [lost] records what the tasks that ended with an exception held. *)
Record Sys := mkSys { mgr : TransactionMgr.t T; pool : Pool; acts : list Act; lost : list (IdT * nat) }.

(** A step of one thread. *)
Inductive wstep : Sys → Sys → Prop :=
  | w_act s a1 a a2 returns new m' p' : acts s = a1 ++ a :: a2 → perform returns a (mgr s, pool s) = (Ok new, (m', p')) →
      wstep s (mkSys m' p' (a1 ++ new ++ a2) (lose returns a ++ lost s)).

(** Steps of the threads, and transactions submitted by the processors. *)
Inductive step : Sys → Sys → Prop :=
  | s_work s s' : wstep s s' → step s s'
  | s_submit s tr now objs m' : TransactionMgr.may_draw (mgr s) → TransactionMgr.clock_ok now →
      isValidId (transactionId tr) = false → getRelatedObjects tr = Ok objs →
      TransactionMgr.addTransaction tr now (mgr s) = (Ok tt, m') →
      step s (mkSys m' (pool s) (acts s ++ calls (mgr s) m') (lost s)).

(** The manager started and observed, with [n] processors. *)
Definition start (n : nat) : Sys :=
  mkSys (TransactionMgr.attach (TransactionMgr.init IdTGenerator.init TransactionMgr.create).2).2 (pool_create n) [] [].

Definition reachable (n : nat) (s : Sys) : Prop := rtc step (start n) s.
End transactions.

(** ** The pool's invariant *)

Definition pool_ok (p : Pool) (avail : list nat) : Prop :=
  ∃ k, slots p = (Some <$> avail) ++ replicate k None ∧ lastAvailable p = Z.of_nat (length avail) - 1.

Lemma pool_create_ok n : pool_ok (pool_create n) (seq 0 n).
Proof. exists O. unfold pool_create. cbn [slots lastAvailable replicate]. by rewrite app_nil_r, length_seq. Qed.

Lemma take_last_ok p avail x : pool_ok p (avail ++ [x]) → ∃ p', take_last p = (Ok x, p') ∧ pool_ok p' avail.
Proof.
  intros (k & Hs & Hl). rewrite length_app in Hl. cbn [length] in Hl. unfold take_last.
  assert (Z.to_nat (lastAvailable p) = length (Some <$> avail)) as -> by (rewrite length_fmap; lia).
  rewrite Hs, fmap_app, <- app_assoc. cbn [fmap list_fmap app]. rewrite lookup_app_r, Nat.sub_diag by lia. cbn [lookup list_lookup].
  eexists. split; [done|]. exists (S k). cbn [slots lastAvailable]. split; [|lia].
  rewrite insert_app_r_alt, Nat.sub_diag by lia. done.
Qed.

Lemma give_back_ok p avail x : pool_ok p avail → (length avail < length (slots p))%nat →
  ∃ p', give_back x p = (Ok tt, p') ∧ pool_ok p' (avail ++ [x]) ∧ length (slots p') = length (slots p).
Proof.
  intros (k & Hs & Hl) Hlt. unfold give_back. replace (lastAvailable p + 1) with (Z.of_nat (length avail)) by lia.
  rewrite (proj2 (Z.leb_le _ _)), (proj2 (Z.ltb_lt _ _)) by lia. cbn [andb]. eexists. split; [done|].
  cbn [slots lastAvailable]. rewrite length_insert. split; [|done]. rewrite Nat2Z.id.
  destruct k as [|k]; [rewrite Hs, app_nil_r, length_fmap in Hlt; lia|]. exists k. split.
  - cbn [slots]. rewrite Hs, insert_app_r_alt by (rewrite length_fmap; lia). rewrite length_fmap, Nat.sub_diag. cbn [replicate insert list_insert].
    by rewrite fmap_app, <- app_assoc.
  - cbn [lastAvailable]. rewrite length_app. cbn [length]. lia.
Qed.

Lemma take_last_length p x p' : take_last p = (Ok x, p') → length (slots p') = length (slots p).
Proof. unfold take_last. destruct (slots p !! _) as [[y|]|]; intros [=]; subst. cbn [slots]. apply length_insert. Qed.

(** ** The iterator over the ready list *)

(** The ready list split at the iterator: [p] was handed out, [w] waits. *)
Definition splits {T} (tr : NLinkTree.t T) (p w : list IdT) : Prop :=
  NLinkTree.root tr = p ++ w ∧ NLinkTree.current tr = last p.

Lemma IdT_eqb_refl k : IdT_eqb k k = true.
Proof. by apply IdT_eqb_spec. Qed.

Lemma after_in_split p c w : NoDup (p ++ c :: w) → NLinkTree.after_in c (p ++ c :: w) = head w.
Proof.
  induction p as [|x p IH]; cbn [app NLinkTree.after_in]; intros Hn.
  - by rewrite IdT_eqb_refl.
  - apply NoDup_cons in Hn as [Hx Hn]. destruct (IdT_eqb c x) eqn:E; [|by apply IH].
    apply IdT_eqb_spec in E as ->. destruct Hx. set_solver.
Qed.

Lemma pred_in_split p y c w : NoDup (p ++ y :: c :: w) → NLinkTree.pred_in c (p ++ y :: c :: w) = Some y.
Proof.
  induction p as [|x p IH]; intros Hn.
  - cbn. by rewrite IdT_eqb_refl.
  - cbn [app] in *. apply NoDup_cons in Hn as [Hx Hn].
    assert (∃ z l, p ++ y :: c :: w = z :: l ∧ z ≠ c) as (z & l & E & Hz).
    { destruct p as [|z p]; cbn [app] in *.
      - exists y, (c :: w). split; [done|]. intros ->. apply NoDup_cons in Hn as [Hy _]. set_solver.
      - exists z, (p ++ y :: c :: w). split; [done|]. intros ->. apply NoDup_cons in Hn as [Hy _]. set_solver. }
    rewrite E. change (NLinkTree.pred_in c (x :: z :: l)) with (if IdT_eqb z c then Some x else NLinkTree.pred_in c (z :: l)).
    rewrite (proj2 (NLinkTree.IdT_eqb_false z c) Hz). rewrite <- E. by apply IH.
Qed.

Lemma root_erase_split p k w : NoDup (p ++ k :: w) → NLinkTree.root_erase k (p ++ k :: w) = p ++ w.
Proof.
  intros Hn. unfold NLinkTree.root_erase. induction p as [|x p IH]; cbn [app rm1].
  - by rewrite IdT_eqb_refl.
  - cbn [app] in Hn. apply NoDup_cons in Hn as [Hx Hn]. rewrite (proj2 (NLinkTree.IdT_eqb_false x k)) by (intros ->; set_solver).
    specialize (IH Hn). destruct (rm1 _ _) as [l|] eqn:E; cbn [option_map from_option id] in *; [by rewrite IH|].
    apply (proj1 (rm1_None _ _)) in E. rewrite Forall_forall in E.
    assert (k ∈ p ++ k :: w) as Hin by set_solver. specialize (E k Hin). by rewrite IdT_eqb_refl in E.
Qed.

Section cursor.
Context {T : Type}.
Implicit Types (tr : NLinkTree.t T).

(** [next] hands out the first waiting key, or nothing if none waits. *)
Lemma next_splits tr p w : NLinkTree.Inv tr → splits tr p w →
  match w with
  | [] => NLinkTree.next tr = (Ok None, tr)
  | k :: w' => ∃ v tr', NLinkTree.next tr = (Ok (Some (k, v)), tr') ∧ NLinkTree.Inv tr' ∧ splits tr' (p ++ [k]) w' ∧
      NLinkTree.keys tr' = NLinkTree.keys tr
  end.
Proof.
  intros Hi (Hr & Hc). pose proof (NLinkTree.inv_root_nodup _ Hi) as Hnd. rewrite Hr in Hnd.
  destruct (NLinkTree.next_ok tr Hi) as (r & tr' & E & Hi' & Hr' & Hk' & Hres).
  assert (match NLinkTree.current tr with None => head (NLinkTree.root tr) | Some c => NLinkTree.after_in c (NLinkTree.root tr) end = head w) as Hh.
  { rewrite Hc, Hr. destruct p as [|x p _] using rev_ind; [done|]. rewrite last_snoc, <- app_assoc in *. by apply after_in_split. }
  destruct r as [[k v]|].
  - destruct Hres as (_ & _ & Hcur & Hk). destruct w as [|k' w'].
    { destruct (NLinkTree.current tr); rewrite Hh in Hk; done. }
    assert (k = k') as -> by (destruct (NLinkTree.current tr); rewrite Hh in Hk; by injection Hk).
    exists v, tr'. split; [done|]. split; [done|]. split; [|done]. split; [by rewrite Hr', Hr, <- app_assoc|by rewrite Hcur, last_snoc].
  - destruct Hres as (-> & Hl). destruct w as [|k' w']; [done|]. exfalso.
    destruct (NLinkTree.current tr) as [c|] eqn:Ec; [|by rewrite Hl in Hh].
    rewrite Hr in Hl. destruct p as [|x p _] using rev_ind; [done|]. rewrite last_snoc in Hc. injection Hc as ->.
    rewrite last_app in Hl. destruct (last (k' :: w')) as [z|] eqn:El; [|by apply last_None in El].
    injection Hl as ->. apply last_Some_elem_of in El. rewrite <- app_assoc in Hnd. apply NoDup_app in Hnd as (_ & _ & Hnd).
    cbn [app] in Hnd. apply NoDup_cons in Hnd as [Hx _]. done.
Qed.

(** Removing a key that was handed out keeps what waits, in front of what becomes ready. *)
Lemma remove_splits tr p1 k p2 w : NLinkTree.Inv tr → splits tr (p1 ++ k :: p2) w →
  ∃ tr' new, NLinkTree.remove k tr = (Ok (true, Z.of_nat (length new)), tr') ∧ NLinkTree.Inv tr' ∧ splits tr' (p1 ++ p2) (w ++ new) ∧
    (∀ j, NLinkTree.live tr' j ↔ NLinkTree.live tr j ∧ j ≠ k).
Proof.
  intros Hi (Hr & Hc). pose proof (NLinkTree.inv_root_nodup _ Hi) as Hnd.
  assert (k ∈ NLinkTree.root tr) as Hin by (rewrite Hr; set_solver).
  pose proof Hin as (nd & End & Hp)%(NLinkTree.inv_root _ Hi).
  destruct (NLinkTree.remove_ok tr k nd Hi End) as (tr' & new & E & Hi' & Hl & _ & Hr' & _).
  exists tr', new. split; [done|]. split; [done|]. split; [|done]. rewrite Hr in Hnd. rewrite <- app_assoc in Hr, Hnd. cbn [app] in Hr, Hnd. split.
  - rewrite Hr', Hr, root_erase_split by done. by rewrite <- !app_assoc.
  - pose proof (f_equal (λ x, NLinkTree.current x.2) E) as Ec. cbn [snd] in Ec. rewrite <- Ec. unfold NLinkTree.remove. rewrite End.
    rewrite (bool_decide_eq_true_2 (NLinkTree.parents nd = ∅)) by done.
    rewrite (bool_decide_eq_false_2 (NLinkTree.root tr = [])) by (by rewrite Hr; destruct p1). cbn [andb snd NLinkTree.current]. rewrite Hc.
    destruct p2 as [|y p2 _] using rev_ind.
    + rewrite last_snoc, app_nil_r, bool_decide_eq_true_2 by done. rewrite Hr. cbn [app].
      destruct p1 as [|y p1 _] using rev_ind; [cbn [app]; by rewrite IdT_eqb_refl|].
      rewrite last_snoc. rewrite <- app_assoc in Hnd |- *. cbn [app] in Hnd |- *. rewrite pred_in_split by done.
      destruct (p1 ++ y :: k :: w) as [|x l] eqn:El; [by destruct p1|].
      rewrite (proj2 (NLinkTree.IdT_eqb_false x k)); [done|]. intros ->.
      destruct p1 as [|z p1]; cbn [app] in El; injection El as -> El; rewrite ?El in Hnd; cbn [app] in Hnd; apply NoDup_cons in Hnd as [Hk _]; set_solver.
    + rewrite app_comm_cons, !app_assoc, !last_snoc. rewrite bool_decide_eq_false_2; [done|]. intros [= ->].
      rewrite <- app_assoc in Hnd. cbn [app] in Hnd. apply NoDup_app in Hnd as (_ & _ & Hnd). apply NoDup_cons in Hnd as [Hk _]. set_solver.
Qed.
End cursor.

(** ** The system's invariant *)

Definition act_key (a : Act) : option IdT := match a with Call => None | Run k _ | Fin k _ | Rem k => Some k end.
Definition act_proc (a : Act) : option nat := match a with Run _ p | Fin _ p => Some p | Call | Rem _ => None end.

(** The steps a thread has left, and those a transaction not yet started will need. *)
Definition act_weight (a : Act) : nat := match a with Call => 1 | Rem _ => 3 | Fin _ _ => 4 | Run _ _ => 5 end.

Section system.
Context {T : Type} `{Transaction T}.
Implicit Types (m : TransactionMgr.t T).

Abbreviation tree m := (TransactionMgr.transactionTree m).

Definition held (l : list Act) : list IdT := omap act_key l.
Definition busy (l : list Act) : list nat := omap act_proc l.

(** The keys handed out are those of the tasks under way and those lost with an
    exception; the processors are in the pool, with a task or lost; while a
    transaction waits something is under way, unless a task was lost. *)
Definition keys_ok m (l : list Act) (ls : list (IdT * nat)) : Prop := ∃ c p w, TransactionMgr.Inv m c ∧ TransactionMgr.observed m = true ∧
  splits (tree m) p w ∧ p ≡ₚ held l ++ ls.*1 ∧ (w ≠ [] → l ≠ [] ∨ ls ≠ []).

Definition procs_ok (n : nat) (p : Pool) (l : list Act) (ls : list (IdT * nat)) : Prop := ∃ avail, pool_ok p avail ∧
  length (slots p) = n ∧ avail ++ busy l ++ ls.*2 ≡ₚ seq 0 n.

Definition Inv (n : nat) (s : Sys (T := T)) : Prop := keys_ok (mgr s) (acts s) (lost s) ∧ procs_ok n (pool s) (acts s) (lost s).

Definition weight (s : Sys (T := T)) : Z :=
  Z.of_nat (sum_list_with act_weight (acts s)) +
  5 * (Z.of_nat (size (NLinkTree.keys (tree (mgr s)))) - Z.of_nat (length (held (acts s))) - Z.of_nat (length (lost s))).

(** A manager's [next] at the iterator. *)
Lemma mgr_next m c p w : TransactionMgr.Inv m c → splits (tree m) p w →
  match w with
  | [] => TransactionMgr.next m = (Ok None, m)
  | k :: w' => ∃ v m', TransactionMgr.next m = (Ok (Some (k, v)), m') ∧ TransactionMgr.Inv m' c ∧
      TransactionMgr.observed m' = TransactionMgr.observed m ∧ splits (tree m') (p ++ [k]) w' ∧
      NLinkTree.keys (tree m') = NLinkTree.keys (tree m)
  end.
Proof.
  intros Hi Hs. pose proof (next_splits (tree m) p w (TransactionMgr.inv_tree _ _ Hi) Hs) as Hn.
  unfold TransactionMgr.next, TransactionMgr.on_tree. destruct w as [|k w'].
  - rewrite Hn. by destruct m.
  - destruct Hn as (v & tr' & -> & Hi' & Hs' & Hk). eexists v, _. split; [done|]. split; [|done].
    apply (TransactionMgr.inv_ext m); try done. intros j. unfold NLinkTree.live. cbn [snd TransactionMgr.transactionTree]. by rewrite Hk.
Qed.

Lemma mgr_remove m c p1 k p2 w : TransactionMgr.Inv m c → TransactionMgr.observed m = true → splits (tree m) (p1 ++ k :: p2) w →
  ∃ m' new, TransactionMgr.removeTransaction k m = (Ok true, m') ∧ TransactionMgr.Inv m' c ∧ TransactionMgr.observed m' = true ∧
    splits (tree m') (p1 ++ p2) (w ++ new) ∧
    TransactionMgr.notified m' = (if bool_decide (new = []) then TransactionMgr.notified m else S (TransactionMgr.notified m)) ∧
    (∀ j, NLinkTree.live (tree m') j ↔ NLinkTree.live (tree m) j ∧ j ≠ k) ∧ NLinkTree.live (tree m) k.
Proof.
  intros Hi Ho Hs. pose proof (TransactionMgr.inv_tree _ _ Hi) as Ht.
  assert (NLinkTree.live (tree m) k) as Hk.
  { destruct Hs as (Hr & _). assert (k ∈ NLinkTree.root (tree m)) as Hin by (rewrite Hr; set_solver).
    apply (NLinkTree.inv_root _ Ht) in Hin as (nd & ? & _). by eexists. }
  destruct (TransactionMgr.removeTransaction_ok m c k Hi Hk) as (m' & new & E & Hi' & Hl & _ & Ho' & Hr & _ & Hn).
  destruct (remove_splits (tree m) p1 k p2 w Ht Hs) as (tr' & new' & E' & _ & Hs' & _).
  assert (tree m' = tr') as Et.
  { pose proof (f_equal (λ x, tree x.2) E) as Em. cbn [snd] in Em. rewrite <- Em.
    unfold TransactionMgr.removeTransaction, bind, gets, assert_. rewrite (TransactionMgr.inv_started _ _ Hi), (NLinkTree.inv_valid _ Ht k Hk).
    unfold ret, TransactionMgr.on_tree. rewrite E'. cbn [fst snd].
    match goal with |- context [TransactionMgr.notify ?r ?x] => destruct (TransactionMgr.notify_spec r x) as (m2 & -> & _ & _ & E3 & _) end.
    done. }
  exists m', new. assert (new' = new) as ->.
  { destruct Hs as (Hr0 & _), Hs' as (Hr1 & _). rewrite Et in Hr. rewrite Hr1, Hr0 in Hr. rewrite <- !app_assoc in Hr. cbn [app] in Hr.
    rewrite root_erase_split in Hr by (pose proof (NLinkTree.inv_root_nodup _ Ht) as Hnd; rewrite Hr0, <- app_assoc in Hnd; exact Hnd).
    rewrite <- !app_assoc in Hr. by do 3 apply app_inv_head in Hr. }
  rewrite Et, Ho in *. split_and!; try done. rewrite Hn. cbn [andb]. by case_bool_decide.
Qed.

Lemma size_remove {A} (m m' : gmap IdT A) k : (∀ j, is_Some (m' !! j) ↔ is_Some (m !! j) ∧ j ≠ k) → is_Some (m !! k) →
  Z.of_nat (size m') = Z.of_nat (size m) - 1.
Proof.
  intros Hj Hk. assert (dom m = {[k]} ∪ dom m') as E.
  { apply set_eq. intros j. rewrite elem_of_union, elem_of_singleton, !elem_of_dom, Hj.
    destruct (decide (j = k)) as [->|]; naive_solver. }
  rewrite <- (size_dom m), <- (size_dom m'), E, size_union, size_singleton; [lia|].
  intros j. rewrite elem_of_singleton, elem_of_dom, Hj. naive_solver.
Qed.

Definition olist {A} (o : option A) : list A := match o with Some x => [x] | None => [] end.

(** The effect of replacing a thread's activity by its next ones. *)
Lemma held_at a1 a a2 : held (a1 ++ a :: a2) ≡ₚ olist (act_key a) ++ held (a1 ++ a2).
Proof. unfold held. rewrite !omap_app. cbn [omap list_omap]. destruct (act_key a); cbn [olist]; [by rewrite <- Permutation_middle|done]. Qed.

Lemma busy_at a1 a a2 : busy (a1 ++ a :: a2) ≡ₚ olist (act_proc a) ++ busy (a1 ++ a2).
Proof. unfold busy. rewrite !omap_app. cbn [omap list_omap]. destruct (act_proc a); cbn [olist]; [by rewrite <- Permutation_middle|done]. Qed.

Lemma weight_at (m : TransactionMgr.t T) p a1 new a2 ls : weight (mkSys m p (a1 ++ new ++ a2) ls) =
  Z.of_nat (sum_list_with act_weight new) - 5 * Z.of_nat (length (held new)) + weight (mkSys m p (a1 ++ a2) ls).
Proof.
  unfold weight, held. cbn [acts mgr lost]. rewrite !omap_app, !length_app, !sum_list_with_app. lia.
Qed.

Lemma perform_call n m p a1 a2 ls : (0 < n)%nat → keys_ok m (a1 ++ Call :: a2) ls → procs_ok n p (a1 ++ Call :: a2) ls →
  ∃ new m' p', onReadyToExecute (m, p) = (Ok new, (m', p')) ∧ keys_ok m' (a1 ++ new ++ a2) ls ∧ procs_ok n p' (a1 ++ new ++ a2) ls ∧
    weight (mkSys m' p' (a1 ++ new ++ a2) ls) < weight (mkSys m p (a1 ++ [Call] ++ a2) ls).
Proof.
  intros Hn (c & q & w & Hi & Ho & Hs & Hq & Hw) (avail & Hp & Hlen & Hav). rewrite held_at in Hq. rewrite busy_at in Hav. cbn [act_key act_proc olist app] in Hq, Hav.
  unfold onReadyToExecute. rewrite (bind_ok (gets snd) _ (m, p) p (m, p)) by done. rewrite weight_at.
  pose proof Hp as (k & Hsl & Hla). destruct avail as [|x avail _] using rev_ind.
  { rewrite (proj2 (Z.ltb_lt _ _)) by (rewrite Hla; cbn [length]; lia). exists [], m, p. cbn [app]. split; [done|]. split_and!.
    - exists c, q, w. split_and!; try done. intros _. destruct (a1 ++ a2) as [|b l]; [right|by left]. intros ->.
      apply Permutation_length in Hav. rewrite length_seq in Hav. cbn in Hav. lia.
    - exists []. done.
    - cbn. lia. }
  rewrite length_app in Hla. cbn [length] in Hla. rewrite (proj2 (Z.ltb_ge _ _)) by lia.
  pose proof (mgr_next m c q w Hi Hs) as Hnx. unfold on_mgr, bind at 1. cbn [fst snd]. destruct w as [|j w].
  { rewrite Hnx. cbn [fst snd]. exists [], m, p. cbn [app]. split; [done|]. split_and!.
    - exists c, q, []. by split_and!.
    - by exists (avail ++ [x]).
    - cbn. lia. }
  destruct Hnx as (v & m' & -> & Hi' & Ho' & Hs' & Hk). cbn [fst snd].
  destruct (take_last_ok p avail x Hp) as (p' & Et & Hp').
  exists [Run j x], m', p'. rewrite (bind_ok (on_pool take_last) _ _ x (m', p')) by (unfold on_pool; cbn [fst snd]; by rewrite Et).
  split; [done|]. cbn [app]. split_and!.
  - exists c, (q ++ [j]), w. split_and!; [done|congruence|done| |left; by destruct a1]. rewrite held_at. cbn [act_key olist app].
    by rewrite Hq, <- Permutation_cons_append.
  - exists avail. split; [done|]. split; [by rewrite (take_last_length _ _ _ Et)|]. rewrite busy_at. cbn [act_proc olist app].
    rewrite <- Hav, <- app_assoc. done.
  - change (Run j x :: a2) with ([Run j x] ++ a2). rewrite weight_at. unfold weight. cbn [acts mgr lost]. rewrite Hk. cbn. lia.
Qed.

Lemma perform_fin n m p k x a1 a2 ls : keys_ok m (a1 ++ Fin k x :: a2) ls → procs_ok n p (a1 ++ Fin k x :: a2) ls →
  ∃ p', on_pool (give_back x) (m, p) = (Ok tt, (m, p')) ∧ keys_ok m (a1 ++ Rem k :: a2) ls ∧ procs_ok n p' (a1 ++ Rem k :: a2) ls.
Proof.
  intros (c & q & w & Hi & Ho & Hs & Hq & Hw) (avail & Hp & Hlen & Hav). rewrite held_at in Hq. rewrite busy_at in Hav. cbn [act_key act_proc olist app] in Hq, Hav.
  destruct (give_back_ok p avail x Hp) as (p' & E & Hp' & Hl').
  { apply Permutation_length in Hav. rewrite length_app, length_seq in Hav. cbn [length] in Hav. lia. }
  exists p'. unfold on_pool. cbn [fst snd]. rewrite E. split; [done|]. split.
  - exists c, q, w. split_and!; try done; [|left; by destruct a1]. by rewrite held_at.
  - exists (avail ++ [x]). split; [done|]. split; [congruence|]. rewrite busy_at. cbn [act_proc olist app]. rewrite <- Hav, <- app_assoc. done.
Qed.

Lemma perform_rem n m p k a1 a2 ls : keys_ok m (a1 ++ Rem k :: a2) ls → procs_ok n p (a1 ++ Rem k :: a2) ls →
  ∃ new m', finish k (m, p) = (Ok new, (m', p)) ∧ keys_ok m' (a1 ++ new ++ a2) ls ∧ procs_ok n p (a1 ++ new ++ a2) ls ∧
    weight (mkSys m' p (a1 ++ new ++ a2) ls) < weight (mkSys m p (a1 ++ [Rem k] ++ a2) ls).
Proof.
  intros (c & q & w & Hi & Ho & Hs & Hq & Hw) (avail & Hp & Hlen & Hav). rewrite held_at in Hq. rewrite busy_at in Hav. cbn [act_key act_proc olist app] in Hq, Hav.
  assert (k ∈ q) as Hin by (rewrite Hq; set_solver). apply list_elem_of_split in Hin as (p1 & p2 & ->).
  destruct (mgr_remove m c p1 k p2 w Hi Ho Hs) as (m' & new & E & Hi' & Ho' & Hs' & Hn & Hl & Hk).
  assert (p1 ++ p2 ≡ₚ held (a1 ++ a2) ++ ls.*1) as Hq' by (apply (Permutation_cons_inv (a := k)); by rewrite Permutation_middle).
  unfold finish, on_mgr. cbn [fst snd]. rewrite E. cbn [fst snd].
  set (cs := calls m m'). assert (cs = [] ∨ cs = [Call]) as Hcs.
  { unfold cs, calls. rewrite Hn. case_bool_decide; [left; by rewrite Nat.sub_diag|right]. by replace (S _ - _)%nat with 1%nat by lia. }
  assert (omap act_key (cs ++ [Call]) = [] ∧ omap act_proc (cs ++ [Call]) = [] ∧ (sum_list_with act_weight (cs ++ [Call]) <= 2)%nat) as (K1 & K2 & K3)
    by (destruct Hcs as [Ec|Ec]; rewrite Ec; cbn; split_and!; (done || lia)).
  exists (cs ++ [Call]), m'. split; [done|]. split_and!.
  - exists c, (p1 ++ p2), (w ++ new). split_and!; try done.
    + unfold held in *. rewrite !omap_app, K1 in *. done.
    + intros _. left. by destruct a1, cs.
  - exists avail. split; [done|]. split; [done|]. unfold busy in *. rewrite !omap_app, K2 in *. done.
  - rewrite !weight_at. unfold weight, held. cbn [acts mgr lost]. rewrite K1. pose proof (size_remove _ _ k Hl Hk) as Hsz. rewrite Hsz. cbn. lia.
Qed.

Lemma perform_run n m p k x (returns : bool) a1 a2 ls : keys_ok m (a1 ++ Run k x :: a2) ls → procs_ok n p (a1 ++ Run k x :: a2) ls →
  let new := if returns then [Fin k x] else [] in
  Inv n (mkSys m p (a1 ++ new ++ a2) (lose returns (Run k x) ++ ls)) ∧
  weight (mkSys m p (a1 ++ new ++ a2) (lose returns (Run k x) ++ ls)) < weight (mkSys m p (a1 ++ [Run k x] ++ a2) ls).
Proof.
  intros (c & q & w & Hi & Ho & Hs & Hq & _) (avail & Hp & Hlen & Hav). rewrite held_at in Hq. rewrite busy_at in Hav.
  cbn [act_key act_proc olist app] in Hq, Hav. unfold Inv. cbn [mgr pool acts lost]. destruct returns; cbn [lose app].
  - split; [split|].
    + exists c, q, w. split_and!; try done; [by rewrite Hq, held_at|left; by destruct a1].
    + exists avail. split_and!; try done. by rewrite <- Hav, busy_at.
    + change (Fin k x :: a2) with ([Fin k x] ++ a2). change (Run k x :: a2) with ([Run k x] ++ a2). rewrite !weight_at. cbn. lia.
  - split; [split|].
    + exists c, q, w. split_and!; try done; [|by right]. rewrite Hq. cbn [fmap list_fmap fst]. by rewrite <- Permutation_middle.
    + exists avail. split_and!; try done. rewrite <- Hav. cbn [fmap list_fmap snd]. by rewrite <- Permutation_middle.
    + change (Run k x :: a2) with ([Run k x] ++ a2). rewrite weight_at. unfold weight. cbn [acts mgr lost length]. cbn. lia.
Qed.

Lemma perform_ok n s returns a1 a a2 : (0 < n)%nat → Inv n s → acts s = a1 ++ a :: a2 →
  ∃ new m' p', perform returns a (mgr s, pool s) = (Ok new, (m', p')) ∧
    Inv n (mkSys m' p' (a1 ++ new ++ a2) (lose returns a ++ lost s)) ∧
    weight (mkSys m' p' (a1 ++ new ++ a2) (lose returns a ++ lost s)) < weight s.
Proof.
  intros Hn (Hk & Hp) Ha. destruct s as [m p l ls]. cbn [mgr pool acts lost] in *. subst l. destruct a as [|k x|k x|k]; cbn [perform].
  - destruct (perform_call n m p a1 a2 ls Hn Hk Hp) as (new & m' & p' & E & ? & ? & Hw). exists new, m', p'. by split.
  - exists (if returns then [Fin k x] else []), m, p. split; [done|]. by apply perform_run.
  - destruct (perform_fin n m p k x a1 a2 ls Hk Hp) as (p' & E & ? & ?). exists [Rem k], m, p'.
    rewrite (bind_ok _ _ _ _ _ E). split; [done|]. split; [done|].
    change (Fin k x :: a2) with ([Fin k x] ++ a2). change (lose returns (Fin k x) ++ ls) with ls. rewrite !weight_at. unfold weight. cbn. lia.
  - destruct (perform_rem n m p k a1 a2 ls Hk Hp) as (new & m' & E & ? & ? & Hw). exists new, m', p. by split.
Qed.

Lemma start_ok n : Inv n (start n).
Proof.
  split.
  - exists IdTGenerator.init, [], []. split_and!; try done.
    pose proof (TransactionMgr.init_inv (T := T) IdTGenerator.init ltac:(unfold IdTGenerator.init; lia)) as Hi. by destruct Hi.
  - exists (seq 0 n). split; [apply pool_create_ok|]. cbn [pool start pool_create slots]. rewrite length_fmap, length_seq.
    split; [done|]. cbn. by rewrite app_nil_r.
Qed.

Lemma submit_ok m l ls tr now objs m' : keys_ok m l ls → TransactionMgr.may_draw m → TransactionMgr.clock_ok now →
  isValidId (transactionId tr) = false → getRelatedObjects tr = Ok objs → TransactionMgr.addTransaction tr now m = (Ok tt, m') →
  keys_ok m' (l ++ calls m m') ls.
Proof.
  intros (c & p & w & Hi & Ho & (Hr & Hc) & Hp & Hw) Hd Hck Hid Hobj E.
  destruct (TransactionMgr.addTransaction_ok m c tr now objs Hi (Hd c (TransactionMgr.inv_counter _ _ Hi)) Hck Hid Hobj)
    as (m2 & E2 & Hi' & _ & _ & Ho' & (new & Hr' & _ & Hn & Hc') & _).
  rewrite E in E2. injection E2 as <-. rewrite Ho in Hn. cbn [andb] in Hn.
  exists (c + 1), p, (w ++ new). split_and!; [done|congruence| | |].
  - split; [by rewrite Hr', Hr, app_assoc|congruence].
  - unfold held in *. rewrite omap_app. unfold calls. by rewrite Hn; case_bool_decide; cbn [negb]; rewrite ?Nat.sub_diag, ?Nat.sub_succ_l, ?Nat.sub_diag by lia; cbn; rewrite app_nil_r.
  - intros Hne. destruct (l ++ calls m m') as [|b l'] eqn:El; [|by left]. apply app_eq_nil in El as [-> El].
    destruct w; [|destruct (Hw ltac:(done)); [done|by right]]. exfalso. cbn [app] in Hne. unfold calls in El. rewrite Hn in El.
    rewrite bool_decide_eq_false_2 in El by done. cbn [negb] in El. by replace (S _ - _)%nat with 1%nat in El by lia.
Qed.

Lemma calls_procs m m' l ls n p : procs_ok n p l ls → procs_ok n p (l ++ calls m m') ls.
Proof.
  intros (avail & Hp & Hl & Hav). exists avail. split_and!; try done. unfold busy in *. rewrite omap_app. unfold calls.
  assert (∀ k, omap act_proc (replicate k Call) = []) as -> by (induction k; done). by rewrite app_nil_r.
Qed.

Lemma wstep_ok n s s' : (0 < n)%nat → Inv n s → wstep s s' → Inv n s' ∧ weight s' < weight s.
Proof.
  intros Hn Hi Hs. destruct Hs as [s0 a1 a a2 returns new m' p' Ha E]. destruct (perform_ok n s0 returns a1 a a2 Hn Hi Ha) as (new' & m2 & p2 & E2 & Hi' & Hw).
  rewrite E in E2. injection E2 as <- <- <-. done.
Qed.

Lemma reachable_ok n s : (0 < n)%nat → reachable n s → Inv n s.
Proof.
  intros Hn Hr. unfold reachable in Hr. remember (start n) as s0 eqn:E0. assert (Inv n s0) as Hi by (subst; apply start_ok). clear E0.
  induction Hr as [s|s1 s2 s3 Hs _ IH]; [done|]. apply IH. destruct Hs as [s s' Hs|s tr now objs m' Hd Hc Hid Ho E].
  - by eapply wstep_ok.
  - destruct Hi as (Hk & Hp). split; [by eapply submit_ok|by apply calls_procs].
Qed.

Lemma weight_nonneg n s : Inv n s → 0 <= weight s.
Proof.
  intros ((c & p & w & Hi & _ & (Hr & _) & Hp & _) & _). unfold weight. pose proof (TransactionMgr.inv_tree _ _ Hi) as Ht.
  assert (length (held (acts s) ++ (lost s).*1) <= size (NLinkTree.keys (tree (mgr s))))%nat;
    [|rewrite length_app, length_fmap in *; lia].
  rewrite <- Hp. pose proof (NLinkTree.inv_root_nodup _ Ht) as Hnd. rewrite Hr in Hnd. apply NoDup_app in Hnd as (Hnd & _).
  rewrite <- (size_list_to_set (C := gset IdT) p Hnd), <- (size_dom (NLinkTree.keys _)). apply subseteq_size. intros k Hk%elem_of_list_to_set.
  assert (k ∈ NLinkTree.root (tree (mgr s))) as Hin by (rewrite Hr; set_solver).
  apply (NLinkTree.inv_root _ Ht) in Hin as (nd & E & _). apply elem_of_dom. by eexists.
Qed.

(** C10: The transactions executed at the same time do not touch each other: in every
    interleaving of the task manager's threads, each task has a transaction and a
    processor of its own, its transaction is live, and no two of them share an
    object. *)
Theorem no_conflicting_tasks (n : nat) (s : Sys (T := T)) : (0 < n)%nat → reachable n s →
  NoDup (held (acts s)) ∧ NoDup (busy (acts s)) ∧
  (∀ k, k ∈ held (acts s) → NLinkTree.live (tree (mgr s)) k) ∧
  ∀ k1 k2 o, k1 ∈ held (acts s) → k2 ∈ held (acts s) → k1 ≠ k2 →
    NLinkTree.uses (tree (mgr s)) k1 o → NLinkTree.uses (tree (mgr s)) k2 o → False.
Proof.
  intros Hn ((c & p & w & Hi & _ & (Hr & _) & Hp & _) & (avail & _ & _ & Hav))%reachable_ok; [|done].
  pose proof (TransactionMgr.inv_tree _ _ Hi) as Ht. pose proof (NLinkTree.inv_root_nodup _ Ht) as Hnd. rewrite Hr in Hnd. apply NoDup_app in Hnd as (Hnd & _).
  assert (∀ k, k ∈ held (acts s) → k ∈ NLinkTree.root (tree (mgr s))) as Hin by (intros k Hk; rewrite Hr, Hp; set_solver).
  split_and!.
  - rewrite Hp in Hnd. by apply NoDup_app in Hnd as (? & _).
  - assert (NoDup (avail ++ busy (acts s) ++ (lost s).*2)) as Hd by (rewrite Hav; apply NoDup_seq).
    apply NoDup_app in Hd as (_ & _ & Hd). by apply NoDup_app in Hd as (? & _).
  - intros k Hk%Hin. by apply (NLinkTree.ready_no_earlier _ k Ht).
  - intros k1 k2 o H1%Hin H2%Hin Hne U1 U2. apply (NLinkTree.ready_no_earlier _ _ Ht) in H1 as [_ H1], H2 as [_ H2].
    destruct (trichotomy IdT_lt k1 k2) as [Hlt|[?|Hlt]]; [by apply (H2 k1 o)|done|by apply (H1 k2 o)].
Qed.

(** Every key handed out, to a task under way or to one that was lost, is ready. *)
Lemma handed_ready n s k : Inv n s → k ∈ held (acts s) ++ (lost s).*1 → k ∈ NLinkTree.root (tree (mgr s)) ∧ NLinkTree.live (tree (mgr s)) k.
Proof.
  intros ((c & p & w & Hi & _ & (Hr & _) & Hp & _) & _) Hk. rewrite <- Hp in Hk.
  assert (k ∈ NLinkTree.root (tree (mgr s))) as Hin by (rewrite Hr; set_solver). split; [done|].
  apply (NLinkTree.inv_root _ (TransactionMgr.inv_tree _ _ Hi)) in Hin as (nd & ? & _). by eexists.
Qed.

Lemma handed_nodup n s : Inv n s → NoDup (held (acts s) ++ (lost s).*1).
Proof.
  intros ((c & p & w & Hi & _ & (Hr & _) & Hp & _) & _). rewrite <- Hp. pose proof (NLinkTree.inv_root_nodup _ (TransactionMgr.inv_tree _ _ Hi)) as Hnd.
  rewrite Hr in Hnd. by apply NoDup_app in Hnd as (? & _).
Qed.

(** C9: No wake-up of the transaction tasks is lost, and what an exception loses is
    exactly what its task held.  From every reachable state, whichever calls of [process]
    throw, the threads make at most [weight] further steps.  Once none of them can move, no thread is
    left; each transaction whose [process] threw is still in the manager, and the
    pool lacks exactly one processor for each of them; and if none threw, no submitted
    transaction is left and every processor is back in the pool. *)
Theorem tasks_complete (n : nat) (s : Sys (T := T)) : (0 < n)%nat → reachable n s →
  (∀ i s', nsteps wstep i s s' → Z.of_nat i <= weight s) ∧
  ∀ s', rtc wstep s s' → (∀ s'', ¬ wstep s' s'') →
    acts s' = [] ∧ (∀ k, k ∈ (lost s').*1 → NLinkTree.live (tree (mgr s')) k) ∧ NoDup (lost s').*1 ∧
    lastAvailable (pool s') = Z.of_nat n - 1 - Z.of_nat (length (lost s')) ∧
    (lost s' = [] → ∀ k, ¬ NLinkTree.live (tree (mgr s')) k).
Proof.
  intros Hn Hi%reachable_ok; [|done]. split.
  - intros i s' Hs. induction Hs as [s|i s1 s2 s3 Hs _ IH]; [pose proof (weight_nonneg n s Hi); lia|].
    destruct (wstep_ok n s1 s2 Hn Hi Hs) as (Hi2 & Hw). specialize (IH Hi2). lia.
  - intros s' Hs Hstuck. assert (Inv n s') as Hi'.
    { clear Hstuck. induction Hs as [|s1 s2 s3 Hs _ IH]; [done|]. apply IH. by eapply wstep_ok. }
    assert (acts s' = []) as Ea.
    { destruct (acts s') as [|a l] eqn:Ea; [done|]. destruct (perform_ok n s' true [] a l Hn Hi' Ea) as (new & m' & p' & E & _).
      destruct (Hstuck (mkSys m' p' ([] ++ new ++ l) (lose true a ++ lost s'))). by eapply w_act. }
    pose proof (handed_nodup n s' Hi') as Hnd. pose proof (λ k, handed_ready n s' k Hi') as Hready. rewrite Ea in Hnd, Hready. cbn in Hnd, Hready.
    split; [done|]. split; [intros k Hk; by apply Hready|]. split; [done|].
    destruct Hi' as ((c & p & w & Hi' & _ & (Hr & _) & Hp & Hw) & (avail & (k & _ & Hl) & _ & Hav)). rewrite Ea in *. cbn in Hp, Hav. split.
    + rewrite Hl. apply Permutation_length in Hav. rewrite length_app, length_seq, length_fmap in Hav. lia.
    + intros El j Hj. rewrite El in *. apply Permutation_nil_r in Hp as ->. destruct w; [|by destruct Hw].
      by apply (NLinkTree.live_root _ j (TransactionMgr.inv_tree _ _ Hi')) in Hj.
Qed.

Lemma step_lost s s' x : step s s' → x ∈ lost s → x ∈ lost s'.
Proof. intros Hs Hx. destruct Hs as [s s' Hs|]; [destruct Hs; cbn [lost]; set_solver|done]. Qed.

(** C37: a transaction whose [process] threw is never completed: in every later state it is
    still in the manager, and no transaction that was added after it and shares an object
    with it is given to a task, whatever else the threads do. *)
Theorem lost_transaction_blocks (n : nat) (s s' : Sys (T := T)) k : (0 < n)%nat → reachable n s → k ∈ (lost s).*1 → rtc step s s' →
  NLinkTree.live (tree (mgr s')) k ∧
  ∀ k2 o, IdT_lt k k2 → NLinkTree.uses (tree (mgr s')) k o → NLinkTree.uses (tree (mgr s')) k2 o → k2 ∉ held (acts s').
Proof.
  intros Hn Hr Hk Hs. assert (Inv n s') as Hi by (apply reachable_ok; [done|]; unfold reachable in *; by etrans).
  assert (k ∈ (lost s').*1) as Hk'.
  { clear -Hk Hs. induction Hs as [|s1 s2 s3 Hs _ IH]; [done|]. apply IH. apply list_elem_of_fmap in Hk as (x & -> & Hx).
    apply list_elem_of_fmap. exists x. split; [done|]. by eapply step_lost. }
  assert (NLinkTree.Inv (tree (mgr s'))) as Ht by (destruct Hi as ((c & p & w & Hi & _) & _); apply (TransactionMgr.inv_tree _ _ Hi)).
  split; [by apply (handed_ready n s' k Hi); set_solver|]. intros k2 o Hlt U1 U2 Hh.
  destruct (handed_ready n s' k2 Hi ltac:(set_solver)) as [H2 _]. apply (NLinkTree.ready_no_earlier _ _ Ht) in H2 as [_ H2]. by apply (H2 k o).
Qed.
End system.

(** ** Events *)

(** Where a thread stands: before a call of [onNewEvent]; in a task, before
    [process], and after it with its result. *)
Inductive EAct := ECall | ERun (proc : nat) | EDone (proc : nat) (rez : bool).

(** TaskManager::onNewEvent -- src/src/TaskManager.cpp:232-248
    The part under [eventLock_]; the task it starts, if any. *)
Definition onNewEvent : M Pool (list EAct) := λ p,
  if lastAvailable p <? 0 then (Ok [], p) else (proc <- take_last ;; ret [ERun proc]) p.

Section events.
(** [handles e]: the handler of [e] returns; otherwise it throws. *)
Context {E : Type} (handles : E → bool).

Record ESys := mkESys { epool : Pool; queue : list E; eacts : list EAct }.

(** Processor::process -- src/src/Processor.cpp:108-113
    [proc->process()]: the first event of the queue, if any, is handled; an
    exception ends the task, with the processor. *)
Definition process (proc : nat) : M (list E) (list EAct) := λ q,
  match q with
  | [] => (Ok [EDone proc false], [])
  | e :: q' => (Ok (if handles e then [EDone proc true] else []), q')
  end.

(** the task of onNewEvent, finishEvent -- src/src/TaskManager.cpp:253-285
    [finishEvent(proc); if (rez) { onNewEvent(); ... }] *)
Definition finish_event (proc : nat) (rez : bool) : M Pool (list EAct) :=
  give_back proc ;;; ret (if rez then [ECall] else []).

Inductive estep : ESys → ESys → Prop :=
  | e_push s e : estep s (mkESys (epool s) (queue s ++ [e]) (eacts s ++ [ECall]))
  | e_call s a1 a2 new p' : eacts s = a1 ++ ECall :: a2 → onNewEvent (epool s) = (Ok new, p') →
      estep s (mkESys p' (queue s) (a1 ++ new ++ a2))
  | e_run s a1 a2 x new q' : eacts s = a1 ++ ERun x :: a2 → process x (queue s) = (Ok new, q') →
      estep s (mkESys (epool s) q' (a1 ++ new ++ a2))
  | e_done s a1 a2 x rez new p' : eacts s = a1 ++ EDone x rez :: a2 → finish_event x rez (epool s) = (Ok new, p') →
      estep s (mkESys p' (queue s) (a1 ++ new ++ a2)).

Definition estart (n : nat) : ESys := mkESys (pool_create n) [] [].

Lemma onNewEvent_takes p avail x : pool_ok p (avail ++ [x]) → ∃ p', onNewEvent p = (Ok [ERun x], p') ∧ pool_ok p' avail.
Proof.
  intros Hp. pose proof Hp as (k & _ & Hl). rewrite length_app in Hl. cbn [length] in Hl. unfold onNewEvent.
  rewrite (proj2 (Z.ltb_ge _ _)) by lia. destruct (take_last_ok p avail x Hp) as (p' & E0 & Hp'). exists p'.
  by rewrite (bind_ok _ _ _ _ _ E0).
Qed.

Lemma onNewEvent_none p : pool_ok p [] → onNewEvent p = (Ok [], p).
Proof. intros (k & _ & Hl). unfold onNewEvent. by rewrite (proj2 (Z.ltb_lt _ _)) by (rewrite Hl; cbn; lia). Qed.

(** A thread that pushed an event and found a processor: the task is about to run it. *)
Lemma push_run p avail x l e : pool_ok p (avail ++ [x]) →
  ∃ p', pool_ok p' avail ∧ length (slots p') = length (slots p) ∧ rtc estep (mkESys p [] l) (mkESys p' [e] (l ++ [ERun x])).
Proof.
  intros Hp. destruct (onNewEvent_takes p avail x Hp) as (p' & E0 & Hp'). exists p'. split; [done|]. split.
  { unfold onNewEvent in E0. destruct (lastAvailable p <? 0); [done|]. unfold bind in E0.
    destruct (take_last p) as [[y|?|?] p2] eqn:Et; [|done|done]. injection E0 as _ <-. by eapply take_last_length. }
  eapply rtc_l; [apply (e_push _ e)|]. cbn [epool queue eacts app]. eapply rtc_l; [by eapply (e_call _ l [])|].
  cbn [epool queue app]. by rewrite ?app_nil_r.
Qed.

(** A processor can be brought to the point where it found the queue empty. *)
Lemma occupy p avail x l e : handles e = true → pool_ok p (avail ++ [x]) → (length avail < length (slots p))%nat →
  ∃ p', pool_ok p' avail ∧ length (slots p') = length (slots p) ∧ rtc estep (mkESys p [] l) (mkESys p' [] (l ++ [EDone x false])).
Proof.
  intros He Hp Hlt. destruct (push_run p avail x l e Hp) as (p1 & Hp1 & Hl1 & R1).
  destruct (give_back_ok p1 avail x Hp1) as (p2 & E2 & Hp2 & Hl2); [lia|].
  destruct (onNewEvent_takes p2 avail x Hp2) as (p3 & E3 & Hp3). exists p3. split; [done|]. split.
  { unfold onNewEvent in E3. destruct (lastAvailable p2 <? 0); [done|]. unfold bind in E3.
    destruct (take_last p2) as [[y|?|?] p4] eqn:Et; [|done|done]. injection E3 as _ <-. apply take_last_length in Et. congruence. }
  etrans; [exact R1|]. eapply rtc_l; [eapply (e_run _ l [] x [EDone x true] []); [done|cbn; by rewrite He]|cbn [epool queue app]].
  eapply rtc_l; [eapply (e_done _ l [] x true [ECall] p2); [done|unfold finish_event; by rewrite (bind_ok _ _ _ _ _ E2)]|cbn [epool queue app]].
  eapply rtc_l; [by eapply (e_call _ l [])|cbn [epool queue app]].
  eapply rtc_l; [by eapply (e_run _ l [] x [EDone x false] [])|cbn [epool queue app]]. done.
Qed.

Lemma occupy_all avail p l e : handles e = true → pool_ok p avail → (length avail <= length (slots p))%nat →
  ∃ p' xs, pool_ok p' [] ∧ length (slots p') = length (slots p) ∧ length xs = length avail ∧
    rtc estep (mkESys p [] l) (mkESys p' [] (l ++ ((λ x, EDone x false) <$> xs))).
Proof.
  intros He. revert p l. induction avail as [|x avail IH] using rev_ind; intros p l Hp Hl.
  { exists p, []. split_and!; try done. cbn. by rewrite app_nil_r. }
  rewrite length_app in Hl. cbn [length] in Hl. destruct (occupy p avail x l e He Hp) as (p1 & Hp1 & Hl1 & R1); [lia|].
  destruct (IH p1 (l ++ [EDone x false]) Hp1) as (p2 & xs & Hp2 & Hl2 & Hx & R2); [lia|].
  exists p2, (x :: xs). split_and!; [done|congruence|rewrite length_app; cbn; lia|].
  etrans; [exact R1|]. rewrite <- app_assoc in R2. exact R2.
Qed.

Lemma release_all xs p avail q : pool_ok p avail → (length avail + length xs <= length (slots p))%nat →
  ∃ p', pool_ok p' (avail ++ xs) ∧ length (slots p') = length (slots p) ∧
    rtc estep (mkESys p q ((λ x, EDone x false) <$> xs)) (mkESys p' q []).
Proof.
  revert p avail. induction xs as [|x xs IH]; intros p avail Hp Hl; cbn [length] in Hl.
  { exists p. rewrite app_nil_r. done. }
  destruct (give_back_ok p avail x Hp) as (p1 & E1 & Hp1 & Hl1); [lia|].
  destruct (IH p1 (avail ++ [x]) Hp1) as (p2 & Hp2 & Hl2 & R2); [rewrite length_app; cbn; lia|].
  exists p2. rewrite <- app_assoc in Hp2. split_and!; [done|congruence|]. cbn [fmap list_fmap].
  eapply rtc_l; [eapply (e_done _ [] _ x false [] p1); [done|unfold finish_event; by rewrite (bind_ok _ _ _ _ _ E1)]|].
  cbn [epool queue app]. exact R2.
Qed.

(** A wake-up of the event tasks can be lost, whatever the number of processors:
    if an event arrives while every processor has found the queue empty but has not
    been given back yet, [onNewEvent] starts nothing, and the tasks end without
    looking at the queue again.  The event stays in the queue with every processor
    idle, until another event arrives. *)
Theorem event_wakeup_lost (n : nat) (e : E) : handles e = true →
  ∃ s, rtc estep (estart n) s ∧ queue s = [e] ∧ eacts s = [] ∧ lastAvailable (epool s) = Z.of_nat n - 1.
Proof.
  intros He. destruct (occupy_all (seq 0 n) (pool_create n) [] e He (pool_create_ok n)) as (p1 & xs & Hp1 & Hl1 & Hx & R1).
  { unfold pool_create. cbn [slots]. by rewrite length_fmap. }
  rewrite length_seq in Hx. unfold pool_create in Hl1. cbn [slots] in Hl1. rewrite length_fmap, length_seq in Hl1.
  destruct (release_all xs p1 [] [e] Hp1) as (p2 & (k & _ & Hla) & Hl2 & R2); [cbn; lia|].
  exists (mkESys p2 [e] []). split_and!; try done; [|cbn [epool]; rewrite Hla; cbn [app]; lia].
  etrans; [exact R1|]. cbn [app]. eapply rtc_l; [apply (e_push _ e)|]. cbn [epool queue eacts app].
  eapply rtc_l; [eapply (e_call _ _ []); [done|by apply onNewEvent_none]|]. cbn [epool queue app]. rewrite app_nil_r. exact R2.
Qed.

Lemma lose_all avail p e : handles e = false → pool_ok p avail →
  ∃ p', pool_ok p' [] ∧ rtc estep (mkESys p [] []) (mkESys p' [] []).
Proof.
  intros He. revert p. induction avail as [|x avail IH] using rev_ind; intros p Hp; [by exists p|].
  destruct (push_run p avail x [] e Hp) as (p1 & Hp1 & _ & R1). destruct (IH p1 Hp1) as (p2 & Hp2 & R2). exists p2. split; [done|].
  etrans; [exact R1|]. eapply rtc_l; [eapply (e_run _ [] [] x [] []); [done|cbn; by rewrite He]|]. cbn [epool queue app]. exact R2.
Qed.

(** Without processors nothing but calls is left. *)
Definition starved (s : ESys) : Prop := pool_ok (epool s) [] ∧ Forall (λ a, a = ECall) (eacts s).

Lemma starved_step s s' : starved s → estep s s' → starved s' ∧ queue s `prefix_of` queue s'.
Proof.
  intros (Hp & Ha) Hs. destruct Hs as [s e|s a1 a2 new p' E0 E1|s a1 a2 x new q' E0 E1|s a1 a2 x rez new p' E0 E1]; cbn [queue].
  - split; [|by exists [e]]. split; [done|]. apply Forall_app. split; [done|]. by constructor.
  - rewrite onNewEvent_none in E1 by done. injection E1 as <- <-. split; [|done]. split; [done|]. cbn [eacts app]. rewrite E0 in Ha.
    apply Forall_app in Ha as [? Ha]. apply Forall_cons in Ha as [_ ?]. by apply Forall_app.
  - rewrite E0 in Ha. apply Forall_app in Ha as [_ Ha]. by apply Forall_cons in Ha as [? _].
  - rewrite E0 in Ha. apply Forall_app in Ha as [_ Ha]. by apply Forall_cons in Ha as [? _].
Qed.

(** A handler that throws costs the manager its processor: [finishEvent] is
    skipped by the exception.  As many such events as there are processors -- for
    example cancellations of unknown orders -- stop event processing for good: from
    then on no event that arrives is ever taken out of the queue. *)
Theorem throwing_handlers_starve (n : nat) (e : E) : handles e = false →
  ∃ s, rtc estep (estart n) s ∧ eacts s = [] ∧ queue s = [] ∧ ∀ s', rtc estep s s' →
    lastAvailable (epool s') = -1 ∧ ∀ s'', estep s' s'' → queue s' `prefix_of` queue s''.
Proof.
  intros He. destruct (lose_all (seq 0 n) (pool_create n) e He (pool_create_ok n)) as (p & Hp & R1).
  exists (mkESys p [] []). split_and!; try done. intros s' Hr.
  assert (starved s') as Hs'.
  { assert (starved (mkESys p [] [])) as H0 by (split; [done|constructor]). revert H0. clear R1.
    induction Hr as [|s1 s2 s3 Hs _ IH]; [done|]. intros H1. apply IH. by apply (starved_step s1 s2). }
  split; [destruct Hs' as ((k & _ & Hl) & _); by rewrite Hl|]. intros s'' Hs. by apply (starved_step s' s'').
Qed.
End events.

(** ** Waiting for the end *)

(** waitUntilTransactionsFinished, the test -- src/src/TaskManager.cpp:135-142
    Every processor of both pools is back and the incoming queue holds [size]
    events. *)
Definition finished (x : Pool * Pool * nat) : bool :=
  let '(tp, ep, size) := x in
  (lastAvailable tp =? Z.of_nat (length (slots tp)) - 1) && (lastAvailable ep =? Z.of_nat (length (slots ep)) - 1) && (size =? 0)%nat.

(** TaskManager::waitUntilTransactionsFinished -- src/src/TaskManager.cpp:129-159
    [obs n] is what the [n]-th test sees, a second after the one before; [w] is
    [waitIntervalSeconds].  [None] is a loop that has not ended. *)
Fixpoint wait_loop (fuel : nat) (obs : nat → Pool * Pool * nat) (w interval : Z) (onceSucceed : bool) (n : nat) : option bool :=
  match fuel with
  | O => None
  | S fuel' =>
      let first := finished (obs n) && negb onceSucceed && negb (w =? 0) in
      let fin := finished (obs n) && negb first in
      if fin || (w =? 0) then Some fin
      else
        let interval' := if w =? -1 then interval else interval - 1 in
        if 0 <=? interval' then wait_loop fuel' obs w interval' (onceSucceed || first) (S n) else Some false
  end.

Definition waitUntilTransactionsFinished (obs : nat → Pool * Pool * nat) (w : Z) : option bool :=
  wait_loop (S (Z.to_nat w)) obs w w false 0.

Lemma wait_loop_spec obs w k once n : 0 < w →
  wait_loop (S k) obs w (Z.of_nat k) once n =
  Some ((if once then 1 else 2) <=? length (List.filter (λ i, finished (obs i)) (seq n (S k))))%nat.
Proof.
  intros Hw. revert once n. assert (w ≠ 0 ∧ w ≠ -1) as [H0%Z.eqb_neq H1%Z.eqb_neq] by lia. induction k as [|k IH]; intros once n.
  { cbn. rewrite H0, H1. destruct (finished (obs n)), once; reflexivity. }
  remember (S k) as k' eqn:Ek. cbn [wait_loop seq List.filter]. rewrite H0, H1. replace (Z.of_nat k' - 1) with (Z.of_nat k) by lia.
  rewrite (proj2 (Z.leb_le 0 (Z.of_nat k))) by lia. rewrite !IH. destruct (finished (obs n)), once; reflexivity.
Qed.

(** Waiting.  The wait always ends.  With a limit of [w > 0] seconds it is
    successful iff two of its [w + 1] tests (not necessarily consecutive ones)
    find everything idle; with 0 it is the result of one test; and with a negative
    limit, -1 included, one test is made and the answer is no. *)
Theorem wait_two_idle_tests obs w : waitUntilTransactionsFinished obs w = Some
  (if w =? 0 then finished (obs 0%nat)
   else (0 <? w) && (2 <=? length (List.filter (λ i, finished (obs i)) (seq 0 (S (Z.to_nat w)))))%nat).
Proof.
  unfold waitUntilTransactionsFinished. destruct (Z.ltb_spec 0 w) as [Hw|Hw].
  - rewrite (proj2 (Z.eqb_neq w 0)) by lia. cbn [andb].
    pose proof (wait_loop_spec obs w (Z.to_nat w) false 0 Hw) as Hl. rewrite Z2Nat.id in Hl by lia. exact Hl.
  - replace (Z.to_nat w) with 0%nat by lia. cbn [wait_loop]. destruct (Z.eqb_spec w 0); [subst; by destruct (finished (obs 0%nat))|].
    rewrite orb_false_r, andb_true_r. destruct (finished (obs 0%nat)); simpl; destruct (w =? -1); rewrite (proj2 (Z.leb_gt 0 _)) by lia; reflexivity.
Qed.

(** *** Concrete runs: two conflicting transactions and an independent one *)

#[local] Existing Instance TransactionMgr.ex_operation.
Abbreviation ex_T := (TransactionScope.t Z).

Definition submit (l : list Z) (now : Z) (s : Sys (T := ex_T)) : Sys :=
  let m' := (TransactionMgr.addTransaction (TransactionMgr.ex_tr l) now (mgr s)).2 in
  mkSys m' (pool s) (acts s ++ calls (mgr s) m') (lost s).

(** The [i]-th thread makes a step; [returns] if it is at a call of [process]. *)
Definition work (i : nat) (returns : bool) (s : Sys (T := ex_T)) : Sys :=
  match drop i (acts s) with
  | [] => s
  | a :: l => match perform returns a (mgr s, pool s) with
              | (Ok new, (m', p')) => mkSys m' p' (take i (acts s) ++ new ++ l) (lose returns a ++ lost s)
              | _ => s
              end
  end.

Lemma work_step i returns s : rtc wstep s (work i returns s).
Proof.
  unfold work. destruct (drop i (acts s)) as [|a l] eqn:Ea; [done|]. destruct (perform _ _ _) as [[new|?|?] [m' p']] eqn:Ep; [|done|done].
  eapply rtc_once, w_act; [|done]. by rewrite <- Ea, take_drop.
Qed.

Definition ex_s : Sys (T := ex_T) := submit [8] 1001 (submit [6; 7] 1001 (submit [5; 6] 1000 (start 2))).

Lemma submit_step l now s c : TransactionMgr.idGenerator (mgr s) = Some c → c + 1 < 2 ^ 64 → wrap32 now ≠ 0 →
  TransactionScope.related (TransactionMgr.ex_tr l) = Ok (TransactionMgr.ex_objs l) →
  (TransactionMgr.addTransaction (TransactionMgr.ex_tr l) now (mgr s)).1 = Ok tt → step s (submit l now s).
Proof.
  intros Hc ? ? Hr E. apply (s_submit s (TransactionMgr.ex_tr l) now (TransactionMgr.ex_objs l)); try done.
  - intros c'. rewrite Hc. by intros [= <-].
  - rewrite <- E. apply surjective_pairing.
Qed.

Lemma ex_s_reachable : reachable 2 ex_s.
Proof.
  unfold reachable, ex_s. eapply rtc_l; [apply (submit_step [5; 6] 1000 _ 1); by vm_compute|].
  eapply rtc_l; [apply (submit_step [6; 7] 1001 _ 2); by vm_compute|].
  eapply rtc_l; [apply (submit_step [8] 1001 _ 3); by vm_compute|]. apply rtc_refl.
Qed.

Lemma work_reachable n i returns s : reachable n s → reachable n (work i returns s).
Proof. intros Hr. unfold reachable in *. etrans; [exact Hr|]. eapply (rtc_subrel wstep step); [by apply s_work|apply work_step]. Qed.

(** Both calls have run: the first and the third transaction are under way. *)
Definition ex_run : Sys (T := ex_T) := work 1 true (work 0 true ex_s).

(** The first of them throws, which the second of the three waits for. *)
Definition ex_lost : Sys (T := ex_T) := work 0 false ex_run.

Lemma ex_run_reachable : reachable 2 ex_run.
Proof. do 2 apply work_reachable. apply ex_s_reachable. Qed.

Lemma no_conflicting_tasks_witness : held (acts ex_run) = [mkIdT 1 1000; mkIdT 3 1001] ∧ NoDup (held (acts ex_run)) ∧ NoDup (busy (acts ex_run)).
Proof.
  split; [vm_compute; reflexivity|]. destruct (no_conflicting_tasks 2 ex_run ltac:(lia) ex_run_reachable) as (H1 & H2 & _). exact (conj H1 H2).
Defined.

Lemma tasks_complete_witness : lost ex_lost = [(mkIdT 1 1000, 1%nat)] ∧ weight ex_lost = 10 ∧
  (∀ i s', nsteps wstep i ex_lost s' → Z.of_nat i <= 10) ∧
  ∀ s', rtc wstep ex_lost s' → (∀ s'', ¬ wstep s' s'') → acts s' = [] ∧ (lost s' = [] → lastAvailable (pool s') = 1).
Proof.
  pose proof (tasks_complete 2 ex_lost ltac:(lia) (work_reachable 2 0 false ex_run ex_run_reachable)) as [Hb Hd].
  assert (weight ex_lost = 10) as Hw by (vm_compute; reflexivity). rewrite Hw in Hb.
  split; [vm_compute; reflexivity|]. split; [exact Hw|]. split; [exact Hb|]. intros s' Hs Hn. destruct (Hd s' Hs Hn) as (Ha & _ & _ & Hl & _).
  split; [exact Ha|]. intros E. rewrite E in Hl. exact Hl.
Defined.

Lemma lost_transaction_blocks_witness : lost ex_lost = [(mkIdT 1 1000, 1%nat)] ∧
  ∀ s', rtc step ex_lost s' → NLinkTree.live (TransactionMgr.transactionTree (mgr s')) (mkIdT 1 1000).
Proof.
  split; [vm_compute; reflexivity|]. intros s' Hs.
  apply (lost_transaction_blocks 2 ex_lost s' (mkIdT 1 1000) ltac:(lia) (work_reachable 2 0 false ex_run ex_run_reachable)); [|exact Hs].
  assert ((lost ex_lost).*1 = [mkIdT 1 1000]) as -> by (vm_compute; reflexivity). apply list_elem_of_here.
Defined.

Lemma event_wakeup_lost_witness : ∃ s, rtc (estep (λ _ : nat, true)) (estart 2) s ∧ queue s = [7%nat] ∧ eacts s = [] ∧ lastAvailable (epool s) = 1.
Proof. exact (event_wakeup_lost (λ _ : nat, true) 2 7%nat eq_refl). Defined.

Lemma throwing_handlers_starve_witness : ∃ s, rtc (estep (λ _ : nat, false)) (estart 2) s ∧ eacts s = [] ∧ queue s = [] ∧
  ∀ s', rtc (estep (λ _ : nat, false)) s s' →
    lastAvailable (epool s') = -1 ∧ ∀ s'', estep (λ _ : nat, false) s' s'' → queue s' `prefix_of` queue s''.
Proof. exact (throwing_handlers_starve (λ _ : nat, false) 2 7%nat eq_refl). Defined.
End TaskManager.
