(* ===== verification/Counters.v ===== *)
(** The statistics counters of the task manager ([src/src/TaskManager.cpp]), which the
    metrics of the server show: the tasks of [Tasks] with the calls that count them. *)

From Stdlib Require Import String ZArith Lia Permutation.
From S2P Require Import Prelude Types IdGen LinkTree TxScope TxMgr Tasks.

Module TaskCounters.
Import TaskManager.

(** ** The counters *)

(** TaskManager, the counters -- src/src/TaskManager.h:151-157 *)
Record Stats := mkStats { created_ : Z; processed_ : Z; finished_ : Z; createdTr_ : Z; processedTr_ : Z; finishedTr_ : Z }.

(** The constructor sets them to 0. *)
Definition zero : Stats := mkStats 0 0 0 0 0 0.

(** [fetch_add(1)] on a [std::atomic<int>], which wraps around. *)
Definition fetch_add1 (z : Z) : Z := if z =? 2 ^ 31 - 1 then - 2 ^ 31 else z + 1.

(** TaskManager::taskCreated -- src/src/TaskManager.cpp:287-291 *)
Definition taskCreated (c : Stats) : Stats :=
  mkStats (fetch_add1 (created_ c)) (processed_ c) (finished_ c) (createdTr_ c) (processedTr_ c) (finishedTr_ c).
(** TaskManager::taskProcessed -- src/src/TaskManager.cpp:293-297 *)
Definition taskProcessed (c : Stats) : Stats :=
  mkStats (created_ c) (fetch_add1 (processed_ c)) (finished_ c) (createdTr_ c) (processedTr_ c) (finishedTr_ c).
(** TaskManager::taskFinished -- src/src/TaskManager.cpp:299-303 *)
Definition taskFinished (c : Stats) : Stats :=
  mkStats (created_ c) (processed_ c) (fetch_add1 (finished_ c)) (createdTr_ c) (processedTr_ c) (finishedTr_ c).
(** TaskManager::taskCreatedTr -- src/src/TaskManager.cpp:305-309 *)
Definition taskCreatedTr (c : Stats) : Stats :=
  mkStats (created_ c) (processed_ c) (finished_ c) (fetch_add1 (createdTr_ c)) (processedTr_ c) (finishedTr_ c).
(** TaskManager::taskProcessedTr -- src/src/TaskManager.cpp:311-315 *)
Definition taskProcessedTr (c : Stats) : Stats :=
  mkStats (created_ c) (processed_ c) (finished_ c) (createdTr_ c) (fetch_add1 (processedTr_ c)) (finishedTr_ c).
(** TaskManager::taskFinishedTr -- src/src/TaskManager.cpp:317-321 *)
Definition taskFinishedTr (c : Stats) : Stats :=
  mkStats (created_ c) (processed_ c) (finished_ c) (createdTr_ c) (processedTr_ c) (fetch_add1 (finishedTr_ c)).

(** What an [int] that was incremented [n] times from 0 shows. *)
Definition as_int (n : nat) : Z := (Z.of_nat n + 2 ^ 31) `mod` 2 ^ 32 - 2 ^ 31.

Lemma fetch_add1_as_int n : fetch_add1 (as_int n) = as_int (S n).
Proof.
  unfold fetch_add1, as_int. rewrite Nat2Z.inj_succ. pose proof (Z.mod_pos_bound (Z.of_nat n + 2 ^ 31) (2 ^ 32)) as Hb.
  replace (Z.succ (Z.of_nat n) + 2 ^ 31) with (Z.of_nat n + 2 ^ 31 + 1) by lia. set (x := Z.of_nat n + 2 ^ 31) in *.
  rewrite <- (Z.add_mod_idemp_l x 1) by lia. destruct (Z.eqb_spec (x `mod` 2 ^ 32 - 2 ^ 31) (2 ^ 31 - 1)) as [E|E].
  - by replace (x `mod` 2 ^ 32 + 1) with (2 ^ 32) by lia.
  - rewrite (Z.mod_small (x `mod` 2 ^ 32 + 1)) by lia. lia.
Qed.

Lemma as_int_small n : Z.of_nat n < 2 ^ 31 → as_int n = Z.of_nat n.
Proof. intros Hn. unfold as_int. rewrite Z.mod_small by lia. lia. Qed.

(** How many points of a list are of a sort. *)
Definition count {A} (P : A → bool) (l : list A) : nat := sum_list_with (λ a, if P a then 1 else 0)%nat l.

Lemma count_at {A} (P : A → bool) (l1 l2 : list A) m : count P (l1 ++ m ++ l2) = (count P m + (count P l1 + count P l2))%nat.
Proof. unfold count. rewrite !sum_list_with_app. lia. Qed.

(** A counter that went up by one, and sums over points. *)
Ltac count_up := cbn; match goal with H : _ = as_int _ |- _ => rewrite H; apply fetch_add1_as_int end.
Ltac count_points := rewrite ?Nat2Z.inj_add in *; cbn in *; rewrite ?Nat2Z.inj_add in *; lia.

(** ** The tasks of events *)

(** Where a thread stands: before a call of [onNewEvent] ([tail] if it is the one at the
    end of a task); with a processor, before [taskCreated]; in the task, before
    [process], before [taskProcessed], before [finishEvent]; before [taskFinished]. *)
Inductive EPoint := PCall (tail : bool) | PStart (proc : nat) (tail : bool) | PRun (proc : nat)
  | PProcessed (proc : nat) (rez : bool) | PDone (proc : nat) (rez : bool) | PFinish.

(** What follows the last call of [onNewEvent] in a task. *)
Definition after_call (tail : bool) : list EPoint := if tail then [PFinish] else [].

Section events.
Context {E : Type} (handles : E → bool).

(** Pool, queue and counters. *)
Abbreviation EState := (Pool * list E * Stats)%type.

Definition on_epool {A} (c : M Pool A) : M EState A := λ s, let r := c s.1.1 in (r.1, (r.2, s.1.2, s.2)).
Definition on_queue {A} (c : M (list E) A) : M EState A := λ s, let r := c s.1.2 in (r.1, (s.1.1, r.2, s.2)).
Definition on_stats (f : Stats → Stats) : M EState unit := modify (λ s, (s.1, f s.2)).

(** TaskManager::onNewEvent with its task -- src/src/TaskManager.cpp:248-277
    The next step of a thread, and where it leaves off. *)
Definition eperform (a : EPoint) : M EState (list EPoint) :=
  match a with
  | PCall tail =>
      l <- on_epool onNewEvent ;;
      ret (match l with [ERun x] => [PStart x tail] | _ => after_call tail end)
  | PStart x tail => on_stats taskCreated ;;; ret (PRun x :: after_call tail)
  | PRun x =>
      l <- on_queue (process handles x) ;;
      ret (match l with [EDone y rez] => [PProcessed y rez] | _ => [] end)
  | PProcessed x rez => on_stats taskProcessed ;;; ret [PDone x rez]
  | PDone x rez =>
      l <- on_epool (finish_event x rez) ;;
      ret (match l with [ECall] => [PCall true] | _ => [] end)
  | PFinish => on_stats taskFinished ;;; ret []
  end.

(** [pushed] events have entered the queue, the handlers of [threw] of them threw. *)
Record CSys := mkCSys { cstate : EState; points : list EPoint; pushed : nat; threw : nat }.

Definition throws_now (a : EPoint) (s : EState) : bool :=
  match a, s.1.2 with PRun _, e :: _ => negb (handles e) | _, _ => false end.

Inductive cstep : CSys → CSys → Prop :=
  | c_push s e : cstep s (mkCSys (s.(cstate).1.1, s.(cstate).1.2 ++ [e], s.(cstate).2) (points s ++ [PCall false]) (S (pushed s)) (threw s))
  | c_act s a1 a a2 new st' : points s = a1 ++ a :: a2 → eperform a (cstate s) = (Ok new, st') →
      cstep s (mkCSys st' (a1 ++ new ++ a2) (pushed s) (if throws_now a (cstate s) then S (threw s) else threw s)).

Definition cstart (n : nat) : CSys := mkCSys (pool_create n, [], zero) [] 0 0.

(** ** The counted tasks are tasks of [Tasks] *)

Definition eact (a : EPoint) : list EAct :=
  match a with
  | PCall _ => [ECall] | PStart x _ | PRun x => [ERun x] | PProcessed x r | PDone x r => [EDone x r] | PFinish => []
  end.

Definition forget (s : CSys) : ESys := mkESys (cstate s).1.1 (cstate s).1.2 (concat (eact <$> points s)).

Lemma eacts_at (a1 m a2 : list EPoint) : concat (eact <$> a1 ++ m ++ a2) = concat (eact <$> a1) ++ concat (eact <$> m) ++ concat (eact <$> a2).
Proof. by rewrite !fmap_app, !concat_app. Qed.

Lemma onNewEvent_shape p new p' : onNewEvent p = (Ok new, p') → new = [] ∧ p' = p ∨ ∃ x, new = [ERun x] ∧ lastAvailable p' = lastAvailable p - 1.
Proof.
  unfold onNewEvent. destruct (lastAvailable p <? 0); [intros [= <- <-]; by left|]. intros (x & p2 & Et & Er)%bind_ok_inv. injection Er as <- <-.
  right. exists x. split; [done|]. unfold take_last in Et. destruct (slots p !! _) as [[y|]|]; try discriminate. injection Et as _ <-. done.
Qed.

Lemma process_shape x q new q' : process handles x q = (Ok new, q') →
  match q with
  | [] => new = [EDone x false] ∧ q' = []
  | e :: q0 => q' = q0 ∧ new = if handles e then [EDone x true] else []
  end.
Proof. destruct q; intros [= <- <-]; done. Qed.

Lemma finish_event_shape x rez p new p' : finish_event x rez p = (Ok new, p') →
  new = (if rez then [ECall] else []) ∧ lastAvailable p' = lastAvailable p + 1.
Proof.
  intros ([] & p2 & Eg & Er)%bind_ok_inv. injection Er as <- <-. split; [done|]. unfold give_back in Eg.
  destruct ((0 <=? _) && _); [|discriminate]. injection Eg as <-. done.
Qed.

(** What a step does, for every point a thread can stand at. *)
Inductive effect : EPoint → EState → list EPoint → EState → Prop :=
  | ef_none tail p q c : onNewEvent p = (Ok [], p) → effect (PCall tail) (p, q, c) (after_call tail) (p, q, c)
  | ef_take tail x p p' q c : onNewEvent p = (Ok [ERun x], p') → lastAvailable p' = lastAvailable p - 1 →
      effect (PCall tail) (p, q, c) [PStart x tail] (p', q, c)
  | ef_start x tail p q c : effect (PStart x tail) (p, q, c) (PRun x :: after_call tail) (p, q, taskCreated c)
  | ef_empty x p c : effect (PRun x) (p, [], c) [PProcessed x false] (p, [], c)
  | ef_handled x p e q c : handles e = true → effect (PRun x) (p, e :: q, c) [PProcessed x true] (p, q, c)
  | ef_threw x p e q c : handles e = false → effect (PRun x) (p, e :: q, c) [] (p, q, c)
  | ef_processed x rez p q c : effect (PProcessed x rez) (p, q, c) [PDone x rez] (p, q, taskProcessed c)
  | ef_done x rez p p' q c : finish_event x rez p = (Ok (if rez then [ECall] else []), p') → lastAvailable p' = lastAvailable p + 1 →
      effect (PDone x rez) (p, q, c) (if rez then [PCall true] else []) (p', q, c)
  | ef_finish p q c : effect PFinish (p, q, c) [] (p, q, taskFinished c).

Lemma eperform_effect a st new st' : eperform a st = (Ok new, st') → effect a st new st'.
Proof.
  destruct st as [[p q] c]. intros Ep. destruct a as [tail|x tail|x|x rez|x rez|]; cbn [eperform] in Ep; apply bind_ok_inv in Ep as (y & st2 & E1 & E2);
    injection E2 as <- <-.
  - unfold on_epool in E1. cbn in E1. destruct (onNewEvent p) as [r p'] eqn:En. cbn in E1. injection E1 as -> <-.
    destruct (onNewEvent_shape _ _ _ En) as [[-> ->]|(x & -> & Hl)]; by constructor.
  - injection E1 as <- <-. constructor.
  - unfold on_queue in E1. cbn in E1. destruct q as [|e q]; cbn in E1; injection E1 as <- <-; [constructor|].
    destruct (handles e) eqn:He; by constructor.
  - injection E1 as <- <-. constructor.
  - unfold on_epool in E1. cbn in E1. destruct (finish_event x rez p) as [r p'] eqn:En. cbn in E1. injection E1 as -> <-.
    destruct (finish_event_shape _ _ _ _ _ En) as [-> Hl]. destruct rez; [by apply (ef_done x true p p')|by apply (ef_done x false p p')].
  - injection E1 as <- <-. constructor.
Qed.

(** A step of the counted system is one of [Tasks], or only counts. *)
Lemma cstep_forget s s' : cstep s s' → forget s' = forget s ∨ estep handles (forget s) (forget s').
Proof.
  destruct 1 as [s e|s a1 a a2 new st' Ha Ep].
  { right. unfold forget. cbn. rewrite fmap_app, concat_app. apply (e_push handles (forget s) e). }
  assert (forget s = mkESys (cstate s).1.1 (cstate s).1.2 (concat (eact <$> a1) ++ eact a ++ concat (eact <$> a2))) as ->
    by (unfold forget; by rewrite Ha, fmap_app, concat_app).
  unfold forget. cbn [cstate points]. rewrite eacts_at. apply eperform_effect in Ep.
  destruct Ep as [tail p q c En|tail x p p' q c En _|x tail p q c|x p c|x p e q c He|x p e q c He|x rez p q c|x rez p p' q c En _|p q c]; cbn [fst snd].
  - right. replace (concat (eact <$> after_call tail)) with (@nil EAct) by (by destruct tail). by eapply e_call.
  - right. by eapply e_call.
  - left. by destruct tail.
  - right. by eapply e_run.
  - right. eapply e_run; [done|]. cbn. by rewrite He.
  - right. eapply e_run; [done|]. cbn. by rewrite He.
  - by left.
  - right. eapply e_done; [done|]. cbn. rewrite En. by destruct rez.
  - by left.
Qed.

(** ** What the counters show *)

Definition running (a : EPoint) : bool := match a with PRun _ | PProcessed _ _ => true | _ => false end.
Definition holding (a : EPoint) : bool := match a with PStart _ _ | PRun _ | PProcessed _ _ | PDone _ _ => true | _ => false end.
(** The thread has handled an event, which is not counted as finished yet. *)
Definition handling (a : EPoint) : bool :=
  match a with PProcessed _ r | PDone _ r => r | PCall tail | PStart _ tail => tail | PFinish => true | PRun _ => false end.

Definition counted (n : nat) (s : CSys) : Prop := ∃ c p f : nat,
  created_ (cstate s).2 = as_int c ∧ processed_ (cstate s).2 = as_int p ∧ finished_ (cstate s).2 = as_int f ∧
  c = (p + count running (points s) + threw s)%nat ∧
  pushed s = (length (cstate s).1.2 + count handling (points s) + threw s + f)%nat ∧
  lastAvailable (cstate s).1.1 + 1 + Z.of_nat (count holding (points s)) + Z.of_nat (threw s) = Z.of_nat n.

Lemma cstep_counted n s s' : counted n s → cstep s s' → counted n s'.
Proof.
  intros (c & p & f & Hc & Hp & Hf & Hcp & Hpu & Hl). destruct 1 as [s e|s a1 a a2 new st' Ha Ep].
  { exists c, p, f. cbn. unfold count in *. rewrite !sum_list_with_app, !length_app. cbn. split_and!; try done; lia. }
  rewrite Ha in *. change (a :: a2) with ([a] ++ a2) in *. rewrite !count_at in *. apply eperform_effect in Ep.
  destruct Ep as [tail q0 q k En|tail x q0 q' q k En El|x tail q0 q k|x q0 k|x q0 e q k He|x q0 e q k He|x rez q0 q k|x rez q0 q' q k En El|q0 q k];
    unfold counted; cbn [cstate points pushed threw fst snd throws_now] in *; rewrite ?He; cbn [negb]; rewrite !count_at.
  all: try destruct tail; try destruct rez; cbn [after_call] in *.
  all: first [by exists c, p, f; split_and!; (assumption || count_points)
    |by exists (S c), p, f; split_and!; (assumption || count_up || count_points)
    |by exists c, (S p), f; split_and!; (assumption || count_up || count_points)
    |by exists c, p, (S f); split_and!; (assumption || count_up || count_points)].
Qed.

Lemma cstart_counted n : counted n (cstart n).
Proof. exists O, O, O. cbn. split_and!; try done. lia. Qed.

(** The counters of the event tasks, in every interleaving.  The counted system does what
    the tasks of [Tasks] do; the number of tasks created exceeds that of the tasks processed by the tasks
    that run and those whose handler threw; an event that was pushed is in the queue, being
    handled, was refused with an exception or is counted as finished; and a processor is in the pool, with
    a thread, or was lost with an exception.  So, when no thread is left, the counters
    show exactly how many events were handled and how many processors were lost. *)
Theorem event_counters n s : rtc cstep (cstart n) s →
  rtc (estep handles) (estart n) (forget s) ∧ counted n s ∧
  (points s = [] → ∃ p, created_ (cstate s).2 = as_int (p + threw s) ∧ processed_ (cstate s).2 = as_int p ∧
     finished_ (cstate s).2 = as_int (pushed s - length (cstate s).1.2 - threw s) ∧
     lastAvailable (cstate s).1.1 = Z.of_nat n - 1 - Z.of_nat (threw s)).
Proof.
  intros Hr. assert (rtc (estep handles) (estart n) (forget s) ∧ counted n s) as [H1 H2].
  { apply (rtc_ind_r (R := cstep) (λ s, rtc (estep handles) (estart n) (forget s) ∧ counted n s) (cstart n)); [split; [constructor|apply cstart_counted]| |done].
    intros s1 s2 _ Hs [IH1 IH2]. split; [|by eapply cstep_counted]. destruct (cstep_forget _ _ Hs) as [->|He]; [done|]. by eapply rtc_r. }
  split_and!; [done|done|]. intros E0. destruct H2 as (c & p & f & Hc & Hp & Hf & Hcp & Hpu & Hl). rewrite E0 in *. cbn in *. exists p. split_and!; [|done| |lia].
  - rewrite Hc, Hcp. f_equal. lia.
  - rewrite Hf. f_equal. lia.
Qed.
End events.

(** ** The tasks of transactions *)

(** The same points for the tasks of [onReadyToExecute]; [QRem] is before
    [removeTransaction]. *)
Inductive TPoint := QCall (tail : bool) | QStart (k : IdT) (proc : nat) (tail : bool) | QRun (k : IdT) (proc : nat)
  | QProcessed (k : IdT) (proc : nat) | QFin (k : IdT) (proc : nat) | QRem (k : IdT) | QFinish.

Definition after_ready (tail : bool) : list TPoint := if tail then [QFinish] else [].

Section transactions.
Context {T : Type} `{Transaction T}.

(** Manager, pool and counters. *)
Abbreviation TState := (TransactionMgr.t T * Pool * Stats)%type.

Definition on_core {A} (c : M (TransactionMgr.t T * Pool) A) : M TState A := λ s, let r := c s.1 in (r.1, (r.2, s.2)).
Definition on_trstats (f : Stats → Stats) : M TState unit := modify (λ s, (s.1, f s.2)).

(** TaskManager::onReadyToExecute with its task -- src/src/TaskManager.cpp:187-215
    The next step of a thread, and where it leaves off; the observer's calls during
    [removeTransaction] do not end a task, the call after it does.  [returns] is the
    outcome of [proc->process(id, tr)]; an exception ends the task there. *)
Definition tperform (returns : bool) (a : TPoint) : M TState (list TPoint) :=
  match a with
  | QCall tail =>
      l <- on_core onReadyToExecute ;;
      ret (match l with [Run k x] => [QStart k x tail] | _ => after_ready tail end)
  | QStart k x tail => on_trstats taskCreatedTr ;;; ret (QRun k x :: after_ready tail)
  | QRun k x => ret (if returns then [QProcessed k x] else [])
  | QProcessed k x => on_trstats taskProcessedTr ;;; ret [QFin k x]
  | QFin k x => on_core (on_pool (give_back x)) ;;; ret [QRem k]
  | QRem k => l <- on_core (finish k) ;; ret (replicate (length l - 1) (QCall false) ++ [QCall true])
  | QFinish => on_trstats taskFinishedTr ;;; ret []
  end.

Definition tlose (returns : bool) (a : TPoint) : list (IdT * nat) :=
  match a with QRun k x => if returns then [] else [(k, x)] | _ => [] end.

(** [submitted] transactions were given to the manager; [tlost] are the transactions and
    processors of the tasks that ended with an exception. *)
Record TSys := mkTSys { tstate : TState; tpoints : list TPoint; submitted : nat; tlost : list (IdT * nat) }.

Inductive tstep : TSys → TSys → Prop :=
  | t_submit s tr now objs m' : TransactionMgr.may_draw (tstate s).1.1 → TransactionMgr.clock_ok now →
      isValidId (transactionId tr) = false → getRelatedObjects tr = Ok objs →
      TransactionMgr.addTransaction tr now (tstate s).1.1 = (Ok tt, m') →
      tstep s (mkTSys (m', (tstate s).1.2, (tstate s).2)
        (tpoints s ++ replicate (length (calls (tstate s).1.1 m')) (QCall false)) (S (submitted s)) (tlost s))
  | t_act s a1 a a2 returns new st' : tpoints s = a1 ++ a :: a2 → tperform returns a (tstate s) = (Ok new, st') →
      tstep s (mkTSys st' (a1 ++ new ++ a2) (submitted s) (tlose returns a ++ tlost s)).

Definition tstart (n : nat) : TSys := mkTSys (mgr (T := T) (start n), pool_create n, zero) [] 0 [].

Definition tact (a : TPoint) : list Act :=
  match a with
  | QCall _ => [Call] | QStart k x _ | QRun k x => [Run k x] | QProcessed k x | QFin k x => [Fin k x]
  | QRem k => [Rem k] | QFinish => []
  end.

Definition forget_tr (s : TSys) : Sys := mkSys (tstate s).1.1 (tstate s).1.2 (concat (tact <$> tpoints s)) (tlost s).

Lemma acts_at (a1 m a2 : list TPoint) : concat (tact <$> a1 ++ m ++ a2) = concat (tact <$> a1) ++ concat (tact <$> m) ++ concat (tact <$> a2).
Proof. by rewrite !fmap_app, !concat_app. Qed.

Lemma calls_tact b n : concat (tact <$> replicate n (QCall b)) = replicate n Call.
Proof. induction n as [|n IH]; [done|]. cbn. by rewrite IH. Qed.

Lemma calls_length (m m' : TransactionMgr.t T) : calls m m' = replicate (length (calls m m')) Call.
Proof. unfold calls. by rewrite length_replicate. Qed.

Lemma onReady_shape (c : TransactionMgr.t T * Pool) new c' : onReadyToExecute c = (Ok new, c') → new = [] ∨ ∃ k x, new = [Run k x].
Proof.
  intros (p & c1 & E1 & E2)%bind_ok_inv. destruct (lastAvailable p <? 0); [injection E2 as <- <-; by left|].
  apply bind_ok_inv in E2 as (r & c2 & _ & E2). destruct r as [[k v]|]; [|injection E2 as <- <-; by left].
  apply bind_ok_inv in E2 as (x & c3 & _ & E2). injection E2 as <- <-. right. by exists k, x.
Qed.

Lemma finish_shape k (c : TransactionMgr.t T * Pool) new c' : finish k c = (Ok new, c') → ∃ i, new = replicate i Call ++ [Call].
Proof.
  unfold finish. destruct (on_mgr _ c) as [[b|?|?] c2]; [|done|done]. intros [= <- <-]. eexists. by rewrite calls_length.
Qed.

Inductive teffect (returns : bool) : TPoint → TState → list TPoint → TState → Prop :=
  | te_none tail c c' k : onReadyToExecute c = (Ok [], c') → teffect returns (QCall tail) (c, k) (after_ready tail) (c', k)
  | te_take tail j x c c' k : onReadyToExecute c = (Ok [Run j x], c') → teffect returns (QCall tail) (c, k) [QStart j x tail] (c', k)
  | te_start j x tail c k : teffect returns (QStart j x tail) (c, k) (QRun j x :: after_ready tail) (c, taskCreatedTr k)
  | te_run j x c k : teffect returns (QRun j x) (c, k) (if returns then [QProcessed j x] else []) (c, k)
  | te_processed j x c k : teffect returns (QProcessed j x) (c, k) [QFin j x] (c, taskProcessedTr k)
  | te_fin j x c c' k : on_pool (give_back x) c = (Ok tt, c') → teffect returns (QFin j x) (c, k) [QRem j] (c', k)
  | te_rem j i c c' k : finish j c = (Ok (replicate i Call ++ [Call]), c') → teffect returns (QRem j) (c, k) (replicate i (QCall false) ++ [QCall true]) (c', k)
  | te_finish c k : teffect returns QFinish (c, k) [] (c, taskFinishedTr k).

Lemma tperform_effect returns a st new st' : tperform returns a st = (Ok new, st') → teffect returns a st new st'.
Proof.
  destruct st as [c k]. intros Ep. destruct a as [tail|j x tail|j x|j x|j x|j|]; cbn [tperform] in Ep; [..|injection Ep as <- <-; constructor].
  3:{ injection Ep as <- <-. constructor. }
  all: apply bind_ok_inv in Ep as (y & st2 & E1 & E2); injection E2 as <- <-.
  - unfold on_core in E1. destruct (onReadyToExecute (c, k).1) as [r c'] eqn:En. cbn [fst snd] in E1. injection E1 as -> <-. destruct (onReady_shape _ _ _ En) as [->|(j & x & ->)]; by constructor.
  - injection E1 as <- <-. constructor.
  - injection E1 as <- <-. constructor.
  - unfold on_core in E1. destruct (on_pool (give_back x) (c, k).1) as [r c'] eqn:En. cbn [fst snd] in E1. injection E1 as -> <-. destruct y. by constructor.
  - unfold on_core in E1. destruct (finish j (c, k).1) as [r c'] eqn:En. cbn [fst snd] in E1. injection E1 as -> <-.
    destruct (finish_shape _ _ _ _ En) as [i ->]. rewrite length_app, length_replicate. cbn. rewrite Nat.add_sub. by constructor.
Qed.

Lemma wstep_at m p m' p' a1 a a2 returns new ls ls' : perform returns a (m, p) = (Ok new, (m', p')) → ls' = lose returns a ++ ls →
  step (T := T) (mkSys m p (a1 ++ a :: a2) ls) (mkSys m' p' (a1 ++ new ++ a2) ls').
Proof. intros Ep ->. by apply s_work, (w_act (mkSys m p (a1 ++ a :: a2) ls)). Qed.

(** A step of the counted system is one of [Tasks], or only counts. *)
Lemma tstep_forget s s' : tstep s s' → forget_tr s' = forget_tr s ∨ step (forget_tr s) (forget_tr s').
Proof.
  destruct 1 as [s tr now objs m' Hd Hc Hid Ho Ea|s a1 a a2 returns new st' Ha Ep].
  { right. unfold forget_tr at 2. cbn [tstate tpoints fst snd]. rewrite fmap_app, concat_app, calls_tact, <- calls_length.
    by apply (s_submit (forget_tr s) tr now objs m'). }
  assert (forget_tr s = mkSys (tstate s).1.1 (tstate s).1.2 (concat (tact <$> a1) ++ tact a ++ concat (tact <$> a2)) (tlost s)) as ->
    by (unfold forget_tr; by rewrite Ha, fmap_app, concat_app).
  unfold forget_tr. cbn [tstate tpoints tlost]. rewrite acts_at. apply tperform_effect in Ep.
  destruct Ep as [tail [m p] [m' p'] k En|tail j x [m p] [m' p'] k En|j x tail [m p] k|j x [m p] k|j x [m p] k|j x [m p] [m' p'] k En|j i [m p] [m' p'] k En|[m p] k]; cbn [fst snd].
  - right. replace (concat (tact <$> after_ready tail)) with (@nil Act) by (by destruct tail). by apply (wstep_at _ _ _ _ _ Call _ true).
  - right. by apply (wstep_at _ _ _ _ _ Call _ true).
  - left. by destruct tail.
  - right. destruct returns; [by apply (wstep_at _ _ _ _ _ (Run j x) _ true)|by apply (wstep_at _ _ _ _ _ (Run j x) _ false)].
  - by left.
  - right. apply (wstep_at _ _ _ _ _ (Fin j x) _ true); [|done]. cbn [perform]. by rewrite (bind_ok _ _ _ _ _ En).
  - right. rewrite fmap_app, concat_app, calls_tact. by apply (wstep_at _ _ _ _ _ (Rem j) _ true).
  - by left.
Qed.

(** *** The transactions in the manager *)

Definition live_keys (m : TransactionMgr.t T) : nat := size (NLinkTree.keys (TransactionMgr.transactionTree m)).

Lemma ready_keys n m p a1 a2 ls new m' p' : (0 < n)%nat → Inv n (mkSys m p (a1 ++ Call :: a2) ls) → onReadyToExecute (m, p) = (Ok new, (m', p')) →
  live_keys m' = live_keys m.
Proof.
  intros Hn [(c & q & w & Hi & _ & Hs & _) _] Er. unfold onReadyToExecute in Er. apply bind_ok_inv in Er as (p0 & c0 & E0 & Er). injection E0 as <- <-. cbn [snd] in Er.
  destruct (lastAvailable p <? 0); [by injection Er as _ <- _|]. apply bind_ok_inv in Er as (r & [m2 p2] & E1 & Er).
  pose proof (mgr_next m c q w Hi Hs) as Hx. assert (NLinkTree.keys (TransactionMgr.transactionTree m2) = NLinkTree.keys (TransactionMgr.transactionTree m)) as Ek.
  { unfold on_mgr in E1. cbn [fst snd] in E1. destruct w as [|k w]; [rewrite Hx in E1; by injection E1 as _ <- _|].
    destruct Hx as (v & m3 & Hx & _ & _ & _ & Hk). rewrite Hx in E1. by injection E1 as _ <- _. }
  unfold live_keys. rewrite <- Ek. do 2 f_equal. destruct r as [[k v]|]; [|by injection Er as _ <- _]. apply bind_ok_inv in Er as (x & [m3 p3] & E2 & Er). injection Er as _ <- _.
  unfold on_pool in E2. by injection E2 as _ <- _.
Qed.

Lemma finish_keys n m p a1 k a2 ls new m' p' : Inv n (mkSys m p (a1 ++ Rem k :: a2) ls) → finish k (m, p) = (Ok new, (m', p')) →
  live_keys m = S (live_keys m').
Proof.
  intros [(c & q & w & Hi & Ho & Hs & Hq & _) _] Ef. cbn [mgr acts lost] in *. rewrite held_at in Hq. cbn in Hq.
  assert (k ∈ q) as Hin by (rewrite Hq; set_solver). apply list_elem_of_split in Hin as (p1 & p2 & ->).
  destruct (mgr_remove m c p1 k p2 w Hi Ho Hs) as (m2 & new2 & E & _ & _ & _ & _ & Hl & Hk).
  unfold finish, on_mgr in Ef. cbn [fst snd] in Ef. rewrite E in Ef. cbn in Ef. injection Ef as _ <- _.
  pose proof (size_remove _ _ k Hl Hk). unfold live_keys. lia.
Qed.

Lemma submit_keys n m p l ls tr now objs m' : Inv n (mkSys m p l ls) → TransactionMgr.may_draw m → TransactionMgr.clock_ok now →
  isValidId (transactionId tr) = false → getRelatedObjects tr = Ok objs → TransactionMgr.addTransaction tr now m = (Ok tt, m') →
  live_keys m' = S (live_keys m).
Proof.
  intros [(c & q & w & Hi & _) _] Hd Hc Hid Ho E. cbn [mgr] in *.
  destruct (TransactionMgr.addTransaction_ok m c tr now objs Hi (Hd c (TransactionMgr.inv_counter _ _ Hi)) Hc Hid Ho) as (m2 & E2 & Hi2 & Hl & _).
  rewrite E in E2. injection E2 as <-. set (k := mkIdT c (wrap32 now)) in *.
  assert (¬ TransactionMgr.live m k) as Hk by (intros Hk; pose proof (TransactionMgr.inv_below _ _ Hi _ Hk) as Hlt; cbn in Hlt; lia).
  pose proof (size_remove (NLinkTree.keys (TransactionMgr.transactionTree m')) (NLinkTree.keys (TransactionMgr.transactionTree m)) k) as Hsz.
  unfold TransactionMgr.live in *. lapply Hsz; [intros H2; lapply H2; [unfold live_keys; lia|apply Hl; by left]|].
  intros j. specialize (Hl j). unfold NLinkTree.live in *. rewrite Hl. split; [intros Hj; split; [by right|intros ->; done]|]. intros [[->|?] ?]; done.
Qed.

(** *** What the counters show *)

Definition trunning (a : TPoint) : bool := match a with QRun _ _ | QProcessed _ _ => true | _ => false end.
Definition trdone (a : TPoint) : bool := match a with QFin _ _ | QRem _ => true | _ => false end.
(** The transaction of the thread is removed, its task not counted as finished yet. *)
Definition trtail (a : TPoint) : bool := match a with QCall tail | QStart _ _ tail => tail | QFinish => true | _ => false end.

Definition counted_tr (s : TSys) : Prop := ∃ c p f : nat,
  createdTr_ (tstate s).2 = as_int c ∧ processedTr_ (tstate s).2 = as_int p ∧ finishedTr_ (tstate s).2 = as_int f ∧
  c = (p + count trunning (tpoints s) + length (tlost s))%nat ∧
  p = (count trdone (tpoints s) + count trtail (tpoints s) + f)%nat ∧
  submitted s = (live_keys (tstate s).1.1 + count trtail (tpoints s) + f)%nat.

Lemma count_calls P n : P (QCall false) = false → count P (replicate n (QCall false)) = O.
Proof. intros Hp. unfold count. induction n as [|n IH]; [done|]. cbn. by rewrite Hp, IH. Qed.

Lemma tstep_counted n s s' : (0 < n)%nat → Inv n (forget_tr s) → counted_tr s → tstep s s' → counted_tr s'.
Proof.
  intros Hn Hi (c & p & f & Hc & Hp & Hf & Hcp & Hpf & Hs). destruct 1 as [s tr now objs m' Hd Hck Hid Ho Ea|s a1 a a2 returns new st' Ha Ep].
  { exists c, p, f. cbn [tstate tpoints submitted tlost fst snd]. pose proof (submit_keys _ _ _ _ _ _ _ _ _ Hi Hd Hck Hid Ho Ea) as Hk.
    unfold forget_tr in Hk. cbn [mgr] in Hk. rewrite <- (app_nil_r (replicate _ _)), !count_at, !count_calls by done. cbn.
    rewrite Nat.add_0_r. split_and!; try done; lia. }
  unfold forget_tr in Hi. rewrite Ha in *. change (a :: a2) with ([a] ++ a2) in *. rewrite !count_at in *. rewrite acts_at in Hi. apply tperform_effect in Ep.
  destruct Ep as [tail [m q] [m' q'] k En|tail j x [m q] [m' q'] k En|j x tail [m q] k|j x [m q] k|j x [m q] k|j x [m q] [m' q'] k En|j i [m q] [m' q'] k En|[m q] k];
    unfold counted_tr; cbn [tstate tpoints submitted tlost fst snd] in *; rewrite !count_at.
  all: try (pose proof (ready_keys _ _ _ _ _ _ _ _ _ Hn Hi En) as Hk).
  all: try (pose proof (finish_keys _ _ _ _ _ _ _ _ _ _ Hi En) as Hk).
  all: try (assert (m' = m) as -> by (unfold on_pool in En; by injection En as _ <- _)).
  all: try (rewrite <- (app_nil_r [QCall true]), !count_at, !count_calls by done).
  all: try destruct tail; try destruct returns; cbn [after_ready tlose app length] in *.
  all: first [by exists c, p, f; split_and!; (assumption || count_points)
    |by exists (S c), p, f; split_and!; (assumption || count_up || count_points)
    |by exists c, (S p), f; split_and!; (assumption || count_up || count_points)
    |by exists c, p, (S f); split_and!; (assumption || count_up || count_points)].
Qed.

(** C25: The counters of the transaction tasks, in every interleaving and whichever calls
    of [process] throw.  The counted system does what the tasks of [Tasks] do.  The tasks
    created are those processed, those that run and those whose [process] threw; the ones processed
    are about to remove their transaction, have done so or are counted as finished; a
    submitted transaction is in the manager or its task is past its removal.  So, when no
    thread is left, processed and finished agree and count the transactions that left the
    manager, created exceeds them by the tasks that threw, and if none threw each
    of the three counters is the number of transactions ever submitted, at the width of an
    [int]. *)
Theorem transaction_counters n s : (0 < n)%nat → rtc tstep (tstart n) s →
  reachable n (forget_tr s) ∧ counted_tr s ∧
  (tpoints s = [] → ∃ f : nat, submitted s = (live_keys (tstate s).1.1 + f)%nat ∧
     createdTr_ (tstate s).2 = as_int (f + length (tlost s)) ∧ processedTr_ (tstate s).2 = as_int f ∧
     finishedTr_ (tstate s).2 = as_int f ∧
     (tlost s = [] → f = submitted s)).
Proof.
  intros Hn Hr. assert (reachable n (forget_tr s) ∧ counted_tr s) as [H1 H2].
  { apply (rtc_ind_r (R := tstep) (λ s, reachable n (forget_tr s) ∧ counted_tr s) (tstart n)); [split; [constructor|]| |done].
    - by exists O, O, O.
    - intros s1 s2 _ Hs [IH1 IH2]. split; [|by eapply tstep_counted; [|by apply reachable_ok|..]].
      destruct (tstep_forget _ _ Hs) as [->|He]; [done|]. by eapply rtc_r. }
  split_and!; [done|done|]. intros E. destruct H2 as (c & p & f & Hc & Hp & Hf & Hcp & Hpf & Hs). rewrite E in *. cbn in Hcp, Hpf, Hs.
  exists f. rewrite Hc, Hp, Hf. split_and!; [lia|f_equal; lia|f_equal; lia|done|]. intros El.
  apply reachable_ok in H1; [|done]. assert (live_keys (tstate s).1.1 = O) as Hl; [|lia].
  destruct H1 as [(c0 & q & w & Hi & _ & (Hroot & _) & Hq & Hw) _]. unfold forget_tr in *. cbn [mgr acts lost] in *. rewrite E, El in *. cbn in Hq, Hw.
  apply Permutation_nil_r in Hq as ->. destruct w; [|by destruct Hw]. unfold live_keys. apply map_size_empty_iff, map_empty. intros k.
  apply eq_None_not_Some. intros Hk. by apply (NLinkTree.live_root _ k (TransactionMgr.inv_tree _ _ Hi)) in Hk.
Qed.
End transactions.

(** ** Runs to the end *)

Section runs.
Context {E : Type} (handles : E → bool) {T : Type} `{Transaction T}.

(** The first thread makes a step. *)
Definition ework (s : CSys (E := E)) : CSys :=
  match points s with
  | [] => s
  | a :: l => match eperform handles a (cstate s) with
              | (Ok new, st') => mkCSys st' ([] ++ new ++ l) (pushed s) (if throws_now handles a (cstate s) then S (threw s) else threw s)
              | _ => s
              end
  end.

Definition twork (returns : bool) (s : TSys (T := T)) : TSys :=
  match tpoints s with
  | [] => s
  | a :: l => match tperform returns a (tstate s) with
              | (Ok new, st') => mkTSys st' ([] ++ new ++ l) (submitted s) (tlose returns a ++ tlost s)
              | _ => s
              end
  end.

Lemma ework_step s : rtc (cstep handles) s (ework s).
Proof.
  unfold ework. destruct (points s) as [|a l] eqn:Ep; [done|].
  destruct (eperform handles a (cstate s)) as [[new|?|?] st'] eqn:Ee; [|done|done]. by eapply rtc_once, c_act.
Qed.

Lemma twork_step returns s : rtc tstep s (twork returns s).
Proof.
  unfold twork. destruct (tpoints s) as [|a l] eqn:Ep; [done|].
  destruct (tperform _ a (tstate s)) as [[new|?|?] st'] eqn:Ee; [|done|done]. by eapply rtc_once, t_act.
Qed.

Lemma iter_rtc {A} (R : relation A) f k s : (∀ s, rtc R s (f s)) → rtc R s (Nat.iter k f s).
Proof. intros Hf. induction k as [|k IH]; [done|]. cbn. etrans; [exact IH|]. apply Hf. Qed.
End runs.

(** Two processors, an event that is handled and one whose handler throws. *)
Definition ex_pushed : CSys := mkCSys (pool_create 2, [true; false], zero) [PCall false; PCall false] 2 0.
Definition ex_events : CSys := Nat.iter 20 (ework id) ex_pushed.

Lemma event_counters_witness : points ex_events = [] ∧ lastAvailable (cstate ex_events).1.1 = 0 ∧ finished_ (cstate ex_events).2 = 1.
Proof.
  destruct (event_counters id 2 ex_events) as (_ & _ & Hrest).
  - apply (rtc_l _ _ (mkCSys (pool_create 2, [true], zero) [PCall false] 1 0)); [apply (c_push id (cstart 2) true)|].
    eapply rtc_l; [apply (c_push id _ false)|]. apply (iter_rtc _ (ework id) 20), ework_step.
  - assert (points ex_events = []) as E by (vm_compute; reflexivity). destruct (Hrest E) as (p & _ & _ & Hf & Hl).
    split; [exact E|]. rewrite Hl, Hf. split; vm_compute; reflexivity.
Defined.

#[local] Existing Instance TransactionMgr.ex_operation.

(** One transaction. *)
Definition ex_tstart : TSys (T := TransactionScope.t Z) := tstart 2.
Definition ex_mgr : TransactionMgr.t (TransactionScope.t Z) :=
  (TransactionMgr.addTransaction (TransactionMgr.ex_tr [5; 6]) 1000 (tstate ex_tstart).1.1).2.
Definition ex_submitted : TSys (T := TransactionScope.t Z) :=
  mkTSys (ex_mgr, (tstate ex_tstart).1.2, (tstate ex_tstart).2)
    (tpoints ex_tstart ++ replicate (length (calls (tstate ex_tstart).1.1 ex_mgr)) (QCall false)) (S (submitted ex_tstart)) [].
Definition ex_trs : TSys (T := TransactionScope.t Z) := Nat.iter 10 (twork true) ex_submitted.

Lemma transaction_counters_witness : tpoints ex_trs = [] ∧ createdTr_ (tstate ex_trs).2 = 1 ∧ finishedTr_ (tstate ex_trs).2 = 1.
Proof.
  destruct (transaction_counters 2 ex_trs) as (_ & _ & Hrest).
  - lia.
  - apply (rtc_l _ ex_tstart ex_submitted); [|apply (iter_rtc _ (twork true) 10), twork_step].
    assert ((TransactionMgr.addTransaction (TransactionMgr.ex_tr [5; 6]) 1000 (tstate ex_tstart).1.1).1 = Ok tt) as E by (by vm_compute).
    apply (t_submit ex_tstart (TransactionMgr.ex_tr [5; 6]) 1000 (TransactionMgr.ex_objs [5; 6]) ex_mgr).
    + intros c [= <-]. by vm_compute.
    + by vm_compute.
    + by vm_compute.
    + by vm_compute.
    + rewrite <- E. apply surjective_pairing.
  - assert (tpoints ex_trs = []) as E by (vm_compute; reflexivity). destruct (Hrest E) as (f & _ & Hc & _ & Hf & Hall).
    assert (tlost ex_trs = []) as El by (vm_compute; reflexivity). rewrite El, (Hall El) in Hc. rewrite (Hall El) in Hf.
    split; [exact E|]. rewrite Hc, Hf. split; vm_compute; reflexivity.
Defined.
End TaskCounters.
