(* ===== verification/Pools.v ===== *)
(** The object pools: [src/src/TransactionScopePool.h], [src/src/InterLockCache.h]
    and [src/src/AllocateCache.h].  The lock-free ones are transition systems whose
    steps are the atomic operations of the code, interleaved in any order. *)

From Stdlib Require Import String ZArith Lia Permutation.
From S2P Require Import Prelude.

(** Permutations of appended lists of numbers, by counting. *)
Ltac perm_lia :=
  apply (proj2 (Permutation_count_occ Nat.eq_dec _ _)); let x := fresh "x" in intros x;
  repeat match goal with
  | H : Permutation _ _ |- _ => let E := fresh "E" in pose proof (proj1 (Permutation_count_occ Nat.eq_dec _ _) H x) as E; clear H
  end;
  rewrite ?count_occ_app in *; lia.

(** ** The pool of transaction scopes *)
Module ScopePool.

(** struct TransactionScopePool::Node -- src/src/TransactionScopePool.h:222-231
    Scopes are addresses. *)
Record Node := mkNode { scope : option nat; inUse : bool }.

(** class TransactionScopePool -- src/src/TransactionScopePool.h:57-241
    [fresh] is the next address [new] returns. *)
Record Pool := mkPool { nodes : list Node; head_ : Z; cacheMisses_ : nat; fresh : nat }.

(** TransactionScopePool::TransactionScopePool -- src/src/TransactionScopePool.h:70-112 *)
Definition create (poolSize : nat) : Pool :=
  mkPool ((λ i, mkNode (Some i) false) <$> seq 0 poolSize) 0 0 poolSize.

(** Where a thread with a [PooledTransactionScope] stands: in [acquire], before
    the increment of [head_] and before the exchange on a slot; owner of a slot whose
    scope it has not fetched yet; holder of a pooled or a heap scope; in [detach],
    with the scope read and with the slot's pointer cleared; owner of a scope taken
    out of the pool; done. *)
Inductive PC :=
  | Try (attempts : nat) | Cas (attempts idx : nat) | Got (idx : nat) | Held (idx s : nat) | HeldHeap (s : nat)
  | Det (idx s : nat) | Det2 (idx s : nat) | Out (s : nat) | Done.

Record Sys := mkSys { pool : Pool; threads : list PC }.

Definition set_node (i : nat) (n : Node) (p : Pool) : Pool := mkPool (<[i := n]> (nodes p)) (head_ p) (cacheMisses_ p) (fresh p).

(** TransactionScopePool::acquire -- src/src/TransactionScopePool.h:149-185
    The next atomic operation of a thread in it. *)
Definition acquire_step (pc : PC) (p : Pool) : option (PC * Pool) :=
  match pc with
  | Try a =>
      if (a <? length (nodes p))%nat then
        Some (Cas a (Z.to_nat (head_ p `mod` Z.of_nat (length (nodes p)))),
              mkPool (nodes p) (wrap64 (head_ p + 1)) (cacheMisses_ p) (fresh p))
      else Some (HeldHeap (fresh p), mkPool (nodes p) (head_ p) (S (cacheMisses_ p)) (S (fresh p)))
  | Cas a i =>
      n ← nodes p !! i;
      if inUse n then Some (Try (S a), p) else Some (Got i, set_node i (mkNode (scope n) true) p)
  | Got i =>
      n ← nodes p !! i;
      match scope n with
      | None => Some (Held i (fresh p), let p' := set_node i (mkNode (Some (fresh p)) (inUse n)) p in
                                        mkPool (nodes p') (head_ p') (cacheMisses_ p') (S (fresh p')))
      | Some s => Some (Held i s, p)
      end
  | _ => None
  end.

(** PooledTransactionScope::~PooledTransactionScope -- src/src/TransactionScopePool.h:269-283
    Also the [delete] of a scope that left the pool. *)
Definition destroy_step (pc : PC) (p : Pool) : option (PC * Pool) :=
  match pc with
  | Held i _ => n ← nodes p !! i; Some (Done, set_node i (mkNode (scope n) false) p)
  | HeldHeap _ | Out _ => Some (Done, p)
  | _ => None
  end.

(** TransactionScopePool::detach -- src/src/TransactionScopePool.h:202-209
    Reading the scope, emptying the slot, freeing the slot. *)
Definition detach_step (pc : PC) (p : Pool) : option (PC * Pool) :=
  match pc with
  | Held i _ => n ← nodes p !! i; s ← scope n; Some (Det i s, p)
  | Det i s => n ← nodes p !! i; Some (Det2 i s, set_node i (mkNode None (inUse n)) p)
  | Det2 i s => n ← nodes p !! i; Some (Out s, set_node i (mkNode (scope n) false) p)
  | _ => None
  end.

(** PooledTransactionScope::release -- src/src/TransactionScopePool.h:304-330
    A scope of the pool is detached, one from the heap is given as it is. *)
Definition release_step (pc : PC) (p : Pool) : option (PC * Pool) :=
  match pc with HeldHeap s => Some (Out s, p) | _ => detach_step pc p end.

Inductive step : Sys → Sys → Prop :=
  | st_spawn s : step s (mkSys (pool s) (threads s ++ [Try 0]))
  | st_run s j pc pc' p' : threads s !! j = Some pc →
      acquire_step pc (pool s) = Some (pc', p') ∨ destroy_step pc (pool s) = Some (pc', p') ∨ release_step pc (pool s) = Some (pc', p') →
      step s (mkSys p' (<[j := pc']> (threads s))).

Definition reachable (n : nat) (s : Sys) : Prop := rtc step (mkSys (create n) []) s.

(** The slot a thread owns, and the scope that left the slots with it. *)
Definition owns (pc : PC) : option nat :=
  match pc with Got i | Held i _ | Det i _ | Det2 i _ => Some i | _ => None end.
Definition carries (pc : PC) : option nat :=
  match pc with HeldHeap s | Det2 _ s | Out s => Some s | _ => None end.
(** The scope a thread works with. *)
Definition uses (pc : PC) : option nat :=
  match pc with Held _ s | HeldHeap s | Det _ s | Det2 _ s | Out s => Some s | _ => None end.

Definition owned (l : list PC) : list nat := omap owns l.
Definition scopes (p : Pool) (l : list PC) : list nat := omap scope (nodes p) ++ omap carries l.

(** What a thread relies on in the slot it owns. *)
Definition fits (pc : PC) (n : Node) : Prop :=
  match pc with Held _ x | Det _ x => scope n = Some x | Det2 _ _ => scope n = None | _ => True end.

Record Inv (p : Pool) (l : list PC) : Prop := {
  i_owned : NoDup (owned l);
  i_node pc i : pc ∈ l → owns pc = Some i → ∃ n, nodes p !! i = Some n ∧ inUse n = true ∧ fits pc n;
  i_used i n : nodes p !! i = Some n → inUse n = true → i ∈ owned l;
  i_nodup : NoDup (scopes p l);
  i_fresh x : x ∈ scopes p l → (x < fresh p)%nat;
}.

Definition olist {A} (o : option A) : list A := match o with Some x => [x] | None => [] end.

Lemma omap_at {A B} (f : A → option B) l1 x l2 : omap f (l1 ++ x :: l2) ≡ₚ olist (f x) ++ omap f (l1 ++ l2).
Proof. rewrite !omap_app. cbn [omap list_omap]. destruct (f x); cbn [olist app]; [by rewrite <- Permutation_middle|done]. Qed.

Lemma omap_perm {A B} (f : A → option B) l l' : l ≡ₚ l' → omap f l ≡ₚ omap f l'.
Proof. induction 1; cbn [omap list_omap]; repeat case_match; try done; [by f_equiv|by apply Permutation_swap|by etrans]. Qed.

Lemma omap_update {A B} (f : A → option B) l i x y : l !! i = Some x →
  olist (f x) ++ omap f (<[i := y]> l) ≡ₚ olist (f y) ++ omap f l.
Proof.
  intros Hi. rewrite <- (take_drop_middle l i x Hi) at 2. rewrite (insert_take_drop l i y) by (by eapply lookup_lt_Some).
  rewrite !omap_at. rewrite !(app_assoc (olist _)). by rewrite (Permutation_app_comm (olist (f x))).
Qed.

Lemma Inv_perm p l l' : l ≡ₚ l' → Inv p l → Inv p l'.
Proof.
  intros Hp [H1 H2 H3 H4 H5]. assert (owned l ≡ₚ owned l') as Ho by (by apply omap_perm).
  assert (scopes p l ≡ₚ scopes p l') as Hs by (unfold scopes; by rewrite (omap_perm carries l l' Hp)).
  split.
  - by rewrite <- Ho.
  - intros pc i Hin. apply H2. by rewrite Hp.
  - intros i n Hi Hu. rewrite <- Ho. eauto.
  - by rewrite <- Hs.
  - intros x. rewrite <- Hs. apply H5.
Qed.

(** A step of a thread that touches no slot and no scope. *)
Lemma Inv_quiet p p' pc pc' l : nodes p' = nodes p → fresh p' = fresh p → owns pc = None → owns pc' = None →
  carries pc = carries pc' → Inv p (pc :: l) → Inv p' (pc' :: l).
Proof.
  intros En Ef Eo Eo' Ec [H1 H2 H3 H4 H5]. unfold owned, scopes in *. cbn [omap list_omap] in *. rewrite Eo in *. rewrite Ec in *.
  split; unfold owned, scopes; cbn [omap list_omap]; rewrite ?Eo', ?En, ?Ef; try done.
  intros q i [->|Hq]%elem_of_cons Hi; [congruence|]. apply H2; [by right|done].
Qed.

(** A step of the owner of slot [i] that rewrites the slot, keeping the flag. *)
Lemma Inv_slot p pc pc' l i n n' f : owns pc = Some i → owns pc' = Some i → nodes p !! i = Some n → inUse n' = inUse n →
  fits pc' n' → olist (scope n') ++ olist (carries pc') ≡ₚ olist (scope n) ++ olist (carries pc) ++ seq (fresh p) f →
  Inv p (pc :: l) → Inv (mkPool (<[i := n']> (nodes p)) (head_ p) (cacheMisses_ p) (fresh p + f)) (pc' :: l).
Proof.
  intros Eo Eo' Hn Hu Hf Hsc [H1 H2 H3 H4 H5]. unfold owned in *. cbn [omap list_omap] in *. rewrite Eo in *.
  assert (i < length (nodes p))%nat as Hlt by (by eapply lookup_lt_Some).
  assert (scopes (mkPool (<[i := n']> (nodes p)) (head_ p) (cacheMisses_ p) (fresh p + f)) (pc' :: l) ≡ₚ scopes p (pc :: l) ++ seq (fresh p) f) as Hs.
  { unfold scopes. cbn [nodes]. change (pc' :: l) with ([] ++ pc' :: l). change (pc :: l) with ([] ++ pc :: l). rewrite !omap_at. cbn [app].
    pose proof (omap_update scope _ i n n' Hn) as Hup. perm_lia. }
  split.
  - unfold owned. cbn [omap list_omap]. by rewrite Eo'.
  - intros q j [->|Hq]%elem_of_cons Hj.
    + rewrite Eo' in Hj. injection Hj as <-. exists n'. cbn [nodes]. rewrite list_lookup_insert_eq by done. split; [done|]. split; [|done].
      rewrite Hu. destruct (H2 pc i ltac:(by left) Eo) as (n0 & Hn0 & ? & _). congruence.
    + apply NoDup_cons in H1 as [Hni _]. assert (j ≠ i) as Hji.
      { intros ->. destruct Hni. apply list_elem_of_omap. eauto. }
      cbn [nodes]. rewrite list_lookup_insert_ne by done. apply H2; [by right|done].
  - intros j m Hm Hmu. unfold owned. cbn [omap list_omap nodes] in *. rewrite Eo'. destruct (decide (j = i)) as [->|Hji]; [by left|].
    rewrite list_lookup_insert_ne in Hm by done. by eapply H3.
  - rewrite Hs. apply NoDup_app. split; [done|]. split; [|apply NoDup_seq]. intros x Hx%H5 [Hge _]%elem_of_seq. lia.
  - intros x. rewrite Hs, elem_of_app. cbn [fresh]. intros [Hx%H5|[_ Hx]%elem_of_seq]; lia.
Qed.

(** The slot's flag changes hands; its scope stays. *)
Lemma scopes_flag p i n b : nodes p !! i = Some n → omap scope (<[i := mkNode (scope n) b]> (nodes p)) ≡ₚ omap scope (nodes p).
Proof. intros Hn. pose proof (omap_update scope _ i n (mkNode (scope n) b) Hn) as Hup. cbn [scope] in Hup. by apply Permutation_app_inv_l in Hup. Qed.

Lemma Inv_take p pc l i n : owns pc = None → carries pc = None → nodes p !! i = Some n → inUse n = false →
  Inv p (pc :: l) → Inv (set_node i (mkNode (scope n) true) p) (Got i :: l).
Proof.
  intros Eo Ec Hn Hu [H1 H2 H3 H4 H5]. unfold owned, scopes in *. cbn [omap list_omap] in *. rewrite Eo, Ec in *.
  assert (i < length (nodes p))%nat as Hlt by (by eapply lookup_lt_Some).
  assert (i ∉ omap owns l) as Hni.
  { intros (q & Hq & Hqi)%list_elem_of_omap. destruct (H2 q i ltac:(by right) Hqi) as (n0 & Hn0 & ? & _). congruence. }
  split; unfold owned, scopes; cbn [omap list_omap nodes set_node fresh owns carries].
  - by apply NoDup_cons.
  - intros q j [->|Hq]%elem_of_cons Hj.
    + injection Hj as <-. exists (mkNode (scope n) true). by rewrite list_lookup_insert_eq.
    + rewrite list_lookup_insert_ne; [apply H2; [by right|done]|]. intros ->. destruct Hni. apply list_elem_of_omap. eauto.
  - intros j m Hm Hmu. destruct (decide (j = i)) as [->|Hji]; [by left|]. right. rewrite list_lookup_insert_ne in Hm by done. eauto.
  - by rewrite (scopes_flag p i n true Hn).
  - intros x. rewrite (scopes_flag p i n true Hn). apply H5.
Qed.

Lemma Inv_free p pc pc' l i n : owns pc = Some i → owns pc' = None → carries pc' = carries pc → nodes p !! i = Some n →
  Inv p (pc :: l) → Inv (set_node i (mkNode (scope n) false) p) (pc' :: l).
Proof.
  intros Eo Eo' Ec Hn [H1 H2 H3 H4 H5]. unfold owned, scopes in *. cbn [omap list_omap] in *. rewrite Eo in *.
  assert (i < length (nodes p))%nat as Hlt by (by eapply lookup_lt_Some). apply NoDup_cons in H1 as [Hni H1].
  split; unfold owned, scopes; cbn [omap list_omap nodes set_node fresh]; rewrite ?Eo', ?Ec.
  - done.
  - intros q j [->|Hq]%elem_of_cons Hj; [congruence|]. rewrite list_lookup_insert_ne; [apply H2; [by right|done]|].
    intros ->. destruct Hni. apply list_elem_of_omap. eauto.
  - intros j m Hm Hmu. destruct (decide (j = i)) as [->|Hji].
    + rewrite list_lookup_insert_eq in Hm by done. by injection Hm as <-.
    + rewrite list_lookup_insert_ne in Hm by done. by apply (H3 j m Hm) in Hmu as [?|?]%elem_of_cons.
  - by rewrite (scopes_flag p i n false Hn).
  - intros x. rewrite (scopes_flag p i n false Hn). apply H5.
Qed.

(** A new heap scope, and the end of a scope outside the pool. *)
Lemma Inv_new p pc l k : owns pc = None → carries pc = None → Inv p (pc :: l) →
  Inv (mkPool (nodes p) (head_ p) k (S (fresh p))) (HeldHeap (fresh p) :: l).
Proof.
  intros Eo Ec [H1 H2 H3 H4 H5]. unfold owned, scopes in *. cbn [omap list_omap] in *. rewrite Eo, Ec in *.
  split; unfold owned, scopes; cbn [omap list_omap nodes fresh owns carries]; try done.
  - intros q j [->|Hq]%elem_of_cons Hj; [done|]. apply H2; [by right|done].
  - rewrite <- Permutation_middle. apply NoDup_cons. split; [|done]. intros Hx%H5. lia.
  - intros x. rewrite <- Permutation_middle, elem_of_cons. intros [->|Hx%H5]; lia.
Qed.

Lemma Inv_drop p pc l : owns pc = None → Inv p (pc :: l) → Inv p (Done :: l).
Proof.
  intros Eo [H1 H2 H3 H4 H5]. unfold owned, scopes in *. cbn [omap list_omap] in *. rewrite Eo in *.
  split; unfold owned, scopes; cbn [omap list_omap owns carries]; try done.
  - intros q j [->|Hq]%elem_of_cons Hj; [done|]. apply H2; [by right|done].
  - destruct (carries pc); [|done]. rewrite <- Permutation_middle in H4. by apply NoDup_cons in H4 as [_ ?].
  - intros x Hx. apply H5. destruct (carries pc); [|done]. rewrite <- Permutation_middle. by right.
Qed.

Lemma acquire_ok p pc l pc' p' : acquire_step pc p = Some (pc', p') → Inv p (pc :: l) → Inv p' (pc' :: l).
Proof.
  intros E Hi. destruct pc as [a|a i|i| | | | | |]; cbn [acquire_step] in E; try done.
  - destruct (_ <? _)%nat; injection E as <- <-; [by apply (Inv_quiet p _ (Try a))|by apply (Inv_new p (Try a))].
  - destruct (nodes p !! i) as [n|] eqn:En; [|done]. cbn in E. destruct (inUse n) eqn:Eu; injection E as <- <-.
    + by apply (Inv_quiet p _ (Cas a i)).
    + by apply (Inv_take p (Cas a i)).
  - destruct (nodes p !! i) as [n|] eqn:En; [|done]. cbn in E. destruct (scope n) as [x|] eqn:Es; injection E as <- <-.
    + pose proof (Inv_slot p (Got i) (Held i x) l i n n 0 eq_refl eq_refl En eq_refl Es) as Hst. rewrite list_insert_id, Nat.add_0_r in Hst by done.
      destruct p. apply Hst; [|done]. by rewrite Es.
    + pose proof (Inv_slot p (Got i) (Held i (fresh p)) l i n (mkNode (Some (fresh p)) (inUse n)) 1 eq_refl eq_refl En eq_refl eq_refl) as Hst.
      rewrite Nat.add_1_r in Hst. apply Hst; [|done]. by rewrite Es.
Qed.

Lemma destroy_ok p pc l pc' p' : destroy_step pc p = Some (pc', p') → Inv p (pc :: l) → Inv p' (pc' :: l).
Proof.
  intros E Hi. destruct pc as [a|a i|i|i x|x| | |x|]; cbn [destroy_step] in E; try done.
  - destruct (nodes p !! i) as [n|] eqn:En; [|done]. injection E as <- <-. by apply (Inv_free p (Held i x)).
  - injection E as <- <-. by apply (Inv_drop p (HeldHeap x)).
  - injection E as <- <-. by apply (Inv_drop p (Out x)).
Qed.

Lemma pool_release_ok p pc l pc' p' : release_step pc p = Some (pc', p') → Inv p (pc :: l) → Inv p' (pc' :: l).
Proof.
  intros E Hi. destruct pc as [a|a i|i|i x|x|i x|i x|x|]; cbn [release_step detach_step] in E; try done.
  - destruct (nodes p !! i) as [n|] eqn:En; [|done]. cbn in E. destruct (scope n) as [y|] eqn:Es; [|done]. injection E as <- <-.
    pose proof (Inv_slot p (Held i x) (Det i y) l i n n 0 eq_refl eq_refl En eq_refl Es) as Hst. rewrite list_insert_id, Nat.add_0_r in Hst by done.
    destruct p. apply Hst; [|done]. by rewrite Es.
  - injection E as <- <-. by apply (Inv_quiet p p (HeldHeap x)).
  - destruct (nodes p !! i) as [n|] eqn:En; [|done]. injection E as <- <-.
    destruct (i_node _ _ Hi (Det i x) i ltac:(by left) eq_refl) as (n0 & Hn0 & _ & Hf). assert (n0 = n) as -> by congruence. cbn [fits] in Hf.
    pose proof (Inv_slot p (Det i x) (Det2 i x) l i n (mkNode None (inUse n)) 0 eq_refl eq_refl En eq_refl eq_refl) as Hst.
    rewrite Nat.add_0_r in Hst. apply Hst; [|done]. by rewrite Hf.
  - destruct (nodes p !! i) as [n|] eqn:En; [|done]. injection E as <- <-. by apply (Inv_free p (Det2 i x)).
Qed.

Lemma lookup_perm {A} (l : list A) j x y : l !! j = Some x →
  l ≡ₚ x :: (take j l ++ drop (S j) l) ∧ <[j := y]> l ≡ₚ y :: (take j l ++ drop (S j) l).
Proof.
  intros Hj. split.
  - rewrite <- (take_drop_middle l j x Hj) at 1. by rewrite <- Permutation_middle.
  - rewrite insert_take_drop by (by eapply lookup_lt_Some). by rewrite <- Permutation_middle.
Qed.

Lemma pool_step_ok s s' : step s s' → Inv (pool s) (threads s) → Inv (pool s') (threads s').
Proof.
  intros Hs Hi. destruct Hs as [s|s j pc pc' p' Hj Hstep]; cbn [pool threads].
  - destruct Hi as [H1 H2 H3 H4 H5]. unfold owned, scopes in *.
    split; unfold owned, scopes; rewrite ?omap_app; cbn [omap list_omap owns carries]; rewrite ?app_nil_r; try done.
    intros q i [Hq|Hq]%elem_of_app Ho; [eauto|]. apply list_elem_of_singleton in Hq as ->. done.
  - destruct (lookup_perm (threads s) j pc pc' Hj) as (P1 & P2). apply (Inv_perm _ _ _ (Permutation_sym P2)).
    apply (Inv_perm _ _ _ P1) in Hi. destruct Hstep as [E|[E|E]]; eauto using acquire_ok, destroy_ok, pool_release_ok.
Qed.

Lemma create_ok n : Inv (create n) [].
Proof.
  split; try done.
  - apply NoDup_nil_2.
  - intros q i Hq. inversion Hq.
  - intros i m Hm Hu. exfalso. apply list_lookup_fmap_Some in Hm as (k & -> & _). done.
  - unfold scopes, create. cbn [nodes omap list_omap]. rewrite app_nil_r.
    assert (∀ l, omap scope ((λ i, mkNode (Some i) false) <$> l) = l) as -> by (induction l; [done|]; cbn in *; congruence). apply NoDup_seq.
  - intros x. unfold scopes, create. cbn [nodes omap list_omap fresh]. rewrite app_nil_r.
    assert (∀ l, omap scope ((λ i, mkNode (Some i) false) <$> l) = l) as -> by (induction l; [done|]; cbn in *; congruence).
    intros [_ Hx]%elem_of_seq. lia.
Qed.

Lemma pool_reachable_ok n s : reachable n s → Inv (pool s) (threads s).
Proof.
  intros Hr. unfold reachable in Hr. remember (mkSys (create n) []) as s0 eqn:E0.
  assert (Inv (pool s0) (threads s0)) as Hi by (subst; apply create_ok). clear E0. induction Hr; eauto using pool_step_ok.
Qed.

Lemma omap_inj {A B} (f : A → option B) (l : list A) i j a b x : NoDup (omap f l) → l !! i = Some a → l !! j = Some b →
  f a = Some x → f b = Some x → i = j.
Proof.
  revert i j. induction l as [|c l IH]; intros i j Hn Hi Hj Ha Hb; [done|]. cbn [omap list_omap] in Hn.
  assert (∀ k d, l !! k = Some d → f d = Some x → x ∈ omap f l) as Hin.
  { intros k d Hk Hd. apply list_elem_of_omap. exists d. split; [by eapply list_elem_of_lookup_2|done]. }
  destruct i as [|i], j as [|j]; cbn in Hi, Hj; simplify_eq.
  - done.
  - rewrite Ha in Hn. apply NoDup_cons in Hn as [Hx _]. destruct Hx. eauto.
  - rewrite Hb in Hn. apply NoDup_cons in Hn as [Hx _]. destruct Hx. eauto.
  - f_equal. eapply IH; eauto. destruct (f c); [by apply NoDup_cons in Hn as [_ ?]|done].
Qed.

(** A scope in use is in the slot of its thread or left the slots with it. *)
Lemma uses_where p l pc x : Inv p l → pc ∈ l → uses pc = Some x →
  carries pc = Some x ∨ ∃ i n, owns pc = Some i ∧ nodes p !! i = Some n ∧ scope n = Some x.
Proof.
  intros Hi Hin Hu. destruct pc as [| | |i y|y|i y|i y|y|]; cbn [uses] in Hu; simplify_eq; try by left.
  - right. destruct (i_node _ _ Hi _ i Hin eq_refl) as (n & ? & _ & ?). eauto.
  - right. destruct (i_node _ _ Hi _ i Hin eq_refl) as (n & ? & _ & ?). eauto.
Qed.

(** C34: No two threads ever work with the same transaction scope: in every
    interleaving of the atomic operations of [acquire], [releaseByIndex] and [detach]
    by any number of threads, a pooled, a heap-allocated and a detached scope each
    has one holder, also when slots are replenished and [head_] wraps around. *)
Theorem scope_exclusive (n : nat) (s : Sys) (j1 j2 : nat) (a b : PC) (x : nat) : reachable n s → j1 ≠ j2 →
  threads s !! j1 = Some a → threads s !! j2 = Some b → uses a = Some x → uses b ≠ Some x.
Proof.
  intros Hi%pool_reachable_ok Hj Ha Hb Hx Hy. pose proof (i_nodup _ _ Hi) as Hnd. unfold scopes in Hnd. apply NoDup_app in Hnd as (N1 & N2 & N3).
  assert (∀ k pc, threads s !! k = Some pc → carries pc = Some x → x ∈ omap carries (threads s)) as Hc.
  { intros k pc Hk Hpc. apply list_elem_of_omap. exists pc. split; [by eapply list_elem_of_lookup_2|done]. }
  assert (∀ i nd, nodes (pool s) !! i = Some nd → scope nd = Some x → x ∈ omap scope (nodes (pool s))) as Hn.
  { intros i nd Hk Hpc. apply list_elem_of_omap. exists nd. split; [by eapply list_elem_of_lookup_2|done]. }
  destruct (uses_where _ _ a x Hi ltac:(by eapply list_elem_of_lookup_2) Hx) as [Ca|(i & nd & Oa & Ni & Sa)];
    destruct (uses_where _ _ b x Hi ltac:(by eapply list_elem_of_lookup_2) Hy) as [Cb|(k & nd' & Ob & Nk & Sb)].
  - apply Hj. by eapply (omap_inj carries).
  - eapply N2; eauto.
  - eapply N2; eauto.
  - assert (i = k) as -> by (by eapply (omap_inj scope)). apply Hj. by eapply (omap_inj owns); [apply Hi|..].
Qed.

(** *** A run: the only slot is taken, a second thread gets a heap scope *)

Definition ex_sys : Sys := mkSys (mkPool [mkNode (Some 0%nat) true] 2 1 2) [Held 0 0; HeldHeap 1].

Lemma ex_reachable : reachable 1 ex_sys.
Proof.
  unfold reachable. do 2 (eapply rtc_l; [apply st_spawn|]).
  eapply rtc_l; [eapply (st_run _ 0); [done|left; reflexivity]|].
  eapply rtc_l; [eapply (st_run _ 0); [done|left; reflexivity]|].
  eapply rtc_l; [eapply (st_run _ 0); [done|left; reflexivity]|].
  eapply rtc_l; [eapply (st_run _ 1); [done|left; reflexivity]|].
  eapply rtc_l; [eapply (st_run _ 1); [done|left; reflexivity]|].
  eapply rtc_l; [eapply (st_run _ 1); [done|left; reflexivity]|]. apply rtc_refl.
Qed.

Lemma scope_exclusive_witness : uses (Held 0 0) = Some 0%nat ∧ uses (HeldHeap 1) ≠ Some 0%nat.
Proof. split; [reflexivity|]. exact (scope_exclusive 1 ex_sys 0 1 (Held 0 0) (HeldHeap 1) 0 ex_reachable ltac:(lia) eq_refl eq_refl eq_refl). Defined.
End ScopePool.

(** ** The lock-free ring of cached objects *)
Module InterLockCache.

(** class InterLockCache -- src/src/InterLockCache.h:27-185
    The nodes form a ring; [fresh] is the next address [new] returns. *)
Record Cache := mkCache { cells : list (option nat); nextFree_ : nat; nextNull_ : nat; cacheMiss_ : nat; fresh : nat }.

(** InterLockCache::InterLockCache -- src/src/InterLockCache.h:56-76 *)
Definition create (cacheSize : nat) : Cache :=
  mkCache ((Some <$> seq 0 (S cacheSize)) ++ [None]) 0 (S cacheSize) 0 (S cacheSize).

(** [node->next_] *)
Definition nxt (c : Cache) (i : nat) : nat := ((i + 1) mod length (cells c))%nat.

(** Where a thread stands: in [popFront], before each atomic operation; with an
    object; in [pushBack], before each atomic operation; done. *)
Inductive PC :=
  | Pop0 | Pop1 (cur : nat) | Pop2 (cur : nat) | Pop3 (cur : nat) (v : option nat) | Has (v : nat)
  | Push0 (v : nat) | Push1 (v cur : nat) | Push3 (v cur : nat) | Push4 (cur : nat) | End_.

Definition set_cell (i : nat) (v : option nat) (c : Cache) : Cache :=
  mkCache (<[i := v]> (cells c)) (nextFree_ c) (nextNull_ c) (cacheMiss_ c) (fresh c).

(** InterLockCache::popFront -- src/src/InterLockCache.h:101-124 *)
Definition popFront (pc : PC) (c : Cache) : option (PC * Cache) :=
  match pc with
  | Pop0 => Some (Pop1 (nextFree_ c), c)
  | Pop1 cur =>
      if bool_decide (cur ≠ nextNull_ c) then Some (Pop2 cur, c)
      else Some (Has (fresh c), mkCache (cells c) (nextFree_ c) (nextNull_ c) (S (cacheMiss_ c)) (S (fresh c)))
  | Pop2 cur => v ← cells c !! cur; Some (Pop3 cur v, set_cell cur None c)
  | Pop3 cur v =>
      Some (match v with Some x => Has x | None => Pop0 end,
            if bool_decide (nextFree_ c = cur) then mkCache (cells c) (nxt c cur) (nextNull_ c) (cacheMiss_ c) (fresh c) else c)
  | _ => None
  end.

(** InterLockCache::pushBack -- src/src/InterLockCache.h:126-147 *)
Definition pushBack (pc : PC) (c : Cache) : option (PC * Cache) :=
  match pc with
  | Has v => Some (Push0 v, c)
  | Push0 v => Some (Push1 v (nextNull_ c), c)
  | Push1 v cur => if bool_decide (nxt c cur ≠ nextFree_ c) then Some (Push3 v cur, c) else Some (End_, c)
  | Push3 v cur =>
      w ← cells c !! cur;
      match w with
      | None => Some (Push4 cur, set_cell cur (Some v) c)
      | Some _ => Some (Push0 v, c)
      end
  | Push4 cur =>
      Some (End_, if bool_decide (nextNull_ c = cur)
                  then mkCache (cells c) (nextFree_ c) (nxt c cur) (cacheMiss_ c) (fresh c) else c)
  | _ => None
  end.

Record Sys := mkSys { cache : Cache; threads : list PC }.

(** [compare_exchange_weak] may fail without a reason; an object may also be
    deleted by its holder. *)
Inductive step : Sys → Sys → Prop :=
  | st_spawn s : step s (mkSys (cache s) (threads s ++ [Pop0]))
  | st_run s j pc pc' c' : threads s !! j = Some pc → popFront pc (cache s) = Some (pc', c') ∨ pushBack pc (cache s) = Some (pc', c') →
      step s (mkSys c' (<[j := pc']> (threads s)))
  | st_weak s j v cur : threads s !! j = Some (Push3 v cur) → step s (mkSys (cache s) (<[j := Push0 v]> (threads s)))
  | st_delete s j v : threads s !! j = Some (Has v) → step s (mkSys (cache s) (<[j := End_]> (threads s))).

Definition reachable (n : nat) (s : Sys) : Prop := rtc step (mkSys (create n) []) s.

(** The object a thread holds. *)
Definition carries (pc : PC) : option nat :=
  match pc with Pop3 _ v => v | Has v | Push0 v | Push1 v _ | Push3 v _ => Some v | _ => None end.

Definition objects (c : Cache) (l : list PC) : list nat := omap id (cells c) ++ omap carries l.

Record Inv (c : Cache) (l : list PC) : Prop := {
  i_nodup : NoDup (objects c l);
  i_fresh x : x ∈ objects c l → (x < fresh c)%nat;
}.

(** A step that moves objects around. *)
Lemma Inv_move c c' pc pc' l : fresh c' = fresh c →
  omap id (cells c') ++ ScopePool.olist (carries pc') ≡ₚ omap id (cells c) ++ ScopePool.olist (carries pc) →
  Inv c (pc :: l) → Inv c' (pc' :: l).
Proof.
  intros Ef Hp [H1 H2]. assert (objects c' (pc' :: l) ≡ₚ objects c (pc :: l)) as E.
  { unfold objects. change (pc' :: l) with ([] ++ pc' :: l). change (pc :: l) with ([] ++ pc :: l). rewrite !ScopePool.omap_at. cbn [app].
    rewrite !app_assoc. by rewrite Hp. }
  split; [by rewrite E|]. intros x. rewrite E, Ef. apply H2.
Qed.

Lemma ring_drop c pc pc' l : carries pc' = None → Inv c (pc :: l) → Inv c (pc' :: l).
Proof.
  intros Ec [H1 H2]. unfold objects in *. cbn [omap list_omap] in *. split; unfold objects; cbn [omap list_omap]; rewrite Ec.
  - destruct (carries pc); [|done]. rewrite <- Permutation_middle in H1. by apply NoDup_cons in H1 as [_ ?].
  - intros x Hx. apply H2. destruct (carries pc); [|done]. rewrite <- Permutation_middle. by right.
Qed.

Lemma set_cell_objects c i w v : cells c !! i = Some w → omap id (<[i := v]> (cells c)) ++ ScopePool.olist w ≡ₚ omap id (cells c) ++ ScopePool.olist v.
Proof. intros Hi. pose proof (ScopePool.omap_update id _ i w v Hi) as Hu. cbn [id] in Hu. rewrite Permutation_app_comm, Hu. apply Permutation_app_comm. Qed.

Lemma popFront_ok c pc l pc' c' : popFront pc c = Some (pc', c') → Inv c (pc :: l) → Inv c' (pc' :: l).
Proof.
  intros E Hi. destruct pc as [|cur|cur|cur v| | | | | |]; cbn [popFront] in E; try done.
  - injection E as <- <-. by apply (Inv_move c c Pop0).
  - case_bool_decide; injection E as <- <-; [by apply (Inv_move c c (Pop1 cur))|].
    destruct Hi as [H1 H2]. unfold objects in *. cbn [omap list_omap carries] in *. split; unfold objects; cbn [omap list_omap carries cells fresh].
    + rewrite <- Permutation_middle. apply NoDup_cons. split; [|done]. intros Hx%H2. lia.
    + intros x. rewrite <- Permutation_middle, elem_of_cons. intros [->|Hx%H2]; lia.
  - destruct (cells c !! cur) as [v|] eqn:Ev; [|done]. injection E as <- <-. apply (Inv_move c _ (Pop2 cur)); [done| |done].
    cbn [cells set_cell carries]. by rewrite (set_cell_objects c cur v None Ev).
  - injection E as <- <-. apply (Inv_move c _ (Pop3 cur v)); [by case_bool_decide| |done]. case_bool_decide; by destruct v.
Qed.

Lemma pushBack_ok c pc l pc' c' : pushBack pc c = Some (pc', c') → Inv c (pc :: l) → Inv c' (pc' :: l).
Proof.
  intros E Hi. destruct pc as [| | | |v|v|v cur|v cur|cur|]; cbn [pushBack] in E; try done.
  - injection E as <- <-. by apply (Inv_move c c (Has v)).
  - injection E as <- <-. by apply (Inv_move c c (Push0 v)).
  - case_bool_decide; injection E as <- <-; [by apply (Inv_move c c (Push1 v cur))|by apply (ring_drop c (Push1 v cur))].
  - destruct (cells c !! cur) as [[w|]|] eqn:Ev; [| |done]; injection E as <- <-; [by apply (Inv_move c c (Push3 v cur))|].
    apply (Inv_move c _ (Push3 v cur)); [done| |done]. cbn [cells set_cell carries]. by rewrite (set_cell_objects c cur None (Some v) Ev).
  - injection E as <- <-. apply (Inv_move c _ (Push4 cur)); [by case_bool_decide| |done]. by case_bool_decide.
Qed.

Lemma ring_perm c l l' : l ≡ₚ l' → Inv c l → Inv c l'.
Proof.
  intros Hp [H1 H2]. assert (objects c l ≡ₚ objects c l') as E by (unfold objects; by rewrite (ScopePool.omap_perm carries l l' Hp)).
  split; [by rewrite <- E|]. intros x. rewrite <- E. apply H2.
Qed.

Lemma ring_step_ok s s' : step s s' → Inv (cache s) (threads s) → Inv (cache s') (threads s').
Proof.
  intros Hs Hi. destruct Hs as [s|s j pc pc' c' Hj Hst|s j v cur Hj|s j v Hj]; cbn [cache threads].
  - destruct Hi as [H1 H2]. unfold objects in *. split; unfold objects; rewrite omap_app; cbn [omap list_omap carries]; by rewrite app_nil_r.
  - destruct (ScopePool.lookup_perm (threads s) j pc pc' Hj) as (P1 & P2). apply (ring_perm _ _ _ (Permutation_sym P2)).
    apply (ring_perm _ _ _ P1) in Hi. destruct Hst; eauto using popFront_ok, pushBack_ok.
  - destruct (ScopePool.lookup_perm (threads s) j _ (Push0 v) Hj) as (P1 & P2). apply (ring_perm _ _ _ (Permutation_sym P2)).
    apply (ring_perm _ _ _ P1) in Hi. by apply (Inv_move (cache s) (cache s) (Push3 v cur)).
  - destruct (ScopePool.lookup_perm (threads s) j _ End_ Hj) as (P1 & P2). apply (ring_perm _ _ _ (Permutation_sym P2)).
    apply (ring_perm _ _ _ P1) in Hi. by apply (ring_drop _ (Has v)).
Qed.

Lemma ring_reachable_ok n s : reachable n s → Inv (cache s) (threads s).
Proof.
  intros Hr. unfold reachable in Hr. remember (mkSys (create n) []) as s0 eqn:E0.
  assert (Inv (cache s0) (threads s0)) as Hi.
  { subst. assert (objects (create n) [] = seq 0 (S n)) as E.
    { unfold objects, create. cbn [cells]. rewrite omap_app. cbn [omap list_omap id]. rewrite !app_nil_r.
      generalize (seq 0 (S n)). intros l. induction l as [|x l IH]; [done|]. cbn in *. congruence. }
    split; cbn [cache threads]; rewrite E; [apply NoDup_seq|]. intros x [_ Hx]%elem_of_seq. cbn [fresh create]. lia. }
  clear E0. induction Hr; eauto using ring_step_ok.
Qed.

(** The cache hands an object out to one thread at a time: in every interleaving
    of the atomic operations of [popFront] and [pushBack], an object is in one node
    of the ring or held by one thread. *)
Theorem object_exclusive (n : nat) (s : Sys) (j1 j2 : nat) (a b : PC) (x : nat) : reachable n s →
  threads s !! j1 = Some a → carries a = Some x → (Some x ∉ cells (cache s)) ∧
  (j1 ≠ j2 → threads s !! j2 = Some b → carries b ≠ Some x).
Proof.
  intros Hi%ring_reachable_ok Ha Hx. pose proof (i_nodup _ _ Hi) as Hnd. unfold objects in Hnd. apply NoDup_app in Hnd as (N1 & N2 & N3). split.
  - intros Hin. apply (N2 x).
    + apply list_elem_of_omap. by exists (Some x).
    + apply list_elem_of_omap. exists a. split; [by eapply list_elem_of_lookup_2|done].
  - intros Hj Hb Hy. apply Hj. by eapply (ScopePool.omap_inj carries).
Qed.

(** ** A ring that is full and empty at once *)

(** Both positions stand on node [k], and the node is not empty. *)
Definition jammed (c : Cache) (k : nat) : Prop :=
  nextFree_ c = k ∧ nextNull_ c = k ∧ nxt c k ≠ k ∧ (∃ x, cells c !! k = Some (Some x)).

(** The positions a thread remembers are not older than that. *)
Definition current_pc (k : nat) (pc : PC) : Prop :=
  match pc with
  | Pop1 cur | Push1 _ cur | Push3 _ cur => cur = k
  | Pop2 _ | Pop3 _ _ | Push4 _ => False
  | _ => True
  end.

Definition pushing (v : nat) (pc : PC) : Prop := pc = Push0 v ∨ (∃ cur, pc = Push1 v cur) ∨ (∃ cur, pc = Push3 v cur).

Lemma jammed_run c k pc pc' c' : jammed c k → current_pc k pc → popFront pc c = Some (pc', c') ∨ pushBack pc c = Some (pc', c') →
  jammed c' k ∧ cells c' = cells c ∧ current_pc k pc' ∧ ∀ v, pushing v pc → pushing v pc'.
Proof.
  intros (Hf & Hn & Hx & w & Hw) Hpc Hs.
  destruct pc as [|cur|cur|cur y|y|y|y cur|y cur|cur|]; cbn [current_pc popFront pushBack] in *; try done; try subst cur.
  - destruct Hs as [[= <- <-]|[=]]. split; [by split_and!; eauto|]. split_and!; try done. intros v [?|[[? ?]|[? ?]]]; done.
  - rewrite bool_decide_eq_false_2 in Hs by (by rewrite Hn; intros ?). destruct Hs as [[= <- <-]|[=]].
    split; [by split_and!; eauto|]. split_and!; try done. intros v [?|[[? ?]|[? ?]]]; done.
  - destruct Hs as [[=]|[= <- <-]]. split; [by split_and!; eauto|]. split_and!; try done. intros v [?|[[? ?]|[? ?]]]; done.
  - destruct Hs as [[=]|[= <- <-]]. split; [by split_and!; eauto|]. split_and!; try done. intros v [E|[[? ?]|[? ?]]]; try done. injection E as ->. right. left. eauto.
  - rewrite bool_decide_eq_true_2 in Hs by congruence. destruct Hs as [[=]|[= <- <-]]. split; [by split_and!; eauto|]. split_and!; try done.
    intros v [?|[[cur E]|[? ?]]]; try done. injection E as -> ->. right. right. eauto.
  - rewrite Hw in Hs. cbn in Hs. destruct Hs as [[=]|[= <- <-]]. split; [by split_and!; eauto|]. split_and!; try done.
    intros v [?|[[? ?]|[cur E]]]; try done. injection E as -> ->. by left.
  - by destruct Hs.
Qed.

Definition jam (k j v : nat) (s : Sys) : Prop :=
  jammed (cache s) k ∧ Forall (current_pc k) (threads s) ∧ ∃ pc, threads s !! j = Some pc ∧ pushing v pc.

Lemma jam_step k j v s s' : jam k j v s → step s s' → jam k j v s' ∧ cells (cache s') = cells (cache s).
Proof.
  intros (Hj & Hall & pc0 & Hpc0 & Hpush) Hs. destruct Hs as [s|s i pc pc' c' Hi Hst|s i y cur Hi|s i y Hi]; cbn [cache].
  - split; [|done]. split_and!; [done|apply Forall_app; by split; [|constructor]|]. exists pc0. split; [by apply lookup_app_l_Some|done].
  - assert (current_pc k pc) as Hpc by (by eapply Forall_lookup_1).
    destruct (jammed_run _ k pc pc' c' Hj Hpc Hst) as (Hj' & Ec & Hpc' & Hp). split; [|done]. split_and!; [done|by apply Forall_insert|].
    cbn [threads]. destruct (decide (i = j)) as [->|Hij].
    + exists pc'. rewrite list_lookup_insert_eq by (by eapply lookup_lt_Some). split; [done|]. apply Hp. congruence.
    + exists pc0. by rewrite list_lookup_insert_ne.
  - split; [|done]. split_and!; [done|by apply Forall_insert|]. cbn [threads]. destruct (decide (i = j)) as [->|Hij].
    + exists (Push0 y). rewrite list_lookup_insert_eq by (by eapply lookup_lt_Some). split; [done|]. rewrite Hi in Hpc0. injection Hpc0 as <-.
      destruct Hpush as [?|[[? ?]|[cur' E]]]; try done. injection E as -> ->. by left.
    + exists pc0. by rewrite list_lookup_insert_ne.
  - split; [|done]. split_and!; [done|by apply Forall_insert|]. cbn [threads]. destruct (decide (i = j)) as [->|Hij].
    + rewrite Hi in Hpc0. injection Hpc0 as <-. destruct Hpush as [?|[[? ?]|[? ?]]]; done.
    + exists pc0. by rewrite list_lookup_insert_ne.
Qed.

(** Thread [j] runs [k] steps. *)
Fixpoint run (j k : nat) (s : Sys) : option Sys :=
  match k with
  | O => Some s
  | S k' =>
      pc ← threads s !! j;
      r ← match popFront pc (cache s) with Some r => Some r | None => pushBack pc (cache s) end;
      run j k' (mkSys r.2 (<[j := r.1]> (threads s)))
  end.

Lemma run_steps j k s s' : run j k s = Some s' → rtc step s s'.
Proof.
  revert s. induction k as [|k IH]; intros s E; cbn [run] in E; [injection E as ->; constructor|].
  destruct (threads s !! j) as [pc|] eqn:Ej; [|done]. cbn in E.
  destruct (match popFront pc (cache s) with Some r => Some r | None => pushBack pc (cache s) end) as [[pc' c']|] eqn:Er; [|done]. cbn in E.
  eapply rtc_l; [|by apply IH]. apply (st_run s j pc pc' c' Ej). destruct (popFront pc (cache s)); [left|right]; congruence.
Qed.

Fixpoint spawn (k : nat) (s : Sys) : Sys :=
  match k with O => s | S k' => spawn k' (mkSys (cache s) (threads s ++ [Pop0])) end.

Lemma spawn_steps k s : rtc step s (spawn k s).
Proof. revert s. induction k as [|k IH]; intros s; [constructor|]. eapply rtc_l; [apply st_spawn|apply IH]. Qed.

(** Thread 0 pops and is about to store its object into the null node; thread 1
    fills that node; threads 1 to 3 empty the ring, 3 taking the null node; thread 0
    goes on; 2, 3 and 4 fill the ring and 6 to 8 empty it. *)
Definition schedule : list (nat * nat) :=
  [(0, 4); (0, 3); (1, 4); (1, 5); (2, 4); (3, 4); (4, 2); (5, 2); (0, 2);
   (2, 5); (3, 5); (4, 5); (6, 4); (7, 4); (8, 4); (5, 2)]%nat.

Definition run_all (l : list (nat * nat)) (s : Sys) : option Sys := foldl (λ o x, s ← o; run x.1 x.2 s) (Some s) l.

Lemma run_all_steps l s s' : run_all l s = Some s' → rtc step s s'.
Proof.
  revert s'. induction l as [|x l IH] using rev_ind; intros s' E; [injection E as ->; constructor|].
  unfold run_all in *. rewrite foldl_app in E. cbn [foldl] in E.
  destruct (foldl _ (Some s) l) as [s1|] eqn:E1; [|done]. cbn in E. etrans; [by apply IH|]. by eapply run_steps.
Qed.

(** [pushBack] can hang for ever: a thread that read the null node, slept while
    the ring went round and then stores its object behind both positions leaves the
    ring with the two positions on a node that is not empty.  From there the ring
    never changes again whatever the threads do: every [popFront] allocates, and a
    [pushBack] under way never returns. *)
Theorem pushBack_hangs : ∃ s j v, reachable 2 s ∧ threads s !! j = Some (Push1 v 3) ∧
  ∀ s', rtc step s s' → cells (cache s') = cells (cache s) ∧ ∃ pc, threads s' !! j = Some pc ∧ pushing v pc.
Proof.
  destruct (run_all schedule (spawn 9 (mkSys (create 2) []))) as [s|] eqn:E; [|by vm_compute in E].
  exists s, 5%nat, 4%nat. assert (jam 3 5 4 s ∧ threads s !! 5%nat = Some (Push1 4 3)) as (Hj & Ht).
  { vm_compute in E. injection E as <-. split; [|done]. split_and!; [split_and!; try done; by eexists|repeat constructor|].
    exists (Push1 4 3). split; [done|]. right. left. eauto. }
  split; [unfold reachable; etrans; [apply (spawn_steps 9)|by eapply run_all_steps]|]. split; [done|]. intros s' Hr. clear E Ht.
  assert (cells (cache s') = cells (cache s) ∧ jam 3 5 4 s') as (E & _ & _ & Hp); [|done].
  induction Hr as [s|s1 s2 s3 Hs _ IH]; [done|]. destruct (jam_step _ _ _ s1 s2 Hj Hs) as (Hj2 & E2). destruct (IH Hj2) as (E3 & ?). split; [congruence|done].
Qed.

Lemma object_exclusive_witness : ∃ s, reachable 2 s ∧ threads s = [Has 0; Has 1] ∧ (Some 0%nat ∉ cells (cache s)) ∧ carries (Has 1) ≠ Some 0%nat.
Proof.
  set (s := mkSys (mkCache [None; None; Some 2%nat; None] 2 3 0 3) [Has 0; Has 1]).
  assert (reachable 2 s) as Hr.
  { unfold reachable. etrans; [apply (spawn_steps 2)|]. apply (run_all_steps [(0, 4); (1, 4)]%nat). vm_compute. reflexivity. }
  exists s. split; [exact Hr|]. split; [reflexivity|].
  destruct (object_exclusive 2 s 0 1 (Has 0) (Has 1) 0 Hr eq_refl eq_refl) as (H1 & H2). split; [exact H1|]. apply H2; [lia|reflexivity].
Defined.
End InterLockCache.

(** ** The cache of the dependency tree's nodes *)
Module AllocateCache.

(** class AllocateCache -- src/src/AllocateCache.h:22-109
    Objects are addresses; [fresh] is the next one the allocator returns, [live] are
    those handed out. *)
Record t := mkAC { cache_ : list (option nat); lastAvailable_ : Z; cacheSize_ : nat; fresh : nat; live : gset nat }.

(** AllocateCache::AllocateCache -- src/src/AllocateCache.h:28-38 *)
Definition init (cacheSize : nat) : t := mkAC (Some <$> seq 0 cacheSize) (Z.of_nat cacheSize - 1) cacheSize cacheSize ∅.

(** AllocateCache::allocate -- src/src/AllocateCache.h:84-98 *)
Definition allocate : M t nat := λ c,
  if 0 <=? lastAvailable_ c then
    match cache_ c !! Z.to_nat (lastAvailable_ c) with
    | Some (Some x) => (Ok x, mkAC (<[Z.to_nat (lastAvailable_ c) := None]> (cache_ c)) (lastAvailable_ c - 1) (cacheSize_ c) (fresh c) (live c))
    | Some None => (Crash "construct at nullptr", c)
    | None => (Crash "out of range", c)
    end
  else (Ok (fresh c), mkAC (cache_ c) (lastAvailable_ c) (cacheSize_ c) (S (fresh c)) (live c)).

(** AllocateCache::create -- src/src/AllocateCache.h:44-55 *)
Definition create : M t nat :=
  x <- allocate ;;
  modify (λ c, mkAC (cache_ c) (lastAvailable_ c) (cacheSize_ c) (fresh c) ({[x]} ∪ live c)) ;;; ret x.

(** AllocateCache::destroy -- src/src/AllocateCache.h:56-68 *)
Definition destroy (x : nat) : M t unit := λ c,
  if lastAvailable_ c + 1 <? Z.of_nat (cacheSize_ c) then
    let i := Z.to_nat (lastAvailable_ c + 1) in
    if (i <? length (cache_ c))%nat
    then (Ok tt, mkAC (<[i := Some x]> (cache_ c)) (lastAvailable_ c + 1) (cacheSize_ c) (fresh c) (live c ∖ {[x]}))
    else (Crash "out of range", c)
  else (Ok tt, mkAC (cache_ c) (lastAvailable_ c) (cacheSize_ c) (fresh c) (live c ∖ {[x]})).

(** AllocateCache::clear -- src/src/AllocateCache.h:70-81 *)
Definition clear (c : t) : t := mkAC [] (-1) (cacheSize_ c) (fresh c) (live c).

(** The free objects are the front of the vector, apart from the live ones. *)
Definition Inv (c : t) : Prop := ∃ free k, cache_ c = (Some <$> free) ++ replicate k None ∧ length (cache_ c) = cacheSize_ c ∧
  lastAvailable_ c = Z.of_nat (length free) - 1 ∧ NoDup free ∧
  (∀ x, x ∈ free → (x ∉ live c) ∧ (x < fresh c)%nat) ∧ ∀ x, x ∈ live c → (x < fresh c)%nat.

Lemma init_ok n : Inv (init n).
Proof.
  exists (seq 0 n), O. unfold init. cbn [cache_ lastAvailable_ cacheSize_ fresh live replicate]. rewrite app_nil_r, length_fmap, length_seq.
  split_and!; try done; [apply NoDup_seq|]. intros x [_ Hx]%elem_of_seq. split; [set_solver|lia].
Qed.

(** [create] hands out an object that is not in use. *)
Lemma alloc_create_ok c : Inv c → ∃ x c', create c = (Ok x, c') ∧ Inv c' ∧ (x ∉ live c) ∧ live c' = {[x]} ∪ live c.
Proof.
  intros (free & k & Hc & Hl & Hla & Hn & Hf & Hlv). unfold create, bind, allocate. destruct free as [|x free _] using rev_ind.
  - rewrite (proj2 (Z.leb_gt _ _)) by (rewrite Hla; cbn; lia). exists (fresh c). eexists. split; [done|]. split_and!; [|intros Hx%Hlv; lia|done].
    exists [], k. cbn [cache_ lastAvailable_ cacheSize_ fresh live]. split_and!; try done; [by intros x Hx; inversion Hx|].
    intros x Hx. apply elem_of_union in Hx as [Hx|Hx]; [apply elem_of_singleton in Hx as ->; lia|apply Hlv in Hx; lia].
  - rewrite length_app in Hla. cbn [length] in Hla. rewrite (proj2 (Z.leb_le _ _)) by lia.
    assert (Z.to_nat (lastAvailable_ c) = length (Some <$> free)) as -> by (rewrite length_fmap; lia).
    rewrite Hc, fmap_app, <- app_assoc. cbn [fmap list_fmap app]. rewrite lookup_app_r, Nat.sub_diag by lia. cbn [lookup list_lookup].
    assert ((x ∉ live c) ∧ (x < fresh c)%nat) as [Hx Hlt] by (apply Hf; set_solver).
    exists x. eexists. split; [done|]. split_and!; [|done|done]. exists free, (S k). cbn [cache_ lastAvailable_ cacheSize_ fresh live].
    rewrite length_insert. apply NoDup_app in Hn as (Hn & Hd & _). split_and!.
    + rewrite insert_app_r_alt, Nat.sub_diag by lia. done.
    + rewrite <- Hl, Hc, fmap_app, <- app_assoc. done.
    + lia.
    + done.
    + intros y Hy. destruct (Hf y) as [? ?]; [set_solver|]. split; [|done]. intros Hy2. apply elem_of_union in Hy2 as [Hy2|?]; [|done]. apply elem_of_singleton in Hy2 as ->. eapply Hd; [done|set_solver].
    + intros y Hy. apply elem_of_union in Hy as [Hy|Hy]; [apply elem_of_singleton in Hy as ->; done|by apply Hlv].
Qed.

(** [destroy] of a live object keeps the invariant. *)
Lemma alloc_destroy_ok c x : Inv c → x ∈ live c → ∃ c', destroy x c = (Ok tt, c') ∧ Inv c' ∧ live c' = live c ∖ {[x]}.
Proof.
  intros (free & k & Hc & Hl & Hla & Hn & Hf & Hlv) Hx. unfold destroy.
  replace (lastAvailable_ c + 1) with (Z.of_nat (length free)) by lia. rewrite Nat2Z.id. destruct (Z.ltb_spec (Z.of_nat (length free)) (Z.of_nat (cacheSize_ c))) as [Hlt|Hge].
  - rewrite (proj2 (Nat.ltb_lt _ _)) by lia. eexists. split; [done|]. split; [|done].
    destruct k as [|k]; [rewrite Hc, app_nil_r, length_fmap in Hl; lia|]. exists (free ++ [x]), k. cbn [cache_ lastAvailable_ cacheSize_ fresh live].
    rewrite length_insert, length_app. split_and!.
    + rewrite Hc, insert_app_r_alt by (rewrite length_fmap; lia). rewrite length_fmap, Nat.sub_diag. cbn [replicate insert list_insert]. by rewrite fmap_app, <- app_assoc.
    + done.
    + cbn [length]. lia.
    + apply NoDup_app. split; [done|]. split; [|apply NoDup_singleton]. intros y Hy Hy'. apply list_elem_of_singleton in Hy' as ->. by destruct (Hf x Hy).
    + intros y [Hy|Hy]%elem_of_app; [destruct (Hf y Hy); set_solver|]. apply list_elem_of_singleton in Hy as ->. split; [set_solver|by apply Hlv].
    + intros y Hy. apply Hlv. set_solver.
  - eexists. split; [done|]. split; [|done]. exists free, k. cbn [cache_ lastAvailable_ cacheSize_ fresh live]. split_and!; try done.
    + intros y Hy. destruct (Hf y Hy). set_solver.
    + intros y Hy. apply Hlv. set_solver.
Qed.

(** After [clear] the vector is empty, but [cacheSize_] is not: giving an object back
    writes outside it. *)
Lemma destroy_after_clear c x : (0 < cacheSize_ c)%nat → (destroy x (clear c)).1 = Crash "out of range".
Proof. intros Hs. unfold destroy, clear. cbn [lastAvailable_ cacheSize_ cache_]. by rewrite (proj2 (Z.ltb_lt _ _)) by lia. Qed.

(** ** The owning pointers, [AllocAutoPtr] and [CacheAutoPtr] *)

(** class AllocAutoPtr -- src/src/AllocateCache.h:112-184
    [alloc_]: the allocator is not null. *)
Record AutoPtr := mkPtr { val_ : option nat; alloc_ : bool }.

(** AllocAutoPtr::release -- src/src/AllocateCache.h:152-158 *)
Definition release (p : AutoPtr) : option nat * AutoPtr := (val_ p, mkPtr None false).

(** AllocAutoPtr::AllocAutoPtr(AllocAutoPtr) -- src/src/AllocateCache.h:118-118
    The copy, and what is left of the original. *)
Definition copy (p : AutoPtr) : AutoPtr * AutoPtr :=
  let r := release p in (mkPtr r.1 (alloc_ r.2), r.2).

(** AllocAutoPtr::~AllocAutoPtr -- src/src/AllocateCache.h:127-134 *)
Definition destructor (p : AutoPtr) : M t unit :=
  match val_ p with
  | None => ret tt
  | Some x => if alloc_ p then destroy x else crash "assert"
  end.

(** AllocAutoPtr::reset(val, alloc) -- src/src/AllocateCache.h:170-179 *)
Definition reset (p : AutoPtr) (x : option nat) (alloc : bool) : M t AutoPtr := destructor p ;;; ret (mkPtr x alloc).

(** The copy of an owning pointer has no allocator: the copy constructor reads
    [val.alloc_] after [val.release()] has cleared it, and the copy's destructor runs
    into its assertion. *)
Lemma copied_pointer_asserts x c : (destructor (copy (mkPtr (Some x) true)).1 c).1 = Crash "assert".
Proof. done. Qed.
End AllocateCache.
