(* ===== verification/Platform.v ===== *)
(** Placement of threads and memory: [src/src/CpuAffinity.h], [src/src/HugePages.h],
    [src/src/NumaAllocator.h], their use by the worker threads of the task manager
    ([src/src/TaskManager.cpp]) and by the pool of transaction scopes
    ([src/src/TransactionScopePool.h]).  The system calls are parameters. *)

From Stdlib Require Import String ZArith Lia.
From S2P Require Import Prelude.

(** ** The cores of a thread *)
Module CpuAffinity.

(** CPU_SET of sched.h: a core beyond the 1024 of [cpu_set_t] is ignored, a negative
    one is a large [size_t]. *)
Definition CPU_SET (c : Z) (s : gset Z) : gset Z := if (0 <=? c) && (c <? 1024) then {[c]} ∪ s else s.

Section calls.
(** [setaffinity s]: the mask [pthread_setaffinity_np] gives the thread, [None] if it
    fails; [getaffinity]: whether [pthread_getaffinity_np] succeeds; [online]: the
    number [sysconf] returns. *)
Context (setaffinity : gset Z → option (gset Z)) (getaffinity : bool) (online : Z).

(** CpuAffinity::pinThreadToCore -- src/src/CpuAffinity.h:38-46
    The state is the mask of the thread. *)
Definition pinThreadToCore (coreId : Z) (mask : gset Z) : bool * gset Z :=
  match setaffinity (CPU_SET coreId ∅) with Some m => (true, m) | None => (false, mask) end.

(** CpuAffinity::pinThreadToCores -- src/src/CpuAffinity.h:69-81 *)
Definition pinThreadToCores (coreIds : list Z) (mask : gset Z) : bool * gset Z :=
  match setaffinity (foldl (λ s c, CPU_SET c s) ∅ coreIds) with Some m => (true, m) | None => (false, mask) end.

(** CpuAffinity::getAvailableCores -- src/src/CpuAffinity.h:87-90 *)
Definition getAvailableCores : Z := online.

(** The cores a loop from 0 to the number of cores sees. *)
Definition core_numbers : list Z := Z.of_nat <$> seq 0 (Z.to_nat getAvailableCores).

(** CpuAffinity::getThreadAffinity -- src/src/CpuAffinity.h:97-117
    [coreIds] is the output vector. *)
Definition getThreadAffinity (mask : gset Z) (coreIds : list Z) : bool * list Z :=
  if getaffinity then (true, List.filter (λ i, bool_decide (i ∈ mask)) core_numbers) else (false, coreIds).

(** CpuAffinity::resetAffinity -- src/src/CpuAffinity.h:123-136 *)
Definition resetAffinity (mask : gset Z) : bool * gset Z := pinThreadToCores core_numbers mask.

(** class ScopedCpuAffinity -- src/src/CpuAffinity.h:166-196 *)
Record Scoped := mkScoped { originalAffinity : list Z; restored : bool }.

(** ScopedCpuAffinity::ScopedCpuAffinity -- src/src/CpuAffinity.h:169-173 *)
Definition scoped_create (coreId : Z) (mask : gset Z) : Scoped * gset Z :=
  (mkScoped (getThreadAffinity mask []).2 false, (pinThreadToCore coreId mask).2).

(** ScopedCpuAffinity::restore -- src/src/CpuAffinity.h:180-187 *)
Definition restore (x : Scoped) (mask : gset Z) : Scoped * gset Z :=
  if negb (restored x) && negb (bool_decide (originalAffinity x = [])) then
    (mkScoped (originalAffinity x) true, (pinThreadToCores (originalAffinity x) mask).2)
  else (x, mask).

(** ScopedCpuAffinity::~ScopedCpuAffinity -- src/src/CpuAffinity.h:175-178 *)
Definition scoped_destroy (x : Scoped) (mask : gset Z) : gset Z := (restore x mask).2.

(** ** Restoring *)

(** What the manual promises: a thread gets the cores of the set that the system
    has. *)
Context (present : gset Z).
Hypothesis set_some : ∀ s, s ∩ present ≠ ∅ → setaffinity s = Some (s ∩ present).

Lemma cpu_set_all (l : list Z) s : Forall (λ c, 0 <= c < 1024) l → foldl (λ s c, CPU_SET c s) s l = s ∪ list_to_set l.
Proof.
  intros Hl. revert s. induction Hl as [|c l Hc _ IH]; intros s; simpl; [set_solver|]. rewrite IH. unfold CPU_SET.
  rewrite (proj2 (Z.leb_le 0 c)), (proj2 (Z.ltb_lt c 1024)) by lia. simpl. set_solver.
Qed.

Lemma core_numbers_spec i : i ∈ core_numbers ↔ 0 <= i < online.
Proof.
  unfold core_numbers, getAvailableCores. rewrite list_elem_of_fmap. setoid_rewrite elem_of_seq. split.
  - intros (n & -> & ?). lia.
  - intros ?. exists (Z.to_nat i). lia.
Qed.

Lemma seen_cores (mask : gset Z) i : i ∈ List.filter (λ i, bool_decide (i ∈ mask)) core_numbers ↔ i ∈ mask ∧ 0 <= i < online.
Proof. rewrite <- core_numbers_spec, list_elem_of_In, filter_In, <- list_elem_of_In, bool_decide_eq_true. tauto. Qed.

(** A scoped pin gives the thread back exactly the cores of its mask whose numbers are
    below the number of cores online: the whole mask, if the cores online are numbered
    from 0.  If it has no such core, it stays where it was pinned. *)
Theorem scoped_affinity_restores (mask : gset Z) core : getaffinity = true → mask ⊆ present → (∀ i, i ∈ mask → 0 <= i < 1024) →
  let seen := filter (λ i, 0 <= i < online) mask in
  let x := scoped_create core mask in
  scoped_destroy x.1 x.2 = if bool_decide (seen = ∅) then (pinThreadToCore core mask).2 else seen.
Proof.
  intros Hg Hm Hr seen x. unfold scoped_destroy, restore, x, scoped_create. simpl. unfold getThreadAffinity. rewrite Hg. cbn [snd].
  set (l := List.filter _ _). assert (∀ i, i ∈ l ↔ i ∈ mask ∧ 0 <= i < online) as Hl by (intros; apply seen_cores).
  assert (list_to_set l = seen) as E by (apply set_eq; intros i; unfold seen; rewrite elem_of_list_to_set, Hl, elem_of_filter; tauto).
  destruct (decide (l = [])) as [El|El].
  - rewrite (bool_decide_true (l = [])) by done. rewrite El in E. simpl in *. by rewrite bool_decide_true.
  - rewrite (bool_decide_false (l = [])) by done. cbn [negb andb snd]. unfold pinThreadToCores.
    rewrite cpu_set_all, E by (apply Forall_forall; intros i [? ?]%Hl; by apply Hr).
    rewrite (left_id_L ∅ (∪)). assert (seen ∩ present = seen) as Es by set_solver.
    assert (seen ≠ ∅) as Hne. { destruct l as [|i l']; [done|]. intros E0. rewrite E0 in E. simpl in E. set_solver. }
    rewrite set_some by (by rewrite Es). rewrite Es. cbn [snd]. by rewrite bool_decide_false.
Qed.
End calls.

(** A thread on cores 1 and 3 of four, pinned to 2 and given back; with cores 0 to 2
    online it loses core 3. *)
Definition ex_set (s : gset Z) : option (gset Z) := let t := s ∩ {[0; 1; 2; 3]} in if bool_decide (t = ∅) then None else Some t.

Lemma scoped_affinity_restores_witness :
  (let x := scoped_create ex_set true 4 2 {[1; 3]} in x.2 = {[2]} ∧ scoped_destroy ex_set x.1 x.2 = {[1; 3]}) ∧
  (let x := scoped_create ex_set true 3 2 {[1; 3]} in scoped_destroy ex_set x.1 x.2 = {[1]}).
Proof.
  assert (∀ s, s ∩ {[0; 1; 2; 3]} ≠ ∅ → ex_set s = Some (s ∩ {[0; 1; 2; 3]})) as Hs by (intros s Hne; unfold ex_set; by rewrite bool_decide_false).
  assert (∀ i, i ∈ ({[1; 3]} : gset Z) → 0 <= i < 1024) as Hr by set_solver by lia.
  split.
  - cbn zeta. split; [by vm_compute|].
    rewrite (scoped_affinity_restores ex_set true 4 {[0; 1; 2; 3]} Hs {[1; 3]} 2 eq_refl ltac:(set_solver) Hr). by vm_compute.
  - cbn zeta. rewrite (scoped_affinity_restores ex_set true 3 {[0; 1; 2; 3]} Hs {[1; 3]} 2 eq_refl ltac:(set_solver) Hr). by vm_compute.
Defined.
End CpuAffinity.

(** ** The cores of the workers of the task manager *)
Module WorkerCores.

(** g_nextWorkerCore, pinned -- src/src/TaskManager.cpp:30-32
    Each of the two lambdas has a [pinned] of its own in every thread: [pinned] holds
    the pairs of thread and lambda ([true]: transactions) for which it is set. *)
Record Workers := mkWorkers { nextCore : Z; pinned : gset (nat * bool); coreOf : gmap nat Z }.

(** TaskManager::TaskManager, the first core -- src/src/TaskManager.cpp:60-65 *)
Definition create (cpuAffinityStart : Z) : Workers := mkWorkers (if 0 <=? cpuAffinityStart then cpuAffinityStart + 1 else 0) ∅ ∅.

(** The pin of a worker in the lambdas -- src/src/TaskManager.cpp:193-204
    The counter is an [int]; every pin is taken to succeed. *)
Definition run_task (cpuAffinityStart cores : Z) (w : Workers) (x : nat * bool) : Workers :=
  if cpuAffinityStart <? 0 then w
  else if bool_decide (x ∈ pinned w) then w
  else mkWorkers (nextCore w + 1) ({[x]} ∪ pinned w) (<[x.1 := Z.rem (nextCore w) cores]> (coreOf w)).

Definition run_tasks start cores (l : list (nat * bool)) : Workers := foldl (run_task start cores) (create start) l.

Lemma run_tasks_pinned start cores l w : 0 <= start → nextCore w = start + 1 + Z.of_nat (size (pinned w)) →
  let w' := foldl (run_task start cores) w l in
  pinned w' = pinned w ∪ list_to_set l ∧ nextCore w' = start + 1 + Z.of_nat (size (pinned w')).
Proof.
  intros Hs. revert w. induction l as [|x l IH]; intros w Hn; simpl; [split; [set_solver|done]|].
  unfold run_task at 2 4 6. rewrite (proj2 (Z.ltb_ge start 0)) by lia. destruct (decide (x ∈ pinned w)) as [Hx|Hx].
  - rewrite !bool_decide_true by done. destruct (IH w Hn) as [-> E]. split; [set_solver|done].
  - rewrite !bool_decide_false by done. destruct (IH (mkWorkers (nextCore w + 1) ({[x]} ∪ pinned w) (<[x.1 := Z.rem (nextCore w) cores]> (coreOf w)))) as [-> E].
    + simpl. rewrite size_union, size_singleton by set_solver. lia.
    + simpl in *. split; [set_solver|done].
Qed.

(** The comment says that a worker pins itself once; it takes a core for its first
    transaction and another one for its first event.  After any sequence of tasks the
    counter has advanced by the number of pairs of worker and kind of task. *)
Theorem workers_take_core_per_kind start cores l : 0 <= start →
  nextCore (run_tasks start cores l) = start + 1 + Z.of_nat (size (list_to_set l : gset (nat * bool))).
Proof.
  intros Hs. unfold run_tasks. destruct (run_tasks_pinned start cores l (create start) Hs) as [Hp Hn].
  - unfold create. cbn [nextCore pinned]. rewrite (proj2 (Z.leb_le 0 start)), size_empty by lia. lia.
  - rewrite Hn, Hp. simpl. by rewrite (left_id_L ∅ (∪)).
Qed.

(** A worker that runs a transaction and then an event moves to another core. *)
Lemma workers_take_core_per_kind_witness : coreOf (run_tasks 0 4 [(7%nat, true)]) !! 7%nat = Some 1 ∧
  coreOf (run_tasks 0 4 [(7%nat, true); (7%nat, false); (7%nat, true)]) !! 7%nat = Some 2 ∧
  nextCore (run_tasks 0 4 [(7%nat, true); (7%nat, false); (7%nat, true)]) = 3.
Proof.
  split; [reflexivity|]. split; [reflexivity|]. rewrite (workers_take_core_per_kind 0 4 _ ltac:(lia)). reflexivity.
Defined.
End WorkerCores.

(** ** Mapped memory *)
Module Pages.

(** Which addresses are mapped; [mmap] and [munmap] of a range. *)
Definition Space := Z → bool.
Definition within (a len x : Z) : bool := (a <=? x) && (x <? a + len).
Definition map_range (a len : Z) (m : Space) : Space := λ x, within a len x || m x.
Definition munmap (a len : Z) (m : Space) : Space := λ x, negb (within a len x) && m x.

(** What [mmap] promises of an answer: a range of addresses that are free and not
    null; a range of length 0 is refused. *)
Definition mmap_ok (m : Space) (len : Z) (ans : option Z) : Prop :=
  ∀ a, ans = Some a → 0 < len ∧ 0 < a ∧ ∀ x, within a len x = true → m x = false.

(** HugePages::HUGE_PAGE_SIZE -- src/src/HugePages.h:41-42 *)
Definition HUGE_PAGE_SIZE : Z := 2 * 1024 * 1024.

(** [(size + page - 1) & ~(page - 1)] in 64 bits. *)
Definition round_up (page size : Z) : Z := Z.land (wrap64 (size + page - 1)) (wrap64 (Z.lnot (page - 1))).

(** HugePages::roundUpToHugePage -- src/src/HugePages.h:100-103 *)
Definition roundUpToHugePage (size : Z) : Z := round_up HUGE_PAGE_SIZE size.

(** HugePages::allocate -- src/src/HugePages.h:52-80
    [huge] and [regular] are the answers of the two calls of [mmap]. *)
Definition huge_allocate (size : Z) (fallback : bool) (huge regular : option Z) (m : Space) : option Z * Space :=
  match huge with
  | Some a => (Some a, map_range a (roundUpToHugePage size) m)
  | None =>
      if fallback then
        match regular with
        | Some a => (Some a, map_range a (roundUpToHugePage size) m)
        | None => (None, m)
        end
      else (None, m)
  end.

(** HugePages::deallocate -- src/src/HugePages.h:88-95 *)
Definition huge_deallocate (p : option Z) (size : Z) (m : Space) : Space :=
  match p with Some a => munmap a (roundUpToHugePage size) m | None => m end.

(** HugePages::isAvailable -- src/src/HugePages.h:109-120 *)
Definition isAvailable (huge : option Z) (m : Space) : bool * Space :=
  match huge with
  | Some a => (true, munmap a HUGE_PAGE_SIZE (map_range a HUGE_PAGE_SIZE m))
  | None => (false, m)
  end.

(** HugePageAllocator::allocate -- src/src/HugePages.h:187-195
    [bytes] is [sizeof(T)]. *)
Definition array_allocate (n bytes : Z) (huge regular : option Z) (m : Space) : outcome Z * Space :=
  match huge_allocate (wrap64 (n * bytes)) true huge regular m with
  | (Some a, m') => (Ok a, m')
  | (None, m') => (Throw "std::bad_alloc", m')
  end.

(** HugePageAllocator::deallocate -- src/src/HugePages.h:197-200 *)
Definition array_deallocate (p n bytes : Z) (m : Space) : Space := huge_deallocate (Some p) (wrap64 (n * bytes)) m.

(** NumaAllocator::nodeCount -- src/src/NumaAllocator.h:49-69
    The entries of the directory, each with whether it is a directory. *)
Definition nodeCount (dir : option (list (bool * string))) : Z :=
  match dir with
  | None => 1
  | Some l =>
      let count := Z.of_nat (length (List.filter (λ e, e.1 && String.prefix "node" e.2) l)) in
      if 0 <? count then count else 1
  end.

(** The first-touch loop -- src/src/NumaAllocator.h:111-115
    The offsets written. *)
Fixpoint touch (fuel : nat) (alignedSize pageSize offset : Z) : list Z :=
  match fuel with
  | O => []
  | S fuel' => if offset <? alignedSize then offset :: touch fuel' alignedSize pageSize (offset + pageSize) else []
  end.

(** NumaAllocator::allocateOnNode -- src/src/NumaAllocator.h:86-118
    [ans] is the answer of [mmap], [bind] that of [mbind] for the mask and the number of
    nodes; the offsets written by the loop are the second result.  Shifting by a negative
    number or by 64 is undefined. *)
Definition allocateOnNode (page size node : Z) (ans : option Z) (bind : Z → Z → bool) (m : Space) : outcome (option Z * list Z) * Space :=
  let alignedSize := round_up page size in
  match ans with
  | None => (Ok (None, []), m)
  | Some a =>
      let m' := map_range a alignedSize m in
      if (0 <=? node) && (node <? 64) then
        if bind (Z.shiftl 1 node) (node + 2) then (Ok (Some a, []), m')
        else (Ok (Some a, touch (Z.to_nat alignedSize) alignedSize page 0), m')
      else (Crash "shift", m')
  end.

(** NumaAllocator::allocateLocal -- src/src/NumaAllocator.h:126-152 *)
Definition allocateLocal (page size : Z) (ans : option Z) (bind : bool) (m : Space) : option Z * list Z * Space :=
  let alignedSize := round_up page size in
  match ans with
  | None => (None, [], m)
  | Some a => (Some a, if bind then [] else touch (Z.to_nat alignedSize) alignedSize page 0, map_range a alignedSize m)
  end.

(** NumaAllocator::deallocate -- src/src/NumaAllocator.h:160-168 *)
Definition numa_deallocate (page : Z) (p : option Z) (size : Z) (m : Space) : Space :=
  match p with Some a => munmap a (round_up page size) m | None => m end.

(** TransactionScopePool::AllocMode -- src/src/TransactionScopePool.h:63-68 *)
Inductive AllocMode := ALLOC_DEFAULT | ALLOC_HUGE_PAGES | ALLOC_NUMA_LOCAL.

(** What the system answers to a constructor of the pool: the two mappings of
    [HugePages::allocate], the one of [allocateLocal] and its [mbind], and the block of
    [new Node[]]. *)
Record Answers := mkAnswers { a_huge : option Z; a_regular : option Z; a_local : option Z; a_bind : bool; a_new : option Z }.

(** TransactionScopePool::TransactionScopePool, the array of nodes -- src/src/TransactionScopePool.h:70-104
    [bytes] is [sizeof(Node)]; the mode that succeeded and the array.  [new Node[]] throws
    when the size does not fit or there is no memory. *)
Definition pool_create (page poolSize bytes : Z) (mode : AllocMode) (ans : Answers) (m : Space) : outcome (AllocMode * Z) * Space :=
  let allocBytes := wrap64 (poolSize * bytes) in
  let r := match mode with
           | ALLOC_HUGE_PAGES => huge_allocate allocBytes true (a_huge ans) (a_regular ans) m
           | ALLOC_NUMA_LOCAL => let x := allocateLocal page allocBytes (a_local ans) (a_bind ans) m in (x.1.1, x.2)
           | ALLOC_DEFAULT => (None, m)
           end in
  match r.1 with
  | Some a => (Ok (mode, a), r.2)
  | None =>
      match a_new ans with
      | Some a => if poolSize * bytes <? 2 ^ 64 then (Ok (ALLOC_DEFAULT, a), map_range a (poolSize * bytes) r.2) else (Throw "std::bad_array_new_length", r.2)
      | None => (Throw "std::bad_alloc", r.2)
      end
  end.

(** TransactionScopePool::~TransactionScopePool, the array of nodes -- src/src/TransactionScopePool.h:120-139 *)
Definition pool_destroy (page poolSize bytes : Z) (x : AllocMode * Z) (m : Space) : Space :=
  match x.1 with
  | ALLOC_HUGE_PAGES => huge_deallocate (Some x.2) (wrap64 (poolSize * bytes)) m
  | ALLOC_NUMA_LOCAL => numa_deallocate page (Some x.2) (wrap64 (poolSize * bytes)) m
  | ALLOC_DEFAULT => munmap x.2 (poolSize * bytes) m
  end.

(** ** Rounding and mapping *)

Lemma wrap64_lnot n : 0 <= n < 64 → wrap64 (Z.lnot (2 ^ n - 1)) = 2 ^ 64 - 2 ^ n.
Proof.
  intros Hn. unfold wrap64, Z.lnot. assert (0 < 2 ^ n < 2 ^ 64) by (split; [lia|apply Z.pow_lt_mono_r; lia]).
  symmetry. apply (Zmod_unique _ _ (-1)); lia.
Qed.

Lemma land_high n x : 0 <= n < 64 → 0 <= x < 2 ^ 64 → Z.land x (2 ^ 64 - 2 ^ n) = 2 ^ n * (x / 2 ^ n).
Proof.
  intros Hn Hx. replace (2 ^ 64 - 2 ^ n) with (Z.shiftl (Z.ones (64 - n)) n).
  - rewrite <- Z.shiftr_div_pow2, Z.mul_comm, <- Z.shiftl_mul_pow2 by lia. apply Z.bits_inj'. intros i Hi.
    rewrite Z.land_spec, !Z.shiftl_spec by lia. destruct (decide (i < n)).
    { rewrite !(Z.testbit_neg_r _ (i - n)) by lia. apply andb_false_r. }
    rewrite Z.shiftr_spec by lia. replace (i - n + n) with i by lia. destruct (decide (i < 64)).
    + rewrite Z.ones_spec_low by lia. apply andb_true_r.
    + rewrite Z.ones_spec_high by lia. rewrite andb_false_r. symmetry. destruct (decide (x = 0)) as [->|]; [apply Z.bits_0|].
      apply Z.bits_above_log2; [lia|]. assert (Z.log2 x < 64); [apply Z.log2_lt_pow2; lia|lia].
  - rewrite Z.ones_equiv, Z.shiftl_mul_pow2 by lia. rewrite Z.mul_pred_l, <- Z.pow_add_r by lia. f_equal. f_equal. lia.
Qed.

(** Rounding up to a page of [2^n] bytes: the least multiple of the page that is not
    smaller, or 0 if that does not fit into 64 bits. *)
Lemma round_up_spec n size : 0 <= n < 64 → is_u64 size → let r := round_up (2 ^ n) size in
  if size <=? 2 ^ 64 - 2 ^ n then size <= r < size + 2 ^ n ∧ r `mod` 2 ^ n = 0 else r = 0.
Proof.
  intros Hn Hs. unfold is_u64 in Hs. cbn zeta. unfold round_up. rewrite wrap64_lnot by done. pose proof (wrap64_range (size + 2 ^ n - 1)) as Hr. unfold is_u64 in Hr.
  rewrite land_high by done. assert (0 < 2 ^ n) by lia. destruct (Z.leb_spec size (2 ^ 64 - 2 ^ n)).
  - rewrite wrap64_small by (unfold is_u64; lia). split; [|rewrite Z.mul_comm; apply Z_mod_mult].
    pose proof (Z.div_mod (size + 2 ^ n - 1) (2 ^ n) ltac:(lia)). pose proof (Z.mod_pos_bound (size + 2 ^ n - 1) (2 ^ n) ltac:(lia)). lia.
  - assert (2 ^ n < 2 ^ 64) by (apply Z.pow_lt_mono_r; lia).
    assert (wrap64 (size + 2 ^ n - 1) = size + 2 ^ n - 1 - 2 ^ 64) as -> by (unfold wrap64; symmetry; apply (Zmod_unique _ _ 1); lia).
    rewrite Z.div_small by lia. lia.
Qed.

Lemma within_spec a len x : within a len x = true ↔ a <= x < a + len.
Proof. unfold within. rewrite andb_true_iff, Z.leb_le, Z.ltb_lt. done. Qed.

Lemma map_unmap a len m : (∀ x, within a len x = true → m x = false) → ∀ x, munmap a len (map_range a len m) x = m x.
Proof. intros Hf x. unfold munmap, map_range. specialize (Hf x). destruct (within a len x); simpl; [symmetry; auto|done]. Qed.

(** A range that was mapped for [size] bytes, rounded up to pages. *)
Lemma rounded_range_ok n size a m : 0 <= n < 64 → is_u64 size → mmap_ok m (round_up (2 ^ n) size) (Some a) →
  (∀ x, a <= x < a + size → m x = false ∧ map_range a (round_up (2 ^ n) size) m x = true) ∧
  ∀ x, munmap a (round_up (2 ^ n) size) (map_range a (round_up (2 ^ n) size) m) x = m x.
Proof.
  intros Hn Hs Hok. destruct (Hok a eq_refl) as (Hl & _ & Hf). pose proof (round_up_spec n size Hn Hs) as Hr. cbn zeta in Hr.
  split; [|by apply map_unmap]. intros x Hx. destruct (size <=? 2 ^ 64 - 2 ^ n); [|lia].
  assert (within a (round_up (2 ^ n) size) x = true) as Hw by (apply within_spec; lia). split; [by apply Hf|]. unfold map_range. by rewrite Hw.
Qed.

(** Memory on huge pages.  Whatever the size, 64-bit overflow of the rounding included,
    and whichever of the two kinds of mapping succeeds: memory that is returned covers
    the size asked for and was free, and giving it back with the same size restores the
    address space; nothing is mapped if nothing is returned. *)
Theorem huge_pages_round_trip size fb huge regular m : is_u64 size →
  mmap_ok m (roundUpToHugePage size) huge → mmap_ok m (roundUpToHugePage size) regular →
  let r := huge_allocate size fb huge regular m in
  match r.1 with
  | Some a => (∀ x, a <= x < a + size → m x = false ∧ r.2 x = true) ∧ ∀ x, huge_deallocate r.1 size r.2 x = m x
  | None => r.2 = m
  end.
Proof.
  intros Hs Hh Hr. unfold huge_allocate, huge_deallocate, roundUpToHugePage in *. change HUGE_PAGE_SIZE with (2 ^ 21) in *.
  destruct huge as [a|]; [|destruct fb; [destruct regular as [a|]|]]; simpl; try done; apply rounded_range_ok; done || lia.
Qed.

(** The offsets the first-touch loop writes: one in every page, all inside. *)
Lemma touch_pages k page off fuel : 0 < page → (k <= fuel)%nat → touch fuel (off + Z.of_nat k * page) page off = (λ i, off + Z.of_nat i * page) <$> seq 0 k.
Proof.
  intros Hp. revert off fuel. induction k as [|k IH]; intros off fuel Hf.
  - destruct fuel; simpl; [done|]. by rewrite (proj2 (Z.ltb_ge _ _)) by lia.
  - destruct fuel as [|fuel]; [lia|]. cbn [touch]. rewrite (proj2 (Z.ltb_lt _ _)) by nia. cbn [seq fmap list_fmap]. f_equal; [lia|].
    replace (off + Z.of_nat (S k) * page) with (off + page + Z.of_nat k * page) by lia. rewrite IH by lia. rewrite <- fmap_S_seq, <- list_fmap_compose.
    apply list_fmap_ext. intros i x _. simpl. lia.
Qed.

(** Memory on a node of the machine.  For a node below 64 the memory covers the size, was
    free, is given back exactly, and when it cannot be bound the loop ends after writing
    once to each of its pages. *)
Theorem node_memory_round_trip n size node ans bind m : 0 <= n < 64 → is_u64 size → 0 <= node < 64 → mmap_ok m (round_up (2 ^ n) size) ans →
  match allocateOnNode (2 ^ n) size node ans bind m with
  | (Ok (Some a, l), m') =>
      (∀ x, a <= x < a + size → m x = false ∧ m' x = true) ∧ (∀ x, numa_deallocate (2 ^ n) (Some a) size m' x = m x) ∧
      l = if bind (2 ^ node) (node + 2) then [] else (λ i, Z.of_nat i * 2 ^ n) <$> seq 0 (Z.to_nat (round_up (2 ^ n) size / 2 ^ n))
  | (Ok (None, l), m') => ans = None ∧ l = [] ∧ m' = m
  | _ => False
  end.
Proof.
  intros Hn Hs Hnode Hok. unfold allocateOnNode, numa_deallocate. destruct ans as [a|]; [|done].
  rewrite (proj2 (Z.leb_le 0 node)), (proj2 (Z.ltb_lt node 64)) by lia. cbn [andb]. rewrite Z.shiftl_1_l.
  destruct (rounded_range_ok n size a m Hn Hs Hok) as [H1 H2]. destruct (bind (2 ^ node) (node + 2)); [by split_and!|].
  split_and!; try done. pose proof (round_up_spec n size Hn Hs) as Hr. cbn zeta in Hr. set (r := round_up (2 ^ n) size) in *.
  assert (0 < 2 ^ n) by lia. assert (0 <= r ∧ r `mod` 2 ^ n = 0) as [Hr0 Hm].
  { destruct (size <=? 2 ^ 64 - 2 ^ n); [unfold is_u64 in Hs; lia|]. rewrite Hr. by split. }
  assert (r = 2 ^ n * (r / 2 ^ n)) as Er by (apply Z_div_exact_full_2; lia).
  assert (0 <= r / 2 ^ n) by (apply Z.div_pos; lia).
  pose proof (touch_pages (Z.to_nat (r / 2 ^ n)) (2 ^ n) 0 (Z.to_nat r) ltac:(lia) ltac:(nia)) as Ht.
  rewrite Z2Nat.id in Ht by done. replace (0 + r / 2 ^ n * 2 ^ n) with r in Ht by lia. exact Ht.
Qed.

Lemma allocateLocal_range n size ans bind m : 0 <= n < 64 → is_u64 size → mmap_ok m (round_up (2 ^ n) size) ans →
  let x := allocateLocal (2 ^ n) size ans bind m in
  match x.1.1 with
  | Some a => (∀ y, a <= y < a + size → m y = false ∧ x.2 y = true) ∧ ∀ y, numa_deallocate (2 ^ n) (Some a) size x.2 y = m y
  | None => x.2 = m
  end.
Proof. intros Hn Hs Hok. unfold allocateLocal, numa_deallocate. destruct ans as [a|]; [|done]. simpl. by apply rounded_range_ok. Qed.

(** The memory of the scope pool.  Whichever way of allocation is asked for and
    whichever call fails, the array that a constructor obtains for a size that fits into
    64 bits holds all nodes in memory that was free, and the destructor gives back exactly
    that; a constructor that throws has mapped nothing. *)
Theorem scope_pool_memory n poolSize bytes mode ans m : 0 <= n < 64 → 0 <= poolSize → 0 < bytes → poolSize * bytes < 2 ^ 64 →
  let size := poolSize * bytes in
  mmap_ok m (roundUpToHugePage size) (a_huge ans) → mmap_ok m (roundUpToHugePage size) (a_regular ans) →
  mmap_ok m (round_up (2 ^ n) size) (a_local ans) → mmap_ok m size (a_new ans) →
  let r := pool_create (2 ^ n) poolSize bytes mode ans m in
  match r.1 with
  | Ok x => (∀ y, x.2 <= y < x.2 + size → m y = false ∧ r.2 y = true) ∧ ∀ y, pool_destroy (2 ^ n) poolSize bytes x r.2 y = m y
  | _ => r.2 = m
  end.
Proof.
  intros Hn Hp Hb Hlt size Hh Hr Hl Hnew. assert (is_u64 size) as Hs by (unfold is_u64; nia).
  unfold pool_create, pool_destroy. fold size. rewrite (wrap64_small size Hs), (proj2 (Z.ltb_lt size (2 ^ 64)) Hlt).
  assert (∀ a, a_new ans = Some a → (∀ y, a <= y < a + size → m y = false ∧ map_range a size m y = true) ∧ ∀ y, munmap a size (map_range a size m) y = m y) as Hdef.
  { intros a Ha. destruct (Hnew a Ha) as (_ & _ & Hf). split; [|by apply map_unmap]. intros y Hy. apply within_spec in Hy. split; [by apply Hf|].
    unfold map_range. by rewrite Hy. }
  destruct mode; cbn zeta.
  - cbn [fst snd]. destruct (a_new ans) as [a|]; cbn [fst snd]; [by apply Hdef|done].
  - pose proof (huge_pages_round_trip size true _ _ m Hs Hh Hr) as H. cbn zeta in H. destruct (huge_allocate size true _ _ m) as [[a|] m']; cbn [fst snd] in *; [done|].
    subst m'. destruct (a_new ans) as [a|]; cbn [fst snd]; [by apply Hdef|done].
  - pose proof (allocateLocal_range n size _ (a_bind ans) m Hn Hs Hl) as H. cbn zeta in H. destruct (allocateLocal _ size _ _ m) as [[[a|] l] m']; cbn [fst snd] in *; [done|].
    subst m'. destruct (a_new ans) as [a|]; cbn [fst snd]; [by apply Hdef|done].
Qed.

(** ** Concrete cases *)

Abbreviation nothing := (λ _ : Z, false).

Lemma huge_pages_round_trip_witness : huge_allocate 3000000 true None (Some 8192) nothing = (Some 8192, map_range 8192 4194304 nothing) ∧
  huge_deallocate (Some 8192) 3000000 (map_range 8192 4194304 nothing) 9000 = false.
Proof.
  split; [reflexivity|].
  pose proof (huge_pages_round_trip 3000000 true None (Some 8192) nothing ltac:(by split) ltac:(by intros a [=]) ltac:(intros a [= <-]; by split_and!)) as [_ H].
  exact (H 9000).
Defined.

Lemma node_memory_round_trip_witness : (allocateOnNode 4096 10000 1 (Some 8192) (λ _ _, false) nothing).1 = Ok (Some 8192, [0; 4096; 8192]) ∧
  numa_deallocate 4096 (Some 8192) 10000 (allocateOnNode 4096 10000 1 (Some 8192) (λ _ _, false) nothing).2 9000 = false.
Proof.
  split; [by vm_compute|].
  pose proof (node_memory_round_trip 12 10000 1 (Some 8192) (λ _ _, false) nothing ltac:(lia) ltac:(by split) ltac:(lia) ltac:(intros a [= <-]; by split_and!)) as (_ & H & _).
  exact (H 9000).
Defined.

Lemma scope_pool_memory_witness : (pool_create 4096 1024 16 ALLOC_HUGE_PAGES (mkAnswers None None None true (Some 4096)) nothing).1 = Ok (ALLOC_DEFAULT, 4096) ∧
  pool_destroy 4096 1024 16 (ALLOC_DEFAULT, 4096) (map_range 4096 16384 nothing) 5000 = false.
Proof.
  split; [reflexivity|].
  pose proof (scope_pool_memory 12 1024 16 ALLOC_HUGE_PAGES (mkAnswers None None None true (Some 4096)) nothing ltac:(lia) ltac:(lia) ltac:(lia) ltac:(lia)
    ltac:(by intros a [=]) ltac:(by intros a [=]) ltac:(by intros a [=]) ltac:(intros a [= <-]; by split_and!)) as [_ H].
  exact (H 5000).
Defined.

(** An array whose size does not fit into 64 bits gets the memory of the wrapped
    size: 2^61 + 1 elements of 8 bytes get one huge page. *)
Lemma array_allocate_overflows : array_allocate (2 ^ 61 + 1) 8 (Some 4194304) None nothing = (Ok 4194304, map_range 4194304 2097152 nothing).
Proof. reflexivity. Qed.
End Pages.
