(* ===== verification/Matcher.v ===== *)
(** The matching step of [src/src/OrderMatcher.cpp] and the container of deferred
    events it fills ([src/src/Processor.cpp]). *)

From Stdlib Require Import Ascii String ZArith Lia.
From S2P Require Import Prelude Types IdGen WideData OrderStore OrderBook LinkTree TxScope Engine.

Module Defered.

Section ops.
Context {SO SD : Type}.
Abbreviation W := (World SO SD).

(** Processor::addDeferedEvent -- src/src/Processor.cpp:507-511 *)
Definition addDeferedEvent (e : DeferedEvent) : M W unit :=
  modify (λ w, set_events (w_events w ++ [e]) w).

(** Processor::deferedEventCount -- src/src/Processor.cpp:513-516 *)
Definition deferedEventCount (w : W) : nat := length (w_events w).

(** Processor::removeDeferedEventsFrom -- src/src/Processor.cpp:518-532 *)
Definition removeDeferedEventsFrom (startIndex : nat) : M W unit :=
  modify (λ w, if (length (w_events w) <=? startIndex)%nat then w
               else set_events (take startIndex (w_events w)) w).

(** Processor::clearDeferedEvents -- src/src/Processor.cpp:637-644 *)
Definition clearDeferedEvents : M W unit := modify (set_events []).
End ops.
End Defered.

Module OrderMatcher.
Import Defered.

Section ops.
Context {SO SD : Type}.
Abbreviation W := (World SO SD).
Implicit Types (w : W).

(** FindOpositeOrder::FindOpositeOrder -- src/src/OrderMatcher.cpp:40-52 *)
Definition oposite_side (o : OrderEntry) : Side :=
  if bool_decide (o_side o = BUY_SIDE) then SELL_SIDE else BUY_SIDE.

(** FindOpositeOrder::match, the price test -- src/src/OrderMatcher.cpp:89-110
    The price test of the search: a buy order reaches the prices up to its own,
    any other order the prices from its own on. *)
Definition reaches (o : OrderEntry) (p : PriceT) : bool :=
  if bool_decide (o_side o = BUY_SIDE) then px_leb p (o_price o) else px_leb (o_price o) p.

(** FindOpositeOrder::match -- src/src/OrderMatcher.cpp:66-113
    The result and the value left in [stop]. *)
Definition oposite_match (o : OrderEntry) (s : OrderStore.t SO) (id : IdT) : bool * bool :=
  match OrderStore.order_at id s with
  | None => (false, false)
  | Some c =>
      if 0 =? o_leavesQty c then (false, false)
      else if bool_decide (o_ordType o = MARKET_ORDERTYPE) then (true, false)
      else if bool_decide (o_ordType c = MARKET_ORDERTYPE) then (true, false)
      else if reaches o (o_price c) then (true, false) else (false, true)
  end.

(** class FindOpositeOrder -- src/src/OrderMatcher.cpp:37-64 *)
Definition FindOpositeOrder (o : OrderEntry) (s : OrderStore.t SO) : Book.OrderFunctor :=
  Book.mkFunctor (o_instrument o) (oposite_side o) (oposite_match o s).

Definition no_market : string :=
  "Unable to find oposite order for Market order during order matching.".
Definition no_price : string :=
  "OrderMatcher: cannot match two market orders - no reference price available!".

(** OrderMatcher::match, the trade -- src/src/OrderMatcher.cpp:182-185
    The trade with the order found: the smaller of the two open quantities at
    the price of the resting order. *)
Definition trade_with (o c : OrderEntry) (cl : loc) : TradeParams :=
  mkTP (Z.min (o_leavesQty o) (o_leavesQty c)) (o_price c) cl.

(** OrderMatcher::match -- src/src/OrderMatcher.cpp:136-206
    [l] is the order to match; the read locks on the two orders make the reads
    of one call consistent. *)
Definition match_order (l : loc) : M W unit :=
  o <- deref l ;;
  w <- gets (λ w, w) ;;
  id <- lift (Book.find (FindOpositeOrder o (w_store w)) (w_book w)) ;;
  if negb (isValidId id) then
    if bool_decide (o_ordType o = MARKET_ORDERTYPE) then
      addDeferedEvent (CancelOrderDefered l no_market)
    else ret tt
  else
    match OrderStore.locateByOrderId id (w_store w) with
    | None => throw "Unable to retrive order from OrderStorage after search!"
    | Some cl =>
        c <- deref cl ;;
        let trade := trade_with o c cl in
        if px_eqb (td_lastPx trade) px0 && px_eqb (o_price o) px0 then throw no_price
        else
          let remainingQty := wrap32 (o_leavesQty o - td_lastQty trade) in
          addDeferedEvent (ExecutionDefered l [trade]) ;;;
          when (0 <? remainingQty) (addDeferedEvent (MatchOrderDefered l))
    end.
End ops.

Section theory.
Context {SO SD : Type}.
Abbreviation W := (World SO SD).
Implicit Types (w : W).

(** The resting orders an order is matched against, best first. *)
Definition opposite_book (o : OrderEntry) w : option Multimap.t :=
  Book.orderGroups (w_book w) !! o_instrument o ≫= Book.side_orders (oposite_side o).

(** The resting order may trade with [o]: it is open and its price is reached. *)
Definition tradable (o c : OrderEntry) : bool :=
  negb (0 =? o_leavesQty c) &&
  (bool_decide (o_ordType o = MARKET_ORDERTYPE) || reaches o (o_price c)).

(** Book and store agree on the resting orders: valid identifiers, each order
    known to the store under the price the book holds with a 32-bit quantity, and
    no market orders. *)
Definition agrees (l : Multimap.t) (s : OrderStore.t SO) : Prop :=
  Forall (λ e, isValidId e.2 = true ∧ ∃ c, OrderStore.order_at e.2 s = Some c ∧
    o_price c = e.1 ∧ o_ordType c ≠ MARKET_ORDERTYPE ∧ is_u32 (o_leavesQty c)) l.

(** [e] is tradable with [o]. *)
Definition entry_tradable (o : OrderEntry) (s : OrderStore.t SO) (e : PriceT * IdT) : Prop :=
  ∃ c, OrderStore.order_at e.2 s = Some c ∧ tradable o c = true.

Lemma oposite_match_spec o s e : agrees [e] s →
  oposite_match o s e.2 = (true, false) ∧ entry_tradable o s e ∨
  ¬ entry_tradable o s e ∧
    (oposite_match o s e.2 = (false, false) ∨
     oposite_match o s e.2 = (false, true) ∧ o_ordType o ≠ MARKET_ORDERTYPE ∧
       reaches o e.1 = false).
Proof.
  intros [(_ & c & Hc & Hp & Hm & _) _]%Forall_cons. unfold oposite_match, entry_tradable, tradable.
  rewrite Hc. destruct (0 =? o_leavesQty c) eqn:E0; lazy iota beta.
  { right. split; [|by left]. intros (c' & [= <-] & H). by rewrite E0 in H. }
  rewrite (bool_decide_eq_false_2 (o_ordType c = _)) by done.
  case_bool_decide as Ho; lazy iota beta.
  { left. split; [done|]. exists c. by rewrite E0. }
  destruct (reaches o (o_price c)) eqn:Er.
  { left. split; [done|]. exists c. by rewrite E0, Er. }
  right. split; [|rewrite <- Hp; auto].
  intros (c' & [= <-] & H). by rewrite E0, Er in H.
Qed.

(** In a sorted side later prices are not better. *)
Lemma sorted_after cmp `{!Multimap.PriceOrder cmp} (l1 l2 : Multimap.t) e x :
  Multimap.wf cmp (l1 ++ e :: l2) → x ∈ l2 →
  px_isnan e.1 = false ∧ px_isnan x.1 = false ∧ Multimap.rank (cmp := cmp) e.1 <= Multimap.rank x.1.
Proof.
  intros [Hn Hs] Hx. unfold Multimap.no_nan in Hn. rewrite Forall_forall in Hn.
  split; [apply Hn; set_solver|]. split; [apply Hn; set_solver|].
  apply StronglySorted_app in Hs as (_ & _ & Hs). apply StronglySorted_cons in Hs as [Hle _].
  rewrite Forall_forall in Hle. by apply Hle.
Qed.

(** Once a price is out of reach, all later ones are. *)
Lemma reaches_mono o (l1 l2 : Multimap.t) e w g : Book.book_wf (w_book w) →
  Book.orderGroups (w_book w) !! o_instrument o = Some g →
  Book.side_orders (oposite_side o) g = Some (l1 ++ e :: l2) → reaches o e.1 = false →
  Forall (λ x, reaches o x.1 = false) l2.
Proof.
  intros Hwf Hg Hs Hr. destruct (Book.book_wf_lookup _ _ _ Hwf Hg) as [Hb Ha].
  unfold oposite_side, reaches in *. apply Forall_forall. intros x Hx.
  case_bool_decide as Hd; simpl in Hs; injection Hs as Hl; rewrite Hl in *.
  - destruct (sorted_after px_ltb _ _ _ _ Ha Hx) as (He & Hx' & Hle). simpl in Hle.
    unfold px_leb in *. rewrite He in Hr. rewrite Hx'.
    destruct (px_isnan (o_price o)); [done|]. simpl in *. case_bool. apply Z.leb_gt. lia.
  - destruct (sorted_after px_gtb _ _ _ _ Hb Hx) as (He & Hx' & Hle). simpl in Hle.
    unfold px_leb in *. rewrite He in Hr. rewrite Hx'.
    destruct (px_isnan (o_price o)); [done|]. simpl in *. case_bool. apply Z.leb_gt. lia.
Qed.

(** What the search finds: the first tradable entry, or nothing when there is
    none. *)
Lemma find_tradable o w g l : Book.book_wf (w_book w) →
  Book.orderGroups (w_book w) !! o_instrument o = Some g →
  Book.side_orders (oposite_side o) g = Some l → agrees l (w_store w) →
  ∃ id, Book.find (FindOpositeOrder o (w_store w)) (w_book w) = Ok id ∧
    ((∃ l1 p l2, l = l1 ++ (p, id) :: l2 ∧ isValidId id = true ∧
        entry_tradable o (w_store w) (p, id) ∧
        Forall (λ e, ¬ entry_tradable o (w_store w) e) l1) ∨
     (id = IdT0 ∧ Forall (λ e, ¬ entry_tradable o (w_store w) e) l)).
Proof.
  intros Hwf Hg Hs Ha. set (s := w_store w) in *.
  assert (∀ e, e ∈ l → agrees [e] s) as Hag.
  { intros e He. apply Forall_singleton. unfold agrees in Ha. rewrite Forall_forall in Ha. by apply Ha. }
  assert (∀ l1 l2, l = l1 ++ l2 → Forall (λ e, oposite_match o s e.2 = (false, false)) l1 →
    Forall (λ e, ¬ entry_tradable o s e) l1) as Hskip.
  { intros l1 l2 -> Hf. apply Forall_forall. intros e He. rewrite Forall_forall in Hf.
    destruct (oposite_match_spec o s e) as [[E _]|[? _]]; [apply Hag; set_solver| |done].
    rewrite Hf in E by done. done. }
  exists (Book.find_loop (oposite_match o s) l). split.
  { unfold Book.find. simpl. rewrite Hg. unfold oposite_side in *.
    case_bool_decide; simpl in *; by injection Hs as ->. }
  destruct (Book.find_loop_spec (oposite_match o s) l)
    as [(l1 & p & l2 & Hl & Hm & Hf)|[-> [Hf|(l1 & e & l2 & Hl & Hm & Hf)]]].
  - left. exists l1, p, l2. split; [done|].
    assert (agrees [(p, Book.find_loop (oposite_match o s) l)] s) as He
      by (apply Hag; rewrite Hl at 2; set_solver).
    split; [by apply Forall_singleton in He as [He _]|].
    split; [|by eapply Hskip].
    destruct (oposite_match_spec o s _ He) as [[_ ?]|[_ [E|[E _]]]]; [done|simpl in E; by rewrite E in Hm..].
  - right. split; [done|]. apply (Hskip l []); [by rewrite app_nil_r|done].
  - right. split; [done|]. rewrite Hl. apply Forall_app. split; [by eapply Hskip|].
    destruct (oposite_match_spec o s e) as [[E _]|[Hn [E|(_ & Hmk & Hr)]]];
      [apply Hag; set_solver|rewrite E in Hm; done|rewrite E in Hm; done|].
    apply Forall_cons. split; [done|]. subst l.
    pose proof (reaches_mono o l1 l2 e w g Hwf Hg Hs Hr) as Hmono.
    apply Forall_forall. intros x Hin (c' & Hc' & Ht).
    rewrite Forall_forall in Hmono. specialize (Hmono x Hin).
    assert (agrees [x] s) as [(_ & c & Hc & Hp & _) _]%Forall_cons by (apply Hag; set_solver).
    rewrite Hc in Hc'. injection Hc' as <-.
    unfold tradable in Ht. rewrite Hp, Hmono, bool_decide_eq_false_2 in Ht by done.
    by rewrite andb_false_r in Ht.
Qed.

(** The better of two prices for [o]: lower when it buys, higher otherwise. *)
Definition better (o : OrderEntry) (p q : PriceT) : bool :=
  if bool_decide (o_side o = BUY_SIDE) then px_ltb p q else px_gtb p q.

Lemma later_not_better o w g l1 e l2 : Book.book_wf (w_book w) →
  Book.orderGroups (w_book w) !! o_instrument o = Some g →
  Book.side_orders (oposite_side o) g = Some (l1 ++ e :: l2) →
  Forall (λ x, better o x.1 e.1 = false) l2.
Proof.
  intros Hwf Hg Hs. destruct (Book.book_wf_lookup _ _ _ Hwf Hg) as [Hb Ha].
  unfold oposite_side, better in *. apply Forall_forall. intros x Hx.
  case_bool_decide as Hd; simpl in Hs; injection Hs as Hl; rewrite Hl in *.
  - destruct (sorted_after px_ltb _ _ _ _ Ha Hx) as (He & Hx' & Hle).
    rewrite (Multimap.rank_cmp (cmp := px_ltb)) by done. by apply Z.ltb_ge.
  - destruct (sorted_after px_gtb _ _ _ _ Hb Hx) as (He & Hx' & Hle).
    rewrite (Multimap.rank_cmp (cmp := px_gtb)) by done. by apply Z.ltb_ge.
Qed.

(** The events a found order gives rise to. *)
Definition trade_events (l : loc) (o c : OrderEntry) (cl : loc) : list DeferedEvent :=
  ExecutionDefered l [trade_with o c cl] ::
  (if decide (o_leavesQty o <= o_leavesQty c) then [] else [MatchOrderDefered l]).

Lemma match_order_found w l o id c cl : heap_at w l = Some o → is_u32 (o_leavesQty o) →
  is_u32 (o_leavesQty c) → Book.find (FindOpositeOrder o (w_store w)) (w_book w) = Ok id →
  isValidId id = true → OrderStore.locateByOrderId id (w_store w) = Some cl →
  heap_at w cl = Some c →
  match_order l w = if px_eqb (o_price c) px0 && px_eqb (o_price o) px0 then (Throw no_price, w)
    else (Ok tt, set_events (w_events w ++ trade_events l o c cl) w).
Proof.
  intros Ho Hq Hqc Hf Hv Hl Hc. unfold match_order, bind at 1. rewrite (deref_some _ _ _ Ho).
  unfold bind, gets, lift. rewrite Hf, Hv. lazy beta iota delta [negb]. rewrite Hl.
  rewrite (deref_some _ _ _ Hc). cbn [td_lastPx trade_with].
  destruct (_ && _); [done|]. unfold addDeferedEvent, modify, when, ret.
  cbn [td_lastQty trade_with]. unfold trade_events.
  assert ((0 <? wrap32 (o_leavesQty o - Z.min (o_leavesQty o) (o_leavesQty c))) =
    negb (bool_decide (o_leavesQty o <= o_leavesQty c))) as ->.
  { unfold is_u32 in *. rewrite wrap32_small by (unfold is_u32; lia).
    case_bool_decide; simpl; [apply Z.ltb_ge|apply Z.ltb_lt]; lia. }
  case_bool_decide; [rewrite decide_True by done|rewrite decide_False by done]; simpl; [done|].
  unfold set_events; simpl. by rewrite <- app_assoc.
Qed.

(** ** Properties *)

(** C2: one matching step pairs the order with the best resting order it may
    trade with: the first open order, in price-time priority, whose price the
    order reaches (any open order for a market order).  No tradable order stands
    before it and none has a better price.  The step then defers one execution
    of the smaller open quantity at the resting order's price and, exactly when
    the order keeps an open quantity, another matching step; it throws when
    neither side has a price.  When no resting order is tradable a limit order
    is left alone and a market order is deferred for cancellation. *)
Theorem match_takes_best w l o g bk : heap_at w l = Some o → is_u32 (o_leavesQty o) →
  Book.book_wf (w_book w) → Book.orderGroups (w_book w) !! o_instrument o = Some g →
  Book.side_orders (oposite_side o) g = Some bk → agrees bk (w_store w) →
  (∃ l1 p id l2 c cl, bk = l1 ++ (p, id) :: l2 ∧ OrderStore.locateByOrderId id (w_store w) = Some cl ∧
     heap_at w cl = Some c ∧ tradable o c = true ∧ o_price c = p ∧
     Forall (λ e, ¬ entry_tradable o (w_store w) e) l1 ∧ Forall (λ e, better o e.1 p = false) l2 ∧
     match_order l w = if px_eqb p px0 && px_eqb (o_price o) px0 then (Throw no_price, w)
       else (Ok tt, set_events (w_events w ++ trade_events l o c cl) w)) ∨
  (Forall (λ e, ¬ entry_tradable o (w_store w) e) bk ∧
   match_order l w = (Ok tt, if decide (o_ordType o = MARKET_ORDERTYPE) then
     set_events (w_events w ++ [CancelOrderDefered l no_market]) w else w)).
Proof.
  intros Ho Hq Hwf Hg Hs Ha.
  destruct (find_tradable o w g bk Hwf Hg Hs Ha)
    as (id & Hf & [(l1 & p & l2 & -> & Hv & Ht & Hn)|[-> Hn]]).
  - left. destruct Ht as (c & Hc & Ht). cbn [snd] in Hc. pose proof Hc as Hc'. unfold OrderStore.order_at in Hc'.
    destruct (OrderStore.locateByOrderId id (w_store w)) as [cl|] eqn:Hcl; simpl in Hc'; [|done].
    assert (agrees [(p, id)] (w_store w)) as [(_ & c' & Hcc & Hp & _ & Hqc) _]%Forall_cons.
    { apply Forall_app in Ha as [_ Ha]. apply Forall_cons in Ha as [Ha _]. by apply Forall_singleton. }
    simpl in Hcc. rewrite Hc in Hcc. injection Hcc as <-. simpl in Hp.
    exists l1, p, id, l2, c, cl. repeat split; try done.
    + by eapply (later_not_better o w g l1 (p, id)).
    + rewrite <- Hp. by apply (match_order_found w l o id c cl).
  - right. split; [done|]. unfold match_order, bind at 1. rewrite (deref_some _ _ _ Ho).
    unfold bind, gets, lift. rewrite Hf. change (isValidId IdT0) with false.
    lazy beta iota delta [negb]. case_bool_decide; by case_decide.
Qed.
End theory.

(** ** Witness: an incoming sell order against the book of three buy orders, the
    first of which has nothing left. *)

Definition ex_sell : OrderEntry := Book.ex_order 10 SELL_SIDE 101.
Definition ex_buy (n px : Z) (leaves : Z) : OrderEntry :=
  set_leavesQty leaves (Book.ex_order n BUY_SIDE px).
Definition ex_store : OrderStore.t unit :=
  OrderStore.mkStore
    {[0%nat := ex_sell; 1%nat := ex_buy 1 100 10; 2%nat := ex_buy 2 101 0; 3%nat := ex_buy 3 101 30]}
    4%nat {[mkIdT 1 1 := 1%nat; mkIdT 2 1 := 2%nat; mkIdT 3 1 := 3%nat]} ∅ ∅ None.
Definition ex_world : World unit unit :=
  mkWorld ex_store 50 Book.ex_book WideData.create TransactionScope.empty 0%nat [] ∅ [] [].

Lemma ex_agrees : agrees (Book.buyOrder Book.ex_group) ex_store.
Proof.
  repeat (apply Forall_cons; split); try apply Forall_nil_2; (split; [done|]).
  - exists (ex_buy 2 101 0). by repeat split.
  - exists (ex_buy 3 101 30). by repeat split.
  - exists (ex_buy 1 100 10). by repeat split.
Qed.

Lemma match_takes_best_witness :
  match_order 0%nat ex_world =
    (Ok tt, set_events [ExecutionDefered 0%nat [mkTP 30 (px_of_pos 101) 3%nat];
                        MatchOrderDefered 0%nat] ex_world) ∧
  ∃ l1 p id l2 c cl, Book.buyOrder Book.ex_group = l1 ++ (p, id) :: l2 ∧
    heap_at ex_world cl = Some c ∧ tradable ex_sell c = true ∧
    Forall (λ e, ¬ entry_tradable ex_sell ex_store e) l1.
Proof.
  split; [by vm_compute|].
  destruct (match_takes_best ex_world 0%nat ex_sell Book.ex_group (Book.buyOrder Book.ex_group)
    eq_refl ltac:(split; vm_compute; congruence)
    (Book.book_refines_wf _ _ Book.ex_book_refines) Book.ex_book_group eq_refl ex_agrees)
    as [(l1 & p & id & l2 & c & cl & H1 & _ & H2 & H3 & _ & H4 & _)|[_ H]].
  - exists l1, p, id, l2, c, cl. split; [exact H1|]. split; [exact H2|]. split; [exact H3|exact H4].
  - exfalso. apply (f_equal (λ r, w_events r.2)) in H. vm_compute in H. discriminate H.
Defined.
End OrderMatcher.
