(* ===== verification/StateTable.v ===== *)
(** The order state machine as data: states ([src/src/OrderStates.h]), events
    ([src/src/OrderStateEvents.h]) and the transition table of
    [src/src/StateMachine.h], with the safety properties every run of the table
    has. *)

From Stdlib Require Import Ascii String ZArith Lia.
From S2P Require Import Prelude Types Engine.

Module OrderState.

(** struct Rcvd_New ... GoingReplace -- src/src/OrderStates.h:26-291 *)
Inductive State :=
  Rcvd_New | Pend_Replace | New | PartFill | Filled | Expired | DoneForDay | Suspended
  | NoCnlReplace | GoingCancel | GoingReplace | CnclReplaced | Rejected.
#[global] Instance State_dec : EqDecision State. Proof. solve_decision. Defined.
#[global] Program Instance State_enum : Enum State := {|
  enum_all := [Rcvd_New; Pend_Replace; New; PartFill; Filled; Expired; DoneForDay; Suspended;
               NoCnlReplace; GoingCancel; GoingReplace; CnclReplaced; Rejected] |}.
Next Obligation. solve_enum. Qed.

(** state_names -- src/src/StateMachine.cpp:24-28 *)
Definition state_names : list string :=
  ["Rcvd_New"; "Pend_Replace"; "New"; "PartFill"; "Filled"; "Expired"; "DoneForDay"; "Suspended";
   "NoCnlReplace"; "GoingCancel"; "GoingReplace"; "CnclReplaced"; "Rejected"].

(** OrderState_::getStateName -- src/src/StateMachine.cpp:31-38
    A negative index reads before the array. *)
Definition getStateName (idx : Z) : outcome string :=
  if 13 <=? idx then Throw "Invalid index of the state's name!"
  else if idx <? 0 then Crash "read outside the array"
  else match state_names !! Z.to_nat idx with
       | Some s => Ok s
       | None => Crash "read outside the array"
       end.

(** struct OrderStateEvent -- src/src/OrderStateEvents.h:34-68
    The members an event sets by itself: [orderId_], the test switches and
    whether [orderBook_] is set.  Generator, storage and transaction are the
    engine's in every event the program processes. *)
Record EventBase := mkEB { eb_orderId : IdT; eb_test : bool; eb_check : bool; eb_hasBook : bool }.

(** struct onOrderReceived ... onExecReplace -- src/src/OrderStateEvents.h:70-241 *)
Inductive Event :=
  | onOrderReceived (b : EventBase) (order : loc)
  | onRplOrderReceived (b : EventBase) (order : loc)
  | onExternalOrder (b : EventBase) (order : loc)
  | onExternalOrderRejected (b : EventBase) (order : loc) (reason : StringT)
  | onRecvRplOrderRejected (b : EventBase) (order : loc) (reason : StringT)
  | onRplOrderRejected (b : EventBase) (reason : StringT)
  | onTradeExecution (b : EventBase) (trade : option ExecTradeParams)
  | onTradeCrctCncl (b : EventBase) (correct : option ExecCorrectParams)
  | onExpired (b : EventBase)
  | onRplOrderExpired (b : EventBase)
  | onCancelReceived (b : EventBase)
  | onCanceled (b : EventBase)
  | onOrderRejected (b : EventBase) (reason : StringT)
  | onRecvOrderRejected (b : EventBase) (order : loc) (reason : StringT)
  | onReplaceRejected (b : EventBase) (replId : IdT)
  | onCancelRejected (b : EventBase)
  | onReplaceReceived (b : EventBase) (replId : IdT)
  | onReplace (b : EventBase) (origOrderId : IdT)
  | onFinished (b : EventBase)
  | onExecCancel (b : EventBase)
  | onInternalCancel (b : EventBase)
  | onNewDay (b : EventBase)
  | onContinue (b : EventBase)
  | onSuspended (b : EventBase)
  | onExecReplace (b : EventBase) (replId : IdT).

(** The event's type, which selects the rows of the table. *)
Inductive Kind :=
  KOrderReceived | KRplOrderReceived | KExternalOrder | KExternalOrderRejected
  | KRecvRplOrderRejected | KRplOrderRejected | KTradeExecution | KTradeCrctCncl | KExpired
  | KRplOrderExpired | KCancelReceived | KCanceled | KOrderRejected | KRecvOrderRejected
  | KReplaceRejected | KCancelRejected | KReplaceReceived | KReplace | KFinished | KExecCancel
  | KInternalCancel | KNewDay | KContinue | KSuspended | KExecReplace.
#[global] Instance Kind_dec : EqDecision Kind. Proof. solve_decision. Defined.
#[global] Program Instance Kind_enum : Enum Kind := {|
  enum_all := [KOrderReceived; KRplOrderReceived; KExternalOrder; KExternalOrderRejected;
    KRecvRplOrderRejected; KRplOrderRejected; KTradeExecution; KTradeCrctCncl; KExpired;
    KRplOrderExpired; KCancelReceived; KCanceled; KOrderRejected; KRecvOrderRejected;
    KReplaceRejected; KCancelRejected; KReplaceReceived; KReplace; KFinished; KExecCancel;
    KInternalCancel; KNewDay; KContinue; KSuspended; KExecReplace] |}.
Next Obligation. solve_enum. Qed.

Definition kind (e : Event) : Kind :=
  match e with
  | onOrderReceived _ _ => KOrderReceived | onRplOrderReceived _ _ => KRplOrderReceived
  | onExternalOrder _ _ => KExternalOrder | onExternalOrderRejected _ _ _ => KExternalOrderRejected
  | onRecvRplOrderRejected _ _ _ => KRecvRplOrderRejected | onRplOrderRejected _ _ => KRplOrderRejected
  | onTradeExecution _ _ => KTradeExecution | onTradeCrctCncl _ _ => KTradeCrctCncl
  | onExpired _ => KExpired | onRplOrderExpired _ => KRplOrderExpired
  | onCancelReceived _ => KCancelReceived | onCanceled _ => KCanceled
  | onOrderRejected _ _ => KOrderRejected | onRecvOrderRejected _ _ _ => KRecvOrderRejected
  | onReplaceRejected _ _ => KReplaceRejected | onCancelRejected _ => KCancelRejected
  | onReplaceReceived _ _ => KReplaceReceived | onReplace _ _ => KReplace
  | onFinished _ => KFinished | onExecCancel _ => KExecCancel | onInternalCancel _ => KInternalCancel
  | onNewDay _ => KNewDay | onContinue _ => KContinue | onSuspended _ => KSuspended
  | onExecReplace _ _ => KExecReplace
  end.

Definition base (e : Event) : EventBase :=
  match e with
  | onOrderReceived b _ | onRplOrderReceived b _ | onExternalOrder b _
  | onExternalOrderRejected b _ _ | onRecvRplOrderRejected b _ _ | onRplOrderRejected b _
  | onTradeExecution b _ | onTradeCrctCncl b _ | onExpired b | onRplOrderExpired b
  | onCancelReceived b | onCanceled b | onOrderRejected b _ | onRecvOrderRejected b _ _
  | onReplaceRejected b _ | onCancelRejected b | onReplaceReceived b _ | onReplace b _
  | onFinished b | onExecCancel b | onInternalCancel b | onNewDay b | onContinue b
  | onSuspended b | onExecReplace b _ => b
  end.

(** The member functions the rows name. *)
Inductive Action :=
  Areceive | Aaccept | Areject | ArejectNew | Afill | Acorrected | AcorrectedWithoutRestore
  | Aexpire | Arestored | Acontinued | Afinished | Asuspended | Acanceled | Areplaced.
#[global] Instance Action_dec : EqDecision Action. Proof. solve_decision. Defined.
Inductive Guard := Gcomplete | Gnotexecuted.
#[global] Instance Guard_dec : EqDecision Guard. Proof. solve_decision. Defined.

Record Row := mkRow { r_src : State; r_evt : Kind; r_tgt : State; r_act : Action; r_guard : option Guard }.
Definition a_row s k t a : Row := mkRow s k t a None.
Definition row s k t a g : Row := mkRow s k t a (Some g).

(** typedef mpl::vector initial_state -- src/src/StateMachine.h:97-97
    The initial states of the two regions. *)
Definition initial_state : State * State := (Rcvd_New, NoCnlReplace).

(** struct transition_table -- src/src/StateMachine.h:105-248 *)
Definition transition_table : list Row := [
  a_row Rcvd_New KOrderReceived New Areceive;
  a_row Rcvd_New KRecvOrderRejected Rejected Areject;
  a_row Rcvd_New KRplOrderReceived Pend_Replace Areceive;
  a_row Rcvd_New KRecvRplOrderRejected Rejected Areject;
  a_row Rcvd_New KExternalOrderRejected Rejected Areject;
  a_row Rcvd_New KExternalOrder New Aaccept;
  a_row Pend_Replace KReplace New Aaccept;
  a_row Pend_Replace KRplOrderRejected Rejected Areject;
  a_row Pend_Replace KRplOrderExpired Expired Aexpire;
  a_row New KTradeExecution PartFill Afill;
  row New KTradeExecution Filled Afill Gcomplete;
  a_row New KOrderRejected Rejected ArejectNew;
  a_row New KExpired Expired Aexpire;
  a_row New KFinished DoneForDay Afinished;
  a_row New KSuspended Suspended Asuspended;
  a_row PartFill KTradeExecution PartFill Afill;
  row PartFill KTradeExecution Filled Afill Gcomplete;
  a_row PartFill KTradeCrctCncl PartFill Acorrected;
  row PartFill KTradeCrctCncl New Acorrected Gnotexecuted;
  a_row PartFill KExpired Expired Aexpire;
  a_row PartFill KFinished DoneForDay Afinished;
  a_row PartFill KSuspended Suspended Asuspended;
  a_row Filled KTradeCrctCncl PartFill Acorrected;
  row Filled KTradeCrctCncl New Acorrected Gnotexecuted;
  a_row Expired KTradeCrctCncl Expired AcorrectedWithoutRestore;
  a_row DoneForDay KNewDay PartFill Arestored;
  row DoneForDay KNewDay New Arestored Gnotexecuted;
  a_row DoneForDay KTradeCrctCncl DoneForDay AcorrectedWithoutRestore;
  a_row DoneForDay KSuspended Suspended Asuspended;
  a_row Suspended KContinue PartFill Acontinued;
  row Suspended KContinue New Acontinued Gnotexecuted;
  a_row Suspended KExpired Expired Aexpire;
  a_row Suspended KFinished DoneForDay Afinished;
  a_row Suspended KTradeCrctCncl Suspended AcorrectedWithoutRestore;
  a_row NoCnlReplace KCancelReceived GoingCancel Areceive;
  a_row NoCnlReplace KReplaceReceived GoingReplace Areceive;
  a_row NoCnlReplace KInternalCancel CnclReplaced Acanceled;
  a_row GoingCancel KCancelRejected NoCnlReplace Areject;
  a_row GoingCancel KExecCancel CnclReplaced Acanceled;
  a_row GoingReplace KReplaceRejected NoCnlReplace Areject;
  a_row GoingReplace KExecReplace CnclReplaced Areplaced;
  a_row CnclReplaced KTradeCrctCncl CnclReplaced AcorrectedWithoutRestore].

(** The rows of a state for an event, in table order. *)
Definition rows (s : State) (k : Kind) : list Row :=
  filter (λ r, r_src r = s ∧ r_evt r = k) transition_table.

(** ** Runs of the table

    The dispatcher gives an event to each region; a region either fires one of
    its current state's rows for the event or stays where it is (no row, no
    guard true, or an exception out of a guard or an action). *)

Inductive region_step (k : Kind) (s : State) : State → Prop :=
  | region_stays : region_step k s s
  | region_fires r : r ∈ rows s k → region_step k s (r_tgt r).

Inductive run : list Kind → State * State → Prop :=
  | run_nil : run [] initial_state
  | run_step ks k a b a' b' : run ks (a, b) → region_step k a a' → region_step k b b' →
      run (ks ++ [k]) (a', b').

Inductive continues : list Kind → State * State → State * State → Prop :=
  | continues_nil x : continues [] x x
  | continues_step ks k x a b a' b' : continues ks x (a, b) → region_step k a a' →
      region_step k b b' → continues (ks ++ [k]) x (a', b').

Definition zone1 (s : State) : bool :=
  match s with NoCnlReplace | GoingCancel | GoingReplace | CnclReplaced => false | _ => true end.

(** A property of single steps is decided by enumeration. *)
Definition all_steps (P : State → Kind → State → bool) : bool :=
  forallb (λ s, forallb (λ k, P s k s && forallb (λ r, P s k (r_tgt r)) (rows s k)) enum_all)
    (enum_all (A := State)).

Lemma all_steps_sound P : all_steps P = true → ∀ k s s', region_step k s s' → P s k s' = true.
Proof.
  intros H k s s' Hs. unfold all_steps in H. rewrite forallb_forall in H.
  specialize (H s (proj1 (list_elem_of_In _ _) (enum_complete s))).
  rewrite forallb_forall in H.
  specialize (H k (proj1 (list_elem_of_In _ _) (enum_complete k))).
  apply andb_true_iff in H as [H1 H2]. destruct Hs as [|r Hr]; [done|].
  rewrite forallb_forall in H2. by apply H2, list_elem_of_In.
Qed.

Tactic Notation "by_table" uconstr(P) "as" ident(H) :=
  pose proof (all_steps_sound P ltac:(by vm_compute)) as H.

Lemma step_zone1 k s s' : region_step k s s' → zone1 s' = zone1 s.
Proof.
  intros H. by_table (λ s _ s', bool_decide (zone1 s' = zone1 s)) as Ht.
  by eapply bool_decide_eq_true, Ht.
Qed.

(** How a region leaves the final states. *)
Definition leaves (s : State) (k : Kind) (s' : State) : bool :=
  match s with
  | Rejected | Expired | CnclReplaced => bool_decide (s' = s)
  | Filled => bool_decide (s' = Filled ∨ k = KTradeCrctCncl)
  | _ => true
  end.

Lemma step_leaves k s s' : region_step k s s' → leaves s k s' = true.
Proof. by_table leaves as Ht. apply Ht. Qed.

(** [k1] happened, and [k2] after it. *)
Definition then_ (k1 k2 : Kind) (ks : list Kind) : Prop := [k1; k2] `sublist_of` ks.

(** The order was accepted: received, taken from outside, or received as a replacement
    and then put in place. *)
Definition accepted (ks : list Kind) : Prop :=
  KOrderReceived ∈ ks ∨ KExternalOrder ∈ ks ∨ then_ KRplOrderReceived KReplace ks.

(** What the events so far must contain for the machine to be in a state. *)
Definition cause (s : State) (ks : list Kind) : Prop :=
  match s with
  | Rcvd_New | NoCnlReplace => True
  | Pend_Replace => KRplOrderReceived ∈ ks
  | New | PartFill => accepted ks
  | Filled => accepted ks ∧ KTradeExecution ∈ ks
  | Suspended => accepted ks ∧ KSuspended ∈ ks
  | DoneForDay => accepted ks ∧ KFinished ∈ ks
  | Expired => accepted ks ∧ KExpired ∈ ks ∨ then_ KRplOrderReceived KRplOrderExpired ks
  | Rejected => KRecvOrderRejected ∈ ks ∨ KRecvRplOrderRejected ∈ ks ∨ KExternalOrderRejected ∈ ks ∨
      then_ KRplOrderReceived KRplOrderRejected ks ∨ accepted ks ∧ KOrderRejected ∈ ks
  | GoingCancel => KCancelReceived ∈ ks
  | GoingReplace => KReplaceReceived ∈ ks
  | CnclReplaced => KInternalCancel ∈ ks ∨ then_ KCancelReceived KExecCancel ks ∨ then_ KReplaceReceived KExecReplace ks
  end.

Lemma then_snoc k1 k2 ks : k1 ∈ ks → then_ k1 k2 (ks ++ [k2]).
Proof. intros H%singleton_sublist_l. unfold then_. change [k1; k2] with ([k1] ++ [k2]). by apply sublist_app. Qed.

Lemma then_mono k1 k2 ks k : then_ k1 k2 ks → then_ k1 k2 (ks ++ [k]).
Proof. intros H. unfold then_ in *. etrans; [exact H|]. by apply sublist_inserts_r. Qed.

Lemma kinds_mono (k1 : Kind) ks k : k1 ∈ ks → k1 ∈ ks ++ [k].
Proof. set_solver. Qed.

Lemma accepted_mono ks k : accepted ks → accepted (ks ++ [k]).
Proof. unfold accepted. intros [?|[?|?]]; eauto using kinds_mono, then_mono. Qed.

Lemma accepted_now ks k : k = KOrderReceived ∨ k = KExternalOrder → accepted (ks ++ [k]).
Proof. unfold accepted. intros [->| ->]; set_solver. Qed.

Lemma accepted_replace ks : KRplOrderReceived ∈ ks → accepted (ks ++ [KReplace]).
Proof. unfold accepted. eauto using then_snoc. Qed.

#[local] Hint Resolve then_snoc then_mono kinds_mono accepted_mono accepted_now accepted_replace : core.

Lemma rows_cause : Forall (λ r, ∀ ks, cause (r_src r) ks → cause (r_tgt r) (ks ++ [r_evt r])) transition_table.
Proof.
  unfold transition_table. repeat (apply Forall_cons; split); [..|apply Forall_nil; done]; intros ks Hc;
    cbn [cause a_row row r_src r_evt r_tgt] in *;
    try match goal with |- context [ks ++ [?k]] => assert (k ∈ ks ++ [k]) by set_solver end; destruct_or?; destruct_and?; auto 10.
Qed.

Lemma cause_step ks k s s' : region_step k s s' → cause s ks → cause s' (ks ++ [k]).
Proof.
  intros [|r Hr] Hc.
  - destruct s; cbn [cause] in *; destruct_or?; destruct_and?; auto 8.
  - apply list_elem_of_filter in Hr as [[<- <-] Hr]. pose proof rows_cause as Ht. rewrite Forall_forall in Ht. by apply Ht.
Qed.

Lemma run_inv ks x : run ks x →
  zone1 x.1 = true ∧ zone1 x.2 = false ∧ cause x.1 ks ∧ cause x.2 ks.
Proof.
  induction 1 as [|ks k a b a' b' _ (Ha & Hb & Hca & Hcb) Sa Sb]; simpl in *; [done|].
  rewrite (step_zone1 _ _ _ Sa), (step_zone1 _ _ _ Sb).
  split_and!; eauto using cause_step.
Qed.

Lemma continues_final ks x y : continues ks x y →
  (x.1 = Rejected ∨ x.1 = Expired → y.1 = x.1) ∧ (x.2 = CnclReplaced → y.2 = CnclReplaced) ∧
  (x.1 = Filled → KTradeCrctCncl ∉ ks → y.1 = Filled).
Proof.
  induction 1 as [x|ks k [a0 b0] a b a' b' _ (H1 & H2 & H3) Sa%step_leaves Sb%step_leaves];
    [auto|]; simpl in *.
  split_and!.
  - intros Hx. specialize (H1 Hx). destruct Hx as [-> | ->]; subst a; simpl in Sa; by case_bool.
  - intros Hx. rewrite (H2 Hx) in Sb. simpl in Sb. by case_bool.
  - intros Hx Hn. rewrite (H3 Hx) in Sa by set_solver. simpl in Sa. case_bool. set_solver.
Qed.

(** ** Properties *)

(** C15: every run of the machine keeps its two regions apart, is in a final state
    for a reason and stays there.  [Filled] needs an accepted order and a trade;
    [Rejected] a refusal on receipt, one of a pending replacement, or one of an accepted
    order; [Expired] the expiry of an accepted order or of a pending replacement; and
    [CnclReplaced] an internal cancel, or a cancel or replace that was received and
    then executed.  A rejected or expired order and a cancelled or replaced one remain so
    under any further events, and a filled order until a trade is corrected. *)
Theorem lifecycle_safe ks a b : run ks (a, b) →
  zone1 a = true ∧ zone1 b = false ∧
  (a = Filled → accepted ks ∧ KTradeExecution ∈ ks) ∧
  (a = Rejected → KRecvOrderRejected ∈ ks ∨ KRecvRplOrderRejected ∈ ks ∨ KExternalOrderRejected ∈ ks ∨
     then_ KRplOrderReceived KRplOrderRejected ks ∨ accepted ks ∧ KOrderRejected ∈ ks) ∧
  (a = Expired → accepted ks ∧ KExpired ∈ ks ∨ then_ KRplOrderReceived KRplOrderExpired ks) ∧
  (b = CnclReplaced → KInternalCancel ∈ ks ∨ then_ KCancelReceived KExecCancel ks ∨ then_ KReplaceReceived KExecReplace ks) ∧
  ∀ ks' a' b', continues ks' (a, b) (a', b') →
    (a = Rejected ∨ a = Expired → a' = a) ∧ (b = CnclReplaced → b' = CnclReplaced) ∧
    (a = Filled → KTradeCrctCncl ∉ ks' → a' = Filled).
Proof.
  intros (Ha & Hb & Hca & Hcb)%run_inv; simpl in *. split_and!; try done; try (by intros ->).
  intros ks' a' b' H%continues_final. done.
Qed.

(** A filled order that is cancelled afterwards, and a later correction. *)
Definition ex_kinds : list Kind := [KOrderReceived; KTradeExecution; KCancelReceived; KExecCancel].

Lemma fires k s t a g : mkRow s k t a g ∈ rows s k → region_step k s t.
Proof. intros H. exact (region_fires k s _ H). Qed.

Lemma ex_run : run ex_kinds (Filled, CnclReplaced).
Proof.
  apply (run_step [KOrderReceived; KTradeExecution; KCancelReceived] _ Filled GoingCancel);
    [|constructor|eapply fires; left].
  apply (run_step [KOrderReceived; KTradeExecution] _ Filled NoCnlReplace);
    [|constructor|eapply fires; left].
  apply (run_step [KOrderReceived] _ New NoCnlReplace); [|eapply fires; right; left|constructor].
  apply (run_step [] _ Rcvd_New NoCnlReplace); [constructor|eapply fires; left|constructor].
Qed.

Lemma lifecycle_safe_witness :
  KTradeExecution ∈ ex_kinds ∧
  ∀ ks' a' b', continues ks' (Filled, CnclReplaced) (a', b') → b' = CnclReplaced.
Proof.
  destruct (lifecycle_safe ex_kinds Filled CnclReplaced ex_run) as (_ & _ & H1 & _ & _ & _ & H2).
  split; [exact (proj2 (H1 eq_refl))|]. intros ks' a' b' H. exact (proj1 (proj2 (H2 ks' a' b' H)) eq_refl).
Defined.
End OrderState.
