(* ===== verification/StateActions.v ===== *)
(** The actions, guards and entry actions of the order state machine:
    [src/src/OrderStateMachineImpl.cpp], [src/src/StateMachine.cpp] and
    [src/src/OrderStates.cpp]. *)

From Stdlib Require Import Ascii String ZArith Lia.
From S2P Require Import Prelude Types IdGen WideData OrderStore OrderBook LinkTree TxScope.
From S2P Require Import Engine Matcher StateTable.
Import OrderState.

Module OrdStateImpl.

(** The machine while it processes an event: the engine's state, the machine's
    [orderData_] and the event's mutable [order4StateMachine_]. *)
Record Frame (SO SD : Type) := mkFrame {
  f_world : World SO SD; f_orderData : option loc; f_order4 : option loc }.
Arguments mkFrame {SO SD} _ _ _.
Arguments f_world {SO SD} _.
Arguments f_orderData {SO SD} _.
Arguments f_order4 {SO SD} _.

(** [sv_order] is the order saver attached to the order storage, [now] the time
    the identifier generator reads. *)
Section ops.
Context {SO SD : Type} (sv_order : OrderEntry → M SO unit) (now : Z).
Abbreviation W := (World SO SD).
Abbreviation F := (Frame SO SD).

Definition on_world {A} (c : M W A) : M F A := λ f,
  let r := c (f_world f) in (r.1, mkFrame r.2 (f_orderData f) (f_order4 f)).

Definition getData : M F (option loc) := gets f_orderData.
Definition setData (p : option loc) : M F unit :=
  modify (λ f, mkFrame (f_world f) p (f_order4 f)).

(** [*orderData], asserted or assumed not null. *)
Definition theData : M F loc :=
  p <- getData ;; match p with Some l => ret l | None => crash "assert" end.

Definition is_market (o : OrderEntry) : bool := bool_decide (o_ordType o = MARKET_ORDERTYPE).

(** class FindAnyOpositeOrder -- src/src/OrderStateMachineImpl.cpp:31-53 *)
Definition FindAnyOpositeOrder (o : OrderEntry) : Book.OrderFunctor :=
  Book.mkFunctor (o_instrument o) (OrderMatcher.oposite_side o) (λ _, (true, true)).

(** processReceive, the test of a market order -- src/src/OrderStateMachineImpl.cpp:125-132
    [if (!evnt.orderBook_->find(FindAnyOpositeOrder(o)).isValid()) throw] for a
    market order. *)
Definition check_market (b : EventBase) (o : OrderEntry) : M W unit :=
  when (is_market o) (
    assert_ (eb_hasBook b) ;;;
    w <- gets (λ w, w) ;;
    id <- lift (Book.find (FindAnyOpositeOrder o) (w_book w)) ;;
    when (negb (isValidId id)) (throw "There is no market for this instrument!")).

(** processReceive, the validity test -- src/src/OrderStateMachineImpl.cpp:112-116
    [if (!order->isValid(&reason)) throw std::runtime_error(reason)] *)
Definition check_valid (o : OrderEntry) : M W unit :=
  w <- gets (λ w, w) ;;
  match WideData.OrderEntry_isValid o (w_wide w) with
  | Some reason => throw reason
  | None => ret tt
  end.

(** [orderStorage_->save( *order, generator_)] *)
Definition storage_save (l : loc) : M W loc :=
  o <- deref l ;;
  w <- gets (λ w, w) ;;
  on_store (OrderStore.save sv_order (getRaw w) o now).

(** processReceive, the operations -- src/src/OrderStateMachineImpl.cpp:134-142
    The operations that match an order and, unless it is a market order, put it
    into the book. *)
Definition add_match_ops (l : loc) : M W unit :=
  o <- deref l ;;
  addMatch l (o_orderId o) ;;;
  when (negb (is_market o)) (addOp (AddToOrderBook l (o_orderId o) (o_instrument o))).

(** processReceive(onOrderReceived) -- src/src/OrderStateMachineImpl.cpp:106-143 *)
Definition processReceive_order (b : EventBase) (order : loc) : M F unit :=
  p <- getData ;; assert_ (bool_decide (p = None)) ;;;
  o <- on_world (deref order) ;;
  on_world (check_valid o) ;;;
  setData (Some order) ;;;
  l <- on_world (storage_save order) ;;
  setData (Some l) ;;;
  on_world (
    assign l (set_status NEW_ORDSTATUS) ;;;
    o' <- deref l ;;
    check_market b o' ;;;
    add_match_ops l).

(** processReceive(onRplOrderReceived) -- src/src/OrderStateMachineImpl.cpp:145-174 *)
Definition processReceive_rplOrder (b : EventBase) (order : loc) : M F unit :=
  p <- getData ;; assert_ (bool_decide (p = None)) ;;;
  setData (Some order) ;;;
  o <- on_world (deref order) ;;
  w <- on_world (gets (λ w, w)) ;;
  r <- on_world (lift (getRaw w (o_origClOrderId o))) ;;
  match OrderStore.locateByClOrderId r (w_store w) with
  | None => throw "Unable to locate original order for OrderReplace!"
  | Some orig =>
      l <- on_world (storage_save order) ;;
      setData (Some l) ;;;
      on_world (
        oo <- deref orig ;;
        assign l (λ o, set_status PENDINGREPLACE_ORDSTATUS (set_origOrderId (o_orderId oo) o)) ;;;
        n <- deref l ;;
        addOp (EnqueueReplaceReceived IdT0 (o_orderId n) (o_orderId oo) (o_instrument n)))
  end.

(** processReject, saving -- src/src/OrderStateMachineImpl.cpp:185-194
    The saving shared by the rejections of a received order: a failing save is
    ignored. *)
Definition save_rejected : M F unit :=
  l <- theData ;;
  catch (l' <- on_world (storage_save l) ;; setData (Some l')) (λ _, ret tt).

(** processReject(onRecvOrderRejected) -- src/src/OrderStateMachineImpl.cpp:176-195 *)
Definition processReject_recvOrder (order : loc) : M F unit :=
  p <- getData ;; assert_ (bool_decide (p = None ∨ p = Some order)) ;;;
  when (bool_decide (p = None)) (setData (Some order)) ;;;
  save_rejected.

(** processReject(onRecvRplOrderRejected) -- src/src/OrderStateMachineImpl.cpp:197-213 *)
Definition processReject_recvRplOrder (order : loc) : M F unit :=
  p <- getData ;; assert_ (bool_decide (p = None ∨ p = Some order)) ;;;
  setData (Some order) ;;;
  save_rejected.

(** processAccept(onExternalOrder) -- src/src/OrderStateMachineImpl.cpp:215-249
    The operations are created for [evnt.order_], not for the stored copy. *)
Definition processAccept_external (b : EventBase) (order : loc) : M F unit :=
  p <- getData ;; assert_ (bool_decide (p = None)) ;;;
  setData (Some order) ;;;
  o <- on_world (deref order) ;;
  on_world (check_valid o) ;;;
  on_world (check_market b o) ;;;
  l <- on_world (storage_save order) ;;
  setData (Some l) ;;;
  on_world (
    addMatch order (o_orderId o) ;;;
    n <- deref l ;;
    when (negb (is_market n)) (addOp (AddToOrderBook order (o_orderId o) (o_instrument n)))).

(** processReject(onExternalOrderRejected) -- src/src/OrderStateMachineImpl.cpp:251-267 *)
Definition processReject_external (order : loc) : M F unit :=
  p <- getData ;; assert_ (bool_decide (p = None ∨ p = Some order)) ;;;
  setData (Some order) ;;;
  save_rejected.

(** processAccept(onReplace) -- src/src/OrderStateMachineImpl.cpp:274-321 *)
Definition processAccept_replace (b : EventBase) (origOrderId : IdT) : M F unit :=
  l <- theData ;;
  on_world (
    o <- deref l ;;
    check_valid o ;;;
    check_market b o ;;;
    assert_ (isValidId origOrderId) ;;;
    w <- gets (λ w, w) ;;
    match OrderStore.locateByOrderId (o_origOrderId o) (w_store w) with
    | None => throw "Unable to locate original order for OrderReplaceAccept!"
    | Some orig =>
        oo <- deref orig ;;
        match WideData.OrderEntry_isReplaceValid oo with
        | Some reason => throw reason
        | None =>
            add_match_ops l ;;;
            addOp (EnqueueExecReplace IdT0 (o_orderId o) (o_orderId oo))
        end
    end).

(** processReject(onRplOrderRejected), the event -- src/src/OrderStateMachineImpl.cpp:325-337
    The event that returns the original order to the state without a replace. *)
Definition reject_original (missing : string) : M F unit :=
  l <- theData ;;
  on_world (
    o <- deref l ;;
    w <- gets (λ w, w) ;;
    match OrderStore.locateByOrderId (o_origOrderId o) (w_store w) with
    | None => throw missing
    | Some orig =>
        oo <- deref orig ;;
        addOp (EnqueueReplaceRejected IdT0 (o_orderId o) (o_orderId oo))
    end).

(** processReject(onRplOrderRejected) -- src/src/OrderStateMachineImpl.cpp:323-338 *)
Definition processReject_rplOrder : M F unit :=
  reject_original "Unable to locate original order for OrderReplaceReject!".

(** processExpire(onRplOrderExpired) -- src/src/OrderStateMachineImpl.cpp:340-355 *)
Definition processExpire_rplOrder : M F unit :=
  reject_original "Unable to locate original order for OrderReplaceExpire!".

(** processComplete -- src/src/OrderStateMachineImpl.cpp:360-375 *)
Definition processComplete (trade : option ExecTradeParams) : M F bool :=
  l <- theData ;;
  match trade with
  | None => throw "Invalid onTradeExecution event - trade is nullptr!"
  | Some t =>
      o <- on_world (deref l) ;;
      if o_leavesQty o <? tp_lastQty t then
        throw "Unable to execute trade - order's leaves Qty less than traded Qty!"
      else ret (tp_lastQty t =? o_leavesQty o)
  end.

(** OrderParams::applyTrade -- src/src/DataModelDef.cpp:225-236 *)
Definition applyTrade (l : loc) (lastQty : QuantityT) (execId : IdT) : M W unit :=
  o <- deref l ;;
  if o_leavesQty o <? lastQty then
    throw "OrderParams::applyTrade: trade quantity exceeds leaves quantity!"
  else
    assign l (λ o, set_cumQty (wrap32 (o_cumQty o + lastQty))
                     (set_leavesQty (wrap32 (o_leavesQty o - lastQty)) o)) ;;;
    on_wide (WideData.pushExecution (o_executions o) execId).

(** [tr->orderStatus_ = status] on the stored execution. *)
Definition set_exec_status (i : IdT) (st : OrderStatus) : M W unit :=
  modify (λ w, match OrderStore.executionsById (w_store w) !! i with
               | Some e => set_store (OrderStore.put_exec i (set_execStatus st e) (w_store w)) (w_gen w) w
               | None => w
               end).

(** processFill, the report -- src/src/OrderStateMachineImpl.cpp:387-393
    The trade's report as [processFill] saves it. *)
Definition trade_report (orderId : IdT) (t : ExecTradeParams) : ExecutionEntry :=
  mkExec TRADE_EXECTYPE 1 orderId IdT0 INVALID_ORDSTATUS EmptyString
    (XTrade (mkTrade (tp_lastQty t) (tp_lastPx t) (tp_currency t) 1)).

(** processFill -- src/src/OrderStateMachineImpl.cpp:377-409 *)
Definition processFill (b : EventBase) (trade : option ExecTradeParams) : M F unit :=
  l <- theData ;;
  match trade with
  | None => crash "assert"
  | Some t =>
      on_world (
        o <- deref l ;;
        tr <- on_store (OrderStore.saveExec (trade_report (o_orderId o) t) now) ;;
        applyTrade l (tp_lastQty t) (ex_execId tr) ;;;
        o' <- deref l ;;
        if 0 =? o_leavesQty o' then
          assert_ (eb_hasBook b) ;;;
          on_book (Book.remove o') ;;;
          set_exec_status (ex_execId tr) FILLED_ORDSTATUS
        else set_exec_status (ex_execId tr) PARTFILL_ORDSTATUS)
  end.

Definition no_correct : string := "Invalid onTradeCrctCncl event - correctExecution is nullptr!".

(** processNotExecuted -- src/src/OrderStateMachineImpl.cpp:411-422
    The overload for a correction. *)
Definition processNotExecuted_crct (correct : option ExecCorrectParams) : M F bool :=
  l <- theData ;;
  match correct with
  | None => throw no_correct
  | Some c => o <- on_world (deref l) ;; ret (cp_leavesQty c =? o_orderQty o)
  end.

(** processNotExecuted(onNewDay), processNotExecuted(onContinue) -- src/src/OrderStateMachineImpl.cpp:504-513 *)
Definition processNotExecuted_day : M F bool :=
  l <- theData ;; o <- on_world (deref l) ;; ret (o_leavesQty o =? o_orderQty o).

(** processCorrected, the update -- src/src/OrderStateMachineImpl.cpp:444-447
    The order's quantities and currency taken from a correction. *)
Definition apply_correct (c : ExecCorrectParams) (o : OrderEntry) : OrderEntry :=
  set_currency (cp_currency c) (set_cumQty (cp_cumQty c) (set_leavesQty (cp_leavesQty c) o)).

(** processCorrected -- src/src/OrderStateMachineImpl.cpp:424-448 *)
Definition processCorrected (correct : option ExecCorrectParams) : M F unit :=
  match correct with
  | None => throw no_correct
  | Some c =>
      l <- theData ;;
      on_world (
        o <- deref l ;;
        when ((0 =? o_leavesQty o) && (0 <? cp_leavesQty c)) (add_match_ops l) ;;;
        assign l (apply_correct c))
  end.

(** processCorrectedWithoutRestore -- src/src/OrderStateMachineImpl.cpp:450-462 *)
Definition processCorrectedWithoutRestore (correct : option ExecCorrectParams) : M F unit :=
  match correct with
  | None => throw no_correct
  | Some c => l <- theData ;; on_world (assign l (apply_correct c))
  end.

(** processRejectNew -- src/src/OrderStateMachineImpl.cpp:464-473 *)
Definition processRejectNew : M F unit :=
  l <- theData ;;
  on_world (
    o <- deref l ;;
    when (negb (is_market o)) (addOp (RemoveFromOrderBook l (o_orderId o) (o_instrument o)))).

(** Take an order that rests in the book out of it. *)
Definition remove_resting : M F unit :=
  l <- theData ;;
  on_world (
    o <- deref l ;;
    when (negb (is_market o) &&
          bool_decide (o_status o = NEW_ORDSTATUS ∨ o_status o = PARTFILL_ORDSTATUS))
      (addOp (RemoveFromOrderBook l (o_orderId o) (o_instrument o)))).

(** processExpire(onExpired) -- src/src/OrderStateMachineImpl.cpp:480-491 *)
Definition processExpire : M F unit := remove_resting.

(** processFinished -- src/src/OrderStateMachineImpl.cpp:493-502 *)
Definition processFinished : M F unit := remove_resting.

(** processSuspended -- src/src/OrderStateMachineImpl.cpp:528-538 *)
Definition processSuspended : M F unit := remove_resting.

(** processCanceled(onExecCancel), processCanceled(onInternalCancel) -- src/src/OrderStateMachineImpl.cpp:559-581 *)
Definition processCanceled : M F unit := remove_resting.

(** processReplaced -- src/src/OrderStateMachineImpl.cpp:583-593 *)
Definition processReplaced : M F unit := remove_resting.

(** processRestored -- src/src/OrderStateMachineImpl.cpp:514-526 *)
Definition processRestored : M F unit :=
  l <- theData ;;
  on_world (
    o <- deref l ;;
    when (0 <? o_leavesQty o) (
      addMatch l (o_orderId o) ;;;
      assert_ (negb (is_market o)) ;;;
      addOp (AddToOrderBook l (o_orderId o) (o_instrument o)))).

(** processContinued -- src/src/OrderStateMachineImpl.cpp:540-556 *)
Definition processContinued : M F unit :=
  l <- theData ;;
  on_world (o <- deref l ;; when (0 <? o_leavesQty o) (add_match_ops l)).
End ops.
End OrdStateImpl.

Module OrderStateMachine.
Import OrdStateImpl.

(** [raise] is [process_event] called from inside an action. *)
Section ops.
Context {SO SD : Type} (sv_order : OrderEntry → M SO unit) (now : Z)
  (raise : Event → M (Frame SO SD) unit).
Abbreviation W := (World SO SD).
Abbreviation F := (Frame SO SD).

(** [evnt.order4StateMachine_ = orderData_] *)
Definition mark : M F unit := modify (λ f, mkFrame (f_world f) (f_orderData f) (f_orderData f)).

(** The shape of the actions: nothing in a state machine test, otherwise the
    implementation and the mark. *)
Definition action (b : EventBase) (body : M F unit) : M F unit :=
  if eb_test b then ret tt else (body ;;; mark).

(** The shape of the guards. *)
Definition guard (b : EventBase) (body : M F bool) : M F bool :=
  if eb_test b then ret (eb_check b) else (r <- body ;; mark ;;; ret r).

(** An action that turns an exception into a rejecting event and rethrows. *)
Definition action_or_raise (body : M F unit) (rejected : string → Event) : M F unit :=
  catch (body ;;; mark) (λ m, raise (rejected m) ;;; throw m).

(** OrderState_::receive(onOrderReceived) -- src/src/StateMachine.cpp:69-89 *)
Definition receive_order (b : EventBase) (order : loc) : M F unit :=
  if eb_test b then ret tt
  else
    p <- getData ;; assert_ (bool_decide (p = None)) ;;;
    action_or_raise (processReceive_order sv_order now b order) (onRecvOrderRejected b order).

(** OrderState_::receive(onRplOrderReceived) -- src/src/StateMachine.cpp:91-111 *)
Definition receive_rplOrder (b : EventBase) (order : loc) : M F unit :=
  if eb_test b then ret tt
  else
    p <- getData ;; assert_ (bool_decide (p = None)) ;;;
    action_or_raise (processReceive_rplOrder sv_order now b order) (onRecvRplOrderRejected b order).

(** OrderState_::accept(onExternalOrder) -- src/src/StateMachine.cpp:113-132 *)
Definition accept_external (b : EventBase) (order : loc) : M F unit :=
  if eb_test b then ret tt
  else action_or_raise (processAccept_external sv_order now b order) (onExternalOrderRejected b order).

(** OrderState_::accept(onReplace) -- src/src/StateMachine.cpp:167-192 *)
Definition accept_replace (b : EventBase) (origOrderId : IdT) : M F unit :=
  if eb_test b then
    if eb_check b then ret tt
    else raise (onRplOrderRejected b "Test reject") ;;; throw "Test reject"
  else action_or_raise (processAccept_replace b origOrderId) (onRplOrderRejected b).

(** OrderState_::notexecuted, four overloads -- src/src/StateMachine.cpp:194-240 *)
Definition notexecuted (e : Event) : M F bool :=
  guard (base e)
    (match e with
     | onTradeExecution _ _ => ret true
     | onTradeCrctCncl _ c => processNotExecuted_crct c
     | onNewDay _ | onContinue _ => processNotExecuted_day
     | _ => crash "no overload"
     end).

(** OrderState_::complete -- src/src/StateMachine.cpp:242-252 *)
Definition complete (e : Event) : M F bool :=
  guard (base e)
    (match e with onTradeExecution _ t => processComplete t | _ => crash "no overload" end).

(** OrderState_::corrected, correctedWithoutRestore, expire, cancel, restored, continued, finished, suspended, canceled, replaced -- src/src/StateMachine.cpp:254-373
    The actions that call one implementation, by the row's action and event. *)
Definition simple_action (a : Action) (e : Event) : M F unit :=
  match a, e with
  | Acorrected, onTradeCrctCncl b c => action b (processCorrected c)
  | AcorrectedWithoutRestore, onTradeCrctCncl b c => action b (processCorrectedWithoutRestore c)
  | Aexpire, onExpired b => action b processExpire
  | Arestored, onNewDay b => action b processRestored
  | Acontinued, onContinue b => action b processContinued
  | Afinished, onFinished b => action b processFinished
  | Asuspended, onSuspended b => action b processSuspended
  | Acanceled, onExecCancel b | Acanceled, onInternalCancel b => action b processCanceled
  | Areplaced, onExecReplace b _ => action b processReplaced
  | _, _ => crash "no overload"
  end.

(** OrderState_::receive, reject, rejectNew, fill, expire -- src/src/StateMachine.cpp:375-496
    The remaining actions; the cancel/replace requests and their rejections do
    nothing to the order. *)
Definition run_action (a : Action) (e : Event) : M F unit :=
  match a, e with
  | Areceive, onOrderReceived b l => receive_order b l
  | Areceive, onRplOrderReceived b l => receive_rplOrder b l
  | Areceive, onReplaceReceived b _ => action b (ret tt)
  | Areceive, onCancelReceived b => action b (ret tt)
  | Aaccept, onExternalOrder b l => accept_external b l
  | Aaccept, onReplace b i => accept_replace b i
  | Areject, onExternalOrderRejected b l _ => action b (processReject_external sv_order now l)
  | Areject, onReplaceRejected b _ => action b (ret tt)
  | Areject, onCancelRejected b => action b (ret tt)
  | Areject, onRplOrderRejected b _ => action b processReject_rplOrder
  | Areject, onOrderRejected b _ => action b (ret tt)
  | Areject, onRecvOrderRejected b l _ => action b (processReject_recvOrder sv_order now l)
  | Areject, onRecvRplOrderRejected b l _ => action b (processReject_recvRplOrder sv_order now l)
  | ArejectNew, onOrderRejected b _ => action b processRejectNew
  | Afill, onTradeExecution b t => action b (processFill now b t)
  | Aexpire, onRplOrderExpired b => action b processExpire_rplOrder
  | _, _ => simple_action a e
  end.

Definition run_guard (g : Guard) (e : Event) : M F bool :=
  match g with Gcomplete => complete e | Gnotexecuted => notexecuted e end.

(** ** Entry actions *)

(** The shape of the entry actions: nothing in a state machine test; otherwise
    set the order's status, when the state has one, and add the report. *)
Definition entry (b : EventBase) (st : option OrderStatus) (op : OrderEntry → TrOp) : M F unit :=
  if eb_test b then ret tt
  else
    p <- gets f_order4 ;;
    match p with
    | None => crash "assert"
    | Some l =>
        on_world (
          (match st with Some s => assign l (set_status s) | None => ret tt end) ;;;
          o <- deref l ;; addOp (op o))
    end.

Definition report (st : OrderStatus) (ty : ExecType) (o : OrderEntry) : TrOp :=
  CreateExecReport st ty (o_orderId o).
Definition reject_report (reason : string) (o : OrderEntry) : TrOp :=
  CreateRejectExecReport reason REJECTED_ORDSTATUS (o_orderId o).

(** [new CreateCorrectExecReportTrOperation(evnt.correct(), ...)], which asserts
    a correction. *)
Definition entry_correct (b : EventBase) (st : OrderStatus) (c : option ExecCorrectParams) : M F unit :=
  match c with
  | Some c => entry b (Some st) (λ o, CreateCorrectExecReport c st (o_orderId o))
  | None => if eb_test b then ret tt else crash "assert"
  end.

Definition entry_trade (b : EventBase) (st : OrderStatus) (t : option ExecTradeParams) : M F unit :=
  match t with
  | Some t => entry b (Some st) (λ o, CreateTradeExecReport t st (o_orderId o))
  | None => if eb_test b then ret tt else crash "assert"
  end.

(** Rejected::on_entry -- src/src/OrderStates.cpp:21-120 *)
Definition Rejected_on_entry (e : Event) : M F unit :=
  match e with
  | onReplace b _ => entry b (Some REJECTED_ORDSTATUS) (reject_report "")
  | onRecvOrderRejected b _ r | onRecvRplOrderRejected b _ r | onExternalOrderRejected b _ r
  | onOrderRejected b r | onRplOrderRejected b r =>
      entry b (Some REJECTED_ORDSTATUS) (reject_report r)
  | onExternalOrder b _ => entry b (Some REJECTED_ORDSTATUS) (reject_report "")
  | _ => ret tt
  end.

(** New::on_entry(onTradeCrctCncl) -- src/src/OrderStates.cpp:289-301 *)
Definition New_on_correction (b : EventBase) (c : option ExecCorrectParams) : M F unit := entry_correct b NEW_ORDSTATUS c.
(** Suspended::on_entry(onTradeCrctCncl) -- src/src/OrderStates.cpp:373-385 *)
Definition Suspended_on_correction (b : EventBase) (c : option ExecCorrectParams) : M F unit := entry_correct b SUSPENDED_ORDSTATUS c.
(** Expired::on_entry(onTradeCrctCncl) -- src/src/OrderStates.cpp:396-408 *)
Definition Expired_on_correction (b : EventBase) (c : option ExecCorrectParams) : M F unit := entry_correct b EXPIRED_ORDSTATUS c.
(** DoneForDay::on_entry(onTradeCrctCncl) -- src/src/OrderStates.cpp:410-422 *)
Definition DoneForDay_on_correction (b : EventBase) (c : option ExecCorrectParams) : M F unit := entry_correct b DFD_ORDSTATUS c.
(** CnclReplaced::on_entry(onTradeCrctCncl) -- src/src/OrderStates.cpp:387-394 *)
Definition CnclReplaced_on_correction : M F unit := ret tt.

(** New::on_entry -- src/src/OrderStates.cpp:122-189 *)
Definition New_on_entry (e : Event) : M F unit :=
  match e with
  | onExternalOrder b _ | onOrderReceived b _ | onNewDay b | onContinue b =>
      entry b (Some NEW_ORDSTATUS) (report NEW_ORDSTATUS NEW_EXECTYPE)
  | onReplace b i =>
      entry b (Some NEW_ORDSTATUS) (λ o, CreateReplaceExecReport i NEW_ORDSTATUS (o_orderId o))
  | onTradeCrctCncl b c => New_on_correction b c
  | _ => ret tt
  end.

(** Expired::on_entry -- src/src/OrderStates.cpp:191-217 *)
Definition Expired_on_entry (e : Event) : M F unit :=
  match e with
  | onExpired b | onRplOrderExpired b =>
      entry b (Some EXPIRED_ORDSTATUS) (report EXPIRED_ORDSTATUS EXPIRED_EXECTYPE)
  | onTradeCrctCncl b c => Expired_on_correction b c
  | _ => ret tt
  end.

(** CnclReplaced::on_entry -- src/src/OrderStates.cpp:219-259 *)
Definition CnclReplaced_on_entry (e : Event) : M F unit :=
  match e with
  | onExecCancel b | onInternalCancel b =>
      entry b (Some CANCELED_ORDSTATUS) (report CANCELED_ORDSTATUS CANCEL_EXECTYPE)
  | onExecReplace b _ =>
      entry b (Some REPLACED_ORDSTATUS)
        (λ o, CreateReplaceExecReport (eb_orderId b) REPLACED_ORDSTATUS (o_orderId o))
  | onTradeCrctCncl _ _ => CnclReplaced_on_correction
  | _ => ret tt
  end.

(** Suspended::on_entry, DoneForDay::on_entry -- src/src/OrderStates.cpp:261-287 *)
Definition Inactive_on_entry (s : State) (e : Event) : M F unit :=
  match s, e with
  | Suspended, onSuspended b =>
      entry b (Some SUSPENDED_ORDSTATUS) (report SUSPENDED_ORDSTATUS SUSPENDED_EXECTYPE)
  | Suspended, onTradeCrctCncl b c => Suspended_on_correction b c
  | DoneForDay, onFinished b => entry b (Some DFD_ORDSTATUS) (report DFD_ORDSTATUS DFD_EXECTYPE)
  | DoneForDay, onTradeCrctCncl b c => DoneForDay_on_correction b c
  | _, _ => ret tt
  end.

(** PartFill::on_entry, Filled::on_entry -- src/src/OrderStates.cpp:303-371 *)
Definition Traded_on_entry (s : State) (e : Event) : M F unit :=
  match s, e with
  | PartFill, onTradeExecution b t => entry_trade b PARTFILL_ORDSTATUS t
  | PartFill, onTradeCrctCncl b c => entry_correct b PARTFILL_ORDSTATUS c
  | PartFill, onNewDay b | PartFill, onContinue b =>
      entry b (Some PARTFILL_ORDSTATUS) (report PARTFILL_ORDSTATUS RESTATED_EXECTYPE)
  | Filled, onTradeExecution b t => entry_trade b FILLED_ORDSTATUS t
  | _, _ => ret tt
  end.

(** GoingCancel::on_entry, GoingReplace::on_entry, NoCnlReplace::on_entry -- src/src/OrderStates.cpp:424-466 *)
Definition Zone2_on_entry (s : State) (e : Event) : M F unit :=
  match s, e with
  | GoingCancel, onCancelReceived b => entry b None (λ o, report (o_status o) PEND_CANCEL_EXECTYPE o)
  | GoingReplace, onReplaceReceived b _ => entry b None (λ o, report (o_status o) PEND_REPLACE_EXECTYPE o)
  | NoCnlReplace, onCancelRejected b | NoCnlReplace, onReplaceRejected b _ =>
      entry b None (λ o, CancelReject (o_status o) (o_orderId o))
  | _, _ => ret tt
  end.

Definition on_entry (s : State) (e : Event) : M F unit :=
  match s with
  | Rejected => Rejected_on_entry e
  | New => New_on_entry e
  | Expired => Expired_on_entry e
  | CnclReplaced => CnclReplaced_on_entry e
  | Suspended | DoneForDay => Inactive_on_entry s e
  | PartFill | Filled => Traded_on_entry s e
  | GoingCancel | GoingReplace | NoCnlReplace => Zone2_on_entry s e
  | Rcvd_New | Pend_Replace => ret tt
  end.
End ops.

Section theory.
Context {SO SD : Type} (sv_order : OrderEntry → M SO unit) (now : Z).
Abbreviation W := (World SO SD).
Abbreviation F := (Frame SO SD).
Implicit Types (f : F).

Definition ops_of f : list TrOp := TransactionScope.operations (w_scope (f_world f)).
Definition order_of f (l : loc) : option OrderEntry := heap_at (f_world f) l.

(** ** What the entry actions do *)

(** The status the order has in a state, and whether entering it is silent. *)
Definition state_status (s : State) (k : Kind) : option OrderStatus :=
  match s with
  | Rejected => Some REJECTED_ORDSTATUS
  | New => Some NEW_ORDSTATUS
  | PartFill => Some PARTFILL_ORDSTATUS
  | Filled => Some FILLED_ORDSTATUS
  | Expired => Some EXPIRED_ORDSTATUS
  | DoneForDay => Some DFD_ORDSTATUS
  | Suspended => Some SUSPENDED_ORDSTATUS
  | CnclReplaced =>
      match k with
      | KExecReplace => Some REPLACED_ORDSTATUS
      | KTradeCrctCncl => None
      | _ => Some CANCELED_ORDSTATUS
      end
  | _ => None
  end.

Definition silent (s : State) (k : Kind) : bool :=
  match s, k with
  | CnclReplaced, KTradeCrctCncl => true
  | Pend_Replace, _ => true
  | _, _ => false
  end.

(** The status a report carries. *)
Definition op_status (op : TrOp) : option OrderStatus :=
  match op with
  | CreateExecReport st _ _ | CreateTradeExecReport _ st _ | CreateRejectExecReport _ st _
  | CreateReplaceExecReport _ st _ | CreateCorrectExecReport _ st _ | CancelReject st _ => Some st
  | _ => None
  end.

(** Trades and corrections carry their data. *)
Definition has_payload (e : Event) : bool :=
  match e with
  | onTradeExecution _ None | onTradeCrctCncl _ None => false
  | _ => true
  end.

Definition with_status (st : option OrderStatus) (o : OrderEntry) : OrderEntry :=
  match st with Some s => set_status s o | None => o end.

(** An entry action reports once on the order, with the status it then has. *)
Definition reports (f f' : F) (l : loc) (o' : OrderEntry) : Prop :=
  order_of f' l = Some o' ∧
  ∃ op, ops_of f' = ops_of f ++ [op] ∧ getObjectId op = o_orderId o' ∧ op_status op = Some (o_status o').

Lemma entry_run b st op f l o : eb_test b = false → f_order4 f = Some l → order_of f l = Some o →
  getObjectId (op (with_status st o)) = o_orderId o →
  op_status (op (with_status st o)) = Some (o_status (with_status st o)) →
  ∃ f', entry b st op f = (Ok tt, f') ∧ reports f f' l (with_status st o).
Proof.
  intros Hb H4 Ho Hid Hst. unfold entry. rewrite Hb. unfold bind at 1, gets. rewrite H4.
  assert (o_orderId (with_status st o) = o_orderId o) as Hoid by (destruct st, o; done).
  unfold on_world, bind, order_of in *. destruct st as [st|]; cbn [with_status] in *.
  - rewrite (assign_some _ _ _ _ Ho). rewrite (deref_some _ l (set_status st o)).
    2:{ apply heap_at_set. }
    eexists. split; [reflexivity|]. split.
    + unfold order_of; simpl. apply lookup_insert_eq.
    + eexists. split; [reflexivity|]. split; [congruence|done].
  - unfold ret. rewrite (deref_some _ _ _ Ho). eexists. split; [reflexivity|]. split; [done|].
    eexists. split; [reflexivity|]. split; [congruence|done].
Qed.

(** ** What a fill does *)

(** The order after a trade of [q]. *)
Definition filled_by (q : Z) (o : OrderEntry) : OrderEntry :=
  set_cumQty (o_cumQty o + q) (set_leavesQty (o_leavesQty o - q) o).

(** Executed and open quantity make up the ordered one. *)
Definition qty_ok (o : OrderEntry) : Prop :=
  is_u32 (o_leavesQty o) ∧ is_u32 (o_cumQty o) ∧ is_u32 (o_orderQty o) ∧
  o_leavesQty o + o_cumQty o = o_orderQty o.

Lemma filled_by_ok q o : qty_ok o → 0 <= q <= o_leavesQty o → qty_ok (filled_by q o).
Proof. destruct o; unfold qty_ok, filled_by, is_u32; simpl. lia. Qed.

(** [remove] looks at identity, side, price and instrument only. *)
Lemma remove_filled_by q o (b : Book.OrderBookImpl SO) : Book.remove (filled_by q o) b = Book.remove o b.
Proof. by destruct o. Qed.

Definition new_exec (w : W) : IdT := (IdTGenerator.getId now (w_gen w)).1.

(** The state once the trade's report is stored. *)
Definition reported (w : W) (o : OrderEntry) (t : ExecTradeParams) : W :=
  set_store (OrderStore.put_exec (new_exec w) (set_execId (new_exec w) (trade_report (o_orderId o) t))
    (w_store w)) (IdTGenerator.getId now (w_gen w)).2 w.

Lemma saveExec_trade w o t : OrderStore.locateByExecId (new_exec w) (w_store w) = None →
  on_store (OrderStore.saveExec (trade_report (o_orderId o) t) now) w =
    (Ok (set_execId (new_exec w) (trade_report (o_orderId o) t)), reported w o t).
Proof.
  unfold OrderStore.locateByExecId, reported, new_exec. intros H.
  unfold on_store, OrderStore.saveExec, bind, gets, ret, modify, OrderStore.newId; simpl in *.
  by rewrite H.
Qed.

(** The state once the trade is applied to the order. *)
Definition applied (w : W) (l : loc) (o : OrderEntry) (q : Z) (i : IdT) (ex : list IdT) : W :=
  let w1 := set_store (set_heap l (filled_by q o) (w_store w)) (w_gen w) w in
  set_wide (WideData.upd_wide (w_wide w) (λ c ins s a cl r e bs bn st,
    WideData.mkWide c ins s a cl r (<[o_executions o := ex ++ [i]]> e) bs bn st)) w1.

Lemma applyTrade_run w l o q i ex : heap_at w l = Some o → qty_ok o → 0 <= q →
  WideData.executions (w_wide w) !! o_executions o = Some ex →
  applyTrade l q i w =
    if o_leavesQty o <? q
    then (Throw "OrderParams::applyTrade: trade quantity exceeds leaves quantity!", w)
    else (Ok tt, applied w l o q i ex).
Proof.
  intros Ho Hq Hq0 Hex. unfold applyTrade, bind at 1. rewrite (deref_some _ _ _ Ho).
  destruct (Z.ltb_spec (o_leavesQty o) q) as [Hlt|Hle]; [done|].
  unfold bind. rewrite (assign_some _ _ _ _ Ho). unfold on_wide, WideData.pushExecution; simpl.
  rewrite Hex. unfold applied, filled_by, qty_ok, is_u32 in *.
  rewrite (wrap32_small (o_leavesQty o - q)) by (unfold is_u32; lia).
  by rewrite (wrap32_small (o_cumQty o + q)) by (unfold is_u32; lia).
Qed.

Lemma processFill_run f l o t b ex : f_orderData f = Some l → order_of f l = Some o → qty_ok o →
  0 <= tp_lastQty t → WideData.executions (w_wide (f_world f)) !! o_executions o = Some ex →
  OrderStore.locateByExecId (new_exec (f_world f)) (w_store (f_world f)) = None →
  let i := new_exec (f_world f) in
  let w2 := applied (reported (f_world f) o t) l o (tp_lastQty t) i ex in
  processFill now b (Some t) f =
    if o_leavesQty o <? tp_lastQty t then
      (Throw "OrderParams::applyTrade: trade quantity exceeds leaves quantity!",
       mkFrame (reported (f_world f) o t) (Some l) (f_order4 f))
    else on_world (
      if tp_lastQty t =? o_leavesQty o then
        assert_ (eb_hasBook b) ;;; on_book (Book.remove o) ;;; set_exec_status i FILLED_ORDSTATUS
      else set_exec_status i PARTFILL_ORDSTATUS) (mkFrame w2 (Some l) (f_order4 f)).
Proof.
  intros Hd Ho Hq Hq0 Hex Hfr i w2. unfold processFill, theData, getData, bind at 1 2, gets, ret.
  rewrite Hd. unfold order_of in Ho.
  assert (∀ (c : M W unit) r w', c (f_world f) = (r, w') →
    on_world c f = (r, mkFrame w' (Some l) (f_order4 f))) as Hon.
  { intros c r w' Hc. unfold on_world. by rewrite Hc, Hd. }
  assert (∀ (c k : M W unit), c (f_world f) = k w2 →
    on_world c f = on_world k (mkFrame w2 (Some l) (f_order4 f))) as Hon2.
  { intros c k Hc. unfold on_world. by rewrite Hc, Hd. }
  destruct (o_leavesQty o <? tp_lastQty t) eqn:Hlt; [apply Hon|apply Hon2];
    unfold bind at 1; rewrite (deref_some _ _ _ Ho); unfold bind at 1;
    rewrite (saveExec_trade _ o t Hfr); unfold bind at 1;
    rewrite (applyTrade_run (reported (f_world f) o t) l o _ _ ex) by done; rewrite Hlt; [done|].
  case_bool. change (applied _ _ _ _ _ _) with w2.
  change (ex_execId _) with i.
  assert (heap_at w2 l = Some (filled_by (tp_lastQty t) o)) as Ho' by (apply lookup_insert_eq).
  unfold bind at 1. rewrite (deref_some _ _ _ Ho').
  assert ((0 =? o_leavesQty (filled_by (tp_lastQty t) o)) = (tp_lastQty t =? o_leavesQty o)) as ->.
  { assert (o_leavesQty (filled_by (tp_lastQty t) o) = o_leavesQty o - tp_lastQty t) as -> by (by destruct o).
    apply eq_true_iff_eq. rewrite !Z.eqb_eq. lia. }
  destruct (tp_lastQty t =? o_leavesQty o); [|done].
  by destruct o.
Qed.

(** ** What receiving an order does *)

Lemma on_world_ok {A} (c : M W A) f (a : A) : c (f_world f) = (Ok a, f_world f) →
  on_world c f = (Ok a, f).
Proof. unfold on_world. intros ->. by destruct f. Qed.

(** What the store of the frame gives for the received order. *)
Definition saves_as (f : F) (o : OrderEntry) (l : loc) (s' : OrderStore.t SO) (c' : Z) : Prop :=
  let w := f_world f in
  OrderStore.wf (getRaw w) (w_store w) (w_gen w) ∧ w_gen w + 1 < 2 ^ 64 ∧
  OrderStore.id_ok o (w_gen w) ∧
  OrderStore.save sv_order (getRaw w) o now (w_store w, w_gen w) = (Ok l, (s', c')).

(** The stored copy of the order, accepted. *)
Definition accepted (f : F) (o : OrderEntry) : OrderEntry :=
  set_status NEW_ORDSTATUS (OrderStore.saved o now (w_gen (f_world f))).

(** The state once the order is stored and has its status. *)
Definition stored (f : F) (o : OrderEntry) (l : loc) (s' : OrderStore.t SO) (c' : Z) : W :=
  set_store (set_heap l (accepted f o) s') c' (f_world f).

Lemma stored_at f o l s' c' : heap_at (stored f o l s' c') l = Some (accepted f o).
Proof. apply lookup_insert_eq. Qed.

Lemma stored_old f o l s' c' l0 x : saves_as f o l s' c' → order_of f l0 = Some x →
  l0 ≠ l ∧ heap_at (stored f o l s' c') l0 = Some x.
Proof.
  intros (Hw & Hc & Hok & Hs) Hx. unfold order_of, heap_at in Hx.
  destruct (OrderStore.save_returns _ _ _ _ _ _ _ _ Hw Hc Hok Hs) as (Hl & Hh & _).
  assert (l0 ≠ l) as Hne by (intros ->; congruence). split; [done|].
  unfold heap_at, stored; simpl. simpl in Hh. rewrite Hh.
  by rewrite !lookup_insert_ne by done.
Qed.

(** Up to the market check the order is valid, stored and new. *)
Lemma receive_run b order f o l s' c' : f_orderData f = None → order_of f order = Some o →
  WideData.OrderEntry_isValid o (w_wide (f_world f)) = None → saves_as f o l s' c' →
  processReceive_order sv_order now b order f =
    on_world (check_market b (accepted f o) ;;; add_match_ops l)
      (mkFrame (stored f o l s' c') (Some l) (f_order4 f)).
Proof.
  intros Hd Ho Hv (Hw & Hc & Hok & Hs). unfold order_of in Ho.
  destruct (OrderStore.save_returns _ _ _ _ _ _ _ _ Hw Hc Hok Hs) as (_ & Hh & _). simpl in Hh.
  unfold processReceive_order.
  rewrite (bind_ok _ _ _ None f) by (unfold getData, gets; by rewrite Hd).
  rewrite (bind_ok _ _ _ tt f) by done.
  rewrite (bind_ok _ _ _ o f) by (by apply on_world_ok, deref_some).
  rewrite (bind_ok _ _ _ tt f).
  2:{ apply on_world_ok. unfold check_valid, bind, gets. by rewrite Hv. }
  rewrite (bind_ok _ _ _ tt (mkFrame (f_world f) (Some order) (f_order4 f))) by done.
  rewrite (bind_ok _ _ _ l (mkFrame (set_store s' c' (f_world f)) (Some order) (f_order4 f))).
  2:{ unfold on_world, storage_save. cbn [f_world f_orderData f_order4].
      rewrite (bind_ok _ _ _ _ _ (deref_some _ _ _ Ho)). unfold bind, gets, on_store.
      by rewrite Hs. }
  rewrite (bind_ok _ _ _ tt (mkFrame (set_store s' c' (f_world f)) (Some l) (f_order4 f))) by done.
  assert (heap_at (set_store s' c' (f_world f)) l = Some (OrderStore.saved o now (w_gen (f_world f)))) as Hl.
  { unfold heap_at; simpl. rewrite Hh. apply lookup_insert_eq. }
  unfold on_world. cbn [f_world f_orderData f_order4].
  rewrite (bind_ok _ _ _ tt (stored f o l s' c')) by (by rewrite (assign_some _ _ _ _ Hl)).
  by rewrite (bind_ok _ _ _ _ _ (deref_some _ _ _ (stored_at f o l s' c'))).
Qed.

(** ** Properties *)

(** C14: the order's status follows the machine: whichever row of the table
    fires, entering its target sets the status of the order to that state's
    (states of the cancel/replace region that have none keep it) and adds exactly
    one report on the order carrying the status -- none only for an order
    waiting for its replacement and for a correction of a cancelled order. *)
Theorem entry_sets_status r e f l o : r ∈ transition_table → kind e = r_evt r →
  eb_test (base e) = false → has_payload e = true → f_order4 f = Some l → order_of f l = Some o →
  ∃ f', on_entry (r_tgt r) e f = (Ok tt, f') ∧
    if silent (r_tgt r) (r_evt r) then f' = f
    else reports f f' l (with_status (state_status (r_tgt r) (r_evt r)) o).
Proof.
  intros Hr Hk Hb Hp H4 Ho. unfold transition_table in Hr.
  repeat (apply elem_of_cons in Hr as [->|Hr]); [..|by apply elem_of_nil in Hr];
    destruct e as [| | | | | |b [t|]|b [c|]| | | | | | | | | | | | | | | | |]; simpl in Hk; try discriminate Hk;
    simpl in Hp; try discriminate Hp; simpl in *;
    first [by exists f
          |match goal with |- context [entry ?b ?st ?op f] => apply (entry_run b st op f l o) end;
           [done|done|done|by destruct o|by destruct o]].
Qed.

(** The status under which the trade's report is stored. *)
Definition exec_status (w : W) (i : IdT) : option OrderStatus :=
  ex_orderStatus <$> OrderStore.locateByExecId i (w_store w).

Lemma set_exec_status_run w i st e : OrderStore.locateByExecId i (w_store w) = Some e →
  ∃ w', set_exec_status i st w = (Ok tt, w') ∧ exec_status w' i = Some st ∧
    OrderStore.heap (w_store w') = OrderStore.heap (w_store w) ∧ w_book w' = w_book w ∧
    w_wide w' = w_wide w.
Proof.
  unfold OrderStore.locateByExecId, set_exec_status, modify. intros ->. eexists. split; [reflexivity|].
  unfold exec_status, OrderStore.locateByExecId; simpl. by rewrite lookup_insert_eq.
Qed.

(** C13: filling an order conserves its quantities: a trade within the open
    quantity moves exactly that much from open to executed, so that both still
    add up to the ordered quantity, and appends the trade's report to the
    order's executions; a partial fill leaves the book alone and a complete one
    takes the order out of it, with the report stored as partial or complete
    accordingly.  A trade above the open quantity is refused and changes neither
    the order nor the book. *)
Theorem fill_conserves f l o t b ex : f_orderData f = Some l → order_of f l = Some o → qty_ok o →
  0 <= tp_lastQty t → WideData.executions (w_wide (f_world f)) !! o_executions o = Some ex →
  OrderStore.locateByExecId (new_exec (f_world f)) (w_store (f_world f)) = None →
  let i := new_exec (f_world f) in
  let q := tp_lastQty t in
  let r := processFill now b (Some t) f in
  let w := f_world f in let w' := f_world r.2 in
  (o_leavesQty o < q → is_ok r.1 = false ∧ order_of r.2 l = Some o ∧ w_book w' = w_book w) ∧
  (q <= o_leavesQty o →
     order_of r.2 l = Some (filled_by q o) ∧ qty_ok (filled_by q o) ∧
     WideData.executions (w_wide w') !! o_executions o = Some (ex ++ [i]) ∧
     (q < o_leavesQty o →
        r.1 = Ok tt ∧ w_book w' = w_book w ∧ exec_status w' i = Some PARTFILL_ORDSTATUS) ∧
     (q = o_leavesQty o → eb_hasBook b = true →
        r.1 = (Book.remove o (w_book w)).1 ∧ w_book w' = (Book.remove o (w_book w)).2 ∧
        (r.1 = Ok tt → exec_status w' i = Some FILLED_ORDSTATUS))).
Proof.
  intros Hd Ho Hq Hq0 Hex Hfr i q r w w'. unfold w', r. clear w' r.
  rewrite (processFill_run f l o t b ex) by done. fold i q w. split; intros Hlt.
  { rewrite (proj2 (Z.ltb_lt _ _) Hlt). done. }
  rewrite (proj2 (Z.ltb_ge _ _) Hlt). set (w2 := applied _ _ _ _ _ _).
  assert (OrderStore.locateByExecId i (w_store w2) = Some (set_execId i (trade_report (o_orderId o) t))) as He
    by (apply lookup_insert_eq).
  assert (heap_at w2 l = Some (filled_by q o)) as Ho2 by (apply lookup_insert_eq).
  assert (WideData.executions (w_wide w2) !! o_executions o = Some (ex ++ [i])) as Hx2.
  { subst w2. unfold applied. simpl. destruct (w_wide w). apply lookup_insert_eq. }
  destruct (Z.eqb_spec q (o_leavesQty o)) as [Eq|Eq].
  - unfold on_world, bind, order_of. destruct (eb_hasBook b); cbn [assert_ ret f_world f_orderData f_order4 crash].
    + destruct (Book.remove o (w_book w)) as [x b'] eqn:Er.
      assert (on_book (Book.remove o) w2 = (x, set_book b' w2)) as ->.
      { unfold on_book. change (w_book w2) with (w_book w). by rewrite Er. }
      destruct x as [[]|m|c]; [|split_and!; try done; [by apply filled_by_ok|lia]..].
      destruct (set_exec_status_run (set_book b' w2) i FILLED_ORDSTATUS _ He)
        as (w3 & -> & E1 & E2 & E3 & E4); simpl.
      unfold heap_at in *. rewrite E2, E3, E4. split_and!; try done; [by apply filled_by_ok|lia].
    + split_and!; try done; [by apply filled_by_ok|lia].
  - unfold on_world, order_of. cbn [f_world f_orderData f_order4].
    destruct (set_exec_status_run w2 i PARTFILL_ORDSTATUS _ He)
      as (w3 & -> & E1 & E2 & E3 & E4); simpl.
    unfold heap_at in *. rewrite E2, E3, E4. split_and!; try done. by apply filled_by_ok.
Qed.

(** An order that does not rest in the book cannot be filled completely: the
    trade is applied, nothing is left open, and then the removal from the book
    throws.  Market orders are never put into the book, so the last trade of
    each of them ends this way. *)
Theorem market_fill_throws f l o t b ex g : f_orderData f = Some l → order_of f l = Some o →
  qty_ok o → 0 <= tp_lastQty t → WideData.executions (w_wide (f_world f)) !! o_executions o = Some ex →
  OrderStore.locateByExecId (new_exec (f_world f)) (w_store (f_world f)) = None →
  Book.book_wf (w_book (f_world f)) → isValidId (o_instrument o) = true →
  Book.orderGroups (w_book (f_world f)) !! o_instrument o = Some g → Book.not_resting o g →
  tp_lastQty t = o_leavesQty o → eb_hasBook b = true →
  let r := processFill now b (Some t) f in
  r.1 = Throw "Unable to remove order from book - order not found!" ∧
  order_of r.2 l = Some (filled_by (o_leavesQty o) o) ∧
  o_leavesQty (filled_by (o_leavesQty o) o) = 0.
Proof.
  intros Hd Ho Hq Hq0 Hex Hfr Hwf Hi Hg Hn Ht Hb. rewrite (processFill_run f l o t b ex) by done.
  rewrite Ht, Z.ltb_irrefl, Z.eqb_refl, Hb. unfold on_world, bind, on_book; simpl.
  rewrite (Book.remove_absent _ _ _ Hwf Hi Hg Hn). split; [done|]. split; [apply lookup_insert_eq|].
  destruct o; simpl. lia.
Qed.

Lemma receive_invalid b order f o reason : f_orderData f = None → order_of f order = Some o →
  WideData.OrderEntry_isValid o (w_wide (f_world f)) = Some reason →
  processReceive_order sv_order now b order f = (Throw reason, f).
Proof.
  intros Hd Ho Hv. unfold processReceive_order.
  rewrite (bind_ok _ _ _ None f) by (unfold getData, gets; by rewrite Hd).
  rewrite (bind_ok _ _ _ tt f) by done.
  rewrite (bind_ok _ _ _ o f) by (by apply on_world_ok, deref_some).
  apply bind_throw. unfold on_world, check_valid, bind, gets. rewrite Hv. by destruct f.
Qed.

(** Receiving an order checks it and stores it: an invalid order is refused
    with the reason of the check and nothing changes; a valid limit order that the
    storage accepts is stored as a new order under its identifier, the machine
    continues with the stored copy, the caller's order is untouched, and the
    transaction gets the matching of that copy followed by its insertion into the
    book of its instrument. *)
Theorem receive_accepts b order f o : f_orderData f = None → order_of f order = Some o →
  (∀ reason, WideData.OrderEntry_isValid o (w_wide (f_world f)) = Some reason →
     processReceive_order sv_order now b order f = (Throw reason, f)) ∧
  (∀ l s' c', WideData.OrderEntry_isValid o (w_wide (f_world f)) = None → saves_as f o l s' c' →
     is_market o = false →
     ∃ f' n, processReceive_order sv_order now b order f = (Ok tt, f') ∧
       f_orderData f' = Some l ∧ order_of f' l = Some (accepted f o) ∧ order_of f' order = Some o ∧
       OrderStore.locateByOrderId (o_orderId (accepted f o)) (w_store (f_world f')) = Some l ∧
       ops_of f' = ops_of f ++ [MatchOrder n l (o_orderId (accepted f o));
                                AddToOrderBook l (o_orderId (accepted f o)) (o_instrument o)] ∧
       w_book (f_world f') = w_book (f_world f)).
Proof.
  intros Hd Ho. split.
  - intros reason Hv. by apply (receive_invalid b order f o).
  - intros l s' c' Hv Hs Hm. rewrite (receive_run b order f o l s' c') by done.
    assert (is_market (accepted f o) = false) as Hm' by (by destruct o).
    assert (o_instrument (accepted f o) = o_instrument o) as Hi by (by destruct o).
    unfold on_world, check_market, add_match_ops. rewrite Hm'. cbn [f_world when f_orderData f_order4].
    rewrite (bind_ok _ _ _ tt (stored f o l s' c')) by done.
    rewrite (bind_ok _ _ _ _ _ (deref_some _ _ _ (stored_at f o l s' c'))). rewrite Hm'.
    eexists _, _. split; [reflexivity|]. split; [done|]. split; [apply lookup_insert_eq|].
    split; [apply (stored_old f o l s' c' order o Hs Ho)|].
    destruct Hs as (Hw & Hc & Hok & Hs).
    destruct (OrderStore.save_returns _ _ _ _ _ _ _ _ Hw Hc Hok Hs) as (_ & _ & Hloc).
    split; [|split; [|done]].
    + simpl in Hloc. unfold accepted. rewrite <- Hloc. unfold OrderStore.locateByOrderId; simpl.
      by destruct o.
    + rewrite <- Hi. unfold ops_of; simpl. by rewrite <- app_assoc.
Qed.

(** A market order that finds no opposite order runs into the machine's own
    assertion: receiving it stores it, then throws, and leaves the stored copy as
    the machine's order, which is not the one the rejecting event carries and
    [processReject] asserts. *)
Theorem market_reject_asserts b order f o l s' c' g : f_orderData f = None →
  order_of f order = Some o → WideData.OrderEntry_isValid o (w_wide (f_world f)) = None →
  saves_as f o l s' c' → is_market o = true → eb_hasBook b = true →
  Book.orderGroups (w_book (f_world f)) !! o_instrument o = Some g →
  Book.side_orders (OrderMatcher.oposite_side o) g = Some [] →
  ∃ f', processReceive_order sv_order now b order f =
      (Throw "There is no market for this instrument!", f') ∧
    processReject_recvOrder sv_order now order f' = (Crash "assert", f').
Proof.
  intros Hd Ho Hv Hs Hm Hb Hg Hside. rewrite (receive_run b order f o l s' c') by done.
  assert (is_market (accepted f o) = true) as Hm' by (by destruct o).
  assert (Book.find (FindAnyOpositeOrder (accepted f o)) (w_book (f_world f)) = Ok IdT0) as Hf.
  { unfold Book.find. assert (o_instrument (accepted f o) = o_instrument o) as E by (by destruct o).
    simpl. rewrite E, Hg.
    assert (OrderMatcher.oposite_side (accepted f o) = OrderMatcher.oposite_side o) as -> by (by destruct o).
    destruct (OrderMatcher.oposite_side o); simpl in *; try done; by injection Hside as ->. }
  exists (mkFrame (stored f o l s' c') (Some l) (f_order4 f)). split.
  - unfold on_world. cbn [f_world f_orderData f_order4].
    rewrite (bind_throw _ _ _ "There is no market for this instrument!" (stored f o l s' c')); [done|].
    unfold check_market. rewrite Hm', Hb. cbn [when assert_].
    rewrite (bind_ok _ _ _ tt (stored f o l s' c')) by done.
    rewrite (bind_ok _ _ _ (stored f o l s' c') (stored f o l s' c')) by done.
    rewrite (bind_ok _ _ _ IdT0 (stored f o l s' c')) by (unfold lift; simpl; by rewrite Hf).
    done.
  - assert (order ≠ l) as Hne by (eapply (stored_old f o l s' c' order o); done).
    unfold processReject_recvOrder.
    rewrite (bind_ok _ _ _ (Some l) _) by done. unfold bind at 1, assert_.
    rewrite bool_decide_eq_false_2; [done|]. intros [?|[= ?]]; congruence.
Qed.

(** Accepting an external order creates its operations for the caller's
    order instead of the stored copy: an order that arrives without an identifier
    gives a transaction whose first operation touches an invalid object, which
    [getRelatedObjects] asserts against. *)
Theorem external_order_unusable b order f o l s' c' : f_orderData f = None →
  order_of f order = Some o → WideData.OrderEntry_isValid o (w_wide (f_world f)) = None →
  saves_as f o l s' c' → is_market o = false → isValidId (o_orderId o) = false → ops_of f = [] →
  ∃ f', processAccept_external sv_order now b order f = (Ok tt, f') ∧
    TransactionScope.related (w_scope (f_world f')) = Crash "assert".
Proof.
  intros Hd Ho Hv (Hw & Hc & Hok & Hs) Hm Hi Hops.
  destruct (OrderStore.save_returns _ _ _ _ _ _ _ _ Hw Hc Hok Hs) as (_ & Hh & _). simpl in Hh.
  unfold processAccept_external.
  rewrite (bind_ok _ _ _ None f) by (unfold getData, gets; by rewrite Hd).
  rewrite (bind_ok _ _ _ tt f) by done.
  set (f1 := mkFrame (f_world f) (Some order) (f_order4 f)).
  rewrite (bind_ok _ _ _ tt f1) by done.
  rewrite (bind_ok _ _ _ o f1) by (by apply on_world_ok, deref_some).
  rewrite (bind_ok _ _ _ tt f1)
    by (apply on_world_ok; unfold check_valid, bind, gets; simpl; by rewrite Hv).
  rewrite (bind_ok _ _ _ tt f1)
    by (apply on_world_ok; unfold check_market, when; by rewrite Hm).
  set (w1 := set_store s' c' (f_world f)).
  rewrite (bind_ok _ _ _ l (mkFrame w1 (Some order) (f_order4 f))).
  2:{ unfold on_world, storage_save. cbn [f_world f_orderData f_order4 f1].
      rewrite (bind_ok _ _ _ _ _ (deref_some _ _ _ Ho)). unfold bind, gets, on_store.
      by rewrite Hs. }
  rewrite (bind_ok _ _ _ tt (mkFrame w1 (Some l) (f_order4 f))) by done.
  set (w2 := set_scope (TransactionScope.addOperation
    (MatchOrder (w_newOp (f_world f)) order (o_orderId o)) (w_scope (f_world f))) (S (w_newOp (f_world f))) w1).
  unfold on_world. cbn [f_world f_orderData f_order4]. rewrite (bind_ok _ _ _ tt w2) by done.
  assert (heap_at w2 l = Some (OrderStore.saved o now (w_gen (f_world f)))) as Hl.
  { unfold heap_at; simpl. rewrite Hh. apply lookup_insert_eq. }
  rewrite (bind_ok _ _ _ _ _ (deref_some _ _ _ Hl)).
  assert (is_market (OrderStore.saved o now (w_gen (f_world f))) = false) as -> by (by destruct o).
  eexists. split; [reflexivity|]. unfold TransactionScope.related; simpl. unfold ops_of in Hops.
  rewrite Hops. simpl. by rewrite Hi.
Qed.
End theory.

(** ** Witnesses: a received order and the reference data it needs *)

Definition ex_ref (n : Z) : IdT := mkIdT n 1.
Definition ex_wide : WideData.t unit :=
  WideData.mkWide 20 {[Book.ex_instr := mkInstr "AAPL" "US0378331005" "ISIN" Book.ex_instr]} ∅
    {[ex_ref 11 := mkAcct "acct" "firm" (ex_ref 11) AGENCY_ACCOUNTTYPE]}
    {[ex_ref 12 := mkClr "clr" (ex_ref 12)]}
    {[ex_ref 13 := mkRaw (ex_ref 13) STRING_RAWDATATYPE ["A"%char; "1"%char]]}
    {[ex_ref 14 := []]} ∅ ∅ None.
Definition ex_order (ty : OrderType) : OrderEntry :=
  mkOrder IdT0 IdT0 (px_of_pos 101) RECEIVEDNEW_ORDSTATUS SELL_SIDE ty 30 0 30
    DAY_TIF px0 px0 px0 1 1 0 0 _3_SETTLTYPE AGENCY_CAPACITY USD_CURRENCY 0 0 0 SMP0
    Book.ex_instr (ex_ref 11) (ex_ref 12) IdT0 [] (ex_ref 13) IdT0 IdT0 (ex_ref 14).
Definition ex_store (o : OrderEntry) : OrderStore.t unit :=
  OrderStore.mkStore {[0%nat := o]} 1%nat ∅ ∅ ∅ None.
Definition ex_saver : OrderEntry → M unit unit := λ _, ret tt.
Definition ex_frame (bk : Book.OrderBookImpl unit) (o : OrderEntry) (p : option loc) : Frame unit unit :=
  mkFrame (mkWorld (ex_store o) 100 bk ex_wide TransactionScope.empty 0%nat [] ∅ [] []) p p.
Definition ex_base : EventBase := mkEB IdT0 false true true.
(** An instrument nobody trades. *)
Definition ex_empty_book : Book.OrderBookImpl unit :=
  Book.mkBook {[Book.ex_instr := Book.mkGroup [] []]} None.
Definition ex_saved (bk : Book.OrderBookImpl unit) (o : OrderEntry) : OrderStore.t unit * Z :=
  (OrderStore.save ex_saver (getRaw (f_world (ex_frame bk o None))) o 1000 (ex_store o, 100)).2.

Lemma ex_store_wf w o : OrderStore.wf (getRaw (SO := unit) (SD := unit) w) (ex_store o) 100.
Proof.
  split; simpl.
  - intros id l. by rewrite lookup_empty.
  - intros k l. by rewrite lookup_empty.
  - intros l [x Hl]. apply lookup_singleton_Some in Hl as [<- _]. lia.
  - intros id [x Hx]. by rewrite lookup_empty in Hx.
  - done.
Qed.

Lemma ex_saves bk o : o = ex_order LIMIT_ORDERTYPE ∨ o = ex_order MARKET_ORDERTYPE →
  saves_as ex_saver 1000 (ex_frame bk o None) o 1%nat (ex_saved bk o).1 (ex_saved bk o).2.
Proof.
  intros Ho. split; [apply ex_store_wf|]. split; [simpl; lia|]. split.
  - intros H. by destruct Ho as [-> | ->].
  - by destruct Ho as [-> | ->].
Qed.

Lemma receive_accepts_witness :
  ∃ f' n, processReceive_order ex_saver 1000 ex_base 0%nat
      (ex_frame Book.ex_book (ex_order LIMIT_ORDERTYPE) None) = (Ok tt, f') ∧
    ops_of f' = [MatchOrder n 1%nat (mkIdT 100 1000); AddToOrderBook 1%nat (mkIdT 100 1000) Book.ex_instr].
Proof.
  destruct (proj2 (receive_accepts ex_saver 1000 ex_base 0%nat
    (ex_frame Book.ex_book (ex_order LIMIT_ORDERTYPE) None) (ex_order LIMIT_ORDERTYPE) eq_refl eq_refl)
    1%nat _ _ ltac:(by vm_compute) (ex_saves Book.ex_book _ (or_introl eq_refl)) eq_refl)
    as (f' & n & H1 & _ & _ & _ & _ & H2 & _).
  exists f', n. split; [exact H1|exact H2].
Defined.

Lemma market_reject_asserts_witness :
  ∃ f', processReceive_order ex_saver 1000 ex_base 0%nat
      (ex_frame ex_empty_book (ex_order MARKET_ORDERTYPE) None) =
      (Throw "There is no market for this instrument!", f') ∧
    processReject_recvOrder ex_saver 1000 0%nat f' = (Crash "assert", f').
Proof.
  exact (market_reject_asserts ex_saver 1000 ex_base 0%nat
    (ex_frame ex_empty_book (ex_order MARKET_ORDERTYPE) None) (ex_order MARKET_ORDERTYPE)
    1%nat _ _ (Book.mkGroup [] []) eq_refl eq_refl ltac:(by vm_compute)
    (ex_saves ex_empty_book _ (or_intror eq_refl)) eq_refl eq_refl ltac:(by vm_compute) eq_refl).
Defined.

Lemma external_order_unusable_witness :
  ∃ f', processAccept_external ex_saver 1000 ex_base 0%nat
      (ex_frame Book.ex_book (ex_order LIMIT_ORDERTYPE) None) = (Ok tt, f') ∧
    TransactionScope.related (w_scope (f_world f')) = Crash "assert".
Proof.
  exact (external_order_unusable ex_saver 1000 ex_base 0%nat
    (ex_frame Book.ex_book (ex_order LIMIT_ORDERTYPE) None) (ex_order LIMIT_ORDERTYPE)
    1%nat _ _ eq_refl eq_refl ltac:(by vm_compute) (ex_saves Book.ex_book _ (or_introl eq_refl))
    eq_refl eq_refl eq_refl).
Defined.

Lemma entry_sets_status_witness :
  ∃ f', on_entry Expired (onExpired ex_base)
      (ex_frame Book.ex_book (ex_order LIMIT_ORDERTYPE) (Some 0%nat)) = (Ok tt, f') ∧
    reports (ex_frame Book.ex_book (ex_order LIMIT_ORDERTYPE) (Some 0%nat)) f' 0%nat
      (set_status EXPIRED_ORDSTATUS (ex_order LIMIT_ORDERTYPE)).
Proof.
  exact (entry_sets_status (a_row New KExpired Expired Aexpire) (onExpired ex_base)
    (ex_frame Book.ex_book (ex_order LIMIT_ORDERTYPE) (Some 0%nat)) 0%nat (ex_order LIMIT_ORDERTYPE)
    ltac:(by (vm_compute; do 12 right; left)) eq_refl eq_refl eq_refl eq_refl eq_refl).
Defined.

Definition ex_trade (q : Z) : ExecTradeParams := mkTrade q (px_of_pos 101) USD_CURRENCY 1.

Lemma ex_qty ty : qty_ok (ex_order ty).
Proof. repeat split; simpl; lia. Qed.

Lemma fill_conserves_witness :
  let r := processFill 1000 ex_base (Some (ex_trade 10))
    (ex_frame Book.ex_book (ex_order LIMIT_ORDERTYPE) (Some 0%nat)) in
  r.1 = Ok tt ∧ order_of r.2 0%nat = Some (filled_by 10 (ex_order LIMIT_ORDERTYPE)) ∧
  o_leavesQty (filled_by 10 (ex_order LIMIT_ORDERTYPE)) = 20.
Proof.
  destruct (proj2 (fill_conserves 1000 (ex_frame Book.ex_book (ex_order LIMIT_ORDERTYPE) (Some 0%nat))
    0%nat (ex_order LIMIT_ORDERTYPE) (ex_trade 10) ex_base [] eq_refl eq_refl (ex_qty _)
    ltac:(by vm_compute) ltac:(by vm_compute) ltac:(by vm_compute)) ltac:(by vm_compute))
    as (H1 & _ & _ & H2 & _).
  split; [exact (proj1 (H2 eq_refl))|]. split; [exact H1|reflexivity].
Defined.

Lemma ex_book_no_market : Book.not_resting (ex_order MARKET_ORDERTYPE) Book.ex_group.
Proof. exists (Book.sellOrder Book.ex_group). split; [done|]. by repeat constructor. Qed.

Lemma market_fill_throws_witness :
  let r := processFill 1000 ex_base (Some (ex_trade 30))
    (ex_frame Book.ex_book (ex_order MARKET_ORDERTYPE) (Some 0%nat)) in
  r.1 = Throw "Unable to remove order from book - order not found!" ∧
  option_map o_leavesQty (order_of r.2 0%nat) = Some 0.
Proof.
  destruct (market_fill_throws 1000 (ex_frame Book.ex_book (ex_order MARKET_ORDERTYPE) (Some 0%nat))
    0%nat (ex_order MARKET_ORDERTYPE) (ex_trade 30) ex_base [] Book.ex_group eq_refl eq_refl
    (ex_qty _) ltac:(by vm_compute) ltac:(by vm_compute) ltac:(by vm_compute)
    (Book.book_refines_wf _ _ Book.ex_book_refines) eq_refl Book.ex_book_group ex_book_no_market
    eq_refl eq_refl) as (H1 & H2 & H3).
  split; [exact H1|]. rewrite H2. reflexivity.
Defined.
End OrderStateMachine.
