(* ===== verification/TrOps.v ===== *)
(** The operations of a transaction, [src/src/TrOperations.cpp]: how each executes
    and rolls back on the engine's state, and what a failed transaction leaves
    behind. *)

From Stdlib Require Import Ascii String ZArith Lia.
From S2P Require Import Prelude Types IdGen WideData OrderStore OrderBook LinkTree TxScope Engine Matcher.
Import Defered.

Module TrOperations.

(** [sv_order] is the saver attached to the order book, [now] the generator's
    clock and [ctime] the value of [aux::currentDateTime]. *)
Section ops.
Context {SO SD : Type} (sv_order : OrderEntry → M SO unit) (now ctime : Z).
Abbreviation W := (World SO SD).

Definition INTERNAL_EXECUTION : string := "Internal".

(** processEvent_GenerateExecution -- src/src/TrOperations.cpp:33-55 *)
Definition processEvent_GenerateExecution (orderId : IdT) (exec : ExecutionEntry) : M W unit :=
  w <- gets (λ w, w) ;;
  l <- nonnull (OrderStore.locateByOrderId orderId (w_store w)) ;;
  ord <- deref l ;;
  src <- lift (WideData.getString (o_source ord) (w_wide w)) ;;
  execReport <- on_store (OrderStore.saveExec exec now) ;;
  on_wide (WideData.pushExecution (o_executions ord) (ex_execId execReport)) ;;;
  modify (push_out (OutExecReport (ex_execId execReport) src)).

(** executeEnqueueOrderEvent, three overloads -- src/src/TrOperations.cpp:57-108 *)
Definition executeEnqueueOrderEvent (op : TrOp) : M W unit :=
  match op with
  | EnqueueReplaceReceived evntOrderId replId _ _ =>
      modify (push_in (mkPE PE_ON_REPLACE_RECEVIED replId)) ;;;
      processEvent_GenerateExecution evntOrderId
        (mkExec PEND_REPLACE_EXECTYPE ctime evntOrderId IdT0 PENDINGREPLACE_ORDSTATUS
           INTERNAL_EXECUTION (XReplace replId))
  | EnqueueExecReplace evntOrderId replId _ =>
      modify (push_in (mkPE PE_ON_EXEC_REPLACE replId)) ;;;
      processEvent_GenerateExecution evntOrderId
        (mkExec REPLACE_EXECTYPE ctime evntOrderId IdT0 REPLACED_ORDSTATUS
           INTERNAL_EXECUTION (XReplace replId))
  | EnqueueReplaceRejected evntOrderId _ _ =>
      modify (push_in (mkPE PE_ON_REPLACE_REJECTED IdT0)) ;;;
      processEvent_GenerateExecution evntOrderId
        (mkExec REPLACE_EXECTYPE ctime evntOrderId IdT0 REJECTED_ORDSTATUS
           INTERNAL_EXECUTION (XReject EmptyString))
  | _ => ret tt
  end.

(** CreateExecReportTrOperation::execute -- src/src/TrOperations.cpp:120-254 *)
Definition CreateExecReport_execute (status : OrderStatus) (execType : ExecType) (orderId : IdT) : M W unit :=
  match execType with
  | NEW_EXECTYPE | DFD_EXECTYPE | CORRECT_EXECTYPE | CANCEL_EXECTYPE | EXPIRED_EXECTYPE
  | SUSPENDED_EXECTYPE | STATUS_EXECTYPE | RESTATED_EXECTYPE | PEND_CANCEL_EXECTYPE
  | PEND_REPLACE_EXECTYPE =>
      processEvent_GenerateExecution orderId
        (mkExec execType ctime orderId IdT0 status INTERNAL_EXECUTION XPlain)
  | _ => crash "assert"
  end.

(** CreateTradeExecReport, CreateCorrectExecReport, CreateRejectExecReport, CreateReplaceExecReport ::execute -- src/src/TrOperations.cpp:271-390 *)
Definition report_execute (op : TrOp) : M W unit :=
  match op with
  | CreateTradeExecReport t status orderId =>
      processEvent_GenerateExecution orderId
        (mkExec TRADE_EXECTYPE ctime orderId IdT0 status INTERNAL_EXECUTION (XTrade t))
  | CreateCorrectExecReport c status orderId =>
      processEvent_GenerateExecution orderId
        (mkExec CORRECT_EXECTYPE ctime orderId IdT0 status INTERNAL_EXECUTION (XCorrect c))
  | CreateRejectExecReport reason status orderId =>
      processEvent_GenerateExecution orderId
        (mkExec REJECT_EXECTYPE ctime orderId IdT0 status INTERNAL_EXECUTION (XReject reason))
  | CreateReplaceExecReport origOrderId status orderId =>
      processEvent_GenerateExecution orderId
        (mkExec REPLACE_EXECTYPE ctime orderId IdT0 status INTERNAL_EXECUTION (XReplace origOrderId))
  | _ => ret tt
  end.

(** MatchOrderTrOperation::execute -- src/src/TrOperations.cpp:452-463 *)
Definition MatchOrder_execute (n : nat) (l : loc) : M W unit :=
  modify (λ w, set_eventCount n (deferedEventCount w) w) ;;;
  OrderMatcher.match_order l.

(** Operation::execute of every operation -- src/src/TrOperations.cpp:394-441
    The book operations and the cancel reject; the other cases are above. *)
Definition execute (op : TrOp) : M W unit :=
  match op with
  | CreateExecReport status execType orderId => CreateExecReport_execute status execType orderId
  | CreateTradeExecReport _ _ _ | CreateCorrectExecReport _ _ _ | CreateRejectExecReport _ _ _
  | CreateReplaceExecReport _ _ _ => report_execute op
  | AddToOrderBook l _ _ => o <- deref l ;; on_book (Book.add sv_order o)
  | RemoveFromOrderBook l _ _ => o <- deref l ;; on_book (Book.remove o)
  | EnqueueReplaceReceived _ _ _ _ | EnqueueExecReplace _ _ _ | EnqueueReplaceRejected _ _ _ =>
      executeEnqueueOrderEvent op
  | CancelReject _ _ => modify (push_out (OutCancelReject "tgt"))
  | MatchOrder n l _ => MatchOrder_execute n l
  end.

(** MatchOrderTrOperation::rollback and the rollbacks of the book operations -- src/src/TrOperations.cpp:406-472
    The rollback of every other operation is empty. *)
Definition rollback (op : TrOp) : M W unit :=
  match op with
  | AddToOrderBook l _ _ => o <- deref l ;; on_book (Book.remove o)
  | RemoveFromOrderBook l _ _ => o <- deref l ;; on_book (Book.add sv_order o)
  | MatchOrder n _ _ =>
      w <- gets (λ w, w) ;; removeDeferedEventsFrom (default 0%nat (w_eventCount w !! n))
  | _ => ret tt
  end.
End ops.

Section theory.
Context {SO SD : Type} (sv_order : OrderEntry → M SO unit) (now ctime : Z).
Abbreviation W := (World SO SD).
Abbreviation exec := (execute sv_order now ctime : TrOp → M W unit).
Abbreviation undo := (rollback sv_order : TrOp → M W unit).
Implicit Types (w : W).

(** The reports a transaction sends: they touch neither book nor events. *)
Definition is_report (op : TrOp) : bool :=
  match op with
  | CreateExecReport _ _ _ | CreateTradeExecReport _ _ _ | CreateRejectExecReport _ _ _
  | CreateReplaceExecReport _ _ _ | CreateCorrectExecReport _ _ _ | CancelReject _ _ => true
  | _ => false
  end.

(** What the reports leave alone. *)
Definition same_core w w' : Prop :=
  OrderStore.heap (w_store w') = OrderStore.heap (w_store w) ∧ w_book w' = w_book w ∧
  w_events w' = w_events w ∧ w_eventCount w' = w_eventCount w.

#[global] Instance same_core_refl : Reflexive same_core.
Proof. by intros w. Qed.
#[global] Instance same_core_trans : Transitive same_core.
Proof. intros w1 w2 w3 (?&?&?&?) (?&?&?&?). by repeat split; etransitivity. Qed.

(** A computation that leaves them alone, however it ends. *)
Definition keeps_core {A} (c : M W A) : Prop := ∀ w, same_core w (c w).2.

Lemma keeps_bind {A B} (c : M W A) (k : A → M W B) :
  keeps_core c → (∀ a, keeps_core (k a)) → keeps_core (bind c k).
Proof.
  intros Hc Hk w. specialize (Hc w). unfold bind. destruct (c w) as [[a|m|x] w']; simpl in *; try done.
  etransitivity; [exact Hc|apply Hk].
Qed.

Lemma saveExec_core e : keeps_core (on_store (OrderStore.saveExec e now)).
Proof.
  intros w. unfold on_store, OrderStore.saveExec, bind, OrderStore.newId, ret, gets. simpl.
  destruct (isValidId _); simpl; destruct (_ !! _); simpl; by repeat split.
Qed.

Lemma GenerateExecution_core i e : keeps_core (processEvent_GenerateExecution now i e).
Proof.
  apply keeps_bind; [by intros w|]. intros w0.
  apply keeps_bind; [intros w; by destruct (OrderStore.locateByOrderId i (w_store w0))|]. intros l.
  apply keeps_bind; [intros w; unfold deref; by destruct (_ !! l)|]. intros ord.
  apply keeps_bind; [by intros w|]. intros src.
  apply keeps_bind; [apply saveExec_core|]. intros tr.
  apply keeps_bind; [|by intros ? w]. intros w. unfold on_wide, WideData.pushExecution.
  by destruct (WideData.executions (w_wide w) !! o_executions ord).
Qed.

Lemma report_core op : is_report op = true → keeps_core (exec op).
Proof.
  destruct op as [st [] i| | | | | | | | | | |]; simpl; intros H; try discriminate H;
    first [apply GenerateExecution_core|by intros w].
Qed.

Lemma report_undo op w : is_report op = true → undo op w = (Ok tt, w).
Proof. by destruct op. Qed.

(** What a report operation is to report: the order, its status and the type. *)
Definition report_of (op : TrOp) : option (IdT * OrderStatus * ExecType) :=
  match op with
  | CreateExecReport st ty i => Some (i, st, ty)
  | CreateTradeExecReport _ st i => Some (i, st, TRADE_EXECTYPE)
  | CreateCorrectExecReport _ st i => Some (i, st, CORRECT_EXECTYPE)
  | CreateRejectExecReport _ st i => Some (i, st, REJECT_EXECTYPE)
  | CreateReplaceExecReport _ st i => Some (i, st, REPLACE_EXECTYPE)
  | _ => None
  end.

(** The message an operation sent: one about a stored execution, the clone of one of its
    order with the status and the type of the report, to the source of the order. *)
Definition sent_by w (op : TrOp) (out : OutEvent) : Prop :=
  match report_of op with
  | None => out = OutCancelReject "tgt"
  | Some (i, st, ty) => ∃ j src e l o, out = OutExecReport j src ∧
      OrderStore.executionsById (w_store w) !! j = Some (set_execId j (ExecutionEntry_clone e)) ∧ ex_orderId e = i ∧ ex_orderStatus e = st ∧ ex_type e = ty ∧
      OrderStore.locateByOrderId i (w_store w) = Some l ∧ heap_at w l = Some o ∧ WideData.getString (o_source o) (w_wide w) = Ok src
  end.

(** What keeps the messages sent so far true. *)
Definition more_reports w w' : Prop :=
  OrderStore.heap (w_store w') = OrderStore.heap (w_store w) ∧ OrderStore.ordersById (w_store w') = OrderStore.ordersById (w_store w) ∧
  (∀ q, WideData.getString q (w_wide w') = WideData.getString q (w_wide w)) ∧
  ∀ j e, OrderStore.executionsById (w_store w) !! j = Some e → OrderStore.executionsById (w_store w') !! j = Some e.

Lemma sent_by_more w w' op out : more_reports w w' → sent_by w op out → sent_by w' op out.
Proof.
  intros (Eh & Ei & Es & Ex). unfold sent_by. destruct (report_of op) as [[[i st] ty]|]; [|done].
  intros (j & src & e & l & o & -> & He & H1 & H2 & H3 & Hl & Ho & Hs). exists j, src, e, l, o. split; [done|]. split; [by apply Ex|].
  do 3 (split; [done|]). unfold OrderStore.locateByOrderId, heap_at in *. by rewrite Eh, Ei, Es.
Qed.

Lemma GenerateExecution_sends i e w w' : isValidId (ex_execId (ExecutionEntry_clone e)) = false →
  processEvent_GenerateExecution now i e w = (Ok tt, w') → more_reports w w' ∧
  ∃ j src l o, w_out w' = w_out w ++ [OutExecReport j src] ∧
    OrderStore.executionsById (w_store w') !! j = Some (set_execId j (ExecutionEntry_clone e)) ∧
    OrderStore.locateByOrderId i (w_store w) = Some l ∧ heap_at w l = Some o ∧ WideData.getString (o_source o) (w_wide w) = Ok src.
Proof.
  intros Hv (w1 & c1 & E1 & E2)%bind_ok_inv. injection E1 as <- <-. apply bind_ok_inv in E2 as (l & c1 & E1 & E2).
  destruct (OrderStore.locateByOrderId i (w_store w)) as [l0|] eqn:El; [|done]. injection E1 as <- <-.
  apply bind_ok_inv in E2 as (o & c1 & E1 & E2). unfold deref in E1. destruct (_ !! l0) as [o0|] eqn:Eo; [|done]. injection E1 as <- <-.
  apply bind_ok_inv in E2 as (src & c1 & E1 & E2). unfold lift in E1. injection E1 as Es <-.
  apply bind_ok_inv in E2 as (x & w1 & E1 & E2). apply bind_ok_inv in E2 as ([] & w2 & E2 & E3). injection E3 as <-.
  unfold on_store, OrderStore.saveExec in E1. rewrite Hv in E1. unfold bind, OrderStore.newId, gets, modify, throw, ret in E1. cbn -[set_execId] in E1.
  destruct (OrderStore.executionsById (w_store w) !! _) eqn:Ej; cbn -[set_execId] in E1; [done|]. injection E1 as <- <-.
  unfold on_wide, WideData.pushExecution in E2. cbn -[set_execId] in E2. destruct (WideData.executions (w_wide w) !! o_executions o0) as [ex|]; [|done].
  injection E2 as <-. cbn. split.
  - split; [done|]. split; [done|]. split; [intros q; by destruct (w_wide w)|]. intros j y Hj. cbn.
    rewrite lookup_insert_ne; [done|]. intros <-. congruence.
  - eexists _, src, l0, o0. split; [reflexivity|]. split; [apply lookup_insert_eq|done].
Qed.

(** Each report operation that succeeds sends one message, for itself. *)
Lemma report_sends op w w' : is_report op = true → exec op w = (Ok tt, w') →
  more_reports w w' ∧ ∃ out, w_out w' = w_out w ++ [out] ∧ sent_by w' op out.
Proof.
  intros Hop E. assert (∀ i e, isValidId (ex_execId (ExecutionEntry_clone e)) = false → processEvent_GenerateExecution now i e w = (Ok tt, w') →
    report_of op = Some (i, ex_orderStatus e, ex_type e) → ex_orderId e = i →
    more_reports w w' ∧ ∃ out, w_out w' = w_out w ++ [out] ∧ sent_by w' op out) as Hgen.
  { intros i e Hv Eg Er Hi. destruct (GenerateExecution_sends i e w w' Hv Eg) as (Hm & j & src & l & o & Ho & Hj & Hl & Hh & Hs). split; [done|].
    eexists. split; [exact Ho|]. unfold sent_by. rewrite Er. exists j, src, e, l, o. split; [done|]. split; [exact Hj|].
    destruct Hm as (Eh & Ei & Es & _). unfold OrderStore.locateByOrderId, heap_at in *. rewrite Eh, Ei, Es. by split_and!. }
  destruct op as [st [] i| | | | | | | | | | |]; try discriminate Hop; cbn [execute CreateExecReport_execute report_execute] in E; try discriminate E;
    try (by eapply Hgen; [|exact E|..]).
  injection E as <-. split; [done|]. by eexists.
Qed.

(** Matching only appends deferred events. *)
Lemma match_order_appends l w : ∃ evs,
  (OrderMatcher.match_order l w).2 = set_events (w_events w ++ evs) w.
Proof.
  assert (w = set_events (w_events w ++ []) w) as Hid by (rewrite app_nil_r; by destruct w).
  unfold OrderMatcher.match_order, bind, gets, lift, throw, deref, ret.
  destruct (_ !! l) as [o|]; [|by exists []].
  destruct (Book.find _ _) as [id|m|x]; [|by exists []..].
  destruct (isValidId id); simpl.
  - destruct (OrderStore.locateByOrderId id (w_store w)) as [cl|]; [|by exists []].
    destruct (_ !! cl) as [c|]; [|by exists []].
    destruct (_ && _); [by exists []|]. unfold addDeferedEvent, modify, when, ret; simpl.
    destruct (0 <? _); simpl; [|by eexists].
    eexists. unfold set_events; simpl. by rewrite <- app_assoc.
  - destruct (bool_decide _); [|by exists []]. unfold addDeferedEvent, modify. by eexists.
Qed.

(** ** The transaction of an accepted order *)

(** The order at [l] rests in the book of [w0] in group [g'] and the events since
    [w0] are the ones of its matching. *)
Definition placed w0 (n : nat) (l : loc) (o : OrderEntry) (g' : Book.OrdersGroup) w : Prop :=
  heap_at w l = Some o ∧
  (∃ s, w_book w = Book.mkBook (<[o_instrument o := g']> (Book.orderGroups (w_book w0))) s) ∧
  (∃ evs, w_events w = w_events w0 ++ evs) ∧ w_eventCount w !! n = Some (length (w_events w0)).

(** Book and events are those of [w0]. *)
Definition undone w0 w : Prop :=
  Book.orderGroups (w_book w) = Book.orderGroups (w_book w0) ∧ w_events w = w_events w0.

Lemma placed_core w0 n l o g' w w' : same_core w w' → placed w0 n l o g' w → placed w0 n l o g' w'.
Proof. unfold placed, heap_at. intros (E1 & E2 & E3 & E4). by rewrite E1, E2, E3, E4. Qed.

Lemma undo_match w0 n l i w evs : w_events w = w_events w0 ++ evs →
  w_eventCount w !! n = Some (length (w_events w0)) →
  ∃ w', undo (MatchOrder n l i) w = (Ok tt, w') ∧ w_book w' = w_book w ∧ w_events w' = w_events w0.
Proof.
  intros He Hc. unfold rollback, bind, gets, removeDeferedEventsFrom, modify. rewrite Hc.
  lazy beta iota delta [default from_option id]. rewrite He. destruct (Nat.leb_spec (length (w_events w0 ++ evs)) (length (w_events w0))) as [Hl|Hl].
  - exists w. split; [done|]. split; [done|]. rewrite length_app in Hl. rewrite He.
    destruct evs; [apply app_nil_r|simpl in Hl; lia].
  - eexists. split; [reflexivity|]. split; [done|]. simpl. by rewrite take_app_length.
Qed.

(** What makes the order fit for its book. *)
Record bookable w0 (l : loc) (o : OrderEntry) (g g' : Book.OrdersGroup) : Prop := {
  bk_heap : heap_at w0 l = Some o;
  bk_wf : Book.book_wf (w_book w0);
  bk_id : isValidId (o_orderId o) = true;
  bk_instr : isValidId (o_instrument o) = true;
  bk_price : px_isnan (o_price o) = false;
  bk_group : Book.orderGroups (w_book w0) !! o_instrument o = Some g;
  bk_absent : Book.not_resting o g;
  bk_insert : Book.group_insert o g = Some g';
}.

Section accepted.
Context (w0 : W) (n : nat) (l : loc) (o : OrderEntry) (g g' : Book.OrdersGroup) (i1 i2 j : IdT)
  (Hbk : bookable w0 l o g g').

Abbreviation ops_back := [AddToOrderBook l i2 j; MatchOrder n l i1].

Lemma undo_placed w : placed w0 n l o g' w →
  ∃ w', TransactionScope.rollback_loop undo ops_back w = (Ok tt, w') ∧ undone w0 w'.
Proof.
  intros (Hl & [s Hb] & [evs He] & Hc). destruct Hbk.
  assert (undo (AddToOrderBook l i2 j) w =
    (Ok tt, set_book (Book.mkBook (Book.orderGroups (w_book w0)) s) w)) as Ha.
  { unfold rollback. rewrite (bind_ok _ _ _ _ _ (deref_some _ _ _ Hl)). unfold on_book.
    rewrite Hb. by rewrite (Book.remove_inserted (w_book w0) s o g g') by done. }
  set (w1 := set_book _ w) in Ha.
  destruct (undo_match w0 n l i1 w1 evs He Hc) as (w2 & Hm & E1 & E2).
  exists w2. cbn [TransactionScope.rollback_loop]. rewrite Ha, Hm. split; [done|].
  split; [by rewrite E1|done].
Qed.

Lemma undo_reports reps dn w : forallb is_report reps = true →
  TransactionScope.rollback_loop undo (reps ++ dn) w = TransactionScope.rollback_loop undo dn w.
Proof.
  induction reps as [|op reps IH]; [done|]. intros [Hop Hr]%andb_true_iff.
  cbn [app TransactionScope.rollback_loop]. rewrite report_undo by done. by apply IH.
Qed.

(** How committing ends: the order placed and each report sent, once and in order; or
    book and events as before; or the process ends on a failed assertion. *)
Definition settled (reps : list TrOp) (r : outcome bool * W) : Prop :=
  match r with
  | (Ok true, w') => placed w0 n l o g' w' ∧ ∃ outs, w_out w' = w_out w0 ++ outs ∧ Forall2 (sent_by w') reps outs
  | (Ok false, w') => undone w0 w'
  | (Throw _, _) => False
  | (Crash _, _) => True
  end.

Lemma commit_reports reps sent outs w : forallb is_report reps = true → forallb is_report sent = true →
  placed w0 n l o g' w → w_out w = w_out w0 ++ outs → Forall2 (sent_by w) (rev sent) outs →
  settled (rev sent ++ reps) (TransactionScope.commit_loop exec undo reps (sent ++ ops_back) w).
Proof.
  revert sent outs w. induction reps as [|op reps IH]; intros sent outs w Hr Hs Hp Ho Hf.
  { cbn. split; [done|]. exists outs. by rewrite app_nil_r. }
  apply andb_true_iff in Hr as [Hop Hr]. cbn [TransactionScope.commit_loop].
  pose proof (report_core op Hop w) as Hc. destruct (exec op w) as [[[]|m|x] w'] eqn:E; simpl in Hc; [| |done].
  - destruct (report_sends op w w' Hop E) as (Hm & out & Ho' & Hsent).
    replace (rev sent ++ op :: reps) with (rev (op :: sent) ++ reps) by (cbn [rev]; by rewrite <- app_assoc).
    apply (IH (op :: sent) (outs ++ [out])); [done|simpl; by rewrite Hop|by eapply placed_core|by rewrite Ho', Ho, app_assoc|].
    cbn [rev]. apply Forall2_app; [|by constructor]. eapply Forall2_impl; [exact Hf|]. intros. by eapply sent_by_more.
  - change (op :: sent ++ ops_back) with ((op :: sent) ++ ops_back).
    rewrite (undo_reports (op :: sent)) by (simpl; by rewrite Hop).
    destruct (undo_placed w') as (w2 & -> & Hu); [by eapply placed_core|done].
Qed.

Lemma add_groups s : ∃ r s', Book.add sv_order o (Book.mkBook (Book.orderGroups (w_book w0)) s) =
  (r, Book.mkBook (<[o_instrument o := g']> (Book.orderGroups (w_book w0))) s').
Proof.
  destruct Hbk. unfold Book.add, assert_, bind, gets, modify, ret.
  rewrite bk_id0, bk_instr0. simpl. rewrite bk_group0, bk_insert0. unfold Book.saver_save; simpl.
  destruct s as [v|]; simpl; eauto.
Qed.
End accepted.

(** ** Properties *)

End theory.

(** ** Witness: the incoming sell order of the matcher's example; the report
    fails because the order's source is unknown. *)

Definition ex_group' : Book.OrdersGroup :=
  Book.mkGroup (Book.buyOrder Book.ex_group)
    [(px_of_pos 101, mkIdT 10 1); (px_of_pos 102, mkIdT 4 1)].
Definition ex_reports : list TrOp := [CreateExecReport NEW_ORDSTATUS NEW_EXECTYPE (mkIdT 1 1)].
Definition ex_scope : TransactionScope.t TrOp :=
  TransactionScope.mkScope
    (MatchOrder 0%nat 0%nat (mkIdT 10 1) :: AddToOrderBook 0%nat (mkIdT 10 1) Book.ex_instr :: ex_reports)
    [] IdT0 0.

Lemma ex_bookable : bookable OrderMatcher.ex_world 0%nat OrderMatcher.ex_sell Book.ex_group ex_group'.
Proof.
  split; try reflexivity.
  - exact (Book.book_refines_wf _ _ Book.ex_book_refines).
  - exists (Book.sellOrder Book.ex_group). split; [reflexivity|]. by repeat constructor.
Qed.

End TrOperations.
