(* ===== verification/Processor.v ===== *)
(** The event processor, [src/src/Processor.cpp], with the deferred events it
    executes ([src/src/ExecutionDeferedEvent.cpp],
    [src/src/MatchOrderDeferedEvent.cpp], [src/src/CancelOrderDeferedEvent.cpp])
    and the persistence of the state machine between events. *)

From Stdlib Require Import Ascii String ZArith Lia.
From S2P Require Import Prelude Types Doubles IdGen WideData OrderStore OrderBook LinkTree TxScope TxMgr.
From S2P Require Import Engine Queues Matcher StateTable StateActions TrOps.
Import OrderState OrdStateImpl.

(** ** The state machine's back end

    [boost::msm::back::state_machine] is not part of the repository.  [msm_run]
    states what its documentation promises for an event whose actions raise no
    further event: the regions are processed in order; a region tries the rows
    of its current state for the event from the last to the first and takes the
    first whose guard holds; the action runs, then the entry action of the
    target, and then the region changes its state; an exception out of a guard,
    an action or an entry action ends the processing of the event, leaves the
    region's state as it was and is passed to [exception_caught], which the
    program overrides with an empty body, as is the one [no_transition] throws. *)

(** The call the program makes, for any machine. *)
Class Machine {SO SD : Type} (sv_order : OrderEntry → M SO unit) (now : Z) := {
  process_event : Event → (State * State) * Frame SO SD → outcome unit * ((State * State) * Frame SO SD);
}.
Arguments process_event {SO SD sv_order now _} _ _.

Section msm.
Context {SO SD : Type} (sv_order : OrderEntry → M SO unit) (now : Z).
Abbreviation F := (Frame SO SD).

Definition no_raise : Event → M F unit := λ _, crash "an event is raised".

Fixpoint select_row (rs : list Row) (e : Event) : M F (option Row) :=
  match rs with
  | [] => ret None
  | r :: rs' =>
      match r_guard r with
      | None => ret (Some r)
      | Some g => b <- OrderStateMachine.run_guard g e ;;
                  if b : bool then ret (Some r) else select_row rs' e
      end
  end.

(** One region: the new state, or [None] when no row is taken. *)
Definition region (s : State) (e : Event) : M F (option State) :=
  r <- select_row (rev (rows s (kind e))) e ;;
  match r with
  | None => ret None
  | Some r =>
      OrderStateMachine.run_action sv_order now no_raise (r_act r) e ;;;
      OrderStateMachine.on_entry (r_tgt r) e ;;;
      ret (Some (r_tgt r))
  end.

Definition msm_run (e : Event) (zs : State * State) (f : F) : option ((State * State) * F) :=
  match region zs.1 e f with
  | (Ok a, f1) =>
      match region zs.2 e f1 with
      | (Ok b, f2) => Some ((default zs.1 a, default zs.2 b), f2)
      | (Throw _, f2) => Some ((default zs.1 a, zs.2), f2)
      | (Crash _, _) => None
      end
  | (Throw _, f1) => Some (zs, f1)
  | (Crash _, _) => None
  end.

(** What the program relies on of the back end. *)
Class Backend := {
  #[global] backend_machine :: Machine sv_order now;
  process_event_ok e zs f zs' f' :
    msm_run e zs f = Some (zs', f') → process_event e (zs, f) = (Ok tt, (zs', f'));
}.

(** A back end with this behaviour exists. *)
Definition msm_backend : Backend.
Proof.
  refine {| backend_machine := {| process_event e m := match msm_run e m.1 m.2 with
                                                       | Some m' => (Ok tt, m')
                                                       | None => (Crash "undefined", m)
                                                       end |} |}.
  intros e zs f zs' f' H. simpl. by rewrite H.
Defined.
End msm.
Arguments Backend : clear implicits.
Arguments Backend {SO SD} sv_order now.
Arguments backend_machine {SO SD sv_order now} _.
Arguments process_event_ok {SO SD sv_order now _} _ _ _ _ _ _.

Module Processor.

(** class Processor -- src/src/Processor.h:71-147
    The engine's state and the transaction manager; the manager draws its
    identifiers from the engine's generator, which is one object. *)
Record t (SO SD : Type) := mkProc {
  p_world : World SO SD; p_mgr : TransactionMgr.t (TransactionScope.t TrOp) }.
Arguments mkProc {SO SD} _ _.
Arguments p_world {SO SD} _.
Arguments p_mgr {SO SD} _.

(** [sv_order] is the attached order saver, [now] the generator's clock and
    [ctime] the value of [aux::currentDateTime]. *)
Section ops.
Context {SO SD : Type} (sv_order : OrderEntry → M SO unit) (now ctime : Z)
  `{B : !Machine (SO := SO) (SD := SD) sv_order now}.
Abbreviation W := (World SO SD).
Abbreviation P := (t SO SD).

Definition on_w {A} (c : M W A) : M P A := λ p,
  let r := c (p_world p) in (r.1, mkProc r.2 (p_mgr p)).

(** Processor::onEvent, the scope -- src/src/Processor.cpp:537-538
    [PooledTransactionScope scope(scopePool_.get())]: a reset scope. *)
Definition begin_scope : M P unit :=
  on_w (modify (λ w, set_scope TransactionScope.empty (w_newOp w) w)).

(** Processor::onEvent, the transaction -- src/src/Processor.cpp:542-544
    [transactMgr_->addTransaction(scope.release())] *)
Definition submit : M P unit := λ p,
  let w := p_world p in
  let m := match TransactionMgr.idGenerator (p_mgr p) with
           | None => p_mgr p
           | Some _ => TransactionMgr.mkMgr (Some (w_gen w)) (TransactionMgr.started (p_mgr p))
                         (TransactionMgr.transactionTree (p_mgr p))
                         (TransactionMgr.observed (p_mgr p)) (TransactionMgr.notified (p_mgr p))
           end in
  let r := TransactionMgr.addTransaction (w_scope w) now m in
  (r.1, mkProc (set_scope TransactionScope.empty (w_newOp w)
                  (set_store (w_store w) (default (w_gen w) (TransactionMgr.idGenerator r.2)) w)) r.2).

(** ** The state machine between events *)

(** OrderState_::getPersistence -- src/src/StateMachine.cpp:46-56
    The indexes are those of [state_names]. *)
Definition persistence (zs : State * State) : OrderStatePersistence :=
  mkSMP (enum_code zs.1) (enum_code zs.2).

(** OrderState_::setPersistance -- src/src/StateMachine.cpp:58-67
    [None] is an index outside the table. *)
Definition restored_zones (st : OrderStatePersistence) : option (State * State) :=
  match enum_of_code (smp_zone1 st), enum_of_code (smp_zone2 st) with
  | Some a, Some b => Some (a, b)
  | _, _ => None
  end.

(** Processor::onEvent, the state machine -- src/src/Processor.cpp:138-146
    [setPersistance(zs, d); process_event(e); smState = getPersistence();
    smState.orderData_->setStateMachinePersistance(smState)] *)
Definition process_on (zs : State * State) (d : option loc) (e : Event) : M P unit := λ p,
  let r := process_event e (zs, mkFrame (p_world p) d None) in
  let p' := mkProc (f_world r.2.2) (p_mgr p) in
  match r.1 with
  | Ok _ =>
      match f_orderData r.2.2 with
      | None => (Crash "assert", p')
      | Some l => on_w (assign l (set_smp (persistence r.2.1))) p'
      end
  | Throw m => (Throw m, p')
  | Crash c => (Crash c, p')
  end.

(** OrderEntry::stateMachinePersistance -- src/src/DataModelDef.cpp:272-277
    The machine of a stored order processes an event. *)
Definition process_order (l : loc) (e : Event) : M P unit :=
  o <- on_w (deref l) ;;
  match restored_zones (o_smp o) with
  | None => crash "state index outside the table"
  | Some zs => process_on zs (Some l) e
  end.

(** An event as the handlers build it. *)
Definition ev_base (book : bool) : EventBase := mkEB IdT0 false true book.

(** ** Deferred events *)

(** Processor::process(onTradeExecution) -- src/src/Processor.cpp:586-600 *)
Definition process_TradeExecution (l : loc) (t : ExecTradeParams) : M P unit :=
  process_order l (onTradeExecution (ev_base true) (Some t)).

(** Processor::process(onInternalCancel) -- src/src/Processor.cpp:602-616
    [orderBook_] is not set. *)
Definition process_InternalCancel (l : loc) : M P unit := process_order l (onInternalCancel (ev_base false)).

(** ExecutionDeferedEvent::execute(func, cnxt, scope, param) -- src/src/ExecutionDeferedEvent.cpp:34-52 *)
Definition execute_trade (p : TradeParams) : M P unit :=
  o <- on_w (deref (td_order p)) ;;
  process_TradeExecution (td_order p) (mkTrade (td_lastQty p) (td_lastPx p) (o_currency o) 1).

(** ExecutionDeferedEvent::execute, the loop -- src/src/ExecutionDeferedEvent.cpp:64-79
    The loop over the trades: the quantity applied and the sum of the amounts. *)
Fixpoint execute_trades (l : list TradeParams) (acc : QuantityT * PriceT) : M P (QuantityT * PriceT) :=
  match l with
  | [] => ret acc
  | it :: l' =>
      assert_ (0 <? td_lastQty it) ;;;
      assert_ (px_ltb px0 (td_lastPx it)) ;;;
      before <- on_w (deref (td_order it)) ;;
      execute_trade it ;;;
      after <- on_w (deref (td_order it)) ;;
      execute_trades l'
        (if o_leavesQty after <? o_leavesQty before
         then (wrap32 (acc.1 + td_lastQty it),
               px_add acc.2 (px_mul (px_of_qty (td_lastQty it)) (td_lastPx it)))
         else acc)
  end.

(** ExecutionDeferedEvent::execute(func, cnxt, scope) -- src/src/ExecutionDeferedEvent.cpp:54-86 *)
Definition ExecutionDefered_execute (base : loc) (trades : list TradeParams) : M P unit :=
  assert_ (0 <? length trades)%nat ;;;
  acc <- execute_trades trades (0, px0) ;;
  if 0 <? acc.1 then execute_trade (mkTP acc.1 (px_div acc.2 (px_of_qty acc.1)) base) else ret tt.

(** MatchOrderDeferedEvent::execute -- src/src/MatchOrderDeferedEvent.cpp:34-41 *)
Definition MatchOrderDefered_execute (l : loc) : M P unit := on_w (OrderMatcher.match_order l).

(** CancelOrderDeferedEvent::execute -- src/src/CancelOrderDeferedEvent.cpp:34-43 *)
Definition CancelOrderDefered_execute (l : loc) : M P unit := process_InternalCancel l.

(** Processor::onEvent(DeferedEventBase) -- src/src/Processor.cpp:534-545 *)
Definition onDeferedEvent (e : DeferedEvent) : M P unit :=
  begin_scope ;;;
  (match e with
   | ExecutionDefered base trades => ExecutionDefered_execute base trades
   | MatchOrderDefered l => MatchOrderDefered_execute l
   | CancelOrderDefered l _ => CancelOrderDefered_execute l
   end) ;;;
  submit.

(** Processor::processDeferedEvent, the inner loop -- src/src/Processor.cpp:556-562 *)
Fixpoint run_batch (l : list DeferedEvent) : M P unit :=
  match l with
  | [] => ret tt
  | e :: l' => onDeferedEvent e ;;; run_batch l'
  end.

Definition set_evs (l : list DeferedEvent) (p : P) : P := mkProc (set_events l (p_world p)) (p_mgr p).

(** Processor::processDeferedEvent -- src/src/Processor.cpp:547-584
    [None] when [fuel] rounds are not enough. *)
Fixpoint processDeferedEvent (fuel : nat) (p : P) : option (outcome unit * P) :=
  match w_events (p_world p) with
  | [] => Some (Ok tt, p)
  | evs =>
      match fuel with
      | O => None
      | S fuel' =>
          match run_batch evs (set_evs [] p) with
          | (Ok _, p') => processDeferedEvent fuel' p'
          | (Throw m, p') => Some (Throw m, set_evs [] p')
          | (Crash c, p') => Some (Crash c, p')
          end
      end
  end.

(** ** Events of the incoming queue *)

(** A handler followed by the deferred events. *)
Definition then_deferred (fuel : nat) (c : M P unit) (p : P) : option (outcome unit * P) :=
  match c p with
  | (Ok _, p') => processDeferedEvent fuel p'
  | r => Some r
  end.

(** Processor::onEvent, locating the order -- src/src/Processor.cpp:167-172 *)
Definition locate (msg : string) (id : IdT) : M P loc :=
  w <- on_w (gets (λ w, w)) ;;
  match OrderStore.locateByOrderId id (w_store w) with
  | None => throw msg
  | Some l => ret l
  end.

(** Processor::onEvent, the check of the events -- src/src/Processor.cpp:121-124 *)
Definition no_events (msg : string) : M P unit :=
  w <- on_w (gets (λ w, w)) ;;
  match w_events w with [] => ret tt | _ => throw msg end.

(** Processor::onEvent(OrderEvent) -- src/src/Processor.cpp:115-155 *)
Definition onOrderEvent (order : option loc) : M P unit :=
  match order with
  | None => throw "Processor::onEvent(OrderEvent): order pointer is null!"
  | Some l =>
      no_events "Processor::onEvent(OrderEvent): events queue is not empty!" ;;;
      begin_scope ;;;
      process_on initial_state None (onOrderReceived (ev_base true) l) ;;;
      submit
  end.

(** Processor::onEvent(OrderCancelEvent) -- src/src/Processor.cpp:157-203 *)
Definition onOrderCancelEvent (id : IdT) : M P unit :=
  if negb (isValidId id) then throw "Processor::onEvent(OrderCancelEvent): order id is invalid!"
  else
    begin_scope ;;;
    l <- locate "Processor::onEvent(OrderCancelEvent): unable to locate order!" id ;;
    process_order l (onCancelReceived (ev_base true)) ;;;
    submit.

(** Processor::onEvent(OrderReplaceEvent) -- src/src/Processor.cpp:205-267 *)
Definition onOrderReplaceEvent (id : IdT) (replacement : option loc) : M P unit :=
  if negb (isValidId id) then throw "Processor::onEvent(OrderReplaceEvent): order id is invalid!"
  else
    begin_scope ;;;
    (match replacement with
     | Some r => process_on initial_state None (onRplOrderReceived (ev_base true) r)
     | None =>
         l <- locate "Processor::onEvent(OrderReplaceEvent): unable to locate order!" id ;;
         process_order l (onReplaceReceived (ev_base false) id)
     end) ;;;
    submit.

(** Processor::onEvent(OrderChangeStateEvent) -- src/src/Processor.cpp:269-347 *)
Definition onOrderChangeStateEvent (id : IdT) (ct : StateChangeType) : M P unit :=
  if negb (isValidId id) then throw "Processor::onEvent(OrderChangeStateEvent): order id is invalid!"
  else if bool_decide (ct = INVALID_CHANGE) then
    throw "Processor::onEvent(OrderChangeStateEvent): invalid change type!"
  else
    begin_scope ;;;
    l <- locate "Processor::onEvent(OrderChangeStateEvent): unable to locate order!" id ;;
    (match ct with
     | SUSPEND => process_order l (onSuspended (ev_base true))
     | RESUME => process_order l (onContinue (ev_base true))
     | FINISH => process_order l (onFinished (ev_base true))
     | INVALID_CHANGE => throw "Processor::onEvent(OrderChangeStateEvent): unknown change type!"
     end) ;;;
    submit.

(** Processor::onEvent(ProcessEvent) -- src/src/Processor.cpp:349-425 *)
Definition onProcessEvent (e : ProcessEvent) : M P unit :=
  w <- on_w (gets (λ w, w)) ;;
  assert_ (match w_events w with [] => true | _ => false end) ;;;
  begin_scope ;;;
  l <- locate "Processor::onEvent(ProcessEvent): unable to locate order!" (pe_id e) ;;
  (match pe_type e with
   | PE_ON_REPLACE_RECEVIED => process_order l (onReplaceReceived (ev_base false) (pe_id e))
   | PE_ON_EXEC_REPLACE => process_order l (onExecReplace (ev_base false) (pe_id e))
   | PE_ON_REPLACE_REJECTED => process_order l (onReplaceRejected (ev_base false) (pe_id e))
   | PE_INVALID => throw "Processor::onEvent() fails: unknown type of the ProcessEvent."
   end) ;;;
  submit.

(** Processor::onEvent(TimerEvent) -- src/src/Processor.cpp:427-505 *)
Definition onTimerEvent (id : IdT) (ty : TimerType) : M P unit :=
  if negb (isValidId id) then throw "Processor::onEvent(TimerEvent): order id is invalid!"
  else if bool_decide (ty = INVALID_TIMER) then
    throw "Processor::onEvent(TimerEvent): invalid timer type!"
  else
    begin_scope ;;;
    l <- locate "Processor::onEvent(TimerEvent): unable to locate order!" id ;;
    (match ty with
     | EXPIRATION => process_order l (onExpired (ev_base true))
     | DAY_END => process_order l (onNewDay (ev_base true))
     | DAY_START => process_order l (onContinue (ev_base true))
     | INVALID_TIMER => throw "Processor::onEvent(TimerEvent): unknown timer type!"
     end) ;;;
    submit.

(** The handler of an event of the incoming queue, up to its deferred events. *)
Definition handle (e : InEvent) : M P unit :=
  match e with
  | OrderEvent order => onOrderEvent order
  | OrderCancelEvent id _ => onOrderCancelEvent id
  | OrderReplaceEvent id r => onOrderReplaceEvent id r
  | OrderChangeStateEvent id ct => onOrderChangeStateEvent id ct
  | ProcessEv e => onProcessEvent e
  | TimerEvent id ty => onTimerEvent id ty
  end.

Definition onEvent (fuel : nat) (e : InEvent) (p : P) : option (outcome unit * P) :=
  then_deferred fuel (handle e) p.

(** ** Transactions *)

(** Processor::process(TransactionId, Transaction) -- src/src/Processor.cpp:618-635 *)
Definition process (fuel : nat) (id : IdT) (tr : TransactionScope.t TrOp) (p : P) : option (outcome unit * P) :=
  if negb (isValidId id) then Some (Crash "assert", p)
  else
    match TransactionScope.executeTransaction (TrOperations.execute sv_order now ctime)
            (TrOperations.rollback sv_order) tr (p_world p) with
    | (Ok true, w) => processDeferedEvent fuel (mkProc w (p_mgr p))
    | (Ok false, w) => Some (Ok tt, mkProc (set_events [] w) (p_mgr p))
    | (Throw m, w) => Some (Throw m, mkProc w (p_mgr p))
    | (Crash c, w) => Some (Crash c, mkProc w (p_mgr p))
    end.
End ops.
End Processor.
