(* ===== verification/Sweep.v ===== *)
(** What the processor makes of the deferred events of a matched order: one trade
    at the level of the processor, one execution event, and the whole chain. *)

From Stdlib Require Import Ascii String ZArith Lia.
From S2P Require Import Prelude Types Doubles IdGen WideData OrderStore OrderBook LinkTree TxScope TxMgr.
From S2P Require Import Engine Queues Matcher StateTable StateActions TrOps Processor.
Import OrderState OrdStateImpl OrderStateMachine.

Module Sweep.
Import Processor.
#[local] Opaque px_add px_mul px_div px_of_qty.

(** ** Taking an order out of its side of the book *)
Section book.
Context {SO : Type}.
Implicit Types (b : Book.OrderBookImpl SO) (g : Book.OrdersGroup).

Definition put_side (sd : Side) (l : Multimap.t) g : Book.OrdersGroup :=
  if bool_decide (sd = BUY_SIDE) then Book.mkGroup l (Book.sellOrder g) else Book.mkGroup (Book.buyOrder g) l.

Lemma put_side_at sd l l0 g : Book.side_orders sd g = Some l0 →
  Book.side_orders sd (put_side sd l g) = Some l.
Proof. by destruct sd. Qed.

Lemma put_side_other sd sd' l g : sd ≠ sd' → Book.side_orders sd' g ≠ None → Book.side_orders sd g ≠ None →
  Book.side_orders sd' (put_side sd l g) = Book.side_orders sd' g.
Proof. by destruct sd, sd'. Qed.

Lemma remove_rm1 b o g l l' : Book.book_wf b → isValidId (o_instrument o) = true →
  Book.orderGroups b !! o_instrument o = Some g → Book.side_orders (o_side o) g = Some l →
  rm1 (Multimap.is_entry (o_price o) (o_orderId o)) l = Some l' →
  let b' := Book.with_groups (<[o_instrument o := put_side (o_side o) l' g]> (Book.orderGroups b)) b in
  Book.remove o b = (Ok tt, b') ∧ Book.book_wf b'.
Proof.
  intros Hwf Hi Hg Hs Hrm b'. destruct (Book.book_wf_lookup _ _ _ Hwf Hg) as [Hb Ha].
  assert (Book.group_wf (put_side (o_side o) l' g)) as Hgw.
  { pose proof (rm1_sublist _ _ _ Hrm) as Hsub. unfold put_side, Book.group_wf.
    destruct (o_side o); simplify_eq/=; split; try done; by eapply Multimap.wf_sublist. }
  split.
  - unfold Book.remove, assert_. run. rewrite Hi; simpl. rewrite Hg; simpl.
    destruct (o_side o); simplify_eq/=; rewrite (Multimap.erase_rm1 _), Hrm by done; done.
  - intros i g' Hg'. cbn in Hg'. destruct (decide (o_instrument o = i)) as [<-|Hne].
    + rewrite lookup_insert_eq in Hg'. by injection Hg' as <-.
    + rewrite lookup_insert_ne in Hg' by done. by apply (Hwf i).
Qed.

(** An entry is erased where it stands: no other has its identifier. *)
Lemma rm1_entry (l1 l2 : Multimap.t) p i : px_isnan p = false → NoDup (l1 ++ (p, i) :: l2).*2 →
  rm1 (Multimap.is_entry p i) (l1 ++ (p, i) :: l2) = Some (l1 ++ l2).
Proof.
  intros Hp Hnd. apply rm1_app_skip.
  - unfold Multimap.is_entry. simpl. rewrite (proj2 (IdT_eqb_spec i i) eq_refl), andb_true_r.
    unfold px_eqb. rewrite Hp. apply Z.eqb_refl.
  - rewrite fmap_app, NoDup_app in Hnd. destruct Hnd as (_ & Hnd & _). apply Forall_forall.
    intros x Hx. unfold Multimap.is_entry. apply andb_false_iff. right.
    destruct (IdT_eqb x.2 i) eqn:E; [|done]. apply IdT_eqb_spec in E. exfalso.
    apply (Hnd x.2); [by apply list_elem_of_fmap_2|]. rewrite E. by left.
Qed.

Lemma rm1_elem p i (l : Multimap.t) : (p, i) ∈ l → px_isnan p = false →
  is_Some (rm1 (Multimap.is_entry p i) l).
Proof.
  intros Hin Hp. destruct (rm1 _ l) eqn:E; [by eexists|]. exfalso.
  apply rm1_None in E. rewrite Forall_forall in E. specialize (E _ Hin).
  unfold Multimap.is_entry, px_eqb in E. simpl in E.
  by rewrite Hp, Z.eqb_refl, (proj2 (IdT_eqb_spec i i) eq_refl) in E.
Qed.
End book.

Section trade.
Context {SO SD : Type} (sv_order : OrderEntry → M SO unit) (now : Z)
  `{B : !Backend (SO := SO) (SD := SD) sv_order now}.
Abbreviation W := (World SO SD).
Abbreviation P := (t SO SD).
Implicit Types (w : W) (p : P) (f : Frame SO SD).

(** The states in which an order's machine takes trades; the second region has
    no row for them. *)
Definition takes_trades (o : OrderEntry) (z : State * State) : Prop :=
  restored_zones (o_smp o) = Some z ∧ (z.1 = New ∨ z.1 = PartFill) ∧ zone1 z.2 = false.

(** The order after a trade of [q]. *)
Definition trade_state (q : Z) (o : OrderEntry) : State := if q =? o_leavesQty o then Filled else PartFill.
Definition trade_status (q : Z) (o : OrderEntry) : OrderStatus :=
  if q =? o_leavesQty o then FILLED_ORDSTATUS else PARTFILL_ORDSTATUS.
Definition traded (q : Z) (z2 : State) (o : OrderEntry) : OrderEntry :=
  set_smp (persistence (trade_state q o, z2)) (set_status (trade_status q o) (filled_by q o)).

(** What a trade changes besides the book. *)
Record trade_frame w w' (l : loc) (o' : OrderEntry) (op : TrOp) : Prop := {
  tf_heap : OrderStore.heap (w_store w') = <[l := o']> (OrderStore.heap (w_store w));
  tf_ids : OrderStore.ordersById (w_store w') = OrderStore.ordersById (w_store w);
  tf_execs i : is_Some (OrderStore.executionsById (w_store w') !! i) →
    is_Some (OrderStore.executionsById (w_store w) !! i) ∨ i = new_exec now w;
  tf_lists x : is_Some (WideData.executions (w_wide w) !! x) →
    is_Some (WideData.executions (w_wide w') !! x);
  tf_gen : w_gen w' = wrap64 (w_gen w + 1);
  tf_events : w_events w' = w_events w;
  tf_scope : w_scope w' = TransactionScope.addOperation op (w_scope w);
}.

Lemma zone2_no_trade z : zone1 z = false → rows z KTradeExecution = [].
Proof. by destruct z. Qed.

Lemma zone1_trade_rows z : z = New ∨ z = PartFill →
  rev (rows z KTradeExecution) =
    [row z KTradeExecution Filled Afill Gcomplete; a_row z KTradeExecution PartFill Afill].
Proof. by intros [->| ->]. Qed.

Lemma region_none z e f : rows z (kind e) = [] → region sv_order now z e f = (Ok None, f).
Proof. unfold region. by intros ->. Qed.

(** The guard: it holds iff the trade fills the order. *)
Lemma complete_run b t f l o : eb_test b = false → f_orderData f = Some l → order_of f l = Some o →
  tp_lastQty t <= o_leavesQty o →
  complete (onTradeExecution b (Some t)) f =
    (Ok (tp_lastQty t =? o_leavesQty o), mkFrame (f_world f) (Some l) (Some l)).
Proof.
  intros Hb Hd Ho Hle. unfold complete, guard. cbn [base]. rewrite Hb.
  unfold processComplete, theData, getData, gets. unfold bind at 1 2 3. rewrite Hd. unfold ret at 1.
  unfold on_world. unfold bind at 1. rewrite (deref_some _ _ _ Ho). cbn [fst snd].
  rewrite (proj2 (Z.ltb_ge _ _) Hle). unfold bind, ret, mark, modify. cbn. by rewrite Hd.
Qed.

(** The action, on a trade within the open quantity. *)
Lemma fill_run b t f l o ex bk : eb_test b = false → eb_hasBook b = true → f_orderData f = Some l →
  order_of f l = Some o → qty_ok o → 0 <= tp_lastQty t <= o_leavesQty o →
  WideData.executions (w_wide (f_world f)) !! o_executions o = Some ex →
  OrderStore.locateByExecId (new_exec now (f_world f)) (w_store (f_world f)) = None →
  (if tp_lastQty t =? o_leavesQty o then Book.remove o (w_book (f_world f)) = (Ok tt, bk)
   else bk = w_book (f_world f)) →
  let w := f_world f in let i := new_exec now w in
  let w2 := applied (reported now w o t) l o (tp_lastQty t) i ex in
  run_action sv_order now no_raise Afill (onTradeExecution b (Some t)) f =
    (Ok tt, mkFrame ((set_exec_status i (trade_status (tp_lastQty t) o) (set_book bk w2)).2) (Some l) (Some l)).
Proof.
  intros Hb Hbk Hd Ho Hq Hle Hex Hfr Hrm w i w2.
  unfold run_action, action. rewrite Hb. unfold bind at 1.
  rewrite (processFill_run now f l o t b ex) by (try done; lia). fold w i w2.
  rewrite (proj2 (Z.ltb_ge _ _) (proj2 Hle)). rewrite Hbk. unfold trade_status.
  destruct (tp_lastQty t =? o_leavesQty o).
  - unfold on_world, assert_. unfold bind, ret.
    assert (on_book (Book.remove o) w2 = (Ok tt, set_book bk w2)) as E.
    { unfold on_book. change (w_book w2) with (w_book (f_world f)). by rewrite Hrm. }
    cbn [f_world f_orderData f_order4]. rewrite E. done.
  - subst bk. unfold on_world. cbn [f_world f_orderData f_order4].
    change (set_book (w_book (f_world f)) w2) with w2. done.
Qed.
Lemma entry_eq b st op f l o : eb_test b = false → f_order4 f = Some l → order_of f l = Some o →
  let w := f_world f in
  let w' := set_store (set_heap l (set_status st o) (w_store w)) (w_gen w) w in
  entry b (Some st) op f =
    (Ok tt, mkFrame (set_scope (TransactionScope.addOperation (op (set_status st o)) (w_scope w))
                       (w_newOp w) w') (f_orderData f) (Some l)).
Proof.
  intros Hb H4 Ho w w'. unfold entry. rewrite Hb. unfold bind at 1, gets. rewrite H4.
  unfold on_world, bind. rewrite (assign_some _ _ _ _ Ho).
  rewrite (deref_some _ l (set_status st o)) by apply heap_at_set. cbn [fst snd addOp modify]. by rewrite H4.
Qed.

(** One event of the machine of an order that takes trades. *)
Lemma msm_trade b t f l o ex bk z : eb_test b = false → eb_hasBook b = true →
  f_orderData f = Some l → order_of f l = Some o → takes_trades o z → qty_ok o →
  0 <= tp_lastQty t <= o_leavesQty o →
  WideData.executions (w_wide (f_world f)) !! o_executions o = Some ex →
  OrderStore.locateByExecId (new_exec now (f_world f)) (w_store (f_world f)) = None →
  (if tp_lastQty t =? o_leavesQty o then Book.remove o (w_book (f_world f)) = (Ok tt, bk)
   else bk = w_book (f_world f)) →
  let w := f_world f in let i := new_exec now w in let q := tp_lastQty t in
  let w2 := applied (reported now w o t) l o q i ex in
  let w3 := (set_exec_status i (trade_status q o) (set_book bk w2)).2 in
  let o' := set_status (trade_status q o) (filled_by q o) in
  let w4 := set_store (set_heap l o' (w_store w3)) (w_gen w3) w3 in
  msm_run sv_order now (onTradeExecution b (Some t)) z f =
    Some ((trade_state q o, z.2),
      mkFrame (set_scope (TransactionScope.addOperation
        (CreateTradeExecReport t (trade_status q o) (o_orderId o)) (w_scope w)) (w_newOp w) w4)
        (Some l) (Some l)).
Proof.
  intros Hb Hbk Hd Ho (_ & Hz1 & Hz2) Hq Hle Hex Hfr Hrm w i q w2 w3 o' w4.
  unfold msm_run. unfold region at 1. cbn [kind]. rewrite (zone1_trade_rows _ Hz1).
  cbn [select_row r_guard row a_row run_guard]. unfold bind at 1 2.
  rewrite (complete_run b t f l o) by (try done; lia). fold q w.
  assert (order_of (mkFrame w3 (Some l) (Some l)) l = Some (filled_by q o)) as Ho3.
  { unfold order_of, heap_at, w3. cbn [f_world]. unfold set_exec_status, modify.
    destruct (OrderStore.executionsById _ !! _); apply lookup_insert_eq. }
  assert (w_scope w3 = w_scope w ∧ w_newOp w3 = w_newOp w) as [Es En].
  { unfold w3, set_exec_status, modify. by destruct (OrderStore.executionsById _ !! _). }
  assert (∀ s st r, s = trade_state q o → st = trade_status q o → r_act r = Afill → r_tgt r = s →
    bind (run_action sv_order now no_raise (r_act r) (onTradeExecution b (Some t)))
      (λ _, bind (on_entry (r_tgt r) (onTradeExecution b (Some t))) (λ _, ret (Some (r_tgt r))))
      (mkFrame w (Some l) (Some l)) =
    (Ok (Some s), mkFrame (set_scope (TransactionScope.addOperation
        (CreateTradeExecReport t st (o_orderId o)) (w_scope w)) (w_newOp w) w4) (Some l) (Some l))) as Hrow.
  { intros s st r -> -> -> ->. unfold bind at 1.
    rewrite (fill_run b t (mkFrame w (Some l) (Some l)) l o ex bk) by done.
    change (f_world (mkFrame w (Some l) (Some l))) with w. fold i q. fold w2. fold w3.
    unfold bind at 1.
    assert (on_entry (trade_state q o) (onTradeExecution b (Some t)) (mkFrame w3 (Some l) (Some l)) =
      entry b (Some (trade_status q o)) (λ x, CreateTradeExecReport t (trade_status q o) (o_orderId x))
        (mkFrame w3 (Some l) (Some l))) as ->.
    { unfold trade_state, trade_status. by destruct (q =? o_leavesQty o). }
    rewrite (entry_eq _ _ _ _ l (filled_by q o)) by done. cbn [f_world f_orderData].
    rewrite Es, En. assert (o_orderId (set_status (trade_status q o) (filled_by q o)) = o_orderId o) as -> by (by destruct o). done. }
  unfold trade_state, trade_status in Hrow.
  destruct (q =? o_leavesQty o) eqn:Eq; unfold ret at 1.
  - rewrite (Hrow Filled FILLED_ORDSTATUS _ eq_refl eq_refl); [|done..].
    rewrite region_none by by apply zone2_no_trade.
    unfold trade_state, trade_status. rewrite Eq. done.
  - rewrite (Hrow PartFill PARTFILL_ORDSTATUS _ eq_refl eq_refl); [|done..].
    rewrite region_none by by apply zone2_no_trade.
    unfold trade_state, trade_status. rewrite Eq. done.
Qed.
(** A trade within the open quantity, as the processor applies it: the order is
    traded and its machine's state is written back; the rest is the frame. *)
Lemma execute_trade_run p tp o ex bk z : let w := p_world p in let q := td_lastQty tp in
  heap_at w (td_order tp) = Some o → takes_trades o z → qty_ok o → 0 <= q <= o_leavesQty o →
  WideData.executions (w_wide w) !! o_executions o = Some ex →
  OrderStore.locateByExecId (new_exec now w) (w_store w) = None →
  (if q =? o_leavesQty o then Book.remove o (w_book w) = (Ok tt, bk) else bk = w_book w) →
  ∃ w', execute_trade sv_order now tp p = (Ok tt, mkProc w' (p_mgr p)) ∧ w_book w' = bk ∧
    trade_frame w w' (td_order tp) (traded q z.2 o)
      (CreateTradeExecReport (mkTrade q (td_lastPx tp) (o_currency o) 1) (trade_status q o) (o_orderId o)).
Proof.
  intros w q Ho Hz Hq Hle Hex Hfr Hrm. destruct tp as [q0 px l]. cbn [td_lastQty td_lastPx td_order] in *.
  subst q. rename q0 into q. unfold execute_trade. cbn [td_lastQty td_lastPx td_order].
  assert (on_w (deref l) p = (Ok o, p)) as Hd.
  { unfold on_w. fold w. rewrite (deref_some _ _ _ Ho). unfold w. by destruct p. }
  rewrite (bind_ok _ _ _ _ _ Hd). unfold process_TradeExecution, process_order. rewrite (bind_ok _ _ _ _ _ Hd).
  destruct Hz as [Hz Hz']. rewrite Hz. unfold process_on.
  set (t := mkTrade q px (o_currency o) 1).
  rewrite (process_event_ok _ _ _ _ _ (msm_trade (ev_base true) t (mkFrame w (Some l) None) l o ex bk z
    eq_refl eq_refl eq_refl Ho (conj Hz Hz') Hq Hle Hex Hfr Hrm)).
  cbn [fst snd f_world f_orderData].
  set (i := new_exec now w). change (tp_lastQty t) with q.
  set (w2 := applied _ _ _ _ _ _).
  assert (OrderStore.executionsById (w_store (set_book bk w2)) !! i =
    Some (set_execId i (trade_report (o_orderId o) t))) as He by apply lookup_insert_eq.
  unfold set_exec_status, modify. rewrite He. cbn [snd].
  set (o' := set_status _ _). set (w5 := set_scope _ _ _).
  assert (heap_at w5 l = Some o') as Ho5 by apply lookup_insert_eq.
  unfold on_w. cbn [p_world p_mgr]. rewrite (assign_some _ _ _ _ Ho5). cbn [fst snd].
  eexists. split; [reflexivity|]. split; [done|]. split; try done.
  - cbn. rewrite !insert_insert_eq. done.
  - cbn. intros j Hj. destruct (decide (j = i)) as [->|Hji]; [by right|].
    rewrite !lookup_insert_ne in Hj by done. by left.
  - cbn. intros x Hx. destruct (w_wide w); cbn in *.
    destruct (decide (o_executions o = x)) as [<-|Hne]; [rewrite lookup_insert_eq; by eexists|].
    by rewrite lookup_insert_ne.
Qed.
(** ** Submitting the transaction of a deferred event *)

(** Executions have identifiers below the generator's counter. *)
Definition execs_below w : Prop :=
  ∀ i, is_Some (OrderStore.executionsById (w_store w) !! i) → id_ i < w_gen w.

(** The manager is in order and the counter has room for [n] more identifiers. *)
Definition mgr_ok (n : Z) p : Prop :=
  (∃ c, TransactionMgr.Inv (p_mgr p) c ∧ c <= w_gen (p_world p)) ∧ w_gen (p_world p) + n < 2 ^ 64.

Lemma fresh_exec w : execs_below w → OrderStore.locateByExecId (new_exec now w) (w_store w) = None.
Proof.
  intros H. unfold OrderStore.locateByExecId. destruct (_ !! _) eqn:E; [|done]. exfalso.
  specialize (H (new_exec now w) (ltac:(by eexists))). cbn in H. lia.
Qed.

(** The transaction is in the tree, under the next identifier. *)
Lemma submit_full p objs : mgr_ok 1 p → TransactionMgr.clock_ok now →
  TransactionScope.ts_id (w_scope (p_world p)) = IdT0 →
  TransactionScope.related (w_scope (p_world p)) = Ok objs →
  let w := p_world p in let i := mkIdT (w_gen w) (wrap32 now) in
  ∃ m, submit now p = (Ok tt, mkProc (set_scope TransactionScope.empty (w_newOp w)
      (set_store (w_store w) (w_gen w + 1) w)) m) ∧ TransactionMgr.Inv m (w_gen w + 1) ∧
    (∀ k, TransactionMgr.live m k ↔ k = i ∨ TransactionMgr.live (p_mgr p) k) ∧
    (∀ k o, TransactionMgr.uses m k o ↔ (k = i ∧ o ∈ objs) ∨ TransactionMgr.uses (p_mgr p) k o) ∧
    NLinkTree.value <$> NLinkTree.keys (TransactionMgr.transactionTree m) !! i =
      Some (TransactionScope.set_id i (w_scope w)).
Proof.
  intros [(c & Hi & Hc) Hg] Hnow Hid Hrel w i. pose proof Hi as [Hs Hcn Hr Ht Hb].
  unfold submit. rewrite Hcn. fold w.
  set (m0 := TransactionMgr.mkMgr _ _ _ _ _).
  assert (TransactionMgr.Inv m0 (w_gen w)) as Hi0.
  { split; try done; [fold w in Hg, Hc; lia|]. intros k Hk. fold w in Hc. specialize (Hb k Hk). lia. }
  destruct (TransactionMgr.addTransaction_ok m0 (w_gen w) (w_scope w) now objs)
    as (m' & E & Hi' & Hl & Hu & _ & _ & Hv); [done|fold w in Hg; lia|done| |done|].
  { change (transactionId (w_scope w)) with (TransactionScope.ts_id (w_scope w)). fold w in Hid. by rewrite Hid. }
  exists m'. rewrite E. cbn [fst snd]. rewrite (TransactionMgr.inv_counter _ _ Hi'). done.
Qed.

Lemma submit_run p objs : mgr_ok 1 p → TransactionMgr.clock_ok now →
  TransactionScope.ts_id (w_scope (p_world p)) = IdT0 →
  TransactionScope.related (w_scope (p_world p)) = Ok objs →
  let w := p_world p in
  ∃ m, submit now p = (Ok tt, mkProc (set_scope TransactionScope.empty (w_newOp w)
      (set_store (w_store w) (w_gen w + 1) w)) m) ∧ TransactionMgr.Inv m (w_gen w + 1).
Proof. intros Hm Hn Hi Ho w. destruct (submit_full p objs Hm Hn Hi Ho) as (m & E & Hinv & _). eauto. Qed.
(** ** One execution event *)

Lemma related_reports t1 s1 i1 t2 s2 i2 : isValidId i1 = true → isValidId i2 = true →
  ∃ objs, TransactionScope.related (TransactionScope.addOperation (CreateTradeExecReport t2 s2 i2)
    (TransactionScope.addOperation (CreateTradeExecReport t1 s1 i1) TransactionScope.empty)) = Ok objs.
Proof.
  intros H1 H2. unfold TransactionScope.related. cbn [TransactionScope.addOperation
    TransactionScope.operations TransactionScope.empty app TransactionScope.related_loop getObjectId getRelatedId TrOp_Operation].
  rewrite H1, H2. change (isValidId IdT0) with false. lazy beta iota delta [negb].
  unfold TransactionScope.note_object at 1. cbn [existsb length]. cbn -[IdT_eqb TransactionScope.note_object].
  unfold TransactionScope.note_object. cbn [existsb length ob_id]. destruct (_ || _); cbn; eauto.
Qed.

(** What a deferred event keeps. *)
Record event_frame (n : Z) p p' : Prop := {
  ef_ids : OrderStore.ordersById (w_store (p_world p')) = OrderStore.ordersById (w_store (p_world p));
  ef_execs : execs_below (p_world p) → execs_below (p_world p');
  ef_lists x : is_Some (WideData.executions (w_wide (p_world p)) !! x) →
    is_Some (WideData.executions (w_wide (p_world p')) !! x);
  ef_gen : w_gen (p_world p') = w_gen (p_world p) + n;
  ef_mgr k : mgr_ok (n + k) p → mgr_ok k p';
}.

Lemma execs_below_frame w w' l o' op : trade_frame w w' l o' op → w_gen w + 1 < 2 ^ 64 → 0 < w_gen w →
  w_gen w' = w_gen w + 1 ∧ (execs_below w → execs_below w').
Proof.
  intros Hf Hg H0. assert (w_gen w' = w_gen w + 1) as E.
  { rewrite (tf_gen _ _ _ _ _ Hf). apply wrap64_small. unfold is_u64. lia. }
  split; [done|]. intros Hb i Hi. rewrite E.
  destruct (tf_execs _ _ _ _ _ Hf i Hi) as [Hi'| ->]; [specialize (Hb i Hi'); lia|cbn; lia].
Qed.

Lemma on_w_deref p l o : heap_at (p_world p) l = Some o → on_w (deref l) p = (Ok o, p).
Proof. intros Ho. unfold on_w. rewrite (deref_some _ _ _ Ho). by destruct p. Qed.

Section pair.
Variables (p : P) (l cl : loc) (o c : OrderEntry) (px : PriceT) (zo zc : State * State)
  (bk1 bk2 : Book.OrderBookImpl SO).
Let w := p_world p.
Let q := Z.min (o_leavesQty o) (o_leavesQty c).
Hypothesis Ho : heap_at w l = Some o.
Hypothesis Hc : heap_at w cl = Some c.
Hypothesis Hne : l ≠ cl.
Hypothesis Hzo : takes_trades o zo.
Hypothesis Hzc : takes_trades c zc.
Hypothesis Hqo : qty_ok o.
Hypothesis Hqc : qty_ok c.
Hypothesis Hq : 0 < q.
Hypothesis Hpx : px_ltb px0 px = true.
Hypothesis Hex : is_Some (WideData.executions (w_wide w) !! o_executions o).
Hypothesis Hexc : is_Some (WideData.executions (w_wide w) !! o_executions c).
Hypothesis Hfr : execs_below w.
Hypothesis Hm : mgr_ok 3 p.
Hypothesis Hb1 : if q =? o_leavesQty c then Book.remove c (w_book w) = (Ok tt, bk1) else bk1 = w_book w.
Hypothesis Hb2 : if q =? o_leavesQty o then Book.remove o bk1 = (Ok tt, bk2) else bk2 = bk1.

(** The resting order trades first, then the base order at the average price. *)
Lemma execute_pair : ∃ w1 w2 px',
  ExecutionDefered_execute sv_order now l [mkTP q px cl] p = (Ok tt, mkProc w2 (p_mgr p)) ∧
  trade_frame w w1 cl (traded q zc.2 c)
    (CreateTradeExecReport (mkTrade q px (o_currency c) 1) (trade_status q c) (o_orderId c)) ∧
  trade_frame w1 w2 l (traded q zo.2 o)
    (CreateTradeExecReport (mkTrade q px' (o_currency o) 1) (trade_status q o) (o_orderId o)) ∧
  w_book w2 = bk2 ∧ w_gen w2 = w_gen w + 2 ∧ execs_below w2.
Proof.
  destruct Hex as [ex Hex'], Hexc as [exc Hexc'].
  pose proof Hm as [(c0 & Hinv & Hc0) Hg]. fold w in Hg, Hc0.
  assert (0 < w_gen w) as H0 by (pose proof (TransactionMgr.inv_range _ _ Hinv); lia).
  unfold ExecutionDefered_execute. cbn [length Nat.ltb Nat.leb]. unfold assert_ at 1.
  rewrite ret_bind. cbn [execute_trades td_lastQty td_lastPx td_order].
  rewrite (proj2 (Z.ltb_lt _ _) Hq), Hpx. unfold bind at 1. cbn [assert_]. rewrite !ret_bind.
  rewrite (bind_ok _ _ _ _ _ (on_w_deref p cl c Hc)).
  destruct (execute_trade_run p (mkTP q px cl) c exc bk1 zc)
    as (w1 & E1 & Hbk1 & Hf1); cbn [p_world td_order td_lastQty]; try done;
    [unfold q; lia|by apply fresh_exec|].
  cbn [p_world p_mgr td_order td_lastQty td_lastPx] in *. fold w in Hf1.
  rewrite (bind_ok _ _ _ _ _ E1).
  assert (heap_at w1 cl = Some (traded q zc.2 c)) as Hc1
    by (unfold heap_at; rewrite (tf_heap _ _ _ _ _ Hf1); apply lookup_insert_eq).
  assert (heap_at w1 l = Some o) as Ho1
    by (unfold heap_at; rewrite (tf_heap _ _ _ _ _ Hf1); by rewrite lookup_insert_ne).
  rewrite (bind_ok _ _ _ _ _ (on_w_deref (mkProc w1 (p_mgr p)) cl _ Hc1)).
  assert (o_leavesQty (traded q zc.2 c) = o_leavesQty c - q) as -> by (by destruct c).
  rewrite (proj2 (Z.ltb_lt (o_leavesQty c - q) (o_leavesQty c))) by lia. unfold ret at 1.
  cbn [fst snd]. rewrite Z.add_0_l, wrap32_small by (unfold q, qty_ok, is_u32 in *; lia).
  rewrite (proj2 (Z.ltb_lt _ _) Hq).
  destruct (execs_below_frame _ _ _ _ _ Hf1) as [Hg1 Hfr1]; [lia..|].
  destruct (tf_lists _ _ _ _ _ Hf1 _ Hex) as [ex1 Hex1].
  destruct (execute_trade_run (mkProc w1 (p_mgr p))
    (mkTP q (px_div (px_add px0 (px_mul (px_of_qty q) px)) (px_of_qty q)) l) o ex1 bk2 zo)
    as (w2 & E2 & Hbk2 & Hf2); cbn [p_world td_order td_lastQty]; try done;
    [unfold q; lia|by apply fresh_exec, Hfr1|by rewrite Hbk1|].
  cbn [p_world p_mgr td_order td_lastQty td_lastPx] in *.
  destruct (execs_below_frame _ _ _ _ _ Hf2) as [Hg2 Hfr2]; [lia..|].
  exists w1, w2. eexists. split; [exact E2|]. split; [done|]. split; [exact Hf2|].
  split; [done|]. split; [lia|auto].
Qed.
End pair.

Lemma execution_run p l cl o c px zo zc bk1 bk2 :
  let w := p_world p in let q := Z.min (o_leavesQty o) (o_leavesQty c) in
  heap_at w l = Some o → heap_at w cl = Some c → l ≠ cl → takes_trades o zo → takes_trades c zc →
  qty_ok o → qty_ok c → 0 < q → px_ltb px0 px = true →
  isValidId (o_orderId o) = true → isValidId (o_orderId c) = true →
  is_Some (WideData.executions (w_wide w) !! o_executions o) →
  is_Some (WideData.executions (w_wide w) !! o_executions c) →
  execs_below w → mgr_ok 3 p → TransactionMgr.clock_ok now →
  (if q =? o_leavesQty c then Book.remove c (w_book w) = (Ok tt, bk1) else bk1 = w_book w) →
  (if q =? o_leavesQty o then Book.remove o bk1 = (Ok tt, bk2) else bk2 = bk1) →
  ∃ p', onDeferedEvent sv_order now (ExecutionDefered l [mkTP q px cl]) p = (Ok tt, p') ∧
    OrderStore.heap (w_store (p_world p')) =
      <[l := traded q zo.2 o]> (<[cl := traded q zc.2 c]> (OrderStore.heap (w_store w))) ∧
    w_book (p_world p') = bk2 ∧ w_events (p_world p') = w_events w ∧ event_frame 3 p p'.
Proof.
  intros w q Ho Hc Hne Hzo Hzc Hqo Hqc Hq Hpx Hio Hic Hex Hexc Hfr Hm Hnow Hb1 Hb2.
  unfold onDeferedEvent. set (w0 := set_scope TransactionScope.empty (w_newOp w) w).
  set (p0 := mkProc w0 (p_mgr p)). rewrite (bind_ok _ _ p tt p0) by done.
  destruct (execute_pair p0 l cl o c px zo zc bk1 bk2 Ho Hc Hne Hzo Hzc Hqo Hqc Hq Hpx Hex Hexc
    Hfr Hm Hb1 Hb2) as (w1 & w2 & px' & E2 & Hf1 & Hf2 & Hbk & Hg & Hfr2).
  change (w_gen (p_world p0)) with (w_gen w) in Hg.
  rewrite (bind_ok _ _ _ _ _ E2). destruct Hm as [(c0 & Hinv & Hc0) Hg0]. fold w in Hc0, Hg0.
  assert (w_scope w2 = _) as Hsc by (rewrite (tf_scope _ _ _ _ _ Hf2), (tf_scope _ _ _ _ _ Hf1); reflexivity).
  cbn [w_scope w0 p0 p_world set_scope] in Hsc.
  edestruct related_reports as [objs Hobjs]; [| |rewrite <- Hsc in Hobjs]; [done..|].
  destruct (submit_run (mkProc w2 (p_mgr p)) objs) as (m' & E3 & Hi3); try done.
  { split; [|cbn; lia]. exists c0. split; [done|]. cbn. lia. }
  { cbn [p_world]. by rewrite Hsc. }
  cbn [p_world] in *. eexists. split; [exact E3|].
  split; [cbn; by rewrite (tf_heap _ _ _ _ _ Hf2), (tf_heap _ _ _ _ _ Hf1)|].
  split; [done|]. split; [cbn; by rewrite (tf_events _ _ _ _ _ Hf2), (tf_events _ _ _ _ _ Hf1)|].
  split; cbn [p_world].
  - cbn. by rewrite (tf_ids _ _ _ _ _ Hf2), (tf_ids _ _ _ _ _ Hf1).
  - intros _ i Hi. cbn in *. specialize (Hfr2 i Hi). lia.
  - intros x Hx. cbn. by apply (tf_lists _ _ _ _ _ Hf2), (tf_lists _ _ _ _ _ Hf1).
  - cbn. fold w. lia.
  - intros k [_ Hk]. fold w in Hk. split; [|cbn; lia]. exists (w_gen w2 + 1). split; [done|]. cbn. lia.
Qed.

(** ** The chain of an order

    The resting side an order is matched against, with everything the engine
    relies on: each entry is a stored limit order of that side with the price
    and identifier of the entry, a positive price and consistent quantities,
    whose machine takes trades and whose execution list exists. *)
Definition resting_order (inst : IdT) (sd : Side) w (e : PriceT * IdT) (c : OrderEntry) : Prop :=
  o_orderId c = e.2 ∧ isValidId e.2 = true ∧ o_price c = e.1 ∧ px_ltb px0 e.1 = true ∧
  o_side c = sd ∧ o_instrument c = inst ∧ o_ordType c ≠ MARKET_ORDERTYPE ∧ qty_ok c ∧
  (∃ z, takes_trades c z) ∧ is_Some (WideData.executions (w_wide w) !! o_executions c).

Definition rests (inst : IdT) (sd : Side) w (e : PriceT * IdT) : Prop :=
  ∃ cl c, OrderStore.locateByOrderId e.2 (w_store w) = Some cl ∧ heap_at w cl = Some c ∧
    resting_order inst sd w e c.

(** The order being matched rests in its own side of the book. *)
Record base_order (l : loc) (o : OrderEntry) (own : Multimap.t) w : Prop := {
  bo_at : heap_at w l = Some o;
  bo_qty : qty_ok o;
  bo_open : 0 < o_leavesQty o;
  bo_state : ∃ z, takes_trades o z;
  bo_limit : o_ordType o ≠ MARKET_ORDERTYPE;
  bo_id : isValidId (o_orderId o) = true;
  bo_instr : isValidId (o_instrument o) = true;
  bo_list : is_Some (WideData.executions (w_wide w) !! o_executions o);
  bo_own : (o_price o, o_orderId o) ∈ own;
}.

Record sweeping (l : loc) (o : OrderEntry) (g : Book.OrdersGroup) (own bk : Multimap.t) p : Prop := {
  sw_base : base_order l o own (p_world p);
  sw_wf : Book.book_wf (w_book (p_world p));
  sw_group : Book.orderGroups (w_book (p_world p)) !! o_instrument o = Some g;
  sw_side : Book.side_orders (o_side o) g = Some own;
  sw_opp : Book.side_orders (OrderMatcher.oposite_side o) g = Some bk;
  sw_rests : Forall (rests (o_instrument o) (OrderMatcher.oposite_side o) (p_world p)) bk;
  sw_nodup : NoDup bk.*2;
  sw_execs : execs_below (p_world p);
}.

(** The events of the chain: what a matching step of the order enqueues now. *)
Definition pending (l : loc) p : Prop :=
  OrderMatcher.match_order l (set_events [] (p_world p)) = (Ok tt, p_world p).

(** The open quantity of an entry. *)
Definition openq w (e : PriceT * IdT) : Z := from_option o_leavesQty 0 (OrderStore.order_at e.2 (w_store w)).

Definition sumq {A} (f : A → Z) (l : list A) : Z := foldr (λ e s, f e + s) 0 l.

(** Nothing of the entry can be traded by [o] any more. *)
Definition exhausted (o : OrderEntry) w (x : PriceT * IdT) : Prop :=
  openq w x = 0 ∨ OrderMatcher.reaches o x.1 = false.

(** The trades of a chain: the quantity the order trades is what the resting
    orders trade; they trade only at prices it reaches, none gains quantity,
    and one trades only if everything in front of it is exhausted or out of
    reach; no other order changes. *)
Record swept (l : loc) (o : OrderEntry) (bk : Multimap.t) p p' (o' : OrderEntry) : Prop := {
  sp_at : heap_at (p_world p') l = Some o';
  sp_qty : qty_ok o' ∧ o_orderQty o' = o_orderQty o;
  sp_ids : OrderStore.ordersById (w_store (p_world p')) = OrderStore.ordersById (w_store (p_world p));
  sp_conserved : o_leavesQty o - o_leavesQty o' =
    sumq (λ e, openq (p_world p) e - openq (p_world p') e) bk;
  sp_within e : e ∈ bk → 0 <= openq (p_world p') e <= openq (p_world p) e ∧
    (openq (p_world p') e ≠ openq (p_world p) e → OrderMatcher.reaches o e.1 = true);
  sp_priority l1 e l2 : bk = l1 ++ e :: l2 → openq (p_world p') e ≠ openq (p_world p) e →
    Forall (exhausted o (p_world p')) l1;
  sp_complete : o_leavesQty o' = 0 ∨ Forall (exhausted o (p_world p')) bk;
  sp_others l0 : l0 ≠ l → Forall (λ e, OrderStore.locateByOrderId e.2 (w_store (p_world p)) ≠ Some l0) bk →
    heap_at (p_world p') l0 = heap_at (p_world p) l0;
}.

(** The chain took everything the entry had open. *)
Definition traded_out w w' (e : PriceT * IdT) : bool := negb (openq w e =? 0) && (openq w' e =? 0).

(** The book after a chain: on the other side the entries that were traded out are
    gone and the rest stand as before; on its own side the order is gone once it is
    filled; nothing else in the book changes. *)
Definition rebooked (o : OrderEntry) (own bk : Multimap.t) p p' (o' : OrderEntry) : Prop :=
  ∃ g' own', w_book (p_world p') = Book.with_groups (<[o_instrument o := g']> (Book.orderGroups (w_book (p_world p)))) (w_book (p_world p)) ∧
    Book.side_orders (o_side o) g' = Some own' ∧
    (if o_leavesQty o' =? 0 then rm1 (Multimap.is_entry (o_price o) (o_orderId o)) own = Some own' else own' = own) ∧
    Book.side_orders (OrderMatcher.oposite_side o) g' =
      Some (List.filter (λ e, negb (traded_out (p_world p) (p_world p') e)) bk).

Lemma rests_agrees inst sd w bk : Forall (rests inst sd w) bk → OrderMatcher.agrees bk (w_store w).
Proof.
  intros H. eapply Forall_impl; [exact H|]. cbn. intros e (cl & c & Hl & Hc & Hr).
  destruct Hr as (Hid & Hv & Hp & _ & _ & _ & Hm & [Hq _] & _). split; [done|]. exists c.
  unfold OrderStore.order_at. rewrite Hl. done.
Qed.

(** Two states in which a matching step of [o] finds the same orders. *)
Definition same_match (o : OrderEntry) w w' : Prop :=
  OrderStore.heap (w_store w') = OrderStore.heap (w_store w) ∧
  OrderStore.ordersById (w_store w') = OrderStore.ordersById (w_store w) ∧
  Book.find (OrderMatcher.FindOpositeOrder o (w_store w')) (w_book w') =
    Book.find (OrderMatcher.FindOpositeOrder o (w_store w)) (w_book w).

(** The matching step of an order against well-formed resting orders. *)
Lemma match_evs_from l o g bk w : heap_at w l = Some o → qty_ok o → o_ordType o ≠ MARKET_ORDERTYPE →
  Book.book_wf (w_book w) → Book.orderGroups (w_book w) !! o_instrument o = Some g →
  Book.side_orders (OrderMatcher.oposite_side o) g = Some bk →
  Forall (rests (o_instrument o) (OrderMatcher.oposite_side o) w) bk → ∃ evs,
  (∀ w', same_match o w w' → OrderMatcher.match_order l w' = (Ok tt, set_events (w_events w' ++ evs) w')) ∧
  (evs = [] ∧ Forall (λ e, ¬ OrderMatcher.entry_tradable o (w_store w) e) bk ∨
   ∃ l1 e l2 cl c, bk = l1 ++ e :: l2 ∧
     Forall (λ e, ¬ OrderMatcher.entry_tradable o (w_store w) e) l1 ∧
     OrderStore.locateByOrderId e.2 (w_store w) = Some cl ∧ heap_at w cl = Some c ∧
     resting_order (o_instrument o) (OrderMatcher.oposite_side o) w e c ∧
     OrderMatcher.tradable o c = true ∧ evs = OrderMatcher.trade_events l o c cl).
Proof.
  intros Ho Hqo Hlim Hwf Hg Hs Hr.
  destruct (OrderMatcher.find_tradable o w g bk Hwf Hg Hs (rests_agrees _ _ _ _ Hr))
    as (id & Hf & [(l1 & px & l2 & Hbk & Hv & (c & Hc & Ht) & Hn)|[-> Hn]]).
  - rewrite Hbk in Hr. rewrite Forall_app, Forall_cons in Hr. destruct Hr as (_ & (cl & c' & Hl & Hc' & Hr) & _).
    cbn [snd] in *. unfold OrderStore.order_at in Hc. rewrite Hl in Hc. cbn in Hc.
    unfold heap_at in Hc'. rewrite Hc in Hc'. injection Hc' as <-.
    exists (OrderMatcher.trade_events l o c cl). split; [|right; by exists l1, (px, id), l2, cl, c].
    intros w' (Eh & Ei & Ef). rewrite (OrderMatcher.match_order_found w' l o id c cl);
      unfold heap_at, OrderStore.locateByOrderId; rewrite ?Eh, ?Ei, ?Ef; try done; [|apply Hqo|apply Hr].
    destruct Hr as (_ & _ & Hp & Hpos & _). cbn [fst] in *. rewrite Hp.
    assert (px_eqb px px0 = false) as ->; [|done].
    unfold px_eqb, px_ltb in *. destruct (px_isnan px0), (px_isnan px); try done. cbn in *.
    case_bool. apply Z.eqb_neq. lia.
  - exists []. split; [|by left]. intros w' (Eh & Ei & Ef). unfold OrderMatcher.match_order, bind at 1.
    assert (heap_at w' l = Some o) as Ho' by (unfold heap_at; by rewrite Eh).
    rewrite (deref_some _ _ _ Ho'). unfold bind, gets, lift. rewrite Ef, Hf.
    change (isValidId IdT0) with false. lazy beta iota delta [negb].
    rewrite bool_decide_eq_false_2 by done. rewrite app_nil_r. by destruct w'.
Qed.

(** The matching step of a swept order, in any state with its store and book. *)
Lemma match_evs l o g own bk p : sweeping l o g own bk p → let w := p_world p in ∃ evs,
  (∀ w', w_store w' = w_store w → w_book w' = w_book w →
    OrderMatcher.match_order l w' = (Ok tt, set_events (w_events w' ++ evs) w')) ∧
  (evs = [] ∧ Forall (λ e, ¬ OrderMatcher.entry_tradable o (w_store w) e) bk ∨
   ∃ l1 e l2 cl c, bk = l1 ++ e :: l2 ∧
     Forall (λ e, ¬ OrderMatcher.entry_tradable o (w_store w) e) l1 ∧
     OrderStore.locateByOrderId e.2 (w_store w) = Some cl ∧ heap_at w cl = Some c ∧
     resting_order (o_instrument o) (OrderMatcher.oposite_side o) w e c ∧
     OrderMatcher.tradable o c = true ∧ evs = OrderMatcher.trade_events l o c cl).
Proof.
  intros [[Ho Hqo _ _ Hlim _ _ _ _] Hwf Hg _ Hs Hr _ _] w.
  destruct (match_evs_from l o g bk w Ho Hqo Hlim Hwf Hg Hs Hr) as (evs & Hevs & Hc). exists evs. split; [|done].
  intros w' Es Eb. apply Hevs. unfold same_match. by rewrite Es, Eb.
Qed.

Lemma pending_evs l p evs : pending l p →
  (∀ w', w_store w' = w_store (p_world p) → w_book w' = w_book (p_world p) →
    OrderMatcher.match_order l w' = (Ok tt, set_events (w_events w' ++ evs) w')) →
  w_events (p_world p) = evs.
Proof.
  intros Hp He. unfold pending in Hp. rewrite He in Hp by done.
  injection Hp as Hp. apply (f_equal w_events) in Hp. done.
Qed.

(** The matching event: the next links of the chain are enqueued. *)
Lemma match_event_run l o g own bk p evs : sweeping l o g own bk p → mgr_ok 1 p →
  TransactionMgr.clock_ok now → w_events (p_world p) = [] →
  (∀ w', w_store w' = w_store (p_world p) → w_book w' = w_book (p_world p) →
    OrderMatcher.match_order l w' = (Ok tt, set_events (w_events w' ++ evs) w')) →
  ∃ p', onDeferedEvent sv_order now (MatchOrderDefered l) p = (Ok tt, p') ∧
    w_events (p_world p') = evs ∧ w_store (p_world p') = w_store (p_world p) ∧
    w_book (p_world p') = w_book (p_world p) ∧ w_wide (p_world p') = w_wide (p_world p) ∧
    event_frame 1 p p'.
Proof.
  intros Hs Hm Hnow He Hevs. unfold onDeferedEvent. set (w := p_world p) in *.
  set (p0 := mkProc (set_scope TransactionScope.empty (w_newOp w) w) (p_mgr p)).
  rewrite (bind_ok _ _ p tt p0) by done.
  rewrite (bind_ok _ _ p0 tt (mkProc (set_events evs (p_world p0)) (p_mgr p))).
  2:{ unfold MatchOrderDefered_execute, on_w. rewrite Hevs by done. cbn. by rewrite He. }
  destruct (submit_run (mkProc (set_events evs (p_world p0)) (p_mgr p)) []) as (m' & E & Hi); [done..|].
  eexists. split; [exact E|]. cbn. do 4 (split; [done|]). split; cbn; try done.
  - intros Hb i Hi'. cbn in *. specialize (Hb i Hi'). fold w in Hb. lia.
  - intros k [_ Hk]. fold w in Hk. split; [|cbn; lia]. exists (w_gen w + 1). split; [done|]. cbn. lia.
Qed.

Lemma traded_terms q z o : let o' := traded q z o in
  o_price o' = o_price o ∧ o_side o' = o_side o ∧ o_instrument o' = o_instrument o ∧
  o_orderId o' = o_orderId o ∧ o_ordType o' = o_ordType o ∧ o_executions o' = o_executions o ∧
  o_orderQty o' = o_orderQty o ∧ o_leavesQty o' = o_leavesQty o - q ∧ o_cumQty o' = o_cumQty o + q.
Proof. by destruct o. Qed.

Lemma traded_qty q z o : qty_ok o → 0 <= q <= o_leavesQty o → qty_ok (traded q z o).
Proof. destruct o; unfold qty_ok, traded, filled_by, is_u32; simpl. lia. Qed.

(** A partial trade leaves the order ready for the next one. *)
Lemma traded_takes q z o : takes_trades o z → q ≠ o_leavesQty o →
  takes_trades (traded q z.2 o) (PartFill, z.2).
Proof.
  intros (_ & _ & Hz) Hq. unfold traded, trade_state. rewrite (proj2 (Z.eqb_neq _ _) Hq).
  split; [|split; [by right|done]].
  assert (o_smp (set_smp (persistence (PartFill, z.2)) (set_status (trade_status q o) (filled_by q o))) =
    persistence (PartFill, z.2)) as -> by (by destruct o).
  by destruct z as [z1 []].
Qed.

Lemma sides_differ o g own bk : Book.side_orders (o_side o) g = Some own →
  Book.side_orders (OrderMatcher.oposite_side o) g = Some bk → OrderMatcher.oposite_side o ≠ o_side o.
Proof. unfold OrderMatcher.oposite_side. by destruct (o_side o). Qed.

Lemma px_pos_num px : px_ltb px0 px = true → px_isnan px = false.
Proof. unfold px_ltb. destruct (px_isnan px0), (px_isnan px); simpl; done. Qed.

Lemma own_num b i g sd own (e : PriceT * IdT) : Book.book_wf (SV := SO) b →
  Book.orderGroups b !! i = Some g → Book.side_orders sd g = Some own → e ∈ own → px_isnan e.1 = false.
Proof.
  intros Hwf Hg Hs He. destruct (Book.book_wf_lookup _ _ _ Hwf Hg) as [[Hb _] [Ha _]].
  unfold Multimap.no_nan in *. rewrite Forall_forall in *. destruct sd; simplify_eq/=; auto.
Qed.

Lemma with_groups_same (b : Book.OrderBookImpl SO) i g : Book.orderGroups b !! i = Some g →
  Book.with_groups (<[i := g]> (Book.orderGroups b)) b = b.
Proof. intros H. rewrite insert_id by done. by destruct b. Qed.

(** The book after the trade of a pair: each of the two is taken out if it is filled. *)
Lemma pair_removed l o g own l1 e l2 c p q : sweeping l o g own (l1 ++ e :: l2) p →
  resting_order (o_instrument o) (OrderMatcher.oposite_side o) (p_world p) e c →
  let w := p_world p in ∃ bk1 g2 own2,
  let bk2 := Book.with_groups (<[o_instrument o := g2]> (Book.orderGroups (w_book w))) (w_book w) in
  (if q =? o_leavesQty c then Book.remove c (w_book w) = (Ok tt, bk1) else bk1 = w_book w) ∧
  (if q =? o_leavesQty o then Book.remove o bk1 = (Ok tt, bk2) else bk2 = bk1) ∧ Book.book_wf bk2 ∧
  Book.side_orders (o_side o) g2 = Some own2 ∧
  (if q =? o_leavesQty o then rm1 (Multimap.is_entry (o_price o) (o_orderId o)) own = Some own2 else own2 = own) ∧
  Book.side_orders (OrderMatcher.oposite_side o) g2 = Some (if q =? o_leavesQty c then l1 ++ l2 else l1 ++ e :: l2).
Proof.
  intros [[_ _ _ _ _ _ Hi _ Hown] Hwf Hg Hso Hsp _ Hnd _] (Hid & _ & Hp & Hpos & Hsd & Hin & _) w.
  fold w in Hwf, Hg. pose proof (sides_differ _ _ _ _ Hso Hsp) as Hne.
  set (opp := if q =? o_leavesQty c then l1 ++ l2 else l1 ++ e :: l2).
  assert (∃ bk1 g1, (if q =? o_leavesQty c then Book.remove c (w_book w) = (Ok tt, bk1) else bk1 = w_book w) ∧
    bk1 = Book.with_groups (<[o_instrument o := g1]> (Book.orderGroups (w_book w))) (w_book w) ∧ Book.book_wf bk1 ∧
    Book.side_orders (o_side o) g1 = Some own ∧ Book.side_orders (OrderMatcher.oposite_side o) g1 = Some opp)
    as (bk1 & g1 & H1 & E1 & Hwf1 & Hs1 & Hs2).
  { unfold opp. destruct (q =? o_leavesQty c); [|exists (w_book w), g; split_and!; try done; by rewrite with_groups_same].
    destruct e as [px i]. cbn [fst snd] in *.
    pose proof (rm1_entry l1 l2 px i (px_pos_num _ Hpos) Hnd) as Hrm.
    rewrite <- Hid, <- Hp in Hrm at 1. pose proof Hsp as Hsp'. rewrite <- Hsd in Hsp'.
    destruct (remove_rm1 (w_book w) c g _ _ Hwf ltac:(by rewrite Hin) ltac:(by rewrite Hin) Hsp' Hrm) as [E1 E2].
    rewrite Hin, Hsd in E1, E2. eexists _, _. split; [exact E1|]. split; [done|]. split; [done|].
    split; [rewrite put_side_other; congruence|by eapply put_side_at]. }
  exists bk1. destruct (q =? o_leavesQty o); [|exists g1, own; subst bk1; by split_and!].
  assert (Book.orderGroups bk1 !! o_instrument o = Some g1) as Hg1 by (rewrite E1; apply lookup_insert_eq).
  destruct (rm1_elem _ _ own Hown) as [own' Hrm]; [by eapply (own_num _ _ _ _ _ _ Hwf Hg Hso Hown)|].
  destruct (remove_rm1 bk1 o g1 own own' Hwf1 Hi Hg1 Hs1 Hrm) as [E2 E3].
  exists (put_side (o_side o) own' g1), own'. rewrite E1 in E2, E3. cbn [Book.with_groups Book.orderGroups Book.storage] in E2, E3.
  rewrite insert_insert_eq in E2, E3. rewrite E1. split; [by rewrite <- E1|]. split; [exact E2|]. split; [exact E3|].
  split; [by eapply put_side_at|]. split; [done|]. rewrite put_side_other; congruence.
Qed.

(** A resting order keeps its terms in a state that keeps its object and the
    execution lists. *)
Lemma rests_ext inst sd w w' x : rests inst sd w x →
  OrderStore.ordersById (w_store w') = OrderStore.ordersById (w_store w) →
  (∀ i, is_Some (WideData.executions (w_wide w) !! i) → is_Some (WideData.executions (w_wide w') !! i)) →
  (∀ cl c, OrderStore.locateByOrderId x.2 (w_store w) = Some cl → heap_at w cl = Some c →
     o_side c = sd → o_orderId c = x.2 → heap_at w' cl = heap_at w cl) →
  rests inst sd w' x ∧ openq w' x = openq w x.
Proof.
  intros (cl & c & Hl & Hc & Hr) Hids Hlists Hh.
  pose proof Hr as (Hid & Hv & Hp & Hpos & Hsd & Hin & Hm & Hq & Hz & Hx).
  specialize (Hh cl c Hl Hc Hsd Hid).
  assert (OrderStore.locateByOrderId x.2 (w_store w') = Some cl) as Hl'
    by (unfold OrderStore.locateByOrderId in *; by rewrite Hids).
  split.
  - exists cl, c. split; [done|]. split; [congruence|]. repeat (split; [done|]). auto.
  - unfold openq, OrderStore.order_at. rewrite Hl, Hl'. cbn. unfold heap_at in Hh. by rewrite Hh.
Qed.

Lemma nodup_mid (l1 l2 : Multimap.t) e : NoDup (l1 ++ e :: l2).*2 →
  (e.2 ∉ (l1 ++ l2).*2) ∧ NoDup (l1 ++ l2).*2.
Proof.
  rewrite !fmap_app, fmap_cons. intros Hnd.
  assert (NoDup (e.2 :: (l1.*2 ++ l2.*2))) as Hnd' by (by rewrite Permutation_middle).
  by apply NoDup_cons in Hnd'.
Qed.

(** Only the entry that traded may leave its side. *)
Lemma traded_entries w w' (l1 l2 : Multimap.t) e (b : bool) : (∀ x, x ∈ l1 ++ l2 → openq w' x = openq w x) → openq w e ≠ 0 →
  b = (openq w' e =? 0) → List.filter (λ x, negb (traded_out w w' x)) (l1 ++ e :: l2) = if b then l1 ++ l2 else l1 ++ e :: l2.
Proof.
  intros Hx He ->. assert (∀ l, (∀ x, x ∈ l → x ∈ l1 ++ l2) → List.filter (λ x, negb (traded_out w w' x)) l = l) as Hk.
  { intros l Hl. apply List.forallb_filter_id, List.forallb_forall. intros x Hin%list_elem_of_In%Hl. unfold traded_out. rewrite (Hx x Hin).
    by destruct (openq w x =? 0). }
  rewrite List.filter_app. cbn [List.filter]. rewrite !Hk by set_solver. unfold traded_out. rewrite (proj2 (Z.eqb_neq _ _) He).
  by destruct (openq w' e =? 0).
Qed.

(** The trade with the order found, and the chain's state after it. *)
Lemma trade_step l o g own l1 e l2 cl c p : sweeping l o g own (l1 ++ e :: l2) p → mgr_ok 3 p →
  TransactionMgr.clock_ok now → OrderStore.locateByOrderId e.2 (w_store (p_world p)) = Some cl →
  heap_at (p_world p) cl = Some c →
  resting_order (o_instrument o) (OrderMatcher.oposite_side o) (p_world p) e c →
  OrderMatcher.tradable o c = true →
  let w := p_world p in let q := Z.min (o_leavesQty o) (o_leavesQty c) in
  ∃ p' z, onDeferedEvent sv_order now (ExecutionDefered l [OrderMatcher.trade_with o c cl]) p = (Ok tt, p') ∧
    w_events (p_world p') = w_events w ∧ event_frame 3 p p' ∧ 0 < q ∧
    heap_at (p_world p') l = Some (traded q z o) ∧
    openq w e = o_leavesQty c ∧ openq (p_world p') e = o_leavesQty c - q ∧
    (∀ x, x ∈ l1 ++ l2 → openq (p_world p') x = openq w x) ∧
    (∀ l0, l0 ≠ l → l0 ≠ cl → heap_at (p_world p') l0 = heap_at w l0) ∧
    rebooked o own (l1 ++ e :: l2) p p' (traded q z o) ∧
    (o_leavesQty c < o_leavesQty o → ∃ g', sweeping l (traded q z o) g' own (l1 ++ l2) p').
Proof.
  intros Hsw Hm Hnow Hl Hc Hr Ht w q. subst w. pose proof Hsw as [[Ho Hqo H0 [zo Hzo] Hlim Hid Hi Hx Hown] Hwf Hg Hso Hsp Hrs Hnd Hex].
  pose proof Hr as (Hidc & Hvc & Hp & Hpos & Hsd & Hin & Hmk & Hqc & [zc Hzc] & Hxc).
  pose proof (sides_differ _ _ _ _ Hso Hsp) as Hne.
  assert (0 < o_leavesQty c) as H0c.
  { apply andb_true_iff in Ht as [Ht _]. case_bool. destruct Hqc as [Hu _]. unfold is_u32 in Hu. lia. }
  assert (l ≠ cl) as Hll by (intros ->; rewrite Ho in Hc; congruence).
  destruct (pair_removed l o g own l1 e l2 c p q Hsw Hr) as (bk1 & g2 & own2 & Hb1 & Hb2 & Hwf' & Hs1 & Hown2 & Hs2).
  set (bk2 := Book.with_groups _ _) in *.
  destruct (execution_run p l cl o c (o_price c) zo zc bk1 bk2) as (p' & E & Hheap & Ebk & Eev & Hef);
    try done; [lia|by rewrite Hp|by rewrite Hidc|].
  destruct (traded_terms q zo.2 o) as (T1 & T2 & T3 & T4 & T5 & T6 & _ & T8 & _).
  assert (∀ l0, l0 ≠ l → l0 ≠ cl → heap_at (p_world p') l0 = heap_at (p_world p) l0) as Hoth.
  { intros l0 N1 N2. unfold heap_at. rewrite Hheap, !lookup_insert_ne by done. done. }
  assert (heap_at (p_world p') l = Some (traded q zo.2 o)) as Ho'
    by (unfold heap_at; rewrite Hheap; apply lookup_insert_eq).
  assert (∀ x, x ∈ l1 ++ l2 → rests (o_instrument o) (OrderMatcher.oposite_side o) (p_world p') x ∧
    openq (p_world p') x = openq (p_world p) x) as Hrest.
  { intros x Hxin. assert (x.2 ≠ e.2) as Hxe.
    { apply nodup_mid in Hnd as [Hnin _]. intros Heq. apply Hnin. rewrite <- Heq. by apply list_elem_of_fmap_2. }
    apply rests_ext; [|apply Hef|apply Hef|].
    - rewrite Forall_forall in Hrs. apply Hrs. set_solver.
    - intros cl' c' _ Hc' Hs' Hi'. apply Hoth; intros ->; congruence. }
  assert (openq (p_world p) e = o_leavesQty c) as He
    by (unfold openq, OrderStore.order_at; rewrite Hl; cbn; unfold heap_at in Hc; by rewrite Hc).
  assert (openq (p_world p') e = o_leavesQty c - q) as He'.
  { unfold openq, OrderStore.order_at, OrderStore.locateByOrderId in *. rewrite (ef_ids _ _ _ Hef), Hl. cbn.
    rewrite Hheap, lookup_insert_ne, lookup_insert_eq by done. cbn. by destruct c. }
  exists p', zo.2. split; [exact E|]. split; [done|]. split; [done|]. split; [lia|]. split; [done|].
  split; [done|]. split; [done|]. split; [intros x Hxin; by apply Hrest|]. split; [done|]. split.
  { exists g2, own2. split; [by rewrite Ebk|]. split; [done|]. split.
    - rewrite T8. destruct (Z.eqb_spec q (o_leavesQty o)) as [Eq|Eq]; [by rewrite (proj2 (Z.eqb_eq _ _)) by lia|].
      by rewrite (proj2 (Z.eqb_neq _ _)) by lia.
    - rewrite Hs2. f_equal. symmetry. apply traded_entries; [intros; by apply Hrest|lia|]. rewrite He'.
      destruct (Z.eqb_spec q (o_leavesQty c)); [by rewrite (proj2 (Z.eqb_eq _ _)) by lia|by rewrite (proj2 (Z.eqb_neq _ _)) by lia]. }
  intros Hlt. exists g2. rewrite (proj2 (Z.eqb_eq q (o_leavesQty c))) in Hs2 by lia. rewrite (proj2 (Z.eqb_neq _ _)) in Hown2 by lia. subst own2.
  assert (OrderMatcher.oposite_side (traded q zo.2 o) = OrderMatcher.oposite_side o) as Eop
    by (unfold OrderMatcher.oposite_side; by rewrite T2).
  split; rewrite ?Ebk, ?Eop, ?T2, ?T3; try done.
  - split; rewrite ?T1, ?T3, ?T4, ?T5, ?T6; try done; [apply traded_qty; [done|lia]|lia| |].
    + eexists. apply traded_takes; [done|lia].
    + by apply Hef.
  - apply lookup_insert_eq.
  - apply Forall_forall. intros x Hxin. by apply Hrest.
  - by apply nodup_mid in Hnd as [_ ?].
  - by apply Hef.
Qed.

(** ** The chain's trades, composed *)

Lemma sumq_app {A} (f : A → Z) l1 l2 : sumq f (l1 ++ l2) = sumq f l1 + sumq f l2.
Proof. induction l1 as [|x l1 IH]; [done|]. unfold sumq in *. simpl. lia. Qed.

Lemma sumq_ext {A} (f g : A → Z) l : (∀ x, x ∈ l → f x = g x) → sumq f l = sumq g l.
Proof.
  induction l as [|x l IH]; intros H; [done|]. unfold sumq in *. simpl.
  rewrite H, IH; [done|intros; apply H; by right|by left].
Qed.

Lemma swept_refl l o bk p : heap_at (p_world p) l = Some o → qty_ok o →
  (∀ e, e ∈ bk → 0 <= openq (p_world p) e) →
  o_leavesQty o = 0 ∨ Forall (exhausted o (p_world p)) bk → swept l o bk p p o.
Proof.
  intros Ho Hq H0 Hc. split; try done.
  - rewrite (sumq_ext _ (λ _, 0)) by (intros; lia). unfold sumq. clear.
    induction bk as [|x bk IH]; simpl in *; lia.
  - intros e He. specialize (H0 e He). split; [lia|done].
Qed.

Section step.
Variables (l cl : loc) (o o1 o3 : OrderEntry) (l1 l2 : Multimap.t) (e : PriceT * IdT) (p p1 p3 : P).
Hypothesis Hterms : o_price o1 = o_price o ∧ o_side o1 = o_side o ∧ o_orderQty o1 = o_orderQty o.
Hypothesis Hpaid : o_leavesQty o - o_leavesQty o1 = openq (p_world p) e - openq (p_world p1) e.
Hypothesis Hopen : 0 <= openq (p_world p1) e <= openq (p_world p) e.
Hypothesis Hreach : OrderMatcher.reaches o e.1 = true.
Hypothesis Hl1 : Forall (exhausted o (p_world p)) l1.
Hypothesis Hrest : ∀ x, x ∈ l1 ++ l2 → openq (p_world p1) x = openq (p_world p) x.
Hypothesis Hids : OrderStore.ordersById (w_store (p_world p1)) = OrderStore.ordersById (w_store (p_world p)).
Hypothesis Hoth : ∀ l0, l0 ≠ l → l0 ≠ cl → heap_at (p_world p1) l0 = heap_at (p_world p) l0.
Hypothesis Hcl : OrderStore.locateByOrderId e.2 (w_store (p_world p)) = Some cl.
Hypothesis Hsw : swept l o1 (l1 ++ l2) p1 p3 o3.
Hypothesis He3 : openq (p_world p3) e = openq (p_world p1) e.
Hypothesis Hend : openq (p_world p1) e = 0 ∨ (p3 = p1 ∧ o_leavesQty o3 = 0).

Lemma reaches_step x : OrderMatcher.reaches o1 x = OrderMatcher.reaches o x.
Proof. unfold OrderMatcher.reaches. destruct Hterms as (-> & -> & _). done. Qed.

Lemma exhausted_step w : exhausted o1 w = exhausted o w.
Proof. unfold exhausted, OrderMatcher.reaches. by destruct Hterms as (-> & -> & _). Qed.

Lemma exhausted_l1 : Forall (exhausted o (p_world p3)) l1.
Proof.
  rewrite Forall_forall in *. intros x Hx. destruct (Hl1 x Hx) as [H0|?]; [left|by right].
  destruct (sp_within _ _ _ _ _ _ Hsw x) as [Hw _]; [set_solver|].
  rewrite Hrest in Hw by set_solver. lia.
Qed.

Lemma swept_priority a x b : l1 ++ e :: l2 = a ++ x :: b →
  openq (p_world p3) x ≠ openq (p_world p) x → Forall (exhausted o (p_world p3)) a.
Proof.
  intros Heq Hx. pose proof exhausted_l1 as H1. rewrite <- exhausted_step in H1 |- *.
  destruct (List.app_eq_app _ _ _ _ Heq) as (m & [[-> Hm]|[-> Hm]]).
  - destruct m as [|y m]; simpl in Hm; simplify_eq/=.
    + by rewrite app_nil_r in *.
    + eapply (sp_priority _ _ _ _ _ _ Hsw a y (m ++ l2)); [by rewrite <- app_assoc|].
      rewrite Hrest by set_solver. done.
  - destruct m as [|y m]; simpl in Hm; simplify_eq/=.
    + by rewrite app_nil_r.
    + assert (Forall (exhausted o1 (p_world p3)) (l1 ++ m)) as Hf.
      { apply (sp_priority _ _ _ _ _ _ Hsw (l1 ++ m) x b); [by rewrite <- app_assoc|].
        rewrite Hrest by set_solver. done. }
      rewrite Forall_app in *. destruct Hf as [Hf1 Hf2]. split; [done|]. constructor; [|done].
      left. rewrite He3. destruct Hend as [?|[-> _]]; [done|]. exfalso. apply Hx, Hrest. set_solver.
Qed.

Lemma swept_step : swept l o (l1 ++ e :: l2) p p3 o3.
Proof.
  destruct Hterms as (Tp & Ts & Tq). split.
  - apply Hsw.
  - rewrite <- Tq. apply Hsw.
  - rewrite <- Hids. apply Hsw.
  - pose proof (sp_conserved _ _ _ _ _ _ Hsw) as Hc.
    rewrite (sumq_ext _ (λ x, openq (p_world p) x - openq (p_world p3) x)) in Hc
      by (intros x Hx; by rewrite Hrest).
    rewrite sumq_app in *. unfold sumq in *. simpl. lia.
  - intros x Hx. destruct (decide (x = e)) as [->|Hne]; [rewrite He3; split; [lia|done]|].
    assert (x ∈ l1 ++ l2) as Hx' by set_solver. rewrite <- reaches_step, <- (Hrest x Hx').
    by apply (sp_within _ _ _ _ _ _ Hsw).
  - apply swept_priority.
  - destruct (sp_complete _ _ _ _ _ _ Hsw) as [?|Hf]; [by left|].
    destruct Hend as [H0|[_ ?]]; [right|by left]. rewrite exhausted_step in Hf.
    rewrite Forall_app in *. destruct Hf. split; [done|]. constructor; [|done]. left. lia.
  - intros l0 N1 Hall. rewrite Forall_app, Forall_cons in Hall. destruct Hall as (A1 & A2 & A3).
    rewrite (sp_others _ _ _ _ _ _ Hsw l0 N1); [apply Hoth; congruence|].
    unfold OrderStore.locateByOrderId in *. rewrite Hids. by apply Forall_app.
Qed.
End step.

Lemma openq_rests inst sd w e : rests inst sd w e → 0 <= openq w e.
Proof.
  intros (cl & c & Hl & Hc & (_ & _ & _ & _ & _ & _ & _ & [Hu _] & _)).
  unfold openq, OrderStore.order_at. rewrite Hl. cbn. unfold heap_at in Hc. rewrite Hc. cbn.
  unfold is_u32 in Hu. lia.
Qed.

Lemma not_tradable_exhausted inst sd w o e : rests inst sd w e →
  ¬ OrderMatcher.entry_tradable o (w_store w) e → exhausted o w e.
Proof.
  intros (cl & c & Hl & Hc & (_ & _ & Hp & _)) Hn. unfold exhausted, openq, OrderStore.order_at.
  unfold heap_at in Hc. rewrite Hl. cbn. rewrite Hc. cbn.
  destruct (Z.eqb_spec 0 (o_leavesQty c)) as [E|E]; [by left|right].
  destruct (OrderMatcher.reaches o e.1) eqn:Er; [|done]. exfalso. apply Hn. exists c.
  split; [unfold OrderStore.order_at; by rewrite Hl|]. unfold OrderMatcher.tradable.
  by rewrite Hp, Er, (proj2 (Z.eqb_neq _ _) E), orb_true_r.
Qed.

(** The invariant looks at store, book, execution lists and counter only. *)
Lemma sweeping_ext l o g own bk p p' : sweeping l o g own bk p →
  w_store (p_world p') = w_store (p_world p) → w_book (p_world p') = w_book (p_world p) →
  w_wide (p_world p') = w_wide (p_world p) → w_gen (p_world p) <= w_gen (p_world p') →
  sweeping l o g own bk p'.
Proof.
  intros [[? ? ? ? ? ? ? ? ?] ? ? ? ? Hr ? Hb] Es Eb Ew Hg. unfold heap_at in *.
  split; rewrite ?Eb; try done.
  - split; unfold heap_at; rewrite ?Es, ?Ew; done.
  - unfold rests, resting_order, heap_at in *. by rewrite Es, Ew.
  - intros i Hi. rewrite Es in Hi. specialize (Hb i Hi). lia.
Qed.

Lemma openq_ext w w' x : w_store w' = w_store w → openq w' x = openq w x.
Proof. unfold openq. by intros ->. Qed.

(** The rest of the chain leaves the entry that traded alone. *)
Lemma openq_kept l o g own l1 e l2 cl c p p1 p3 o1 o3 : sweeping l o g own (l1 ++ e :: l2) p →
  OrderStore.locateByOrderId e.2 (w_store (p_world p)) = Some cl → heap_at (p_world p) cl = Some c →
  resting_order (o_instrument o) (OrderMatcher.oposite_side o) (p_world p) e c →
  OrderStore.ordersById (w_store (p_world p1)) = OrderStore.ordersById (w_store (p_world p)) →
  swept l o1 (l1 ++ l2) p1 p3 o3 → openq (p_world p3) e = openq (p_world p1) e.
Proof.
  intros Hsw Hl Hc Hr Hids Hsp. pose proof (sw_rests _ _ _ _ _ _ Hsw) as Hrs. pose proof (sw_nodup _ _ _ _ _ _ Hsw) as Hnd.
  pose proof (sides_differ _ _ _ _ (sw_side _ _ _ _ _ _ Hsw) (sw_opp _ _ _ _ _ _ Hsw)) as Hne.
  pose proof (bo_at _ _ _ _ (sw_base _ _ _ _ _ _ Hsw)) as Ho. pose proof Hr as (Hidc & _ & _ & _ & Hsd & _). rewrite Forall_forall in Hrs.
  unfold openq, OrderStore.order_at, OrderStore.locateByOrderId in *. rewrite (sp_ids _ _ _ _ _ _ Hsp).
  rewrite Hids, Hl. cbn. assert (heap_at (p_world p3) cl = heap_at (p_world p1) cl) as E; [|by unfold heap_at in E; rewrite E].
  apply (sp_others _ _ _ _ _ _ Hsp); [intros ->; congruence|].
  apply Forall_forall. intros x Hx. unfold OrderStore.locateByOrderId. rewrite Hids. intros Hlx.
  apply nodup_mid in Hnd as [Hnin _]. apply Hnin.
  destruct (Hrs x) as (cx & c' & Hl' & Hc' & Hr'); [set_solver|]. unfold OrderStore.locateByOrderId in Hl'.
  destruct Hr' as (Hid' & _). assert (c' = c) as -> by congruence.
  rewrite <- Hidc, Hid'. by apply list_elem_of_fmap_2.
Qed.

(** A chain in which nothing trades leaves the book. *)
Lemma rebooked_refl l o g own bk p : sweeping l o g own bk p → rebooked o own bk p p o.
Proof.
  intros Hsw. exists g, own. rewrite with_groups_same by apply (sw_group _ _ _ _ _ _ Hsw). split; [done|]. split; [apply Hsw|].
  pose proof (bo_open _ _ _ _ (sw_base _ _ _ _ _ _ Hsw)). rewrite (proj2 (Z.eqb_neq _ _)) by lia. split; [done|].
  rewrite (sw_opp _ _ _ _ _ _ Hsw). f_equal. symmetry. apply List.forallb_filter_id, List.forallb_forall. intros x _.
  unfold traded_out. by destruct (openq _ x =? 0).
Qed.

(** A trade that takes an entry out, and the rest of the chain. *)
Lemma rebooked_step o o1 o3 own l1 e l2 p p1 p3 : o_price o1 = o_price o → o_side o1 = o_side o →
  o_instrument o1 = o_instrument o → o_orderId o1 = o_orderId o → o_leavesQty o1 ≠ 0 →
  (∀ x, x ∈ l1 ++ l2 → openq (p_world p1) x = openq (p_world p) x) →
  openq (p_world p) e ≠ 0 → openq (p_world p3) e = 0 →
  rebooked o own (l1 ++ e :: l2) p p1 o1 → rebooked o1 own (l1 ++ l2) p1 p3 o3 → rebooked o own (l1 ++ e :: l2) p p3 o3.
Proof.
  intros Tp Ts Ti Tid Hz Hx He He3 (g1 & own1 & E1 & _) (g3 & own3 & E3 & S3 & O3 & P3).
  assert (OrderMatcher.oposite_side o1 = OrderMatcher.oposite_side o) as Eop by (unfold OrderMatcher.oposite_side; by rewrite Ts).
  rewrite Tp, Tid in O3. rewrite Ts in S3. rewrite Eop in P3.
  exists g3, own3. split; [rewrite E3, E1, Ti; cbn [Book.with_groups Book.orderGroups Book.storage]; by rewrite insert_insert_eq|].
  split; [done|]. split; [done|]. rewrite P3. f_equal. rewrite !List.filter_app. cbn [List.filter].
  unfold traded_out at 4. rewrite (proj2 (Z.eqb_neq _ _) He), He3. cbn [negb andb Z.eqb].
  f_equal; apply List.filter_ext_in; intros x Hin%list_elem_of_In; unfold traded_out; rewrite Hx; (done || set_solver).
Qed.

Lemma rebooked_ext o own bk p p1 p2 o1 : rebooked o own bk p p1 o1 → w_store (p_world p2) = w_store (p_world p1) →
  w_book (p_world p2) = w_book (p_world p1) → rebooked o own bk p p2 o1.
Proof.
  intros (g1 & own1 & E & S1 & O1 & P1) Es Eb. exists g1, own1. rewrite Eb. do 3 (split; [done|]). rewrite P1. f_equal.
  apply List.filter_ext. intros x. unfold traded_out. by rewrite (openq_ext _ _ _ Es).
Qed.

(** What a trade and the rest of the chain make together. *)
Lemma swept_trade l o g own l1 e l2 cl c z p p1 p3 o3 : let q := Z.min (o_leavesQty o) (o_leavesQty c) in
  sweeping l o g own (l1 ++ e :: l2) p →
  Forall (λ e, ¬ OrderMatcher.entry_tradable o (w_store (p_world p)) e) l1 →
  OrderStore.locateByOrderId e.2 (w_store (p_world p)) = Some cl → heap_at (p_world p) cl = Some c →
  resting_order (o_instrument o) (OrderMatcher.oposite_side o) (p_world p) e c →
  OrderMatcher.tradable o c = true → 0 < q →
  openq (p_world p) e = o_leavesQty c → openq (p_world p1) e = o_leavesQty c - q →
  (∀ x, x ∈ l1 ++ l2 → openq (p_world p1) x = openq (p_world p) x) →
  OrderStore.ordersById (w_store (p_world p1)) = OrderStore.ordersById (w_store (p_world p)) →
  (∀ l0, l0 ≠ l → l0 ≠ cl → heap_at (p_world p1) l0 = heap_at (p_world p) l0) →
  swept l (traded q z o) (l1 ++ l2) p1 p3 o3 →
  (o_leavesQty c < o_leavesQty o ∨ p3 = p1 ∧ o_leavesQty o3 = 0) →
  swept l o (l1 ++ e :: l2) p p3 o3.
Proof.
  intros q Hsw Hn Hl Hc Hr Ht Hq He He1 Hrest Hids Hoth Hsp Hend.
  destruct (traded_terms q z o) as (T1 & T2 & _ & _ & _ & _ & T7 & T8 & _).
  pose proof (sw_rests _ _ _ _ _ _ Hsw) as Hrs. pose proof (sw_nodup _ _ _ _ _ _ Hsw) as Hnd.
  pose proof (sides_differ _ _ _ _ (sw_side _ _ _ _ _ _ Hsw) (sw_opp _ _ _ _ _ _ Hsw)) as Hne.
  pose proof (bo_at _ _ _ _ (sw_base _ _ _ _ _ _ Hsw)) as Ho.
  pose proof Hr as (Hidc & _ & Hp & _ & Hsd & _).
  rewrite Forall_forall in Hrs.
  apply (swept_step l cl o (traded q z o) o3 l1 l2 e p p1 p3); try done.
  - lia.
  - lia.
  - unfold OrderMatcher.tradable in Ht. rewrite bool_decide_eq_false_2 in Ht
      by apply (bo_limit _ _ _ _ (sw_base _ _ _ _ _ _ Hsw)).
    apply andb_true_iff in Ht as [_ Ht]. by rewrite <- Hp.
  - rewrite Forall_forall in *. intros x Hx. eapply not_tradable_exhausted; [apply Hrs; set_solver|by apply Hn].
  - by eapply openq_kept.
  - destruct Hend as [?|?]; [left; lia|by right].
Qed.

(** The chain of an order ends within as many rounds as there are resting
    orders on the other side. *)
Lemma sweep_chain n : ∀ l o g own bk p, length bk = n → sweeping l o g own bk p →
  mgr_ok (4 * Z.of_nat n) p → TransactionMgr.clock_ok now → pending l p →
  ∃ p' o', processDeferedEvent sv_order now n p = Some (Ok tt, p') ∧ w_events (p_world p') = [] ∧
    swept l o bk p p' o' ∧ rebooked o own bk p p' o'.
Proof.
  induction n as [n IH] using lt_wf_ind. intros l o g own bk p Hlen Hsw Hm Hnow Hpend.
  destruct (match_evs l o g own bk p Hsw) as (evs & Hevs & Hcase).
  pose proof (pending_evs _ _ _ Hpend Hevs) as Hev.
  pose proof (sw_rests _ _ _ _ _ _ Hsw) as Hrs. pose proof (sw_base _ _ _ _ _ _ Hsw) as Hbo.
  destruct Hcase as [[-> Hn]|(l1 & e & l2 & cl & c & -> & Hn & Hl & Hc & Hr & Ht & Eevs)].
  { exists p, o. split; [destruct n; simpl; by rewrite Hev|]. split; [done|]. split; [|by eapply rebooked_refl].
    rewrite Forall_forall in Hrs, Hn.
    apply swept_refl; [apply Hbo|apply Hbo|intros; eapply openq_rests; by apply Hrs|].
    right. apply Forall_forall. intros x Hx. eapply not_tradable_exhausted; [by apply Hrs|by apply Hn]. }
  set (p0 := set_evs [] p).
  assert (sweeping l o g own (l1 ++ e :: l2) p0) as Hsw0 by (eapply sweeping_ext; [exact Hsw|done..]).
  destruct n as [|n]; [rewrite length_app in Hlen; simpl in Hlen; lia|].
  assert (length (l1 ++ l2) = n) as Hlen' by (rewrite length_app in *; simpl in Hlen; lia).
  assert (mgr_ok (3 + (1 + 4 * Z.of_nat n)) p0) as Hm0 by (destruct Hm; split; [done|cbn; lia]).
  destruct (trade_step l o g own l1 e l2 cl c p0 Hsw0) as
    (p1 & z & E1 & Eev1 & Hef & Hq & Ho1 & He & He1 & Hrest & Hoth & Hrb & Hnext); try done.
  { destruct Hm0; split; [done|lia]. }
  set (q := Z.min (o_leavesQty o) (o_leavesQty c)) in *.
  destruct (traded_terms q z o) as (T1 & T2 & _ & _ & _ & _ & _ & T8 & _).
  cbn [processDeferedEvent]. rewrite Hev, Eevs. unfold OrderMatcher.trade_events. fold p0.
  pose proof (ef_mgr _ _ _ Hef _ Hm0) as Hm1.
  destruct (decide (o_leavesQty o <= o_leavesQty c)) as [Hle|Hgt].
  - cbn [run_batch]. rewrite (bind_ok _ _ _ _ _ E1). unfold ret at 1.
    assert (o_leavesQty (traded q z o) = 0) as Hz by lia.
    exists p1, (traded q z o). split; [destruct n; simpl; by rewrite Eev1|]. split; [done|]. split; [|done].
    eapply (swept_trade l o g own l1 e l2 cl c z p p1); try done; [apply Hef| |by right].
    apply swept_refl; [done|apply traded_qty; [apply Hbo|lia]| |by left].
    intros x Hx. rewrite Hrest by done. eapply openq_rests. rewrite Forall_forall in Hrs. apply Hrs. set_solver.
  - cbn [run_batch]. rewrite (bind_ok _ _ _ _ _ E1).
    destruct (Hnext ltac:(lia)) as (g1 & Hnext'). clear Hnext. rename Hnext' into Hnext.
    destruct (match_evs _ _ _ _ _ _ Hnext) as (evs2 & Hevs2 & _).
    destruct (match_event_run l _ _ _ _ p1 evs2 Hnext) as (p2 & E2 & Eev2 & Es & Eb & Ew & Hef2); try done.
    { destruct Hm1; split; [done|lia]. }
    rewrite (bind_ok _ _ _ _ _ E2). unfold ret at 1.
    assert (sweeping l (traded q z o) g1 own (l1 ++ l2) p2) as Hsw2.
    { eapply sweeping_ext; [exact Hnext|done..|]. rewrite (ef_gen _ _ _ Hef2). lia. }
    destruct (IH n ltac:(lia) l _ _ _ _ p2 Hlen' Hsw2) as (p' & o' & E3 & Eev3 & Hsp & Hrb2); try done.
    { by apply (ef_mgr _ _ _ Hef2). }
    { unfold pending. rewrite Hevs2 by done. cbn. rewrite <- Eev2. by destruct (p_world p2). }
    exists p', o'. split; [done|]. split; [done|]. split.
    2:{ apply (rebooked_step o (traded q z o) o' own l1 e l2 p p2 p'); try apply traded_terms; try done.
        - lia.
        - intros x Hx. rewrite (openq_ext _ _ _ Es). by apply Hrest.
        - change (openq (p_world p0) e ≠ 0). lia.
        - rewrite (openq_kept l o g own l1 e l2 cl c p0 p2 p' (traded q z o) o'); try done; [rewrite (openq_ext _ _ _ Es); lia|].
          rewrite Es. apply Hef.
        - by apply (rebooked_ext o own _ p p1). }
    eapply (swept_trade l o g own l1 e l2 cl c z p p2); try done.
    + by rewrite (openq_ext _ _ _ Es).
    + intros x Hx. rewrite (openq_ext _ _ _ Es). by apply Hrest.
    + rewrite Es. apply Hef.
    + unfold heap_at in *. rewrite Es. apply Hoth.
    + left. lia.
Qed.

Lemma processDeferedEvent_mono n m p r : processDeferedEvent sv_order now n p = Some r → (n <= m)%nat →
  processDeferedEvent sv_order now m p = Some r.
Proof.
  revert m p. induction n as [|n IH]; intros m p H Hm; simpl in H.
  - destruct m; simpl; by destruct (w_events (p_world p)).
  - destruct m as [|m]; [lia|]. simpl. destruct (w_events (p_world p)); [done|].
    match type of H with context [bind ?a ?b ?x] => destruct (bind a b x) as [[]?] end; [|done..].
    apply IH; [done|lia].
Qed.

(** ** Orders that refuse the trade *)

(** A machine in any other state of the first region has no row for a trade. *)
Definition refuses_trades (o : OrderEntry) (z : State * State) : Prop :=
  o_smp o = persistence z ∧ rows z.1 KTradeExecution = [] ∧ rows z.2 KTradeExecution = [].

Lemma restored_persistence z : restored_zones (persistence z) = Some z.
Proof. unfold restored_zones, persistence. cbn. rewrite !enum_of_code_code. by destruct z. Qed.

Lemma execute_trade_refused p tp o z : heap_at (p_world p) (td_order tp) = Some o → refuses_trades o z →
  execute_trade sv_order now tp p = (Ok tt, p).
Proof.
  intros Ho (Hs & H1 & H2). unfold execute_trade. rewrite (bind_ok _ _ _ _ _ (on_w_deref p _ o Ho)).
  unfold process_TradeExecution, process_order. rewrite (bind_ok _ _ _ _ _ (on_w_deref p _ o Ho)), Hs, restored_persistence.
  unfold process_on. set (e := onTradeExecution _ _).
  rewrite (process_event_ok e z (mkFrame (p_world p) (Some (td_order tp)) None) z
    (mkFrame (p_world p) (Some (td_order tp)) None)).
  2:{ unfold msm_run. rewrite !region_none by done. by destruct z. }
  cbn [fst snd f_world f_orderData]. unfold on_w. cbn [p_world p_mgr].
  rewrite (assign_some _ _ _ _ Ho). cbn [fst snd]. rewrite <- Hs.
  assert (set_smp (o_smp o) o = o) as -> by (by destruct o).
  unfold set_heap. rewrite insert_id by done. f_equal. by destruct p as [[[] ? ? ? ? ? ? ? ? ?] ?].
Qed.

Lemma execution_refused p l tp c z : heap_at (p_world p) (td_order tp) = Some c → refuses_trades c z →
  0 < td_lastQty tp → px_ltb px0 (td_lastPx tp) = true →
  ExecutionDefered_execute sv_order now l [tp] p = (Ok tt, p).
Proof.
  intros Hc Hz Hq Hpx. unfold ExecutionDefered_execute. cbn [length Nat.ltb Nat.leb]. unfold assert_ at 1.
  rewrite ret_bind. cbn [execute_trades]. rewrite (proj2 (Z.ltb_lt _ _) Hq), Hpx.
  unfold bind at 1. cbn [assert_]. rewrite !ret_bind, (bind_ok _ _ _ _ _ (on_w_deref p _ c Hc)).
  rewrite (bind_ok _ _ _ _ _ (execute_trade_refused p tp c z Hc Hz)).
  rewrite (bind_ok _ _ _ _ _ (on_w_deref p _ c Hc)), Z.ltb_irrefl. done.
Qed.

(** The order found first refuses the trade, and the order to match wants more
    than it offers. *)
Record stalled (l : loc) (o c : OrderEntry) (cl : loc) (id : IdT) p : Prop := {
  st_at : heap_at (p_world p) l = Some o;
  st_qty : is_u32 (o_leavesQty o) ∧ is_u32 (o_leavesQty c);
  st_found : Book.find (OrderMatcher.FindOpositeOrder o (w_store (p_world p))) (w_book (p_world p)) = Ok id;
  st_valid : isValidId id = true;
  st_located : OrderStore.locateByOrderId id (w_store (p_world p)) = Some cl;
  st_there : heap_at (p_world p) cl = Some c;
  st_price : px_ltb px0 (o_price c) = true;
  st_more : 0 < o_leavesQty c < o_leavesQty o;
  st_refuses : ∃ z, refuses_trades c z;
  st_events : w_events (p_world p) = OrderMatcher.trade_events l o c cl;
}.

Lemma px_pos_nonzero px : px_ltb px0 px = true → px_eqb px px0 = false.
Proof.
  unfold px_eqb, px_ltb. destruct (px_isnan px0), (px_isnan px); try done. cbn.
  intros. case_bool. apply Z.eqb_neq. lia.
Qed.

Lemma stalled_round l o c cl id p : stalled l o c cl id p → mgr_ok 2 p → TransactionMgr.clock_ok now →
  ∃ p', run_batch sv_order now (w_events (p_world p)) (set_evs [] p) = (Ok tt, p') ∧
    stalled l o c cl id p' ∧ w_store (p_world p') = w_store (p_world p) ∧
    ∀ k, mgr_ok (2 + k) p → mgr_ok k p'.
Proof.
  intros Hst Hm Hnow. destruct Hst as [Ho [Hqo Hqc] Hf Hv Hl Hc Hpx Hmore [z Hz] Hev].
  rewrite Hev. unfold OrderMatcher.trade_events. rewrite decide_False by lia. cbn [run_batch].
  set (w := p_world p) in *. set (p0 := mkProc (set_scope TransactionScope.empty (w_newOp w) (set_events [] w)) (p_mgr p)).
  destruct Hm as [(c0 & Hi & Hc0) Hg]. fold w in Hc0, Hg.
  destruct (submit_run p0 []) as (m1 & E1 & Hi1); [split; [by exists c0|cbn; lia]|done..|].
  rewrite (bind_ok _ _ _ tt (mkProc (set_scope TransactionScope.empty (w_newOp w)
    (set_store (w_store w) (w_gen w + 1) (set_events [] w))) m1)).
  2:{ unfold onDeferedEvent. rewrite (bind_ok _ _ (set_evs [] p) tt p0) by done.
      rewrite (bind_ok _ _ p0 tt p0); [exact E1|].
      apply (execution_refused p0 l _ c z); [done|done|cbn; lia|done]. }
  set (p1 := mkProc _ m1).
  destruct (submit_run (mkProc (set_events (OrderMatcher.trade_events l o c cl) (p_world p1)) m1) [])
    as (m2 & E2 & Hi2); [split; [by exists (w_gen w + 1)|cbn; lia]|done..|].
  eexists. split.
  { unfold bind at 1, onDeferedEvent. rewrite (bind_ok _ _ p1 tt p1) by done.
    rewrite (bind_ok _ _ p1 tt (mkProc (set_events (OrderMatcher.trade_events l o c cl) (p_world p1)) m1)).
    - rewrite E2. reflexivity.
    - unfold MatchOrderDefered_execute, on_w. rewrite (OrderMatcher.match_order_found _ l o id c cl) by done.
      by rewrite (px_pos_nonzero _ Hpx). }
  split; [by split; eauto|]. split; [done|]. intros k [_ Hk]. fold w in Hk. split; [|cbn; lia].
  exists (w_gen w + 1 + 1). split; [done|]. cbn. lia.
Qed.

(** ** Properties *)

(** C3: the deferred events of a matched limit order come to an end and do what
    matching promises, when everything matched can trade ([sweeping]): the order
    rests in its own side and is open, it and every order resting on the other side have consistent quantities, an
    execution list and a machine that takes trades, the resting ones are stored under their entries with a
    positive price, and identifiers and clock allow the transactions.  With as
    many rounds as there are resting orders on the other side the loop then returns
    normally, nothing is left enqueued, the quantity the order traded is exactly
    what the resting orders traded, they traded only at prices the order reaches
    and in price-time priority, nobody else changed, and the order is completely
    filled or nothing it reaches is open any more; the entries that were traded
    out, and the order once it is filled, are gone from the book and the rest of
    it stands as before.  (Without a machine that takes trades the loop need not end:
    [refusing_order_stalls_matching].) *)
Theorem sweep_terminates l o g own bk p fuel : sweeping l o g own bk p →
  mgr_ok (4 * Z.of_nat (length bk)) p → TransactionMgr.clock_ok now → pending l p →
  (length bk <= fuel)%nat →
  ∃ p' o', processDeferedEvent sv_order now fuel p = Some (Ok tt, p') ∧ w_events (p_world p') = [] ∧
    swept l o bk p p' o' ∧ rebooked o own bk p p' o'.
Proof.
  intros Hsw Hm Hnow Hp Hfuel.
  destruct (sweep_chain (length bk) l o g own bk p eq_refl Hsw Hm Hnow Hp) as (p' & o' & E & H).
  exists p', o'. split; [by eapply processDeferedEvent_mono|done].
Qed.

(** An order whose machine refuses trades but which still rests in the book
    stalls the matching: when it is the best order for an order that wants more
    than it offers, every round applies nothing and enqueues the same events
    again, so the loop does not end for as long as identifiers last.  Such an
    order is in the book from its suspension, expiry or end of day until the
    transaction that removes it runs, which waits for earlier transactions of
    the instrument. *)
Theorem refusing_order_stalls_matching l o c cl id p n : stalled l o c cl id p →
  mgr_ok (2 * Z.of_nat n) p → TransactionMgr.clock_ok now →
  processDeferedEvent sv_order now n p = None.
Proof.
  revert p. induction n as [|n IH]; intros p Hst Hm Hnow.
  - simpl. rewrite (st_events _ _ _ _ _ _ Hst). done.
  - destruct (stalled_round l o c cl id p Hst) as (p' & E & Hst' & _ & Hk); [|done|].
    { destruct Hm. split; [done|lia]. }
    cbn [processDeferedEvent]. destruct (w_events (p_world p)) eqn:Ev.
    { by rewrite (st_events _ _ _ _ _ _ Hst) in Ev. }
    rewrite E. apply IH; [done| |done]. apply Hk. replace (2 + 2 * Z.of_nat n) with (2 * Z.of_nat (S n)) by lia. done.
Qed.
End trade.
(** ** Witnesses: a sell order for 60 at 100 against buys of 20 and 30 at 101 and
    of 10 at 99 *)

Definition ex_saver : OrderEntry → M unit unit := λ _, ret tt.
#[export] Instance ex_backend : Backend (SO := unit) (SD := unit) ex_saver 1000 := msm_backend ex_saver 1000.
Definition ex_smp (z : State) : OrderEntry → OrderEntry := set_smp (persistence (z, NoCnlReplace)).
Definition ex_order (n : Z) (sd : Side) (px : Z) : OrderEntry := ex_smp New (Book.ex_order n sd px).
Definition ex_sell : OrderEntry := ex_order 6 SELL_SIDE 100.
Definition ex_ops : list Book.BookOp :=
  [Book.OpAdd (ex_order 1 BUY_SIDE 99); Book.OpAdd (ex_order 2 BUY_SIDE 101);
   Book.OpAdd (ex_order 3 BUY_SIDE 101); Book.OpAdd ex_sell].
Definition ex_book : Book.OrderBookImpl unit :=
  Book.exec_ops ex_saver ex_ops (Book.init {[Book.ex_instr]} tt (Book.empty_book unit)).2.
Definition ex_group : Book.OrdersGroup :=
  Book.mkGroup [(px_of_pos 101, mkIdT 2 1); (px_of_pos 101, mkIdT 3 1); (px_of_pos 99, mkIdT 1 1)]
    [(px_of_pos 100, mkIdT 6 1)].
(** [st] is the state of the machine of order 2. *)
Definition ex_store (st : State) : OrderStore.t unit :=
  OrderStore.mkStore
    {[0%nat := ex_sell; 1%nat := ex_order 1 BUY_SIDE 99; 2%nat := ex_smp st (ex_order 2 BUY_SIDE 101);
      3%nat := ex_order 3 BUY_SIDE 101]}
    4%nat {[mkIdT 1 1 := 1%nat; mkIdT 2 1 := 2%nat; mkIdT 3 1 := 3%nat; mkIdT 6 1 := 0%nat]} ∅ ∅ None.
Definition ex_wide : WideData.t unit := WideData.mkWide 20 ∅ ∅ ∅ ∅ ∅ {[IdT0 := []]} ∅ ∅ None.
Definition ex_proc (st : State) : Processor.t unit unit :=
  mkProc (mkWorld (ex_store st) 50 ex_book ex_wide TransactionScope.empty 0%nat
    [ExecutionDefered 0%nat [mkTP 20 (px_of_pos 101) 2%nat]; MatchOrderDefered 0%nat] ∅ [] [])
    (TransactionMgr.init 50 TransactionMgr.create).2.

Lemma ex_book_wf : Book.book_wf ex_book.
Proof.
  eapply Book.book_refines_wf, Book.exec_ops_refines; [apply Book.init_refines|repeat constructor].
Qed.

Lemma ex_mgr n st : 0 < n < 1000 → mgr_ok n (ex_proc st).
Proof.
  intros Hn. split; [|cbn; lia]. exists 50. split; [|done]. apply TransactionMgr.init_inv. lia.
Qed.

Lemma ex_rests : Forall (rests Book.ex_instr BUY_SIDE (p_world (ex_proc New))) (Book.buyOrder ex_group).
Proof.
  assert (∀ e cl c, OrderStore.locateByOrderId e.2 (ex_store New) = Some cl →
    OrderStore.heap (ex_store New) !! cl = Some c →
    (∃ n px, c = ex_order n BUY_SIDE px ∧ e = (px_of_pos px, mkIdT n 1) ∧ 0 < n < 100 ∧
       px_ltb px0 (px_of_pos px) = true) →
    rests Book.ex_instr BUY_SIDE (p_world (ex_proc New)) e) as H.
  { intros e cl c Hl Hc (n & px & -> & -> & Hn & Hpx). exists cl, (ex_order n BUY_SIDE px).
    split; [done|]. split; [done|]. split; [done|]. cbn [fst snd].
    split; [unfold isValidId; cbn; destruct n; [lia|done|lia]|]. split; [done|]. split; [done|].
    do 3 (split; [done|]). split; [unfold qty_ok, is_u32; cbn; lia|].
    split; [exists (New, NoCnlReplace); split; [by vm_compute|auto]|]. by eexists. }
  repeat (apply Forall_cons; split); try apply Forall_nil_2.
  - apply (H _ 2%nat (ex_order 2 BUY_SIDE 101)); [done..|]. exists 2, 101. by split_and!; try lia.
  - apply (H _ 3%nat (ex_order 3 BUY_SIDE 101)); [done..|]. exists 3, 101. by split_and!; try lia.
  - apply (H _ 1%nat (ex_order 1 BUY_SIDE 99)); [done..|]. exists 1, 99. by split_and!; try lia.
Qed.

Lemma ex_sweeping : sweeping 0%nat ex_sell ex_group (Book.sellOrder ex_group) (Book.buyOrder ex_group) (ex_proc New).
Proof.
  split; try done.
  - split; try done; [|by left].
    exists (New, NoCnlReplace). split; [by vm_compute|auto].
  - apply ex_book_wf.
  - apply ex_rests.
  - repeat (apply NoDup_cons; split; [set_solver|]). apply NoDup_nil_2.
  - intros i [x Hx]. cbn in Hx. by rewrite lookup_empty in Hx.
Qed.

Lemma sweep_terminates_witness :
  (∃ p', processDeferedEvent ex_saver 1000 3 (ex_proc New) = Some (Ok tt, p') ∧
     o_leavesQty <$> heap_at (p_world p') 0%nat = Some 10) ∧
  ∃ p' o', processDeferedEvent ex_saver 1000 3 (ex_proc New) = Some (Ok tt, p') ∧
    swept 0%nat ex_sell (Book.buyOrder ex_group) (ex_proc New) p' o'.
Proof.
  split.
  - eexists. split; [vm_compute; reflexivity|]. vm_compute. reflexivity.
  - destruct (sweep_terminates ex_saver 1000 0%nat ex_sell ex_group (Book.sellOrder ex_group)
      (Book.buyOrder ex_group) (ex_proc New) 3 ex_sweeping (ex_mgr 12 New ltac:(lia))
      ltac:(by vm_compute) ltac:(by vm_compute) ltac:(simpl; lia)) as (p' & o' & E & _ & H & _).
    exists p', o'. split; [exact E|exact H].
Defined.

Lemma refusing_order_stalls_matching_witness :
  processDeferedEvent ex_saver 1000 100 (ex_proc Suspended) = None.
Proof.
  apply (refusing_order_stalls_matching ex_saver 1000 0%nat ex_sell (ex_smp Suspended (ex_order 2 BUY_SIDE 101))
    2%nat (mkIdT 2 1)); [|apply ex_mgr; lia|by vm_compute].
  split; try reflexivity; [split; split; by vm_compute|by vm_compute|].
  exists (Suspended, NoCnlReplace). split; [reflexivity|]. split; reflexivity.
Defined.
End Sweep.
