(* ===== verification/Handlers.v ===== *)
(** What the processor's handlers do with an event of the incoming queue, before
    the deferred events run. *)

From Stdlib Require Import Ascii String ZArith Lia.
From S2P Require Import Prelude Types Doubles IdGen WideData OrderStore OrderBook LinkTree TxScope TxMgr.
From S2P Require Import Engine Queues Matcher StateTable StateActions TrOps Processor Sweep.
Import OrderState OrdStateImpl OrderStateMachine.

Module Handlers.
Import Processor Sweep.

Section theory.
Context {SO SD : Type} (sv_order : OrderEntry → M SO unit) (now : Z)
  `{B : !Backend (SO := SO) (SD := SD) sv_order now}.
Abbreviation W := (World SO SD).
Abbreviation P := (Processor.t SO SD).
Implicit Types (w : W) (p : P) (f : Frame SO SD).

(** ** Events that name an order *)

(** The order an event is about, unless it brings its own. *)
Definition subject (e : InEvent) : option IdT :=
  match e with
  | OrderEvent _ | OrderReplaceEvent _ (Some _) => None
  | OrderCancelEvent id _ | OrderReplaceEvent id None | OrderChangeStateEvent id _
  | TimerEvent id _ => Some id
  | ProcessEv e => Some (pe_id e)
  end.

(** What the handler checks of the identifier itself. *)
Definition checks_id (e : InEvent) : bool := match e with ProcessEv _ => false | _ => true end.

Definition unlocated (e : InEvent) : string :=
  match e with
  | OrderCancelEvent _ _ => "Processor::onEvent(OrderCancelEvent): unable to locate order!"
  | OrderReplaceEvent _ _ => "Processor::onEvent(OrderReplaceEvent): unable to locate order!"
  | OrderChangeStateEvent _ _ => "Processor::onEvent(OrderChangeStateEvent): unable to locate order!"
  | ProcessEv _ => "Processor::onEvent(ProcessEvent): unable to locate order!"
  | TimerEvent _ _ => "Processor::onEvent(TimerEvent): unable to locate order!"
  | OrderEvent _ => EmptyString
  end.

Definition bad_id (e : InEvent) : string :=
  match e with
  | OrderCancelEvent _ _ => "Processor::onEvent(OrderCancelEvent): order id is invalid!"
  | OrderReplaceEvent _ _ => "Processor::onEvent(OrderReplaceEvent): order id is invalid!"
  | OrderChangeStateEvent _ _ => "Processor::onEvent(OrderChangeStateEvent): order id is invalid!"
  | TimerEvent _ _ => "Processor::onEvent(TimerEvent): order id is invalid!"
  | _ => EmptyString
  end.

(** The enumerations of state changes and timers carry a real value. *)
Definition real_kind (e : InEvent) : bool :=
  match e with
  | OrderChangeStateEvent _ ct => bool_decide (ct ≠ INVALID_CHANGE)
  | TimerEvent _ ty => bool_decide (ty ≠ INVALID_TIMER)
  | _ => true
  end.

(** The engine apart from the scope, which is the event's own. *)
Definition untouched p p' : Prop :=
  ∃ n, set_scope TransactionScope.empty n (p_world p') = set_scope TransactionScope.empty n (p_world p) ∧
    p_mgr p' = p_mgr p.

Lemma locate_throws msg id p : OrderStore.locateByOrderId id (w_store (p_world p)) = None →
  locate msg id p = (Throw msg, p).
Proof. intros H. unfold locate, on_w, bind, gets. cbn. rewrite H. by destruct p. Qed.

Lemma scoped_throws {A} (k : loc → M P A) msg id p :
  OrderStore.locateByOrderId id (w_store (p_world p)) = None →
  (begin_scope ;;; l <- locate msg id ;; k l) p =
    (Throw msg, mkProc (set_scope TransactionScope.empty (w_newOp (p_world p)) (p_world p)) (p_mgr p)).
Proof.
  intros H. rewrite (bind_ok begin_scope _ p tt _ eq_refl). apply bind_throw. by apply locate_throws.
Qed.

Lemma untouched_scope p sc n : untouched p (mkProc (set_scope sc n (p_world p)) (p_mgr p)).
Proof. exists n. done. Qed.

(** An event about an order that does not exist is refused and has no effect:
    with an invalid identifier (checked for every event but [ProcessEvent]) or an
    identifier the storage does not know, the handler throws the message of that
    event, no deferred event is run and nothing but the event's own scope
    changes. *)
Theorem unknown_order_refused fuel e id p : subject e = Some id → real_kind e = true →
  w_events (p_world p) = [] →
  (checks_id e = true ∧ isValidId id = false →
     onEvent sv_order now fuel e p = Some (Throw (bad_id e), p)) ∧
  ((checks_id e = true → isValidId id = true) → OrderStore.locateByOrderId id (w_store (p_world p)) = None →
     ∃ p', onEvent sv_order now fuel e p = Some (Throw (unlocated e), p') ∧ untouched p p').
Proof.
  intros Hs Hk He. unfold onEvent, then_deferred. split.
  - intros [Hc Hv]. destruct e as [|i r|i [r|]|i ct|pe|i ty]; simplify_eq/=;
      unfold handle, onOrderCancelEvent, onOrderReplaceEvent, onOrderChangeStateEvent, onTimerEvent;
      by rewrite Hv.
  - intros Hv Hl. destruct e as [|i r|i [r|]|i ct|pe|i ty]; simplify_eq/=;
      unfold handle, onOrderCancelEvent, onOrderReplaceEvent, onOrderChangeStateEvent, onTimerEvent, onProcessEvent;
      try rewrite (Hv eq_refl); lazy iota beta delta [negb]; case_bool;
      try (rewrite (bool_decide_eq_false_2) by done); cbn [unlocated].
    + rewrite scoped_throws by done. eexists. split; [done|]. apply untouched_scope.
    + rewrite (bind_ok begin_scope _ p tt _ eq_refl). erewrite bind_throw by (apply bind_throw, locate_throws; exact Hl).
      eexists. split; [done|]. apply untouched_scope.
    + rewrite scoped_throws by done. eexists. split; [done|]. apply untouched_scope.
    + rewrite (bind_ok _ _ p (p_world p) p) by (by destruct p). rewrite He. cbn [assert_]. rewrite ret_bind.
      rewrite scoped_throws by done. eexists. split; [done|]. apply untouched_scope.
    + rewrite scoped_throws by done. eexists. split; [done|]. apply untouched_scope.
Qed.
(** ** A new order *)

(** The operations of an accepted limit order's transaction. *)
Definition order_ops (n : nat) (l : loc) (o : OrderEntry) : list TrOp :=
  [MatchOrder n l (o_orderId o); AddToOrderBook l (o_orderId o) (o_instrument o);
   CreateExecReport NEW_ORDSTATUS NEW_EXECTYPE (o_orderId o)].

(** The state once the machine has received the order. *)
Definition received f (o : OrderEntry) (l : loc) (s' : OrderStore.t SO) (c' : Z) : W :=
  let w := f_world f in let a := accepted now f o in
  set_scope (TransactionScope.mkScope (TransactionScope.operations (w_scope w) ++ order_ops (w_newOp w) l a)
      (TransactionScope.stageBoundaries (w_scope w)) (TransactionScope.ts_id (w_scope w))
      (TransactionScope.arenaOffset (w_scope w))) (S (w_newOp w)) (stored now f o l s' c').

Lemma accepted_again f o : set_status NEW_ORDSTATUS (accepted now f o) = accepted now f o.
Proof. unfold accepted. by destruct (OrderStore.saved o now (w_gen (f_world f))). Qed.

Lemma receive_msm order f o l s' c' : f_orderData f = None → order_of f order = Some o →
  WideData.OrderEntry_isValid o (w_wide (f_world f)) = None → saves_as sv_order now f o l s' c' →
  is_market o = false →
  msm_run sv_order now (onOrderReceived (ev_base true) order) initial_state f =
    Some ((New, NoCnlReplace), mkFrame (received f o l s' c') (Some l) (Some l)).
Proof.
  intros Hd Ho Hv Hs Hm. unfold msm_run. unfold region at 1. cbn [kind initial_state fst].
  change (rev (rows Rcvd_New KOrderReceived)) with [a_row Rcvd_New KOrderReceived New Areceive].
  cbn [select_row r_guard a_row r_act r_tgt run_action]. unfold bind at 1, ret at 1.
  assert (is_market (accepted now f o) = false) as Hm' by (by destruct o).
  assert (∀ f1, processReceive_order sv_order now (ev_base true) order f = (Ok tt, f1) →
    f_orderData f1 = Some l → receive_order sv_order now no_raise (ev_base true) order f =
      (Ok tt, mkFrame (f_world f1) (Some l) (Some l))) as Hrec.
  { intros f1 E E1. unfold receive_order. cbn [ev_base eb_test]. unfold getData, gets, bind at 1. rewrite Hd.
    unfold bind at 1. rewrite bool_decide_eq_true_2 by done. cbn [assert_ ret].
    unfold action_or_raise, catch. rewrite (bind_ok _ _ _ _ _ E). unfold mark, modify. by rewrite E1. }
  eassert (processReceive_order sv_order now (ev_base true) order f = (Ok tt, mkFrame _ (Some l) (f_order4 f))) as E.
  { rewrite (receive_run sv_order now (ev_base true) order f o l s' c') by done.
    unfold on_world, check_market, add_match_ops. rewrite Hm'. cbn [f_world when f_orderData f_order4].
    rewrite (bind_ok _ _ _ tt (stored now f o l s' c')) by done.
    rewrite (bind_ok _ _ _ _ _ (deref_some _ _ _ (stored_at now f o l s' c'))). rewrite Hm'. reflexivity. }
  unfold bind at 1. cbn [r_act r_tgt a_row run_action]. rewrite (Hrec _ E eq_refl).
  cbn [f_world on_entry New_on_entry]. unfold bind at 1.
  rewrite (entry_eq _ _ _ _ l (accepted now f o)) by (try done; apply lookup_insert_eq).
  rewrite accepted_again. unfold ret at 1. rewrite region_none by done. cbn [default snd].
  unfold received. do 3 f_equal. cbn. unfold set_heap. cbn. rewrite insert_insert_eq. unfold TransactionScope.addOperation. cbn. rewrite <- !app_assoc. done.
Qed.
Lemma related_order_ops n l a b i off : isValidId (o_orderId a) = true → isValidId (o_instrument a) = true →
  o_orderId a ≠ o_instrument a →
  TransactionScope.related (TransactionScope.mkScope (order_ops n l a) b i off) =
    Ok [mkObj order_ObjectType (o_orderId a); mkObj instrument_ObjectType (o_instrument a)].
Proof.
  intros H1 H2 Hne. unfold TransactionScope.related, order_ops.
  cbn [TransactionScope.operations TransactionScope.related_loop getObjectId getRelatedId TrOp_Operation].
  rewrite H1, H2. change (isValidId IdT0) with false. lazy beta iota delta [negb].
  unfold TransactionScope.note_object. cbn [existsb]. cbn -[IdT_eqb].
  rewrite (proj2 (IdT_eqb_spec (o_orderId a) (o_orderId a)) eq_refl). cbn -[IdT_eqb].
  rewrite (proj2 (NLinkTree.IdT_eqb_false (o_instrument a) (o_orderId a))) by congruence. cbn -[IdT_eqb].
  by rewrite (proj2 (IdT_eqb_spec (o_orderId a) (o_orderId a)) eq_refl).
Qed.

(** The state the handler leaves: the stored order has its machine, the next identifier
    went to the transaction. *)
Definition handled_world f (o : OrderEntry) (l : loc) (s' : OrderStore.t SO) (c' : Z) : W :=
  let w1 := received f o l s' c' in
  let w2 := set_store (set_heap l (set_smp (persistence (New, NoCnlReplace)) (accepted now f o)) (w_store w1)) (w_gen w1) w1 in
  set_scope TransactionScope.empty (w_newOp w2) (set_store (w_store w2) (c' + 1) w2).

Lemma order_event_run order o l s' c' p fuel :
  let w := p_world p in
  let f := mkFrame (set_scope TransactionScope.empty (w_newOp w) w) None None in
  let a := accepted now f o in
  heap_at w order = Some o → w_events w = [] → WideData.OrderEntry_isValid o (w_wide w) = None →
  saves_as sv_order now f o l s' c' → is_market o = false →
  isValidId (o_orderId a) = true → isValidId (o_instrument a) = true → o_orderId a ≠ o_instrument a →
  w_gen w <= c' → mgr_ok (1 + (c' - w_gen w)) p → TransactionMgr.clock_ok now →
  let i := mkIdT c' (wrap32 now) in
  ∃ m sc, onEvent sv_order now fuel (OrderEvent (Some order)) p = Some (Ok tt, mkProc (handled_world f o l s' c') m) ∧
    TransactionMgr.Inv m (c' + 1) ∧ (∀ k, TransactionMgr.live m k ↔ k = i ∨ TransactionMgr.live (p_mgr p) k) ∧
    (∀ k ob, TransactionMgr.uses m k ob ↔
       (k = i ∧ ob ∈ [mkObj order_ObjectType (o_orderId a); mkObj instrument_ObjectType (o_instrument a)]) ∨
       TransactionMgr.uses (p_mgr p) k ob) ∧
    NLinkTree.value <$> NLinkTree.keys (TransactionMgr.transactionTree m) !! i = Some sc ∧
    TransactionScope.operations sc = order_ops (w_newOp w) l a.
Proof.
  intros w f a Ho He Hv Hs Hm Hia Hii Hne Hc' Hmgr Hnow i.
  unfold onEvent, then_deferred, handle, onOrderEvent.
  rewrite (bind_ok _ _ p tt p) by (unfold no_events, on_w, bind, gets; cbn; fold w; rewrite He; by destruct p).
  set (p0 := mkProc (set_scope TransactionScope.empty (w_newOp w) w) (p_mgr p)).
  rewrite (bind_ok _ _ p tt p0) by done.
  set (w1 := received f o l s' c').
  assert (heap_at w1 l = Some a) as Ha by apply lookup_insert_eq.
  set (w2 := set_store (set_heap l (set_smp (persistence (New, NoCnlReplace)) a) (w_store w1)) (w_gen w1) w1).
  rewrite (bind_ok _ _ p0 tt (mkProc w2 (p_mgr p))).
  2:{ unfold process_on. rewrite (process_event_ok _ _ _ _ _ (receive_msm order f o l s' c' eq_refl Ho Hv Hs Hm)).
      cbn [fst snd f_orderData f_world]. unfold on_w. cbn [p_world p_mgr]. fold w1.
      rewrite (assign_some _ _ _ _ Ha). done. }
  destruct Hmgr as [(c0 & Hi & Hc0) Hg]. fold w in Hc0, Hg.
  destruct (submit_full now (mkProc w2 (p_mgr p)) [mkObj order_ObjectType (o_orderId a);
    mkObj instrument_ObjectType (o_instrument a)]) as (m & E & Hinv & Hl & Hu & Hval); try done.
  { split; [exists c0; split; [done|cbn; lia]|cbn; lia]. }
  { by apply related_order_ops. }
  rewrite E. cbn [p_world] in *. eexists m, _. split.
  { destruct fuel; simpl; by rewrite He. }
  split; [exact Hinv|]. split; [exact Hl|]. split; [exact Hu|]. split; [exact Hval|done].
Qed.

(** A valid limit order is accepted: the handler stores it, leaves its machine
    in [New], and submits one transaction that uses the order and its instrument
    and will match the stored copy, put it into the book and report it; the book
    and the other orders do not change yet and nothing is deferred. *)
Theorem order_event_accepted order o l s' c' p fuel :
  let w := p_world p in
  let f := mkFrame (set_scope TransactionScope.empty (w_newOp w) w) None None in
  let a := accepted now f o in
  heap_at w order = Some o → w_events w = [] → WideData.OrderEntry_isValid o (w_wide w) = None →
  saves_as sv_order now f o l s' c' → is_market o = false →
  isValidId (o_orderId a) = true → isValidId (o_instrument a) = true → o_orderId a ≠ o_instrument a →
  w_gen w <= c' → mgr_ok (1 + (c' - w_gen w)) p → TransactionMgr.clock_ok now →
  let i := mkIdT c' (wrap32 now) in
  ∃ p', onEvent sv_order now fuel (OrderEvent (Some order)) p = Some (Ok tt, p') ∧
    heap_at (p_world p') l = Some (set_smp (persistence (New, NoCnlReplace)) a) ∧
    OrderStore.locateByOrderId (o_orderId a) (w_store (p_world p')) = Some l ∧
    (∀ l0 x, heap_at w l0 = Some x → heap_at (p_world p') l0 = Some x) ∧
    w_book (p_world p') = w_book w ∧ w_events (p_world p') = [] ∧
    TransactionMgr.live (p_mgr p') i ∧
    (∀ ob, TransactionMgr.uses (p_mgr p') i ob ↔ TransactionMgr.uses (p_mgr p) i ob ∨
       ob = mkObj order_ObjectType (o_orderId a) ∨ ob = mkObj instrument_ObjectType (o_instrument a)) ∧
    (∃ tr, NLinkTree.value <$> NLinkTree.keys (TransactionMgr.transactionTree (p_mgr p')) !! i = Some tr ∧
       TransactionScope.operations tr = order_ops (w_newOp w) l a).
Proof.
  intros w f a Ho He Hv Hs Hm Hia Hii Hne Hc' Hmgr Hnow i.
  destruct (order_event_run order o l s' c' p fuel Ho He Hv Hs Hm Hia Hii Hne Hc' Hmgr Hnow)
    as (m & sc & E & _ & Hl & Hu & Hval & Hops).
  eexists. split; [exact E|]. split; [apply lookup_insert_eq|].
  pose proof Hs as (Hw & Hc & Hok & Hsv).
  destruct (OrderStore.save_returns _ _ _ _ _ _ _ _ Hw Hc Hok Hsv) as (_ & _ & Hloc).
  split; [|split; [|split; [done|split; [done|]]]].
  - cbn. cbn in Hloc. rewrite <- Hloc. unfold a, accepted, OrderStore.locateByOrderId. cbn. by destruct o.
  - intros l0 x Hx. destruct (stored_old sv_order now f o l s' c' l0 x Hs Hx) as [Hnl Hx'].
    unfold heap_at in *. cbn. cbn in Hx'. by rewrite lookup_insert_ne.
  - split; [by apply Hl; left|]. split.
    + intros ob. rewrite Hu. set_solver.
    + by exists sc.
Qed.
End theory.
(** ** The average price *)

(** The base order's price is computed as (quantity x price) / quantity in
    double arithmetic, so even for a single trade it need not be the traded price:
    a trade of 3 at 0.05 is reported to the resting order at 0.05 and to the
    matched order at the next double above it. *)
Theorem base_price_rounded :
  let px := px_div (px_of_pos 1) (px_of_pos 20) in
  let r := ExecutionDefered_execute Sweep.ex_saver 1000 0%nat [mkTP 3 px 2%nat] (ex_proc New) in
  r.1 = Ok tt ∧
  (λ op, match op with CreateTradeExecReport t _ i => Some (id_ i, tp_lastQty t, tp_lastPx t) | _ => None end) <$>
    TransactionScope.operations (w_scope (p_world r.2)) = [Some (2, 3, px); Some (6, 3, px + 1)].
Proof. by vm_compute. Qed.

(** ** Witnesses *)

Definition ex_p (bk : Book.OrderBookImpl unit) (o : OrderEntry) : Processor.t unit unit :=
  mkProc (f_world (ex_frame bk o None)) (TransactionMgr.init 100 TransactionMgr.create).2.

Lemma order_event_accepted_witness : let o := OrderStateMachine.ex_order LIMIT_ORDERTYPE in
  ∃ p', onEvent OrderStateMachine.ex_saver 1000 5 (OrderEvent (Some 0%nat)) (ex_p ex_empty_book o) = Some (Ok tt, p') ∧
    w_events (p_world p') = [] ∧ TransactionMgr.live (p_mgr p') (mkIdT 101 1000).
Proof.
  intros o.
  destruct (order_event_accepted (B := msm_backend OrderStateMachine.ex_saver 1000) OrderStateMachine.ex_saver 1000 0%nat o 1%nat
    (ex_saved ex_empty_book o).1 101 (ex_p ex_empty_book o) 5) as (p' & E & _ & _ & _ & _ & He & Hl & _); try done.
  - apply (ex_saves ex_empty_book o). by left.
  - split; [|cbn; lia]. exists 100. split; [apply TransactionMgr.init_inv; lia|done].
  - exists p'. split; [exact E|]. split; [exact He|exact Hl].
Defined.

Lemma unknown_order_refused_witness : let p := ex_p ex_empty_book (OrderStateMachine.ex_order LIMIT_ORDERTYPE) in
  onEvent Sweep.ex_saver 1000 1 (OrderCancelEvent IdT0 "") p =
    Some (Throw "Processor::onEvent(OrderCancelEvent): order id is invalid!", p) ∧
  ∃ p', onEvent Sweep.ex_saver 1000 1 (TimerEvent (mkIdT 5 5) EXPIRATION) p =
    Some (Throw "Processor::onEvent(TimerEvent): unable to locate order!", p') ∧ untouched p p'.
Proof.
  intros p. split.
  - exact (proj1 (unknown_order_refused Sweep.ex_saver 1000 1 (OrderCancelEvent IdT0 "") IdT0 p
      eq_refl eq_refl eq_refl) (conj eq_refl eq_refl)).
  - exact (proj2 (unknown_order_refused Sweep.ex_saver 1000 1 (TimerEvent (mkIdT 5 5) EXPIRATION) (mkIdT 5 5) p
      eq_refl eq_refl eq_refl) (λ _, eq_refl) eq_refl).
Defined.
End Handlers.
