(* ===== verification/EndToEnd.v ===== *)
(** A new order from the incoming queue to its last trade: the handler of the event
    ([Processor::onEvent]), the transaction it submits ([Processor::process]) and the
    matching, composed. *)

From Stdlib Require Import Ascii String ZArith Lia.
From S2P Require Import Prelude Types Doubles IdGen WideData OrderStore OrderBook LinkTree TxScope TxMgr.
From S2P Require Import Engine Queues Matcher StateTable StateActions TrOps Processor Sweep Handlers.
Import OrderState OrdStateImpl OrderStateMachine.

Module EndToEnd.
Import TrOperations Processor Sweep Handlers.

Section theory.
Context {SO SD : Type} (sv_order : OrderEntry → M SO unit) (now ctime : Z)
  `{B : !Backend (SO := SO) (SD := SD) sv_order now}.
Abbreviation W := (World SO SD).
Abbreviation P := (Processor.t SO SD).
Implicit Types (w : W) (p : P).

(** ** The book after the insertion *)

Lemma group_insert_wf o g g' : Book.group_wf g → px_isnan (o_price o) = false → Book.group_insert o g = Some g' → Book.group_wf g'.
Proof.
  intros [Hb Hs] Hp E. unfold Book.group_insert in E. destruct (o_side o); try done; injection E as <-; split; cbn; try done;
    by apply (Multimap.insert_wf _).
Qed.

Lemma group_insert_sides o g g' bk : Book.group_insert o g = Some g' → Book.side_orders (OrderMatcher.oposite_side o) g = Some bk →
  Book.side_orders (OrderMatcher.oposite_side o) g' = Some bk ∧
  ∃ own, Book.side_orders (o_side o) g' = Some own ∧ (o_price o, o_orderId o) ∈ own.
Proof.
  unfold Book.group_insert, OrderMatcher.oposite_side. destruct (o_side o); try done; intros E; injection E as <-; cbn;
    (split; [done|]; eexists; split; [done|]; rewrite Multimap.insert_perm; by left).
Qed.

Lemma find_same_side f (b b' : Book.OrderBookImpl SO) g g' : Book.orderGroups b !! Book.fn_instrument f = Some g →
  Book.orderGroups b' !! Book.fn_instrument f = Some g' →
  Book.side_orders (Book.fn_side f) g' = Book.side_orders (Book.fn_side f) g → Book.find f b' = Book.find f b.
Proof. unfold Book.find. intros -> -> E. destruct (Book.fn_side f); try done; by injection E as ->. Qed.

(** ** A report *)

(** What the report of an order leaves: one execution more, and one text sent. *)
Record report_frame w w' (i : IdT) (src : StringT) : Prop := {
  rp_heap : OrderStore.heap (w_store w') = OrderStore.heap (w_store w);
  rp_ids : OrderStore.ordersById (w_store w') = OrderStore.ordersById (w_store w);
  rp_book : w_book w' = w_book w;
  rp_events : w_events w' = w_events w;
  rp_gen : w_gen w' = w_gen w + 1;
  rp_lists x : is_Some (WideData.executions (w_wide w) !! x) → is_Some (WideData.executions (w_wide w') !! x);
  rp_execs : execs_below w → execs_below w';
  rp_out : w_out w' = w_out w ++ [OutExecReport i src];
}.

Lemma report_run w l o src e : OrderStore.locateByOrderId (o_orderId o) (w_store w) = Some l → heap_at w l = Some o →
  WideData.getString (o_source o) (w_wide w) = Ok src → is_Some (WideData.executions (w_wide w) !! o_executions o) →
  isValidId (ex_execId (ExecutionEntry_clone e)) = false → execs_below w → 0 < w_gen w → w_gen w + 1 < 2 ^ 64 →
  ∃ w', processEvent_GenerateExecution now (o_orderId o) e w = (Ok tt, w') ∧ report_frame w w' (new_exec now w) src.
Proof.
  intros Hl Ho Hsrc [es Hes] He Hb H0 Hg. pose proof (fresh_exec now w Hb) as Hf.
  unfold processEvent_GenerateExecution. rewrite (bind_ok (gets _) _ w w w eq_refl). rewrite Hl.
  rewrite (bind_ok (nonnull (Some l)) _ w l w eq_refl), (bind_ok _ _ w o w (deref_some _ _ _ Ho)), Hsrc.
  rewrite (bind_ok (lift (Ok src)) _ w src w eq_refl).
  unfold OrderStore.locateByExecId in Hf.
  assert (on_store (OrderStore.saveExec e now) w = (Ok (set_execId (new_exec now w) (ExecutionEntry_clone e)),
    set_store (OrderStore.put_exec (new_exec now w) (set_execId (new_exec now w) (ExecutionEntry_clone e)) (w_store w)) (w_gen w + 1) w)) as E.
  { unfold on_store, OrderStore.saveExec. rewrite He. unfold bind, OrderStore.newId, gets, modify, ret. cbn -[new_exec].
    unfold new_exec in *. cbn in *. rewrite Hf. cbn. by rewrite wrap64_small by (unfold is_u64; lia). }
  rewrite (bind_ok _ _ _ _ _ E).
  set (w1 := set_store _ _ w) in *. cbn [ex_execId set_execId].
  assert (WideData.executions (w_wide w1) !! o_executions o = Some es) as Hes1 by done.
  eexists. split.
  { unfold bind at 1, on_wide, WideData.pushExecution. rewrite Hes1. reflexivity. }
  split; try done.
  - intros x Hx. cbn. destruct (w_wide w); cbn in *.
    destruct (decide (o_executions o = x)) as [<-|Hne]; [rewrite lookup_insert_eq; by eexists|by rewrite lookup_insert_ne].
  - intros _ j Hj. cbn in *. destruct (decide (new_exec now w = j)) as [<-|Hne]; [unfold new_exec; cbn; lia|].
    rewrite lookup_insert_ne in Hj by done. specialize (Hb j Hj). lia.
Qed.

(** ** The transaction of an accepted order *)

(** The state in which the transaction runs: the order is stored, open and may trade, it
    fits into the book, its reports can be sent, and what rests on the other side is as
    the matching needs it. *)
Record ready w (l : loc) (o : OrderEntry) (g g' : Book.OrdersGroup) (bk : Multimap.t) : Prop := {
  rd_book : bookable w l o g g';
  rd_at : OrderStore.locateByOrderId (o_orderId o) (w_store w) = Some l;
  rd_qty : qty_ok o;
  rd_open : 0 < o_leavesQty o;
  rd_state : ∃ z, takes_trades o z;
  rd_limit : o_ordType o ≠ MARKET_ORDERTYPE;
  rd_list : is_Some (WideData.executions (w_wide w) !! o_executions o);
  rd_src : ∃ src, WideData.getString (o_source o) (w_wide w) = Ok src;
  rd_saver : ∀ s, (sv_order o s).1 = Ok tt;
  rd_opp : Book.side_orders (OrderMatcher.oposite_side o) g = Some bk;
  rd_rests : Forall (rests (o_instrument o) (OrderMatcher.oposite_side o) w) bk;
  rd_nodup : NoDup bk.*2;
  rd_execs : execs_below w;
  rd_events : w_events w = [];
  rd_gen : 0 < w_gen w;
}.

Lemma add_saved w l o g g' : bookable w l o g g' → (∀ s, (sv_order o s).1 = Ok tt) →
  ∃ s', Book.add sv_order o (w_book w) = (Ok tt, Book.mkBook (<[o_instrument o := g']> (Book.orderGroups (w_book w))) s').
Proof.
  intros [_ _ Hid Hin _ Hg _ Hins] Hs. unfold Book.add, assert_, bind, gets, modify, ret. rewrite Hid, Hin. cbn. rewrite Hg, Hins.
  unfold Book.saver_save, Book.with_groups. cbn. destruct (Book.storage (w_book w)) as [v|]; [|by eexists].
  specialize (Hs v). destruct (sv_order o v) as [r v']. cbn in *. subst r. by eexists.
Qed.

Lemma rests_frame inst sd w w' e : rests inst sd w e →
  (∀ l0 x, heap_at w l0 = Some x → heap_at w' l0 = Some x) →
  (∀ i l0, OrderStore.ordersById (w_store w) !! i = Some l0 → OrderStore.ordersById (w_store w') !! i = Some l0) →
  (∀ x, is_Some (WideData.executions (w_wide w) !! x) → is_Some (WideData.executions (w_wide w') !! x)) → rests inst sd w' e.
Proof.
  intros (cl & c & Hl & Hc & H1 & H2 & H3 & H4 & H5 & H6 & H7 & H8 & H9 & H10) Eh Ei Ex. exists cl, c.
  unfold OrderStore.locateByOrderId in *. split; [by apply Ei|]. split; [by apply Eh|]. unfold resting_order. auto 12.
Qed.

Lemma transaction_run n l o g g' bk p tr i : ready (p_world p) l o g g' bk → w_gen (p_world p) + 1 < 2 ^ 64 →
  isValidId i = true → TransactionScope.operations tr = order_ops n l o →
  ∃ w4 own src, (∀ fuel, process sv_order now ctime fuel i tr p = processDeferedEvent sv_order now fuel (mkProc w4 (p_mgr p))) ∧
    sweeping l o g' own bk (mkProc w4 (p_mgr p)) ∧ pending l (mkProc w4 (p_mgr p)) ∧
    OrderStore.heap (w_store w4) = OrderStore.heap (w_store (p_world p)) ∧
    OrderStore.ordersById (w_store w4) = OrderStore.ordersById (w_store (p_world p)) ∧ w_gen w4 = w_gen (p_world p) + 1 ∧
    Book.orderGroups (w_book w4) = <[o_instrument o := g']> (Book.orderGroups (w_book (p_world p))) ∧
    w_out w4 = w_out (p_world p) ++ [OutExecReport (new_exec now (p_world p)) src].
Proof.
  intros [Hbk Hat Hqo Hopen Hst Hlim Hlist [src Hsrc] Hsv Hopp Hr Hnd Hex Hev Hg0] Hg Hi Hops. set (w := p_world p) in *.
  pose proof Hbk as [Ho Hwf Hid Hin Hpx Hgrp _ Hins].
  destruct (match_evs_from l o g bk w Ho Hqo Hlim Hwf Hgrp Hopp Hr) as (evs & Hevs & _).
  destruct (group_insert_sides o g g' bk Hins Hopp) as (Hopp' & own & Hown & Hin').
  destruct (add_saved w l o g g' Hbk Hsv) as [s' Hadd]. set (b' := Book.mkBook _ s') in *.
  set (w1 := set_eventCount n (Defered.deferedEventCount w) w). set (w2 := set_events (w_events w1 ++ evs) w1). set (w3 := set_book b' w2).
  assert (execute sv_order now ctime (MatchOrder n l (o_orderId o)) w = (Ok tt, w2)) as E1 by (by apply (Hevs w1)).
  assert (execute sv_order now ctime (AddToOrderBook l (o_orderId o) (o_instrument o)) w2 = (Ok tt, w3)) as E2.
  { unfold execute. rewrite (bind_ok (deref l) _ w2 o w2 (deref_some w2 l o Ho)). unfold on_book. cbn [w_book w2 w1 set_events set_eventCount].
    by rewrite Hadd. }
  destruct (report_run w3 l o src (mkExec NEW_EXECTYPE ctime (o_orderId o) IdT0 NEW_ORDSTATUS INTERNAL_EXECUTION XPlain))
    as (w4 & E3 & [Rh Ri Rb Re Rg Rl Rx Ro]); try done.
  exists w4, own, src. split.
  { intros fuel. unfold process. rewrite Hi. cbn [negb]. unfold TransactionScope.executeTransaction. rewrite Hops.
    unfold order_ops. cbn [TransactionScope.commit_loop]. fold w. rewrite E1, E2.
    cbn [execute CreateExecReport_execute]. rewrite E3. done. }
  assert (Book.orderGroups (w_book w4) !! o_instrument o = Some g') as Hg4 by (rewrite Rb; apply lookup_insert_eq).
  split_and!; [split; cbn [p_world]| |done|done|done|by rewrite Rb|done].
  - split; cbn [p_world]; try done; [unfold heap_at; rewrite Rh; exact Ho|by apply Rl].
  - rewrite Rb. cbn. apply map_Forall_insert_2; [|exact Hwf]. by eapply group_insert_wf; [apply (Hwf _ _ Hgrp)|..].
  - done.
  - done.
  - done.
  - eapply Forall_impl; [exact Hr|]. intros e He. eapply rests_frame; [exact He| | |exact Rl];
      [unfold heap_at; by rewrite Rh|by rewrite Ri].
  - done.
  - by apply Rx.
  - unfold pending. cbn [p_world]. rewrite (Hevs (set_events [] w4)).
    + cbn [w_events set_events app]. f_equal. unfold set_events. destruct w4. cbn in *. f_equal. by rewrite Re, Hev.
    + split_and!; [exact Rh|exact Ri|]. cbn [w_store w_book set_events].
      transitivity (Book.find (OrderMatcher.FindOpositeOrder o (w_store w)) (w_book w4)).
      * unfold OrderMatcher.FindOpositeOrder, OrderMatcher.oposite_match, OrderStore.order_at, OrderStore.locateByOrderId. by rewrite Rh, Ri.
      * apply (find_same_side _ _ _ g g'); try done. cbn. by rewrite Hopp', Hopp.
Qed.

Lemma swept_frame l o bk p p1 p' o' : swept l o bk p1 p' o' → OrderStore.heap (w_store (p_world p1)) = OrderStore.heap (w_store (p_world p)) →
  OrderStore.ordersById (w_store (p_world p1)) = OrderStore.ordersById (w_store (p_world p)) → swept l o bk p p' o'.
Proof.
  intros [H1 H2 H3 H4 H5 H6 H7 H8] Eh Ei.
  assert (∀ e, openq (p_world p1) e = openq (p_world p) e) as Eo.
  { intros e. unfold openq, OrderStore.order_at, OrderStore.locateByOrderId. by rewrite Eh, Ei. }
  assert (∀ e, OrderStore.locateByOrderId e (w_store (p_world p1)) = OrderStore.locateByOrderId e (w_store (p_world p))) as El.
  { intros e. unfold OrderStore.locateByOrderId. by rewrite Ei. }
  split; try done.
  - by rewrite H3.
  - rewrite H4. apply sumq_ext. intros. by rewrite Eo.
  - intros e. rewrite <- Eo. apply H5.
  - intros l1 e l2. rewrite <- Eo. apply H6.
  - intros l0 Hl Hf. rewrite H8; [unfold heap_at; by rewrite Eh|done|].
    eapply Forall_impl; [exact Hf|]. cbn. intros. by rewrite El.
Qed.

(** The book when a new order is done, from the book before it came: on the other side
    the entries traded out are gone; the order is in its place in its own side, or that
    side is as before if the order was filled; the other instruments are as before. *)
Definition booked (o : OrderEntry) (g g' : Book.OrdersGroup) (bk : Multimap.t) p p' (o' : OrderEntry) : Prop :=
  ∃ g2, Book.orderGroups (w_book (p_world p')) = <[o_instrument o := g2]> (Book.orderGroups (w_book (p_world p))) ∧
    Book.side_orders (o_side o) g2 = Book.side_orders (o_side o) (if o_leavesQty o' =? 0 then g else g') ∧
    Book.side_orders (OrderMatcher.oposite_side o) g2 =
      Some (List.filter (λ e, negb (traded_out (p_world p) (p_world p') e)) bk).

(** Taking the inserted order out gives the side as it was. *)
Lemma inserted_side o g g' own own' : Book.group_wf g → px_isnan (o_price o) = false → Book.not_resting o g →
  Book.group_insert o g = Some g' → Book.side_orders (o_side o) g' = Some own →
  rm1 (Multimap.is_entry (o_price o) (o_orderId o)) own = Some own' → Book.side_orders (o_side o) g = Some own'.
Proof.
  intros [Hb Hs] Hp (l & El & Hno) Hg Ho Hrm. unfold Book.group_insert in Hg.
  assert (∀ cmp `{!Multimap.PriceOrder cmp} l, Multimap.wf cmp l → Forall (λ e, Multimap.is_entry (o_price o) (o_orderId o) e = false) l →
    rm1 (Multimap.is_entry (o_price o) (o_orderId o)) (Multimap.insert cmp (o_price o) (o_orderId o) l) = Some l) as Hrm1.
  { intros cmp Hc l' Hwf Hl'. rewrite <- (Multimap.erase_rm1 cmp) by (by apply (Multimap.insert_wf cmp)). by apply (Multimap.erase_insert cmp). }
  destruct (o_side o); simplify_eq/=; first [rewrite (Hrm1 _ _ _ Hb Hno) in Hrm|rewrite (Hrm1 _ _ _ Hs Hno) in Hrm]; congruence.
Qed.

Lemma rebooked_booked o g g' own bk p p1 p' o' : Book.group_wf g → px_isnan (o_price o) = false → Book.not_resting o g →
  Book.group_insert o g = Some g' → Book.side_orders (o_side o) g' = Some own →
  Book.orderGroups (w_book (p_world p1)) = <[o_instrument o := g']> (Book.orderGroups (w_book (p_world p))) →
  OrderStore.heap (w_store (p_world p1)) = OrderStore.heap (w_store (p_world p)) →
  OrderStore.ordersById (w_store (p_world p1)) = OrderStore.ordersById (w_store (p_world p)) →
  rebooked o own bk p1 p' o' → booked o g g' bk p p' o'.
Proof.
  intros Hwf Hp Hnr Hg Ho Hb Eh Ei (g2 & own2 & E2 & S2 & O2 & P2). exists g2. rewrite E2. cbn [Book.with_groups Book.orderGroups].
  rewrite Hb, insert_insert_eq. split; [done|]. split.
  - rewrite S2. destruct (o_leavesQty o' =? 0); [symmetry; by eapply inserted_side|by rewrite O2].
  - rewrite P2. f_equal. apply List.filter_ext. intros x. unfold traded_out, openq, OrderStore.order_at, OrderStore.locateByOrderId. by rewrite Eh, Ei.
Qed.

Lemma transaction_sweeps n l o g g' bk p tr i fuel : ready (p_world p) l o g g' bk →
  mgr_ok (1 + 4 * Z.of_nat (length bk)) p → TransactionMgr.clock_ok now → isValidId i = true →
  TransactionScope.operations tr = order_ops n l o → (length bk <= fuel)%nat →
  ∃ p' o', process sv_order now ctime fuel i tr p = Some (Ok tt, p') ∧ w_events (p_world p') = [] ∧ swept l o bk p p' o' ∧
    booked o g g' bk p p' o'.
Proof.
  intros Hr [(c & Hinv & Hc) Hg] Hnow Hi Hops Hf.
  destruct (transaction_run n l o g g' bk p tr i Hr) as (w4 & own & src & E & Hsw & Hp & Eh & Ei & Eg & Eb & _); [lia|done|done|].
  destruct (sweep_chain sv_order now (length bk) l o g' own bk (mkProc w4 (p_mgr p)) eq_refl Hsw) as (p' & o' & E' & Hev & Hs & Hb);
    [split; [exists c; split; [done|cbn; lia]|cbn; lia]|done|done|].
  exists p', o'. split; [rewrite E; by eapply processDeferedEvent_mono|]. split; [done|]. split; [by eapply swept_frame|].
  pose proof (rd_book _ _ _ _ _ _ Hr) as [_ Hwf _ _ Hpx Hgrp Hnr Hins].
  apply (rebooked_booked o g g' own bk p (mkProc w4 (p_mgr p)) p' o'); try done; [by apply (Hwf _ _ Hgrp)|apply Hsw].
Qed.

(** ** From the event to the trades *)

(** The stored copy once the handler is done. *)
Definition entered (f : Frame SO SD) (o : OrderEntry) : OrderEntry := set_smp (persistence (New, NoCnlReplace)) (accepted now f o).

Lemma entered_fields f o : let a := entered f o in o_orderId a = o_orderId (accepted now f o) ∧
  o_leavesQty a = o_leavesQty o ∧ o_cumQty a = o_cumQty o ∧ o_orderQty a = o_orderQty o ∧ o_price a = o_price o ∧
  o_side a = o_side o ∧ o_instrument a = o_instrument o ∧ o_ordType a = o_ordType o ∧ o_executions a = o_executions o ∧
  o_source a = o_source o ∧ o_instrument (accepted now f o) = o_instrument o.
Proof. unfold entered, accepted, OrderStore.saved, OrderEntry_clone. by destruct o. Qed.

(** C4: A new limit order, from the event to its last trade.  It is assumed that the order
    is valid and can be saved, is open, priced and not resting yet, that its instrument has a group
    in the book, that its reports can be sent, that every order resting on the other side is
    stored under its entry, consistent, priced and takes trades, and that identifiers and clock
    allow the transactions.  Then the handler stores the order
    and submits a transaction; that transaction, run in the state the handler left, ends
    normally with every deferred event done.  The order has traded what it could: the quantity
    it traded is what the resting orders traded, at prices it reaches and in price-time
    priority, nobody else changed, and it is filled or nothing it reaches is open.  In the
    book the order is in its place, or its side is as before if it was filled; the entries it
    traded out are gone from the other side, and nothing else is different. *)
Theorem new_order_executed order o l s' c' g g' bk p fuel1 fuel2 :
  let w := p_world p in
  let f := mkFrame (set_scope TransactionScope.empty (w_newOp w) w) None None in
  let a := entered f o in
  heap_at w order = Some o → w_events w = [] → WideData.OrderEntry_isValid o (w_wide w) = None →
  saves_as sv_order now f o l s' c' → o_ordType o ≠ MARKET_ORDERTYPE → qty_ok o → 0 < o_leavesQty o →
  px_isnan (o_price o) = false → isValidId (o_orderId a) = true → isValidId (o_instrument o) = true →
  o_orderId a ≠ o_instrument o → is_Some (WideData.executions (w_wide w) !! o_executions o) →
  (∃ src, WideData.getString (o_source o) (w_wide w) = Ok src) → (∀ s, (sv_order a s).1 = Ok tt) →
  Book.book_wf (w_book w) → Book.orderGroups (w_book w) !! o_instrument o = Some g → Book.not_resting a g →
  Book.group_insert a g = Some g' → Book.side_orders (OrderMatcher.oposite_side o) g = Some bk →
  Forall (rests (o_instrument o) (OrderMatcher.oposite_side o) w) bk → NoDup bk.*2 → execs_below w →
  mgr_ok (3 + 4 * Z.of_nat (length bk)) p → TransactionMgr.clock_ok now → (length bk <= fuel2)%nat →
  let i := mkIdT c' (wrap32 now) in
  ∃ p1 tr p2 o',
    onEvent sv_order now fuel1 (OrderEvent (Some order)) p = Some (Ok tt, p1) ∧
    TransactionMgr.live (p_mgr p1) i ∧
    NLinkTree.value <$> NLinkTree.keys (TransactionMgr.transactionTree (p_mgr p1)) !! i = Some tr ∧
    OrderStore.order_at (o_orderId a) (w_store (p_world p1)) = Some a ∧
    process sv_order now ctime fuel2 i tr p1 = Some (Ok tt, p2) ∧ w_events (p_world p2) = [] ∧
    swept l a bk p1 p2 o' ∧
    booked a g g' bk p1 p2 o' ∧ Book.orderGroups (w_book (p_world p1)) = Book.orderGroups (w_book w).
Proof.
  intros w f a Ho He Hv Hs Hty Hq Hopen Hpx Hid Hins Hne Hlist Hsrc Hsv Hwf Hg Hnr Hgi Hopp Hrs Hnd Hex Hmgr Hnow Hf i.
  destruct (entered_fields f o) as (F1 & F2 & F3 & F4 & F5 & F6 & F7 & F8 & F9 & F10 & F11). fold a in F1, F2, F3, F4, F5, F6, F7, F8, F9, F10.
  pose proof Hs as (Hw & Hc & Hok & Hsave). pose proof Hmgr as [(c0 & Hinv0 & Hc0) Hg0]. fold w in Hc0, Hg0.
  destruct (OrderStore.save_frame _ _ _ _ _ _ _ _ Hsave) as (Eids & Eex & Egen). cbn [fst snd] in Eids, Eex, Egen.
  destruct (OrderStore.save_returns _ _ _ _ _ _ _ _ Hw Hc Hok Hsave) as (_ & _ & Hloc). cbn [fst] in Hloc.
  assert (w_gen w <= c' <= w_gen w + 1) as Hc'.
  { rewrite Egen. cbn [f_world f w_gen set_scope]. pose proof (OrderStore.wf_pos _ _ _ Hw) as H0. cbn in H0.
    destruct (isValidId (o_orderId o)); [lia|]. rewrite wrap64_small; [lia|]. unfold is_u64. lia. }
  assert (is_market o = false) as Hm by (unfold is_market; by apply bool_decide_eq_false).
  destruct (order_event_run sv_order now order o l s' c' p fuel1) as (m & tr & E & Hinv & Hl & _ & Hval & Hops); try done; fold w f; try (by rewrite ?F11, <- ?F1).
  { lia. } { split; [by exists c0|cbn; fold w; lia]. }
  set (p1 := mkProc (handled_world now f o l s' c') m) in *.
  assert (heap_at (p_world p1) l = Some a) as Ha by apply lookup_insert_eq.
  assert (∀ l0 x, heap_at w l0 = Some x → heap_at (p_world p1) l0 = Some x) as Hold.
  { intros l0 x Hx. destruct (stored_old sv_order now f o l s' c' l0 x Hs Hx) as [Hnl Hx'].
    unfold heap_at in *. cbn. cbn in Hx'. by rewrite lookup_insert_ne. }
  assert (OrderStore.locateByOrderId (o_orderId a) (w_store (p_world p1)) = Some l) as Hat.
  { rewrite F1. cbn. rewrite <- Hloc. unfold accepted, OrderStore.locateByOrderId. cbn. by destruct o. }
  assert (ready (p_world p1) l a g g' bk) as Hready.
  { split; try done.
    - split; try done; by rewrite ?F5, ?F7.
    - unfold qty_ok. by rewrite F2, F3, F4.
    - by rewrite F2.
    - exists (New, NoCnlReplace). split; [|split; [by left|done]]. unfold a, entered. rewrite <- (restored_persistence (New, NoCnlReplace)).
      by destruct (accepted now f o).
    - by rewrite F8.
    - by rewrite F9.
    - by rewrite F10.
    - unfold OrderMatcher.oposite_side in *. by rewrite F6.
    - rewrite F7. unfold OrderMatcher.oposite_side in *. rewrite F6. eapply Forall_impl; [exact Hrs|]. intros e Hr.
      eapply rests_frame; [exact Hr|exact Hold| |done]. intros j l0 Hj. cbn. rewrite Eids. by apply map_insert_mono.
    - intros j Hj. cbn in Hj. rewrite Eex in Hj. specialize (Hex j Hj). cbn. fold w in Hex. lia.
    - cbn. pose proof (OrderStore.wf_pos _ _ _ Hw) as H0. cbn in H0. lia. }
  destruct (transaction_sweeps (w_newOp w) l a g g' bk p1 tr i fuel2 Hready) as (p2 & o' & E2 & Hev & Hsw & Hbooked); try done.
  { split; [exists (c' + 1); split; [done|cbn; lia]|cbn; lia]. }
  { apply (IdTGenerator.getId_valid now c'); [pose proof (OrderStore.wf_pos _ _ _ Hw) as H0; cbn in H0; lia|by apply Hnow]. }
  { rewrite Hops. unfold order_ops. rewrite F1, F7. f_equal. f_equal. by rewrite <- F11. }
  exists p1, tr, p2, o'. split; [exact E|]. split; [by apply Hl; left|]. split; [done|]. split; [|by split_and!].
  unfold OrderStore.order_at. rewrite Hat. exact Ha.
Qed.
End theory.

(** ** A run: a sell order of 30 meets a resting buy order of 20 at its price. *)

Definition ex_in : OrderEntry := OrderStateMachine.ex_order LIMIT_ORDERTYPE.
Definition ex_resting : OrderEntry :=
  set_smp (persistence (New, NoCnlReplace))
    (mkOrder (mkIdT 2 1) IdT0 (px_of_pos 101) NEW_ORDSTATUS BUY_SIDE LIMIT_ORDERTYPE 20 0 20
      DAY_TIF px0 px0 px0 1 1 0 0 _3_SETTLTYPE AGENCY_CAPACITY USD_CURRENCY 0 0 0 SMP0
      Book.ex_instr (ex_ref 11) (ex_ref 12) IdT0 [] (ex_ref 15) IdT0 IdT0 (ex_ref 16)).
Definition ex_wide : WideData.t unit :=
  WideData.mkWide 20 {[Book.ex_instr := mkInstr "AAPL" "US0378331005" "ISIN" Book.ex_instr]} {[IdT0 := "WebSocket"%string]}
    {[ex_ref 11 := mkAcct "acct" "firm" (ex_ref 11) AGENCY_ACCOUNTTYPE]} {[ex_ref 12 := mkClr "clr" (ex_ref 12)]}
    {[ex_ref 13 := mkRaw (ex_ref 13) STRING_RAWDATATYPE ["A"%char; "1"%char];
      ex_ref 15 := mkRaw (ex_ref 15) STRING_RAWDATATYPE ["B"%char; "1"%char]]}
    {[ex_ref 14 := []; ex_ref 16 := []]} ∅ ∅ None.
Definition ex_store : OrderStore.t unit :=
  OrderStore.mkStore {[0%nat := ex_in; 1%nat := ex_resting]} 2%nat {[mkIdT 2 1 := 1%nat]}
    {[(STRING_RAWDATATYPE, ["B"%char; "1"%char]) := 1%nat]} ∅ None.
Definition ex_group : Book.OrdersGroup := Book.mkGroup [(px_of_pos 101, mkIdT 2 1)] [].
Definition ex_group' : Book.OrdersGroup := Book.mkGroup [(px_of_pos 101, mkIdT 2 1)] [(px_of_pos 101, mkIdT 100 1000)].
Definition ex_world : World unit unit :=
  mkWorld ex_store 100 (Book.mkBook {[Book.ex_instr := ex_group]} None) ex_wide TransactionScope.empty 0%nat [] ∅ [] [].
Definition ex_p : Processor.t unit unit := mkProc ex_world (TransactionMgr.init 100 TransactionMgr.create).2.
Definition ex_saved : OrderStore.t unit * Z :=
  (OrderStore.save OrderStateMachine.ex_saver (getRaw ex_world) ex_in 1000 (ex_store, 100)).2.

Lemma e2e_store_wf : OrderStore.wf (getRaw ex_world) ex_store 100.
Proof.
  split; cbn.
  - intros id l Hl. apply lookup_singleton_Some in Hl as [<- <-]. exists ex_resting, (mkRaw (ex_ref 15) STRING_RAWDATATYPE ["B"%char; "1"%char]). done.
  - intros k l Hl. apply lookup_singleton_Some in Hl as [<- <-]. exists ex_resting, (mkRaw (ex_ref 15) STRING_RAWDATATYPE ["B"%char; "1"%char]). done.
  - intros l [x Hl]. apply lookup_insert_Some in Hl as [[<- _]|[_ Hl]]; [lia|]. apply lookup_singleton_Some in Hl as [<- _]. lia.
  - intros id [x Hx]. apply lookup_singleton_Some in Hx as [<- _]. done.
  - lia.
Qed.

Lemma e2e_rests : Forall (rests Book.ex_instr BUY_SIDE ex_world) [(px_of_pos 101, mkIdT 2 1)].
Proof.
  apply Forall_singleton. exists 1%nat, ex_resting. split; [done|]. split; [done|]. unfold resting_order.
  do 7 (split; [done|]). split; [unfold qty_ok, is_u32; cbn; lia|].
  split; [exists (New, NoCnlReplace); split; [by vm_compute|auto]|by eexists].
Qed.

Lemma new_order_executed_witness : ∃ p1 tr p2 o',
  onEvent (B := backend_machine (msm_backend OrderStateMachine.ex_saver 1000)) OrderStateMachine.ex_saver 1000 0 (OrderEvent (Some 0%nat)) ex_p = Some (Ok tt, p1) ∧
  process (B := backend_machine (msm_backend OrderStateMachine.ex_saver 1000)) OrderStateMachine.ex_saver 1000 5 1 (mkIdT 101 1000) tr p1 = Some (Ok tt, p2) ∧
  let e := (px_of_pos 101, mkIdT 2 1) in
  heap_at (p_world p2) 2%nat = Some o' ∧ 30 - o_leavesQty o' = openq (p_world p1) e - openq (p_world p2) e ∧
  (o_leavesQty o' = 0 ∨ openq (p_world p2) e = 0).
Proof.
  destruct (new_order_executed (B := msm_backend OrderStateMachine.ex_saver 1000) OrderStateMachine.ex_saver 1000 5 0%nat ex_in 2%nat
    ex_saved.1 101 ex_group ex_group' [(px_of_pos 101, mkIdT 2 1)] ex_p 0 1) as (p1 & tr & p2 & o' & E1 & _ & _ & _ & E2 & _ & [S1 _ _ S4 _ _ S7 _] & _).
  - reflexivity.
  - reflexivity.
  - vm_compute. reflexivity.
  - split; [exact e2e_store_wf|]. split; [cbn; lia|]. split; [intros Hv; vm_compute in Hv; discriminate|vm_compute; reflexivity].
  - discriminate.
  - unfold qty_ok, is_u32. cbn. lia.
  - cbn. lia.
  - vm_compute. reflexivity.
  - vm_compute. reflexivity.
  - vm_compute. reflexivity.
  - vm_compute. discriminate.
  - by eexists.
  - by eexists.
  - intros s. reflexivity.
  - apply map_Forall_singleton. split; [|apply Multimap.wf_nil]. apply Multimap.wf_cons; [reflexivity|apply Multimap.wf_nil|constructor].
  - reflexivity.
  - exists []. split; [reflexivity|constructor].
  - vm_compute. reflexivity.
  - reflexivity.
  - exact e2e_rests.
  - apply NoDup_singleton.
  - intros j [x Hx]. cbn in Hx. by rewrite lookup_empty in Hx.
  - split; [|cbn; lia]. exists 100. split; [apply TransactionMgr.init_inv; lia|cbn; lia].
  - vm_compute. discriminate.
  - cbn. lia.
  - exists p1, tr, p2, o'. split; [exact E1|]. split; [exact E2|]. split; [exact S1|]. split.
    + unfold sumq in S4. cbn [foldr] in S4. rewrite Z.add_0_r in S4. exact S4.
    + destruct S7 as [S7|S7]; [by left|right]. apply Forall_singleton in S7 as [S7|S7]; [exact S7|]. vm_compute in S7. discriminate.
Defined.
End EndToEnd.
