(* ===== verification/Lifecycle.v ===== *)
(** Events about an order that rests in the book, from the incoming queue to the end of
    their transactions: the withdrawals (suspension, end of the day, expiration) and the
    request to cancel. *)

From Stdlib Require Import Ascii String ZArith Lia.
From S2P Require Import Prelude Types Doubles IdGen WideData OrderStore OrderBook LinkTree TxScope TxMgr.
From S2P Require Import Engine Queues Matcher StateTable StateActions TrOps Processor Sweep Handlers EndToEnd.
Import OrderState OrdStateImpl OrderStateMachine.

Module Lifecycle.
Import TrOperations Processor Sweep Handlers EndToEnd.

Section theory.
Context {SO SD : Type} (sv_order : OrderEntry → M SO unit) (now ctime : Z)
  `{B : !Backend (SO := SO) (SD := SD) sv_order now}.
Abbreviation W := (World SO SD).
Abbreviation P := (Processor.t SO SD).
Implicit Types (w : W) (p : P) (f : Frame SO SD).

(** ** The machine *)

(** What a withdrawal gives to the machine of the order: the event, the state it leads to
    and the status and type of its report. *)
Definition withdrawal (e : InEvent) : option (IdT * Event * State * OrderStatus * ExecType) :=
  match e with
  | OrderChangeStateEvent id SUSPEND => Some (id, onSuspended (ev_base true), Suspended, SUSPENDED_ORDSTATUS, SUSPENDED_EXECTYPE)
  | OrderChangeStateEvent id FINISH => Some (id, onFinished (ev_base true), DoneForDay, DFD_ORDSTATUS, DFD_EXECTYPE)
  | TimerEvent id EXPIRATION => Some (id, onExpired (ev_base true), Expired, EXPIRED_ORDSTATUS, EXPIRED_EXECTYPE)
  | _ => None
  end.

Definition add_op (op : TrOp) w : W := set_scope (TransactionScope.addOperation op (w_scope w)) (w_newOp w) w.

Lemma remove_resting_run f l o : f_orderData f = Some l → order_of f l = Some o → is_market o = false →
  (o_status o = NEW_ORDSTATUS ∨ o_status o = PARTFILL_ORDSTATUS) →
  remove_resting f = (Ok tt, mkFrame (add_op (RemoveFromOrderBook l (o_orderId o) (o_instrument o)) (f_world f)) (Some l) (f_order4 f)).
Proof.
  intros Hd Ho Hm Hs. unfold remove_resting.
  rewrite (bind_ok _ _ f l f) by (unfold theData, getData, gets, bind, ret; by rewrite Hd).
  unfold on_world, bind. unfold order_of in Ho. rewrite (deref_some _ _ _ Ho). rewrite Hm, bool_decide_eq_true_2 by done. cbn. by rewrite Hd.
Qed.

Lemma region_fires_run s e f r f1 f2 : rows s (kind e) = [r] → r_guard r = None →
  run_action sv_order now (no_raise) (r_act r) e f = (Ok tt, f1) → on_entry (r_tgt r) e f1 = (Ok tt, f2) →
  region sv_order now s e f = (Ok (Some (r_tgt r)), f2).
Proof. intros Hr Hg Ha He. unfold region. rewrite Hr. cbn. rewrite Hg. unfold bind, ret. cbn. by rewrite Ha, He. Qed.

Lemma withdraw_msm e id ev tgt st ty z f l o : withdrawal e = Some (id, ev, tgt, st, ty) →
  (z.1 = New ∨ z.1 = PartFill) → zone1 z.2 = false →
  f_orderData f = Some l → order_of f l = Some o → is_market o = false → (o_status o = NEW_ORDSTATUS ∨ o_status o = PARTFILL_ORDSTATUS) →
  let w1 := add_op (RemoveFromOrderBook l (o_orderId o) (o_instrument o)) (f_world f) in
  let w2 := set_store (set_heap l (set_status st o) (w_store w1)) (w_gen w1) w1 in
  msm_run sv_order now ev z f = Some ((tgt, z.2), mkFrame (add_op (CreateExecReport st ty (o_orderId o)) w2) (Some l) (Some l)).
Proof.
  intros He Hz Hz2 Hd Ho Hm Hs w1 w2. pose proof (remove_resting_run f l o Hd Ho Hm Hs) as Hrun.
  assert (region sv_order now z.1 ev f = (Ok (Some tgt), mkFrame (add_op (CreateExecReport st ty (o_orderId o)) w2) (Some l) (Some l))) as E1.
  { assert (∃ r, rows z.1 (kind ev) = [r] ∧ r_guard r = None ∧ r_tgt r = tgt ∧
      (∀ g : Frame SO SD, run_action sv_order now no_raise (r_act r) ev g = action (ev_base true) remove_resting g) ∧
      ∀ g : Frame SO SD, on_entry tgt ev g = entry (ev_base true) (Some st) (report st ty) g) as (r & Hr & Hg & <- & Ha & Hen).
    { destruct e as [|?|?|? []|?|? []]; try discriminate; injection He as <- <- <- <- <-;
        destruct Hz as [-> | ->]; eexists; split_and!; done. }
    eapply region_fires_run; [done|done|rewrite Ha|rewrite Hen].
    - unfold action. cbn [ev_base eb_test]. rewrite (bind_ok _ _ _ _ _ Hrun). reflexivity.
    - rewrite (entry_eq _ _ _ _ l o) by done. unfold report, add_op, w2, w1. by destruct o. }
  unfold msm_run. rewrite E1. rewrite region_none; [done|].
  destruct e as [|?|?|? []|?|? []]; try discriminate; injection He as <- <- <- <- <-; by destruct z.2.
Qed.

Lemma entry_none_eq b op f l o : eb_test b = false → f_order4 f = Some l → order_of f l = Some o →
  entry b None op f = (Ok tt, mkFrame (add_op (op o) (f_world f)) (f_orderData f) (Some l)).
Proof.
  intros Hb H4 Ho. unfold entry. rewrite Hb. unfold bind at 1, gets. rewrite H4. unfold on_world, bind, ret.
  unfold order_of in Ho. rewrite (deref_some _ _ _ Ho). cbn. by rewrite H4.
Qed.

(** A request to cancel changes nothing of the order and only reports. *)
Lemma cancel_msm a f l o : zone1 a = true → f_orderData f = Some l → order_of f l = Some o →
  msm_run sv_order now (onCancelReceived (ev_base true)) (a, NoCnlReplace) f =
    Some ((a, GoingCancel), mkFrame (add_op (CreateExecReport (o_status o) PEND_CANCEL_EXECTYPE (o_orderId o)) (f_world f)) (Some l) (Some l)).
Proof.
  intros Ha Hd Ho. unfold msm_run. rewrite region_none by (by destruct a). cbn [default snd fst].
  erewrite (region_fires_run NoCnlReplace _ f (a_row NoCnlReplace KCancelReceived GoingCancel Areceive)); [reflexivity|done|done| |].
  - cbn. unfold action, bind, ret, mark, modify. cbn. by rewrite Hd.
  - cbn [r_tgt a_row on_entry Zone2_on_entry]. rewrite (entry_none_eq _ _ _ l o) by done. reflexivity.
Qed.

(** ** The handlers *)

(** The state the handler leaves: the order has its machine, the next identifier went to
    the transaction. *)
Definition left_world w (l : loc) (o : OrderEntry) (zs : State * State) : W :=
  let w2 := set_store (set_heap l (set_smp (persistence zs) o) (w_store w)) (w_gen w) w in
  set_scope TransactionScope.empty (w_newOp w2) (set_store (w_store w2) (w_gen w2 + 1) w2).

Lemma stored_event_run msg id ev l o zs zs' w' x o' objs p : let w := p_world p in
  OrderStore.locateByOrderId id (w_store w) = Some l → heap_at w l = Some o → restored_zones (o_smp o) = Some zs →
  msm_run sv_order now ev zs (mkFrame (set_scope TransactionScope.empty (w_newOp w) w) (Some l) None) = Some (zs', mkFrame w' (Some l) x) →
  heap_at w' l = Some o' → TransactionScope.ts_id (w_scope w') = IdT0 → TransactionScope.related (w_scope w') = Ok objs →
  w_gen w' = w_gen w → mgr_ok 1 p → TransactionMgr.clock_ok now →
  let i := mkIdT (w_gen w) (wrap32 now) in
  ∃ m, (begin_scope ;;; l0 <- locate msg id ;; process_order sv_order now l0 ev ;;; submit now) p = (Ok tt, mkProc (left_world w' l o' zs') m) ∧
    TransactionMgr.Inv m (w_gen w + 1) ∧ TransactionMgr.live m i ∧
    NLinkTree.value <$> NLinkTree.keys (TransactionMgr.transactionTree m) !! i = Some (TransactionScope.set_id i (w_scope w')).
Proof.
  intros w Hl Ho Hz Hm Ho' Hid Hrel Hg Hmgr Hnow i.
  set (p0 := mkProc (set_scope TransactionScope.empty (w_newOp w) w) (p_mgr p)). rewrite (bind_ok _ _ p tt p0) by done.
  rewrite (bind_ok _ _ p0 l p0) by (unfold locate, on_w, bind, gets, ret; cbn; fold w; by rewrite Hl).
  set (w2 := set_store (set_heap l (set_smp (persistence zs') o') (w_store w')) (w_gen w') w').
  rewrite (bind_ok _ _ p0 tt (mkProc w2 (p_mgr p))).
  2:{ unfold process_order. rewrite (bind_ok _ _ _ _ _ (on_w_deref p0 l o Ho)), Hz. unfold process_on.
      rewrite (process_event_ok _ _ _ _ _ Hm). cbn [fst snd f_orderData f_world]. unfold on_w. cbn [p_world p_mgr].
      by rewrite (assign_some _ _ _ _ Ho'). }
  destruct Hmgr as [(c & Hi & Hc) Hlt]. fold w in Hc, Hlt.
  destruct (submit_full now (mkProc w2 (p_mgr p)) objs) as (m & E & Hinv & Hlive & _ & Hval); try done.
  { split; [exists c; split; [done|cbn; lia]|cbn; lia]. }
  cbn [p_world w_gen w2 set_store] in *. rewrite Hg in Hinv, Hlive, Hval. exists m. split; [exact E|]. split; [exact Hinv|].
  split; [by apply Hlive; left|exact Hval].
Qed.

(** ** The transactions *)

(** The types of report that carry nothing but the status. *)
Definition plain (ty : ExecType) : Prop := ∀ st i w, CreateExecReport_execute now ctime st ty i w =
  processEvent_GenerateExecution now i (mkExec ty ctime i IdT0 st INTERNAL_EXECUTION XPlain) w.

(** An order that can be reported. *)
Record reportable w (l : loc) (o : OrderEntry) (src : StringT) : Prop := {
  ra_at : OrderStore.locateByOrderId (o_orderId o) (w_store w) = Some l;
  ra_heap : heap_at w l = Some o;
  ra_src : WideData.getString (o_source o) (w_wide w) = Ok src;
  ra_list : is_Some (WideData.executions (w_wide w) !! o_executions o);
  ra_execs : execs_below w;
  ra_gen : 0 < w_gen w;
  ra_room : w_gen w + 1 < 2 ^ 64;
}.

Lemma report_execute_run w l o src st ty : reportable w l o src → plain ty →
  ∃ w', execute sv_order now ctime (CreateExecReport st ty (o_orderId o)) w = (Ok tt, w') ∧ report_frame w w' (new_exec now w) src.
Proof.
  intros [H1 H2 H3 H4 H5 H6 H7] Hp. cbn [execute]. rewrite Hp. by apply (report_run _ _ l).
Qed.

Lemma process_ops tr i p w' fuel : isValidId i = true → w_events w' = [] →
  TransactionScope.all_ok (execute sv_order now ctime) (TransactionScope.operations tr) (p_world p) w' →
  process sv_order now ctime fuel i tr p = Some (Ok tt, mkProc w' (p_mgr p)).
Proof.
  intros Hi He Ha. unfold process. rewrite Hi. cbn [negb]. unfold TransactionScope.executeTransaction.
  rewrite (TransactionScope.commit_loop_ok _ _ _ _ _ _ Ha). destruct fuel; cbn; by rewrite He.
Qed.

(** The transaction of a withdrawal takes the order out of the book and reports it. *)
Lemma withdraw_transaction l o g side rest src st ty tr i p fuel : let w := p_world p in
  reportable w l o src → plain ty → w_events w = [] → isValidId i = true →
  Book.book_wf (w_book w) → isValidId (o_instrument o) = true → Book.orderGroups (w_book w) !! o_instrument o = Some g →
  Book.side_orders (o_side o) g = Some side → rm1 (Multimap.is_entry (o_price o) (o_orderId o)) side = Some rest →
  TransactionScope.operations tr = [RemoveFromOrderBook l (o_orderId o) (o_instrument o); CreateExecReport st ty (o_orderId o)] →
  ∃ w', process sv_order now ctime fuel i tr p = Some (Ok tt, mkProc w' (p_mgr p)) ∧ w_events w' = [] ∧
    OrderStore.heap (w_store w') = OrderStore.heap (w_store w) ∧ OrderStore.ordersById (w_store w') = OrderStore.ordersById (w_store w) ∧
    Book.orderGroups (w_book w') = <[o_instrument o := put_side (o_side o) rest g]> (Book.orderGroups (w_book w)) ∧
    w_out w' = w_out w ++ [OutExecReport (new_exec now w) src].
Proof.
  intros w Hr Hp He Hi Hwf Hin Hg Hs Hrm Hops. destruct (remove_rm1 (w_book w) o g side rest Hwf Hin Hg Hs Hrm) as [Hb _].
  set (b' := Book.with_groups _ _) in Hb. set (w1 := set_book b' w).
  assert (execute sv_order now ctime (RemoveFromOrderBook l (o_orderId o) (o_instrument o)) w = (Ok tt, w1)) as E1.
  { cbn [execute]. rewrite (bind_ok _ _ _ _ _ (deref_some _ _ _ (ra_heap _ _ _ _ Hr))). unfold on_book. by rewrite Hb. }
  destruct (report_execute_run w1 l o src st ty) as (w2 & E2 & [Rh Ri Rb Re Rg Rl Rx Ro]); [by destruct Hr|done|].
  exists w2. split_and!; [|by rewrite Re|by rewrite Rh|by rewrite Ri|by rewrite Rb|by rewrite Ro].
  apply process_ops; [done|by rewrite Re|]. rewrite Hops. econstructor; [exact E1|]. econstructor; [exact E2|]. constructor.
Qed.

Lemma related_withdrawal l st ty a j off i : isValidId i = true → isValidId j = true → i ≠ j →
  TransactionScope.related (TransactionScope.mkScope [RemoveFromOrderBook l i j; CreateExecReport st ty i] a IdT0 off) =
    Ok [mkObj order_ObjectType i; mkObj instrument_ObjectType j].
Proof.
  intros H1 H2 Hne. unfold TransactionScope.related.
  cbn [TransactionScope.operations TransactionScope.related_loop getObjectId getRelatedId TrOp_Operation].
  rewrite H1, H2. change (isValidId IdT0) with false. lazy beta iota delta [negb].
  unfold TransactionScope.note_object. cbn -[IdT_eqb]. rewrite (proj2 (NLinkTree.IdT_eqb_false j i)) by congruence. cbn -[IdT_eqb].
  by rewrite (proj2 (IdT_eqb_spec i i) eq_refl).
Qed.

(** ** Theorems *)

(** An order of the storage that an event can find, and its reports can be sent. *)
Record stored w (l : loc) (o : OrderEntry) (src : StringT) (zs : State * State) : Prop := {
  so_rep : reportable w l o src;
  so_id : isValidId (o_orderId o) = true;
  so_zones : restored_zones (o_smp o) = Some zs;
}.

(** Writing back the order and its machine keeps an order reportable. *)
Lemma left_reportable w w' l o o' src zs : reportable w l o src → o_orderId o' = o_orderId o → o_source o' = o_source o →
  o_executions o' = o_executions o → OrderStore.ordersById (w_store w') = OrderStore.ordersById (w_store w) →
  OrderStore.executionsById (w_store w') = OrderStore.executionsById (w_store w) → w_wide w' = w_wide w → w_gen w' = w_gen w →
  w_gen w + 2 < 2 ^ 64 → reportable (left_world w' l o' zs) l (set_smp (persistence zs) o') src.
Proof.
  intros [H1 H2 H3 H4 H5 H6 H7] E1 E2 E3 Ei Ee Ew Eg Hlt. unfold OrderStore.locateByOrderId in *. destruct o'; cbn in *; subst.
  split; cbn; rewrite ?Ei, ?Ew, ?Eg; try done; try lia; [apply lookup_insert_eq|]. intros j Hj. cbn in *. rewrite Ee in Hj. rewrite Eg. specialize (H5 j Hj). lia.
Qed.

Lemma plain_types : plain SUSPENDED_EXECTYPE ∧ plain DFD_EXECTYPE ∧ plain EXPIRED_EXECTYPE ∧ plain PEND_CANCEL_EXECTYPE.
Proof. by split_and!. Qed.

Lemma withdrawal_handler e id ev tgt st ty : withdrawal e = Some (id, ev, tgt, st, ty) → isValidId id = true → plain ty ∧
  zone1 tgt = true ∧ tgt ≠ New ∧ tgt ≠ PartFill ∧
  ∃ msg, handle sv_order now e = (begin_scope ;;; l0 <- locate msg id ;; process_order sv_order now l0 ev ;;; submit now).
Proof.
  destruct plain_types as (H1 & H2 & H3 & _).
  intros He Hi. destruct e as [|?|?|? []|?|? []]; try discriminate; injection He as <- <- <- <- <-;
    (split; [done|]; split; [done|]; split; [done|]; split; [done|]); eexists;
    cbn [handle]; unfold onOrderChangeStateEvent, onTimerEvent; rewrite Hi; cbn [negb]; rewrite bool_decide_eq_false_2 by done; reflexivity.
Qed.

(** C5: A limit order that rests in the book is withdrawn by its suspension, by the end of
    its day and by its expiration.  The handler gives it the new state and status, after
    which it takes no trades, and submits one transaction; that transaction, run in the
    state the handler left, takes exactly the entry of the order out of its side of the
    book, reports the order once and leaves nothing to do. *)
Theorem order_withdrawn e id ev tgt st ty l o src z g side rest p fuel1 fuel2 :
  let w := p_world p in
  withdrawal e = Some (id, ev, tgt, st, ty) → id = o_orderId o → stored w l o src z → (z.1 = New ∨ z.1 = PartFill) → zone1 z.2 = false →
  is_market o = false → (o_status o = NEW_ORDSTATUS ∨ o_status o = PARTFILL_ORDSTATUS) → w_events w = [] →
  isValidId (o_instrument o) = true → o_orderId o ≠ o_instrument o → Book.book_wf (w_book w) →
  Book.orderGroups (w_book w) !! o_instrument o = Some g → Book.side_orders (o_side o) g = Some side →
  rm1 (Multimap.is_entry (o_price o) (o_orderId o)) side = Some rest → mgr_ok 2 p → TransactionMgr.clock_ok now →
  let i := mkIdT (w_gen w) (wrap32 now) in let o' := set_smp (persistence (tgt, z.2)) (set_status st o) in
  ∃ p1 tr p2, onEvent sv_order now fuel1 e p = Some (Ok tt, p1) ∧
    TransactionMgr.live (p_mgr p1) i ∧ NLinkTree.value <$> NLinkTree.keys (TransactionMgr.transactionTree (p_mgr p1)) !! i = Some tr ∧
    OrderStore.heap (w_store (p_world p1)) = <[l := o']> (OrderStore.heap (w_store w)) ∧ (∀ z', ¬ takes_trades o' z') ∧
    w_book (p_world p1) = w_book w ∧
    process sv_order now ctime fuel2 i tr p1 = Some (Ok tt, p2) ∧ w_events (p_world p2) = [] ∧
    OrderStore.heap (w_store (p_world p2)) = OrderStore.heap (w_store (p_world p1)) ∧
    Book.orderGroups (w_book (p_world p2)) = <[o_instrument o := put_side (o_side o) rest g]> (Book.orderGroups (w_book w)) ∧
    ∃ x, w_out (p_world p2) = w_out w ++ [OutExecReport x src].
Proof.
  intros w He -> [Hrep Hid Hz] Hz1 Hz2 Hm Hst Hev Hin Hne Hwf Hg Hs Hrm Hmgr Hnow i o'.
  destruct (withdrawal_handler e _ ev tgt st ty He Hid) as (Hp & _ & Ht1 & Ht2 & msg & Hh).
  set (f0 := mkFrame (set_scope TransactionScope.empty (w_newOp w) w) (Some l) None).
  pose proof (withdraw_msm e _ ev tgt st ty z f0 l o He Hz1 Hz2 eq_refl (ra_heap _ _ _ _ Hrep) Hm Hst) as Hmsm. cbn zeta in Hmsm.
  destruct Hmgr as [Hc Hlt]. fold w in Hlt.
  destruct (stored_event_run msg (o_orderId o) ev l o z (tgt, z.2) _ _ (set_status st o) [mkObj order_ObjectType (o_orderId o); mkObj instrument_ObjectType (o_instrument o)] p
    (ra_at _ _ _ _ Hrep) (ra_heap _ _ _ _ Hrep) Hz Hmsm) as (m & E & _ & Hlive & Hval); try done.
  { apply lookup_insert_eq. } { by apply related_withdrawal. } { split; [done|fold w; lia]. }
  set (w1 := left_world _ l _ _) in E. fold w in Hlive, Hval.
  assert (reportable w1 l o' src) as Hrep1 by (apply (left_reportable w _ l o); try done; by destruct o).
  assert (o_orderId o' = o_orderId o ∧ o_instrument o' = o_instrument o ∧ o_side o' = o_side o ∧ o_price o' = o_price o) as (F1 & F2 & F3 & F4) by (by destruct o).
  destruct (withdraw_transaction l o' g side rest src st ty (TransactionScope.set_id i
    (TransactionScope.mkScope [RemoveFromOrderBook l (o_orderId o) (o_instrument o); CreateExecReport st ty (o_orderId o)] [] IdT0 0)) i (mkProc w1 m) fuel2)
    as (w2 & E2 & Hev2 & Hh2 & _ & Hb2 & Ho2); rewrite ?F1, ?F2, ?F3, ?F4; try done.
  { apply (IdTGenerator.getId_valid now (w_gen w)); [pose proof (ra_gen _ _ _ _ Hrep); lia|by apply Hnow]. }
  exists (mkProc w1 m), (TransactionScope.set_id i (TransactionScope.mkScope [RemoveFromOrderBook l (o_orderId o) (o_instrument o); CreateExecReport st ty (o_orderId o)] [] IdT0 0)), (mkProc w2 m).
  split_and!; try done.
  - unfold onEvent, then_deferred. rewrite Hh, E. destruct fuel1; cbn; by rewrite Hev.
  - cbn. by rewrite insert_insert_eq.
  - intros z' (Hr' & Hz' & _). destruct o. cbn in Hr'. rewrite restored_persistence in Hr'. injection Hr' as <-. cbn in Hz'. by destruct Hz'.
  - by rewrite <- F2, <- F3.
  - eexists. exact Ho2.
Qed.

End theory.

(** ** The events the engine gives to its machines *)

(** The kinds of events the handlers, the deferred events and the actions create. *)
Definition engine_kinds : list Kind := [KOrderReceived; KRplOrderReceived; KCancelReceived; KReplaceReceived; KExecReplace; KReplaceRejected;
  KTradeExecution; KInternalCancel; KSuspended; KContinue; KFinished; KExpired; KNewDay; KRecvOrderRejected; KRecvRplOrderRejected].

Ltac in_kinds := apply (bool_decide_unpack _); vm_compute; exact I.

Section kinds.
Context {SO SD : Type} (sv_order : OrderEntry → M SO unit) (now ctime : Z).
Abbreviation P := (Processor.t SO SD).
Context (B1 B2 : Machine (SO := SO) (SD := SD) sv_order now).

(** Machines that agree on these events. *)
Hypothesis agree : ∀ e m, kind e ∈ engine_kinds → process_event (Machine := B1) e m = process_event (Machine := B2) e m.

Abbreviation h1 := (handle (B := B1) sv_order now).
Abbreviation h2 := (handle (B := B2) sv_order now).

Lemma process_on_agree zs d e p : kind e ∈ engine_kinds → process_on (B := B1) sv_order now zs d e p = process_on (B := B2) sv_order now zs d e p.
Proof. intros Hk. unfold process_on. by rewrite agree. Qed.

Lemma process_order_agree l e p : kind e ∈ engine_kinds → process_order (B := B1) sv_order now l e p = process_order (B := B2) sv_order now l e p.
Proof. intros Hk. apply bind_ext; [done|]. intros o p'. destruct (restored_zones (o_smp o)); [by apply process_on_agree|done]. Qed.

Lemma execute_trade_agree t p : execute_trade (B := B1) sv_order now t p = execute_trade (B := B2) sv_order now t p.
Proof. apply bind_ext; [done|]. intros o p'. apply process_order_agree. in_kinds. Qed.

Lemma execute_trades_agree l acc p : execute_trades (B := B1) sv_order now l acc p = execute_trades (B := B2) sv_order now l acc p.
Proof.
  revert acc p. induction l as [|t l IH]; intros acc p; [done|]. cbn [execute_trades]. do 3 (apply bind_ext; [done|]; intros ??).
  apply bind_ext; [apply execute_trade_agree|]. intros _ p'. apply bind_ext; [done|]. intros o p2. apply IH.
Qed.

Lemma onDeferedEvent_agree e p : onDeferedEvent (B := B1) sv_order now e p = onDeferedEvent (B := B2) sv_order now e p.
Proof.
  apply bind_ext; [done|]. intros _ p1. apply bind_ext; [|done]. destruct e; [|done|apply process_order_agree; in_kinds].
  apply bind_ext; [done|]. intros _ p2. apply bind_ext; [apply execute_trades_agree|]. intros acc p3.
  destruct (0 <? acc.1); [apply execute_trade_agree|done].
Qed.

Lemma run_batch_agree l p : run_batch (B := B1) sv_order now l p = run_batch (B := B2) sv_order now l p.
Proof. revert p. induction l as [|e l IH]; intros p; [done|]. apply bind_ext; [apply onDeferedEvent_agree|]. intros _ p'. apply IH. Qed.

Lemma processDeferedEvent_agree fuel p : processDeferedEvent (B := B1) sv_order now fuel p = processDeferedEvent (B := B2) sv_order now fuel p.
Proof.
  revert p. induction fuel as [|fuel IH]; intros p; [done|]. cbn [processDeferedEvent]. destruct (w_events (p_world p)); [done|].
  rewrite run_batch_agree. destruct (run_batch _ _ _ _) as [[]]; auto.
Qed.

Lemma scoped_agree {A} msg id (k1 k2 : loc → M P A) p : (∀ l p', k1 l p' = k2 l p') →
  (begin_scope ;;; l <- locate msg id ;; k1 l) p = (begin_scope ;;; l <- locate msg id ;; k2 l) p.
Proof. intros Hk. apply bind_ext; [done|]. intros _ p1. apply bind_ext; [done|]. intros l p2. apply Hk. Qed.

Lemma handle_agree e p : h1 e p = h2 e p.
Proof.
  assert (∀ l ev p', kind ev ∈ engine_kinds → (process_order (B := B1) sv_order now l ev ;;; submit now) p' =
    (process_order (B := B2) sv_order now l ev ;;; submit now) p') as Hs by (intros; apply bind_ext; [by apply process_order_agree|done]).
  destruct e as [[l|]|id r|id [r|]|id ct|pe|id ty]; cbn [handle]; try done;
    unfold onOrderEvent, onOrderCancelEvent, onOrderReplaceEvent, onOrderChangeStateEvent, onProcessEvent, onTimerEvent.
  - do 2 (apply bind_ext; [done|]; intros ??). apply bind_ext; [apply process_on_agree; in_kinds|done].
  - destruct (negb (isValidId id)); [done|]. apply scoped_agree. intros. apply Hs. in_kinds.
  - destruct (negb (isValidId id)); [done|]. apply bind_ext; [done|]. intros _ p1. apply bind_ext; [apply process_on_agree; in_kinds|done].
  - destruct (negb (isValidId id)); [done|]. apply bind_ext; [done|]. intros _ p1. apply bind_ext; [|done].
    apply bind_ext; [done|]. intros l p2. apply process_order_agree. in_kinds.
  - destruct (negb (isValidId id)); [done|]. case_bool_decide; [done|]. apply scoped_agree. intros. destruct ct; try apply Hs; first [done|in_kinds].
  - do 2 (apply bind_ext; [done|]; intros ??). apply scoped_agree. intros. destruct (pe_type pe); try apply Hs; first [done|in_kinds].
  - destruct (negb (isValidId id)); [done|]. case_bool_decide; [done|]. apply scoped_agree. intros. destruct ty; try apply Hs; first [done|in_kinds].
Qed.

Lemma engine_agrees fuel e i tr p : onEvent (B := B1) sv_order now fuel e p = onEvent (B := B2) sv_order now fuel e p ∧
  process (B := B1) sv_order now ctime fuel i tr p = process (B := B2) sv_order now ctime fuel i tr p.
Proof.
  split.
  - unfold onEvent, then_deferred. rewrite handle_agree. destruct (h2 e p) as [[]]; try done. apply processDeferedEvent_agree.
  - unfold process. destruct (negb (isValidId i)); [done|]. destruct (TransactionScope.executeTransaction _ _ _ _) as [[[]| |] w]; try done.
    apply processDeferedEvent_agree.
Qed.
End kinds.

(** An action run for one of these events raises one of them, if any. *)
Lemma raise_agree {SO SD} (sv_order : OrderEntry → M SO unit) now (raise1 raise2 : Event → M (Frame SO SD) unit) a e f :
  (∀ x g, kind x ∈ engine_kinds → raise1 x g = raise2 x g) → kind e ∈ engine_kinds →
  run_action sv_order now raise1 a e f = run_action sv_order now raise2 a e f.
Proof.
  intros Hr Hk.
  assert (∀ body rej, (∀ m, kind (rej m) ∈ engine_kinds) → ∀ g, action_or_raise raise1 body rej g = action_or_raise raise2 body rej g) as Har.
  { intros body rej Hrej g. unfold action_or_raise, catch. destruct ((body ;;; mark) g) as [[] g']; try done. apply bind_ext; [by apply Hr|done]. }
  assert (bool_decide (kind e ∈ engine_kinds) = true) as Hb by (by apply bool_decide_eq_true_2). clear Hk. destruct a; try reflexivity; destruct e; try reflexivity; try (vm_compute in Hb; discriminate Hb); cbn [run_action].
  - unfold receive_order. destruct (eb_test b); [done|]. apply bind_ext; [done|]. intros d g. apply bind_ext; [done|]. intros _ g'. apply Har. intros m. in_kinds.
  - unfold receive_rplOrder. destruct (eb_test b); [done|]. apply bind_ext; [done|]. intros d g. apply bind_ext; [done|]. intros _ g'. apply Har. intros m. in_kinds.
Qed.

Lemma stuck_step k s s' : s = GoingCancel ∨ s = Pend_Replace → k ∈ engine_kinds → region_step k s s' → s' = s.
Proof.
  intros Hs Hk Hst. destruct Hst as [|r Hr]; [done|]. exfalso.
  assert (rows s k = []) as E; [|rewrite E in Hr; set_solver].
  assert (Forall (λ k, rows GoingCancel k = [] ∧ rows Pend_Replace k = []) engine_kinds) as Hf by (repeat constructor; reflexivity).
  rewrite Forall_forall in Hf. destruct (Hf k Hk) as [E1 E2]. by destruct Hs as [-> | ->].
Qed.

(** C7: The engine does not finish what it promises for a cancel or a replacement.  Whatever
    a machine does with other events has no influence on it: the handlers and the
    transactions give their machines events of [engine_kinds] only, and so do the actions
    that run for them.  None of these events takes a machine out of [GoingCancel], or the
    machine of a replacement out of [Pend_Replace]. *)
Theorem requests_never_complete {SO SD} (sv_order : OrderEntry → M SO unit) now ctime (B1 B2 : Machine (SO := SO) (SD := SD) sv_order now) :
  (∀ e m, kind e ∈ engine_kinds → process_event (Machine := B1) e m = process_event (Machine := B2) e m) →
  (∀ fuel e p, onEvent (B := B1) sv_order now fuel e p = onEvent (B := B2) sv_order now fuel e p) ∧
  (∀ fuel i tr p, process (B := B1) sv_order now ctime fuel i tr p = process (B := B2) sv_order now ctime fuel i tr p) ∧
  (∀ (raise1 raise2 : Event → M (Frame SO SD) unit) a e f, (∀ x g, kind x ∈ engine_kinds → raise1 x g = raise2 x g) →
     kind e ∈ engine_kinds → run_action sv_order now raise1 a e f = run_action sv_order now raise2 a e f) ∧
  ∀ ks x y, Forall (.∈ engine_kinds) ks → continues ks x y →
    (x.2 = GoingCancel → y.2 = GoingCancel) ∧ (x.1 = Pend_Replace → y.1 = Pend_Replace).
Proof.
  intros Hag. split_and!.
  - intros fuel e p. by destruct (engine_agrees sv_order now ctime B1 B2 Hag fuel e IdT0 TransactionScope.empty p).
  - intros fuel i tr p. by destruct (engine_agrees sv_order now ctime B1 B2 Hag fuel (OrderEvent None) i tr p).
  - intros. by apply raise_agree.
  - intros ks x y Hk. induction 1 as [x|ks k x a b a' b' _ IH Sa Sb]; [done|]. apply Forall_app in Hk as [Hks Hk]. apply Forall_cons in Hk as [Hk _].
    destruct (IH Hks) as [H2 H1]. cbn in *. split; [intros Hx; specialize (H2 Hx); subst b|intros Hx; specialize (H1 Hx); subst a].
    + exact (stuck_step k GoingCancel b' (or_introl eq_refl) Hk Sb).
    + exact (stuck_step k Pend_Replace a' (or_intror eq_refl) Hk Sa).
Qed.

(** ** Runs: the resting buy order of [EndToEnd], suspended and cancelled *)

Abbreviation ex_saver := (OrderStateMachine.ex_saver).

Lemma ex_stored : stored ex_world 1%nat ex_resting "WebSocket" (New, NoCnlReplace).
Proof.
  split; [split| |]; try (by vm_compute); [by eexists|]. intros j [x Hx]. cbn in Hx. by rewrite lookup_empty in Hx.
Qed.

Lemma ex_mgr_ok : mgr_ok 2 ex_p.
Proof. split; [|cbn; lia]. exists 100. split; [apply TransactionMgr.init_inv; lia|cbn; lia]. Qed.

Lemma order_withdrawn_witness : ∃ p1 tr p2,
  onEvent (B := backend_machine (msm_backend ex_saver 1000)) ex_saver 1000 0 (OrderChangeStateEvent (mkIdT 2 1) SUSPEND) ex_p = Some (Ok tt, p1) ∧
  process (B := backend_machine (msm_backend ex_saver 1000)) ex_saver 1000 5 0 (mkIdT 100 1000) tr p1 = Some (Ok tt, p2) ∧
  Book.orderGroups (w_book (p_world p2)) !! Book.ex_instr = Some (Book.mkGroup [] []).
Proof.
  destruct (order_withdrawn (B := msm_backend ex_saver 1000) ex_saver 1000 5 (OrderChangeStateEvent (mkIdT 2 1) SUSPEND) (mkIdT 2 1)
    (onSuspended (ev_base true)) Suspended SUSPENDED_ORDSTATUS SUSPENDED_EXECTYPE 1%nat ex_resting "WebSocket" (New, NoCnlReplace)
    ex_group [(px_of_pos 101, mkIdT 2 1)] [] ex_p 0 0) as (p1 & tr & p2 & E1 & _ & _ & _ & _ & _ & E2 & _ & _ & Eb & _).
  - reflexivity.
  - reflexivity.
  - exact ex_stored.
  - by left.
  - reflexivity.
  - reflexivity.
  - by left.
  - reflexivity.
  - reflexivity.
  - vm_compute. discriminate.
  - apply map_Forall_singleton. split; [|apply Multimap.wf_nil]. apply Multimap.wf_cons; [reflexivity|apply Multimap.wf_nil|constructor].
  - reflexivity.
  - reflexivity.
  - vm_compute. reflexivity.
  - exact ex_mgr_ok.
  - vm_compute. discriminate.
  - exists p1, tr, p2. split; [exact E1|]. split; [exact E2|]. rewrite Eb. vm_compute. reflexivity.
Defined.


(** A machine that refuses every other event, and a cancelled order under a trade and the
    end of the day. *)
Definition ex_machine : Machine (SO := unit) (SD := unit) ex_saver 1000 := {|
  process_event e m := if bool_decide (kind e ∈ engine_kinds) then process_event (Machine := backend_machine (msm_backend ex_saver 1000)) e m
                       else (Throw "refused", m) |}.

Lemma requests_never_complete_witness :
  onEvent (B := backend_machine (msm_backend ex_saver 1000)) ex_saver 1000 0 (OrderCancelEvent (mkIdT 2 1) "") ex_p =
    onEvent (B := ex_machine) ex_saver 1000 0 (OrderCancelEvent (mkIdT 2 1) "") ex_p ∧
  (DoneForDay, GoingCancel).2 = GoingCancel.
Proof.
  destruct (requests_never_complete ex_saver 1000 5 (backend_machine (msm_backend ex_saver 1000)) ex_machine) as (H1 & _ & _ & H2).
  { intros e m Hk. cbn. by rewrite bool_decide_eq_true_2. }
  split; [apply H1|]. apply (H2 [KTradeExecution; KFinished] (New, GoingCancel) (DoneForDay, GoingCancel)); [repeat constructor; in_kinds| |reflexivity].
  apply (continues_step [KTradeExecution] KFinished _ PartFill GoingCancel); [|by eapply fires; vm_compute; left|constructor].
  apply (continues_step [] KTradeExecution _ New GoingCancel); [constructor|by eapply fires; vm_compute; left|constructor].
Defined.
End Lifecycle.
