(* ===== verification/Filters.v ===== *)
(** The filters of subscriptions: elementary filters ([src/src/FilterImpl.h],
    [src/src/FilterImpl.cpp]), filters on reference data
    ([src/src/EntryFilter.cpp]) and on orders ([src/src/OrderFilter.cpp]). *)

From Stdlib Require Import Ascii String ZArith Lia.
From S2P Require Import Prelude Types WideData.

Module Filters.

(** ** Elementary filters *)

(** class StringEqualFilter, StringInSetFilter, StringMatchFilter -- src/src/FilterImpl.h:94-136 *)
Inductive StringFilter :=
  | StringEqualFilter (val : StringT)
  | StringInSetFilter (val : list StringT)
  | StringMatchFilter (pattern : string).

(** class DateTimeEqualFilter ... DateTimeInRangeFilter -- src/src/FilterImpl.h:138-204 *)
Inductive DateTimeFilter :=
  | DateTimeEqualFilter (val : DateTimeT) | DateTimeLessFilter (val : DateTimeT)
  | DateTimeGreaterFilter (val : DateTimeT) | DateTimeLessEqualFilter (val : DateTimeT)
  | DateTimeGreaterEqualFilter (val : DateTimeT) | DateTimeInRangeFilter (begin_ end_ : DateTimeT).

(** class PriceEqualFilter ... PriceInRangeFilter -- src/src/FilterImpl.h:206-272 *)
Inductive PriceFilter :=
  | PriceEqualFilter (val : PriceT) | PriceLessFilter (val : PriceT)
  | PriceGreaterFilter (val : PriceT) | PriceLessEqualFilter (val : PriceT)
  | PriceGreaterEqualFilter (val : PriceT) | PriceInRangeFilter (begin_ end_ : PriceT).

(** class IdTDateEqualFilter ... IdTDateMatchFilter -- src/src/FilterImpl.h:274-358 *)
Inductive IdTDateFilter :=
  | IdTDateEqualFilter (val : Z) | IdTDateLessFilter (val : Z) | IdTDateGreaterFilter (val : Z)
  | IdTDateLessEqualFilter (val : Z) | IdTDateGreaterEqualFilter (val : Z)
  | IdTDateInRangeFilter (begin_ end_ : Z) | IdTDateMatchFilter (pattern : string).

(** class QuantityEqualFilter ... QuantityInRangeFilter -- src/src/FilterImpl.h:447-513 *)
Inductive QuantityFilter :=
  | QuantityEqualFilter (val : QuantityT) | QuantityLessFilter (val : QuantityT)
  | QuantityGreaterFilter (val : QuantityT) | QuantityLessEqualFilter (val : QuantityT)
  | QuantityGreaterEqualFilter (val : QuantityT) | QuantityInRangeFilter (begin_ end_ : QuantityT).

(** class IdTFilter -- src/src/FilterImpl.h:432-445
    [idFilter_] is null or an [IdTIdEqualFilter], its value. *)
Record IdTFilter := mkIdTFilter { dateFilters : list IdTDateFilter; idFilter : option IdT }.

(** EnumEqualFilter::filter, EnumInSetFilter::filter -- src/src/FilterImpl.h:26-54 *)
Definition enum_equal {T} `{EqDecision T} (v val : T) : bool := bool_decide (val = v).
Definition enum_in {T} `{EqDecision T} (vs : list T) (val : T) : bool := bool_decide (val ∈ vs).

(** EnumSetEqualFilter::filter -- src/src/FilterImpl.h:56-69
    A [std::set] is the list of its elements in order. *)
Definition enum_set_equal {T} `{EqDecision T} (vs val : list T) : bool := bool_decide (val = vs).

(** EnumSetInSetFilter::filter -- src/src/FilterImpl.h:71-92 *)
Definition enum_set_in {T} `{EqDecision T} (vs val : list T) : bool := forallb (enum_in vs) val.

(** DateTimeFilter::filter, six classes -- src/src/FilterImpl.cpp:63-103 *)
Definition datetime_filter (f : DateTimeFilter) (val : DateTimeT) : bool :=
  match f with
  | DateTimeEqualFilter v => val =? v
  | DateTimeLessFilter v => val <? v
  | DateTimeGreaterFilter v => v <? val
  | DateTimeLessEqualFilter v => val <=? v
  | DateTimeGreaterEqualFilter v => v <=? val
  | DateTimeInRangeFilter b e => (val <=? e) && (b <=? val)
  end.

(** PriceFilter::filter, six classes -- src/src/FilterImpl.cpp:105-145 *)
Definition price_filter (f : PriceFilter) (val : PriceT) : bool :=
  match f with
  | PriceEqualFilter v => px_eqb val v
  | PriceLessFilter v => px_ltb val v
  | PriceGreaterFilter v => px_gtb val v
  | PriceLessEqualFilter v => px_leb val v
  | PriceGreaterEqualFilter v => px_leb v val
  | PriceInRangeFilter b e => px_leb val e && px_leb b val
  end.

(** IdTDateFilter::filter, seven classes -- src/src/FilterImpl.cpp:147-226 *)
Definition date_filter (f : IdTDateFilter) (val : Z) : bool :=
  match f with
  | IdTDateEqualFilter v => val =? v
  | IdTDateLessFilter v => val <? v
  | IdTDateGreaterFilter v => v <? val
  | IdTDateLessEqualFilter v => val <=? v
  | IdTDateGreaterEqualFilter v => v <=? val
  | IdTDateInRangeFilter b e => (val <=? e) && (b <=? val)
  | IdTDateMatchFilter _ => false
  end.

(** IdTDateFilter::getVal, seven classes -- src/src/FilterImpl.cpp:154-231
    The value written, when [true] is returned. *)
Definition date_getVal (f : IdTDateFilter) : option Z :=
  match f with IdTDateEqualFilter v => Some v | _ => None end.

(** QuantityFilter::filter, six classes -- src/src/FilterImpl.cpp:247-287 *)
Definition quantity_filter (f : QuantityFilter) (val : QuantityT) : bool :=
  match f with
  | QuantityEqualFilter v => val =? v
  | QuantityLessFilter v => val <? v
  | QuantityGreaterFilter v => v <? val
  | QuantityLessEqualFilter v => val <=? v
  | QuantityGreaterEqualFilter v => v <=? val
  | QuantityInRangeFilter b e => (val <=? e) && (b <=? val)
  end.

(** IdTFilter::setIdFilter -- src/src/FilterImpl.cpp:291-295 *)
Definition setIdFilter (i : IdT) (f : IdTFilter) : outcome IdTFilter :=
  match idFilter f with
  | None => Ok (mkIdTFilter (dateFilters f) (Some i))
  | Some _ => Crash "assert"
  end.

(** IdTFilter::addFilter -- src/src/FilterImpl.cpp:297-300 *)
Definition addDateFilter (d : IdTDateFilter) (f : IdTFilter) : IdTFilter :=
  mkIdTFilter (dateFilters f ++ [d]) (idFilter f).

(** IdTFilter::match -- src/src/FilterImpl.cpp:302-317 *)
Definition id_match (f : IdTFilter) (i : IdT) : bool :=
  (match idFilter f with Some v => bool_decide (i = v) | None => true end) &&
  forallb (λ d, date_filter d (date_ i)) (dateFilters f).

(** IdTFilter::getVal -- src/src/FilterImpl.cpp:319-331
    The result and the identifier as it is left. *)
Definition id_getVal (f : IdTFilter) (i : IdT) : bool * IdT :=
  let i := default i (idFilter f) in
  match dateFilters f with
  | [d] => match date_getVal d with Some v => (true, mkIdT (id_ i) v) | None => (false, i) end
  | _ => (false, i)
  end.

(** ** Filters on reference data *)

(** class InstrumentElementFilter and its subclasses -- src/src/EntryFilter.h:23-74
    [InstrumentIdFilter] leaves [getInstrumentEntry] pure, although it defines
    it: the constructor stands for a subclass that calls the definition. *)
Inductive InstrumentElementFilter :=
  | InstrumentIdFilter (f : IdTFilter)
  | InstrumentSymbolFilter (f : StringFilter)
  | InstrumentSecurityIdFilter (f : StringFilter)
  | InstrumentSecurityIdSourceFilter (f : StringFilter).

(** class AccountElementFilter and its subclasses -- src/src/EntryFilter.h:98-150 *)
Inductive AccountElementFilter :=
  | AccountIdFilter (f : IdTFilter)
  | AccountAccountFilter (f : StringFilter)
  | AccountFirmFilter (f : StringFilter)
  | AccountTypeEqualFilter (v : AccountType)
  | AccountTypeInFilter (vs : list AccountType).

(** class ClearingElementFilter and its subclasses -- src/src/EntryFilter.h:169-194 *)
Inductive ClearingElementFilter :=
  | ClearingIdFilter (f : IdTFilter)
  | ClearingFirmFilter (f : StringFilter).

(** ** Filters on orders *)

(** class OrderStatusEqualFilter ... LastUpdateTimeFilter -- src/src/OrderFilter.h:123-417 *)
Inductive OrderElementFilter :=
  | OrderStatusEqualFilter (v : OrderStatus) | OrderStatusInFilter (vs : list OrderStatus)
  | SideEqualFilter (v : Side) | SideInFilter (vs : list Side)
  | OrderTypeEqualFilter (v : OrderType) | OrderTypeInFilter (vs : list OrderType)
  | TIFEqualFilter (v : TimeInForce) | TIFInFilter (vs : list TimeInForce)
  | SettlTypeEqualFilter (v : SettlTypeBase) | SettlTypeInFilter (vs : list SettlTypeBase)
  | CapacityEqualFilter (v : Capacity) | CapacityInFilter (vs : list Capacity)
  | CurrencyEqualFilter (v : Currency) | CurrencyInFilter (vs : list Currency)
  | InstructionsEqualFilter (vs : list Instructions) | InstructionsInFilter (vs : list Instructions)
  | DestinationFilter (f : StringFilter)
  | PxFilter (f : PriceFilter) | StopPxFilter (f : PriceFilter) | AvgPxFilter (f : PriceFilter)
  | DayAvgPxFilter (f : PriceFilter)
  | MinQtyFilter (f : QuantityFilter) | OrderQtyFilter (f : QuantityFilter)
  | LeavesQtyFilter (f : QuantityFilter) | CumQtyFilter (f : QuantityFilter)
  | DayOrderQtyFilter (f : QuantityFilter) | DayCumQtyFilter (f : QuantityFilter)
  | ExpireTimeFilter (f : DateTimeFilter) | SettlDateFilter (f : DateTimeFilter)
  | CreationTimeFilter (f : DateTimeFilter) | LastUpdateTimeFilter (f : DateTimeFilter).

(** class OrderEntryFilter, SourceFilter -- src/src/OrderFilter.h:59-64 *)
Inductive OrderEntryFilter := SourceFilter (f : StringFilter).

(** class OrderFilter -- src/src/OrderFilter.h:66-117
    With the lists of its [InstrumentFilter], [AccountFilter] and
    [ClearingFilter]. *)
Record OrderFilter := mkOrderFilter {
  instrumentFilter : list InstrumentElementFilter; accountFilter : list AccountElementFilter;
  clearingFilter : list ClearingElementFilter; filters : list OrderElementFilter;
  entryFilters : list OrderEntryFilter }.

Definition no_filter : OrderFilter := mkOrderFilter [] [] [] [] [].

(** OrderFilter::addFilter(OrderElementFilter) -- src/src/OrderFilter.cpp:46-50 *)
Definition addFilter (x : OrderElementFilter) (f : OrderFilter) : OrderFilter :=
  mkOrderFilter (instrumentFilter f) (accountFilter f) (clearingFilter f) (filters f ++ [x]) (entryFilters f).

(** OrderFilter::addFilter(OrderEntryFilter) -- src/src/OrderFilter.cpp:52-56 *)
Definition addEntryFilter (x : OrderEntryFilter) (f : OrderFilter) : OrderFilter :=
  mkOrderFilter (instrumentFilter f) (accountFilter f) (clearingFilter f) (filters f) (entryFilters f ++ [x]).

(** OrderFilter::addInstrumentFilter -- src/src/OrderFilter.cpp:58-61
    Each replaces the list. *)
Definition addInstrumentFilter (l : list InstrumentElementFilter) (f : OrderFilter) : OrderFilter :=
  mkOrderFilter l (accountFilter f) (clearingFilter f) (filters f) (entryFilters f).
(** OrderFilter::addAccountFilter -- src/src/OrderFilter.cpp:63-66 *)
Definition addAccountFilter (l : list AccountElementFilter) (f : OrderFilter) : OrderFilter :=
  mkOrderFilter (instrumentFilter f) l (clearingFilter f) (filters f) (entryFilters f).
(** OrderFilter::addClearingFilter -- src/src/OrderFilter.cpp:68-71 *)
Definition addClearingFilter (l : list ClearingElementFilter) (f : OrderFilter) : OrderFilter :=
  mkOrderFilter (instrumentFilter f) (accountFilter f) l (filters f) (entryFilters f).

(** [std::regex_match(val, std::regex(pattern))] is not part of the repository. *)
Section match_.
Context (regex_match : string → StringT → bool) {SD : Type}.
Implicit Types (w : WideData.t SD) (o : OrderEntry).

(** StringFilter::filter, three classes -- src/src/FilterImpl.cpp:21-56 *)
Definition string_filter (f : StringFilter) (val : StringT) : bool :=
  match f with
  | StringEqualFilter v => bool_decide (val = v)
  | StringInSetFilter vs => bool_decide (val ∈ vs)
  | StringMatchFilter p => regex_match p val
  end.

(** StringFilter::getVal, three classes -- src/src/FilterImpl.cpp:32-61 *)
Definition string_getVal (f : StringFilter) : option StringT :=
  match f with StringEqualFilter v => Some v | _ => None end.

(** InstrumentElementFilter::match, four classes -- src/src/EntryFilter.cpp:20-69 *)
Definition instrument_element_match (f : InstrumentElementFilter) (e : InstrumentEntry) : bool :=
  match f with
  | InstrumentIdFilter f => id_match f (in_id e)
  | InstrumentSymbolFilter f => string_filter f (in_symbol e)
  | InstrumentSecurityIdFilter f => string_filter f (in_securityId e)
  | InstrumentSecurityIdSourceFilter f => string_filter f (in_securityIdSource e)
  end.

(** InstrumentElementFilter::getInstrumentEntry, four classes -- src/src/EntryFilter.cpp:27-75
    The result and the entry as it is left. *)
Definition instrument_element_get (f : InstrumentElementFilter) (e : InstrumentEntry) : bool * InstrumentEntry :=
  match f with
  | InstrumentIdFilter f =>
      let r := id_getVal f (in_id e) in
      (r.1, mkInstr (in_symbol e) (in_securityId e) (in_securityIdSource e) r.2)
  | InstrumentSymbolFilter f =>
      match string_getVal f with
      | Some v => (true, mkInstr v (in_securityId e) (in_securityIdSource e) (in_id e))
      | None => (false, e)
      end
  | InstrumentSecurityIdFilter f =>
      match string_getVal f with
      | Some v => (true, mkInstr (in_symbol e) v (in_securityIdSource e) (in_id e))
      | None => (false, e)
      end
  | InstrumentSecurityIdSourceFilter f =>
      match string_getVal f with
      | Some v => (true, mkInstr (in_symbol e) (in_securityId e) v (in_id e))
      | None => (false, e)
      end
  end.

(** InstrumentFilter::getInstrumentEntry, the loop -- src/src/EntryFilter.cpp:91-98
    The loop of [InstrumentFilter::getInstrumentEntry]. *)
Fixpoint get_loop (l : list InstrumentElementFilter) (e : InstrumentEntry) : bool * InstrumentEntry :=
  match l with
  | [] => (true, e)
  | f :: l' =>
      let r := instrument_element_get f e in if r.1 then get_loop l' r.2 else r
  end.

(** InstrumentFilter::getInstrumentEntry -- src/src/EntryFilter.cpp:89-100 *)
Definition getInstrumentEntry (l : list InstrumentElementFilter) (e : InstrumentEntry) : bool * InstrumentEntry :=
  let r := get_loop l e in (r.1 && negb (bool_decide (l = [])), r.2).

(** InstrumentFilter::match -- src/src/EntryFilter.cpp:108-124 *)
Definition instrument_match (l : list InstrumentElementFilter) o w : outcome bool :=
  match l with
  | [] => Ok true
  | _ => obind (WideData.getInstrument (o_instrument o) w) (λ e,
           Ok (forallb (λ f, instrument_element_match f e) l))
  end.

(** AccountElementFilter::match, five classes -- src/src/EntryFilter.cpp:126-159 *)
Definition account_element_match (f : AccountElementFilter) (e : AccountEntry) : bool :=
  match f with
  | AccountIdFilter f => id_match f (ac_id e)
  | AccountAccountFilter f => string_filter f (ac_account e)
  | AccountFirmFilter f => string_filter f (ac_firm e)
  | AccountTypeEqualFilter v => enum_equal v (ac_type e)
  | AccountTypeInFilter vs => enum_in vs (ac_type e)
  end.

(** AccountFilter::match -- src/src/EntryFilter.cpp:179-195 *)
Definition account_match (l : list AccountElementFilter) o w : outcome bool :=
  match l with
  | [] => Ok true
  | _ => obind (WideData.getAccount (o_account o) w) (λ e,
           Ok (forallb (λ f, account_element_match f e) l))
  end.

(** ClearingElementFilter::match, two classes -- src/src/EntryFilter.cpp:197-209 *)
Definition clearing_element_match (f : ClearingElementFilter) (e : ClearingEntry) : bool :=
  match f with
  | ClearingIdFilter f => id_match f (cl_id e)
  | ClearingFirmFilter f => string_filter f (cl_firm e)
  end.

(** ClearingFilter::match -- src/src/EntryFilter.cpp:229-245 *)
Definition clearing_match (l : list ClearingElementFilter) o w : outcome bool :=
  match l with
  | [] => Ok true
  | _ => obind (WideData.getClearing (o_clearing o) w) (λ e,
           Ok (forallb (λ f, clearing_element_match f e) l))
  end.

(** OrderElementFilter::match, every class -- src/src/OrderFilter.cpp:103-325 *)
Definition order_element_match (f : OrderElementFilter) o w : outcome bool :=
  match f with
  | OrderStatusEqualFilter v => Ok (enum_equal v (o_status o))
  | OrderStatusInFilter vs => Ok (enum_in vs (o_status o))
  | SideEqualFilter v => Ok (enum_equal v (o_side o))
  | SideInFilter vs => Ok (enum_in vs (o_side o))
  | OrderTypeEqualFilter v => Ok (enum_equal v (o_ordType o))
  | OrderTypeInFilter vs => Ok (enum_in vs (o_ordType o))
  | TIFEqualFilter v => Ok (enum_equal v (o_tif o))
  | TIFInFilter vs => Ok (enum_in vs (o_tif o))
  | SettlTypeEqualFilter v => Ok (enum_equal v (o_settlType o))
  | SettlTypeInFilter vs => Ok (enum_in vs (o_settlType o))
  | CapacityEqualFilter v => Ok (enum_equal v (o_capacity o))
  | CapacityInFilter vs => Ok (enum_in vs (o_capacity o))
  | CurrencyEqualFilter v => Ok (enum_equal v (o_currency o))
  | CurrencyInFilter vs => Ok (enum_in vs (o_currency o))
  | InstructionsEqualFilter vs => Ok (enum_set_equal vs (o_execInstruct o))
  | InstructionsInFilter vs => Ok (enum_set_in vs (o_execInstruct o))
  | DestinationFilter f => obind (WideData.getString (o_destination o) w) (λ s, Ok (string_filter f s))
  | PxFilter f => Ok (price_filter f (o_price o))
  | StopPxFilter f => Ok (price_filter f (o_stopPx o))
  | AvgPxFilter f => Ok (price_filter f (o_avgPx o))
  | DayAvgPxFilter f => Ok (price_filter f (o_dayAvgPx o))
  | MinQtyFilter f => Ok (quantity_filter f (o_minQty o))
  | OrderQtyFilter f => Ok (quantity_filter f (o_orderQty o))
  | LeavesQtyFilter f => Ok (quantity_filter f (o_leavesQty o))
  | CumQtyFilter f => Ok (quantity_filter f (o_cumQty o))
  | DayOrderQtyFilter f => Ok (quantity_filter f (o_dayOrderQty o))
  | DayCumQtyFilter f => Ok (quantity_filter f (o_dayCumQty o))
  | ExpireTimeFilter f => Ok (datetime_filter f (o_expireTime o))
  | SettlDateFilter f => Ok (datetime_filter f (o_settlDate o))
  | CreationTimeFilter f => Ok (datetime_filter f (o_creationTime o))
  | LastUpdateTimeFilter f => Ok (datetime_filter f (o_lastUpdateTime o))
  end.

(** SourceFilter::match -- src/src/OrderFilter.cpp:222-227 *)
Definition entry_element_match (f : OrderEntryFilter) o w : outcome bool :=
  match f with SourceFilter f => obind (WideData.getString (o_source o) w) (λ s, Ok (string_filter f s)) end.

(** OrderFilter::match, the loops -- src/src/OrderFilter.cpp:77-92
    [for (...) if (!( *it)->match(params)) return false; return true;] *)
Fixpoint all_match {A} (m : A → outcome bool) (l : list A) : outcome bool :=
  match l with
  | [] => Ok true
  | x :: l' => obind (m x) (λ b, if b : bool then all_match m l' else Ok false)
  end.

(** [a && b] of two calls that may throw. *)
Definition andthen (a b : outcome bool) : outcome bool := obind a (λ x, if x : bool then b else Ok false).

(** OrderFilter::match -- src/src/OrderFilter.cpp:73-96 *)
Definition match_ (f : OrderFilter) o w : outcome bool :=
  andthen (andthen (andthen (instrument_match (instrumentFilter f) o w) (account_match (accountFilter f) o w))
             (clearing_match (clearingFilter f) o w))
    (andthen (all_match (λ x, order_element_match x o w) (filters f))
       (all_match (λ x, entry_element_match x o w) (entryFilters f))).

(** OrderFilter::getInstrument -- src/src/OrderFilter.cpp:98-101 *)
Definition getInstrument (f : OrderFilter) (e : InstrumentEntry) : bool * InstrumentEntry :=
  getInstrumentEntry (instrumentFilter f) e.
End match_.
(** ** What matching and the instrument of a filter mean *)
Section theory.
Context (regex_match : string → StringT → bool) {SD : Type}.
Implicit Types (w : WideData.t SD) (o : OrderEntry) (f : OrderFilter).

Lemma all_match_true {A} (m : A → outcome bool) l : all_match m l = Ok true ↔ Forall (λ x, m x = Ok true) l.
Proof.
  induction l as [|x l IH]; simpl; [split; auto|]. rewrite Forall_cons, <- IH.
  destruct (m x) as [[]| |]; simpl; naive_solver.
Qed.

Lemma andthen_true a b : andthen a b = Ok true ↔ a = Ok true ∧ b = Ok true.
Proof. destruct a as [[]| |]; simpl; naive_solver. Qed.

Lemma all_match_ok {A} (m : A → outcome bool) l : Forall (λ x, is_ok (m x) = true) l → is_ok (all_match m l) = true.
Proof. induction 1 as [|x l Hx _ IH]; simpl; [done|]. destruct (m x) as [[]| |]; simpl in *; done. Qed.

Lemma andthen_ok a b : is_ok a = true → is_ok b = true → is_ok (andthen a b) = true.
Proof. by destruct a as [[]| |]; simpl. Qed.

(** The references of the order resolve. *)
Definition resolved o w : Prop :=
  (∃ e, WideData.getInstrument (o_instrument o) w = Ok e) ∧ (∃ e, WideData.getAccount (o_account o) w = Ok e) ∧
  (∃ e, WideData.getClearing (o_clearing o) w = Ok e) ∧ (∃ s, WideData.getString (o_destination o) w = Ok s) ∧
  (∃ s, WideData.getString (o_source o) w = Ok s).

Abbreviation matches f o w := (match_ regex_match f o w = Ok true).

(** Matching an order whose references resolve does not throw. *)
Lemma match_total f o w : resolved o w → ∃ b, match_ regex_match f o w = Ok b.
Proof.
  intros ([ie Hi] & [ae Ha] & [ce Hc] & [d Hd] & [src Hs]).
  assert (is_ok (match_ regex_match f o w) = true) as H; [|by destruct (match_ _ _ _ _); eauto].
  unfold match_. repeat apply andthen_ok.
  - unfold instrument_match. destruct (instrumentFilter f); [done|]. by rewrite Hi.
  - unfold account_match. destruct (accountFilter f); [done|]. by rewrite Ha.
  - unfold clearing_match. destruct (clearingFilter f); [done|]. by rewrite Hc.
  - apply all_match_ok, Forall_forall. intros [] _; simpl; rewrite ?Hd; done.
  - apply all_match_ok, Forall_forall. intros [] _; simpl; by rewrite Hs.
Qed.

(** A filter is the conjunction of its parts; what has no part accepts every
    order and needs no reference. *)
Lemma match_conjunction f o w : matches f o w ↔
  (instrumentFilter f = [] ∨ ∃ e, WideData.getInstrument (o_instrument o) w = Ok e ∧
     Forall (λ x, instrument_element_match regex_match x e = true) (instrumentFilter f)) ∧
  (accountFilter f = [] ∨ ∃ e, WideData.getAccount (o_account o) w = Ok e ∧
     Forall (λ x, account_element_match regex_match x e = true) (accountFilter f)) ∧
  (clearingFilter f = [] ∨ ∃ e, WideData.getClearing (o_clearing o) w = Ok e ∧
     Forall (λ x, clearing_element_match regex_match x e = true) (clearingFilter f)) ∧
  Forall (λ x, order_element_match regex_match x o w = Ok true) (filters f) ∧
  Forall (λ x, entry_element_match regex_match x o w = Ok true) (entryFilters f).
Proof.
  assert (∀ A E (m : A → E → bool) (l : list A) (g : outcome E),
    match l with [] => Ok true | _ => obind g (λ e, Ok (forallb (λ x, m x e) l)) end = Ok true ↔
    (l = [] ∨ ∃ e, g = Ok e ∧ Forall (λ x, m x e = true) l)) as Hpart.
  { intros A E m l g. destruct l as [|x l]; [naive_solver|]. destruct g as [e| |]; simpl; [|naive_solver..].
    split.
    - intros H. assert (forallb (λ x, m x e) (x :: l) = true) as H' by (simpl; congruence). clear H. rename H' into H. right. exists e. split; [done|]. apply Forall_forall. intros y Hy.
      rewrite forallb_forall in H. by apply H, list_elem_of_In.
    - intros [?|(e' & [= <-] & H)]; [done|]. f_equal. apply (proj2 (forallb_forall (λ x, m x e) (x :: l))). intros y Hy.
      rewrite Forall_forall in H. by apply H, list_elem_of_In. }
  unfold match_, instrument_match, account_match, clearing_match.
  rewrite !andthen_true, !all_match_true, !Hpart. tauto.
Qed.

(** The filter says something about the symbol. *)
Definition names_symbol f : Prop := ∃ x, InstrumentSymbolFilter x ∈ instrumentFilter f.

Lemma get_loop_symbol l e e' : get_loop l e = (true, e') →
  in_symbol e' = in_symbol e ∧ (∀ x, InstrumentSymbolFilter x ∉ l) ∨
  InstrumentSymbolFilter (StringEqualFilter (in_symbol e')) ∈ l.
Proof.
  revert e. induction l as [|f l IH]; intros e; simpl.
  { intros [= <-]. left. split; [done|]. intros x Hx. by apply elem_of_nil in Hx. }
  destruct (instrument_element_get f e) as [b e1] eqn:E. destruct b; simpl; [|done].
  intros Hl. destruct (IH e1 Hl) as [[Hs Hn]|Hin]; [|right; by right].
  destruct f as [g|[v|vs|p]|[v|vs|p]|[v|vs|p]]; simpl in E; simplify_eq/=;
    first [right; by left|right; rewrite Hs; by left|left; split; [done|]; intros x Hx; apply elem_of_cons in Hx as [?|?]; [done|by eapply Hn]].
Qed.

(** The instrument a filter is grouped under is the one every order it accepts
    is for, provided the filter names a symbol. *)
Lemma getInstrument_sound f e0 e o w i : names_symbol f → getInstrument f e0 = (true, e) →
  matches f o w → WideData.getInstrument (o_instrument o) w = Ok i → in_symbol i = in_symbol e.
Proof.
  intros [x Hx] Hg Hm Hi. unfold getInstrument, getInstrumentEntry in Hg.
  destruct (get_loop (instrumentFilter f) e0) as [b e'] eqn:E. simpl in Hg. injection Hg as Hb <-.
  apply andb_true_iff in Hb as [-> _].
  destruct (get_loop_symbol _ _ _ E) as [[_ Hn]|Hin]; [by destruct (Hn x)|].
  apply match_conjunction in Hm as ([Hnil|(i' & Hi' & Hall)] & _); [rewrite Hnil in Hin; by apply elem_of_nil in Hin|].
  rewrite Hi in Hi'. injection Hi' as <-. rewrite Forall_forall in Hall. specialize (Hall _ Hin). simpl in Hall.
  by case_bool.
Qed.
End theory.
End Filters.
