(* ===== verification/Subscr.v ===== *)
(** Subscriptions to order events: the subscription manager
    ([src/src/SubscrManager.cpp]), the subscription layer
    ([src/src/SubscriptionLayerImpl.cpp]) and the event manager that connects
    them ([src/src/EventManager.cpp]). *)

From Stdlib Require Import Ascii String ZArith Lia.
From S2P Require Import Prelude Types WideData Filters.

Module SubscrManager.
Import Filters.

(** An [OrderFilter] object. *)
Definition ptr : Type := nat.

(** enum SubscriptionType -- src/src/SubscrManager.h:34-49 *)
Inductive SubscriptionType :=
  INVALID_SUBSCRIPTION | ORDER_SUBSCRIPTION | EXEC_SUBSCRIPTION | MARKETDATA_SUBSCRIPTION
  | TIMER_SUBSCRIPTION | HALT_SUBSCRIPTION | ALERT_SUBSCRIPTION | TRANSACTION_SUBSCRIPTION
  | INVLDTRANSACT_SUBSCRIPTION | FAILEDTRANSACT_SUBSCRIPTION | CANCELTRANSACT_SUBSCRIPTION
  | NOSUBSCRIPTION_SUBSCRIPTION.
#[global] Instance SubscriptionType_dec : EqDecision SubscriptionType. Proof. solve_decision. Defined.
Definition TOTAL_SUBSCRIPTION : nat := 12.
Definition ORDER_INDEX : nat := 1.

(** struct SubscriptionInfo -- src/src/SubscrManager.h:51-61 *)
Record SubscriptionInfo := mkSub {
  si_id : IdT; si_name : string; si_type : SubscriptionType; si_order : option ptr; si_handler : IdT }.

(** struct SubscriptionsGroup -- src/src/SubscrManager.h:103-107
    [GroupInstrumentsBySymbol] compares the symbols only, so the map is keyed by
    them; a set is the list of its elements in the order of their identifiers. *)
Record SubscriptionsGroup := mkSG {
  groupedByInstruments : gmap string (list SubscriptionInfo); generalSubscriptions : list SubscriptionInfo }.

(** class SubscrManager -- src/src/SubscrManager.h:75-114
    [subscriptionsBySubscriber_] is the list of its pairs in the order of the
    keys; [subscriptionsByName_] is never used.  [objs] holds the filter objects
    that exist. *)
Record t := mkMgr {
  subscrCounter : Z; availableSubscriptions : list SubscriptionInfo;
  subscriptionsByHandler : gmap IdT (list SubscriptionInfo);
  subscriptionsBySubscriber : list (IdT * list SubscriptionsGroup);
  objs : gmap ptr OrderFilter }.

(** SubscrManager::SubscrManager -- src/src/SubscrManager.cpp:32-35 *)
Definition create : t := mkMgr 1 [] ∅ [] ∅.

(** SubscrInfoByID::operator() -- src/src/SubscrManager.cpp:22-25
    The insertion into a set ordered by it. *)
Fixpoint set_insert (x : SubscriptionInfo) (l : list SubscriptionInfo) : list SubscriptionInfo :=
  match l with
  | [] => [x]
  | y :: l' =>
      if IdT_ltb (si_id x) (si_id y) then x :: l
      else if IdT_ltb (si_id y) (si_id x) then y :: set_insert x l' else l
  end.

(** [std::map] by subscriber: lookup, insertion or assignment, erasure. *)
Section map_.
Context {V : Type}.
Fixpoint map_find (k : IdT) (l : list (IdT * V)) : option V :=
  match l with
  | [] => None
  | (k', v) :: l' => if IdT_eqb k' k then Some v else map_find k l'
  end.
Fixpoint map_put (k : IdT) (v : V) (l : list (IdT * V)) : list (IdT * V) :=
  match l with
  | [] => [(k, v)]
  | (k', v') :: l' =>
      if IdT_ltb k k' then (k, v) :: l
      else if IdT_ltb k' k then (k', v') :: map_put k v l' else (k, v) :: l'
  end.
Fixpoint map_erase (k : IdT) (l : list (IdT * V)) : list (IdT * V) :=
  match l with
  | [] => []
  | (k', v) :: l' => if IdT_eqb k' k then l' else (k', v) :: map_erase k l'
  end.
End map_.

Definition empty_instrument : InstrumentEntry := mkInstr EmptyString EmptyString EmptyString IdT0.

(** SubscrManager::addSubscription, the group -- src/src/SubscrManager.cpp:60-76
    The subscription entered into the order group of its subscriber. *)
Definition enter (general : bool) (symbol : string) (val : SubscriptionInfo) (g : SubscriptionsGroup) : SubscriptionsGroup :=
  if general then mkSG (groupedByInstruments g) (set_insert val (generalSubscriptions g))
  else mkSG (<[symbol := set_insert val (default [] (groupedByInstruments g !! symbol))]> (groupedByInstruments g))
         (generalSubscriptions g).

(** SubscrManager::addSubscription -- src/src/SubscrManager.cpp:39-79 *)
Definition addSubscription (name : string) (filter : ptr) (handlerId : IdT) : M t unit := λ m,
  match objs m !! filter with
  | None => (Crash "dangling filter", m)
  | Some f =>
      let val := mkSub (mkIdT (subscrCounter m) 0) name ORDER_SUBSCRIPTION (Some filter) handlerId in
      let r := getInstrument f empty_instrument in
      let v := default (replicate TOTAL_SUBSCRIPTION (mkSG ∅ [])) (map_find handlerId (subscriptionsBySubscriber m)) in
      (Ok tt, mkMgr (wrap64 (subscrCounter m + 1)) (set_insert val (availableSubscriptions m))
         (<[handlerId := default [] (subscriptionsByHandler m !! handlerId) ++ [val]]> (subscriptionsByHandler m))
         (map_put handlerId (alter (enter (negb r.1) (in_symbol r.2) val) ORDER_INDEX v) (subscriptionsBySubscriber m))
         (objs m))
  end.

(** SubscrManager::removeSubscriptions, the locked part -- src/src/SubscrManager.cpp:84-93
    The locked part of [removeSubscriptions]: the subscriptions to release. *)
Definition unlink (handlerId : IdT) : M t (list SubscriptionInfo) := λ m,
  match subscriptionsByHandler m !! handlerId with
  | None => (Ok [], m)
  | Some lst =>
      (Ok lst, mkMgr (subscrCounter m) (availableSubscriptions m) (<[handlerId := []]> (subscriptionsByHandler m))
         (map_erase handlerId (subscriptionsBySubscriber m)) (objs m))
  end.

(** SubscrManager::removeSubscriptions, one release -- src/src/SubscrManager.cpp:96-114
    [it->subscription_.order_->release(); delete it->subscription_.order_;] *)
Definition release (x : SubscriptionInfo) : M t unit := λ m,
  if bool_decide (si_type x = ORDER_SUBSCRIPTION) then
    match si_order x with
    | None => (Crash "null filter", m)
    | Some p =>
        match objs m !! p with
        | None => (Crash "dangling filter", m)
        | Some _ => (Ok tt, mkMgr (subscrCounter m) (availableSubscriptions m) (subscriptionsByHandler m)
                              (subscriptionsBySubscriber m) (delete p (objs m)))
        end
    end
  else (Ok tt, m).

(** SubscrManager::removeSubscriptions, the loop -- src/src/SubscrManager.cpp:94-115 *)
Fixpoint release_all (l : list SubscriptionInfo) : M t unit :=
  match l with [] => ret tt | x :: l' => release x ;;; release_all l' end.

(** SubscrManager::removeSubscriptions -- src/src/SubscrManager.cpp:81-116
    The releasing loop runs without the lock. *)
Definition removeSubscriptions (handlerId : IdT) : M t unit :=
  lst <- unlink handlerId ;; release_all lst.

Section get.
Context (regex_match : string → StringT → bool) {SD : Type}.
Implicit Types (w : WideData.t SD) (o : OrderEntry).

Definition bad_type : string := "Subscription with invalid type enqueued at Orders subscriptions!".

(** SubscrManager::getSubscribers, one set -- src/src/SubscrManager.cpp:133-145
    The search of a set for the first subscription that matches: its handler. *)
Fixpoint any_match m o w (l : list SubscriptionInfo) : outcome (option IdT) :=
  match l with
  | [] => Ok None
  | x :: l' =>
      if bool_decide (si_type x ≠ ORDER_SUBSCRIPTION) then Throw bad_type
      else match si_order x with
           | None => any_match m o w l'
           | Some p =>
               match objs m !! p with
               | None => Crash "dangling filter"
               | Some f => obind (match_ regex_match f o w) (λ b,
                   if b : bool then Ok (Some (si_handler x)) else any_match m o w l')
               end
           end
  end.

(** SubscrManager::getSubscribers, one subscriber -- src/src/SubscrManager.cpp:125-164
    One subscriber: the group of the instrument first, then the general ones. *)
Definition subscriber_match m o w (v : list SubscriptionsGroup) : outcome (option IdT) :=
  if negb (length v =? TOTAL_SUBSCRIPTION)%nat then Crash "assert"
  else match v !! ORDER_INDEX with
       | None => Crash "vector index"
       | Some g =>
           obind (WideData.getInstrument (o_instrument o) w) (λ i,
           obind (match groupedByInstruments g !! in_symbol i with
                  | Some l => any_match m o w l
                  | None => Ok None
                  end) (λ found,
           match found with Some h => Ok (Some h) | None => any_match m o w (generalSubscriptions g) end))
       end.

(** SubscrManager::getSubscribers, the loop -- src/src/SubscrManager.cpp:122-165 *)
Fixpoint subscribers_loop m o w (l : list (IdT * list SubscriptionsGroup)) : outcome (list IdT) :=
  match l with
  | [] => Ok []
  | (_, v) :: l' =>
      obind (subscriber_match m o w v) (λ b,
      obind (subscribers_loop m o w l') (λ r, Ok (option_list b ++ r)))
  end.

(** SubscrManager::getSubscribers -- src/src/SubscrManager.cpp:118-167 *)
Definition getSubscribers m o w : outcome (list IdT) := subscribers_loop m o w (subscriptionsBySubscriber m).
End get.
(** ** Invariant *)
Section theory.
Context (regex_match : string → StringT → bool) {SD : Type}.
Implicit Types (w : WideData.t SD) (o : OrderEntry) (m : t) (x : SubscriptionInfo).

(** The subscriptions of a handler. *)
Definition subs m (h : IdT) : list SubscriptionInfo := default [] (subscriptionsByHandler m !! h).

Definition in_group x (g : SubscriptionsGroup) : Prop :=
  x ∈ generalSubscriptions g ∨ ∃ s l, groupedByInstruments g !! s = Some l ∧ x ∈ l.

(** A subscription is entered where its filter's instrument says. *)
Definition placed m x (g : SubscriptionsGroup) : Prop :=
  ∃ p f, si_order x = Some p ∧ objs m !! p = Some f ∧
    (x ∈ generalSubscriptions g → (getInstrument f empty_instrument).1 = false) ∧
    ∀ s l, groupedByInstruments g !! s = Some l → x ∈ l →
      (getInstrument f empty_instrument).1 = true ∧ in_symbol (getInstrument f empty_instrument).2 = s.

Definition key_lt {V} (a b : IdT * V) : Prop := IdT_lt a.1 b.1.

(** [ps] are the subscriptions unlinked but not yet released. *)
Record Inv m (ps : list SubscriptionInfo) : Prop := {
  inv_counter : 0 < subscrCounter m;
  inv_sorted : StronglySorted key_lt (subscriptionsBySubscriber m);
  inv_vector h v : (h, v) ∈ subscriptionsBySubscriber m →
    length v = TOTAL_SUBSCRIPTION ∧ ∃ g, v !! ORDER_INDEX = Some g ∧
      (∀ x, in_group x g ↔ x ∈ subs m h) ∧ (∀ x, x ∈ subs m h → placed m x g);
  inv_absent h : h ∉ (subscriptionsBySubscriber m).*1 → subs m h = [];
  inv_sub h x : x ∈ subs m h → si_type x = ORDER_SUBSCRIPTION ∧ si_handler x = h ∧
    date_ (si_id x) = 0 ∧ id_ (si_id x) < subscrCounter m;
  inv_pending x : x ∈ ps → si_type x = ORDER_SUBSCRIPTION ∧
    ∃ p f, si_order x = Some p ∧ objs m !! p = Some f;
  inv_owner h h' x y : x ∈ subs m h → y ∈ subs m h' → si_order x = si_order y → x = y;
  inv_foreign h x y : x ∈ subs m h → y ∈ ps → si_order x ≠ si_order y;
  inv_once : NoDup (si_order <$> ps);
  inv_distinct h : NoDup (si_order <$> subs m h);
}.

(** ** Sets and maps *)

Lemma set_insert_elem x l : Forall (λ y, si_id y ≠ si_id x) l → ∀ y, y ∈ set_insert x l ↔ y = x ∨ y ∈ l.
Proof.
  induction 1 as [|z l Hz _ IH]; intros y; simpl; [set_solver|].
  destruct (IdT_ltb (si_id x) (si_id z)) eqn:E1; [set_solver|].
  destruct (IdT_ltb (si_id z) (si_id x)) eqn:E2; [rewrite !elem_of_cons, IH; tauto|].
  exfalso. apply Hz. destruct (trichotomy IdT_lt (si_id x) (si_id z)) as [?|[?|?]]; unfold IdT_lt in *; congruence.
Qed.

Lemma lt_irr i j : IdT_lt i j → i ≠ j.
Proof. intros H ->. exact (IdT_lt_asym _ _ H H). Qed.

Section maps.
Context {V : Type}.
Implicit Types (l : list (IdT * V)).

Lemma map_find_None k l : map_find k l = None ↔ k ∉ l.*1.
Proof.
  induction l as [|[k' v] l IH]; simpl; [set_solver|].
  destruct (IdT_eqb k' k) eqn:E.
  - apply IdT_eqb_spec in E as ->. set_solver.
  - rewrite IH. assert (k' ≠ k) by (intros ->; by rewrite (proj2 (IdT_eqb_spec k k)) in E). set_solver.
Qed.

Lemma map_find_elem k v l : map_find k l = Some v → (k, v) ∈ l.
Proof.
  induction l as [|[k' v'] l IH]; simpl; [done|].
  destruct (IdT_eqb k' k) eqn:E; [apply IdT_eqb_spec in E as ->; intros [= ->]; by left|right; auto].
Qed.

Lemma map_put_elem k v l : StronglySorted key_lt l → ∀ a, a ∈ map_put k v l ↔ a = (k, v) ∨ (a ∈ l ∧ a.1 ≠ k).
Proof.
  induction 1 as [|[k' v'] l _ IH Hall]; intros a; simpl; [set_solver|]. rewrite Forall_forall in Hall.
  assert (∀ b, b ∈ l → k' ≠ b.1) as Hlt.
  { intros b Hb. apply lt_irr, (Hall b Hb). }
  destruct (IdT_ltb k k') eqn:E1.
  - assert (∀ b, b ∈ (k', v') :: l → b.1 ≠ k) as Hne.
    { intros b Hb. apply not_eq_sym, lt_irr. apply elem_of_cons in Hb as [->|Hb]; [done|].
      etrans; [exact E1|]. apply (Hall b Hb). }
    rewrite elem_of_cons. naive_solver.
  - destruct (IdT_ltb k' k) eqn:E2.
    + assert (k' ≠ k) by by apply lt_irr.
      rewrite !elem_of_cons, IH. destruct a as [ka va]; simpl. naive_solver.
    + assert (k = k') as <-.
      { destruct (trichotomy IdT_lt k k') as [?|[?|?]]; unfold IdT_lt in *; congruence. }
      rewrite !elem_of_cons. destruct a as [ka va]; simpl. split; [|naive_solver].
      intros [?|Ha]; [naive_solver|]. specialize (Hlt _ Ha). simpl in Hlt. naive_solver.
Qed.

Lemma map_put_sorted k v l : StronglySorted key_lt l → StronglySorted key_lt (map_put k v l).
Proof.
  induction 1 as [|[k' v'] l Hs IH Hall]; simpl; [repeat constructor|].
  destruct (IdT_ltb k k') eqn:E1.
  - constructor; [by constructor|]. constructor; [done|]. eapply Forall_impl; [exact Hall|].
    intros b Hb. unfold key_lt in *. simpl in *. by etrans.
  - destruct (IdT_ltb k' k) eqn:E2.
    + constructor; [done|]. rewrite Forall_forall in *. intros b [->|[Hb _]]%map_put_elem; [done|by apply Hall|done].
    + assert (k = k') as <- by (destruct (trichotomy IdT_lt k k') as [?|[?|?]]; unfold IdT_lt in *; congruence).
      by constructor.
Qed.

Lemma map_erase_elem k l : StronglySorted key_lt l → ∀ a, a ∈ map_erase k l ↔ a ∈ l ∧ a.1 ≠ k.
Proof.
  induction 1 as [|[k' v'] l _ IH Hall]; intros a; simpl; [set_solver|]. rewrite Forall_forall in Hall.
  destruct (IdT_eqb k' k) eqn:E.
  - apply IdT_eqb_spec in E as ->. rewrite elem_of_cons. split.
    + intros Ha. split; [by right|]. apply not_eq_sym, lt_irr, (Hall a Ha).
    + intros [[->|?] ?]; done.
  - assert (k' ≠ k) by (intros ->; by rewrite (proj2 (IdT_eqb_spec k k)) in E).
    rewrite !elem_of_cons, IH. destruct a; simpl. naive_solver.
Qed.

Lemma map_erase_sorted k l : StronglySorted key_lt l → StronglySorted key_lt (map_erase k l).
Proof.
  induction 1 as [|[k' v'] l Hs IH Hall]; simpl; [constructor|]. destruct (IdT_eqb k' k); [done|].
  constructor; [done|]. rewrite Forall_forall in *. intros b [Hb _]%map_erase_elem; auto.
Qed.

Lemma sorted_unique l k v v' : StronglySorted key_lt l → (k, v) ∈ l → (k, v') ∈ l → v = v'.
Proof.
  induction 1 as [|[k0 v0] l _ IH Hall]; [set_solver|]. rewrite Forall_forall in Hall.
  intros H1 H2. apply elem_of_cons in H1 as [H1|H1], H2 as [H2|H2]; try apply elem_of_cons in H2 as [H2|H2]; simplify_eq; auto.
  - specialize (Hall _ H2). by destruct (IdT_lt_asym _ _ Hall Hall).
  - specialize (Hall _ H1). by destruct (IdT_lt_asym _ _ Hall Hall).
Qed.

Lemma keys_sorted l : StronglySorted key_lt l → StronglySorted IdT_lt l.*1.
Proof. induction 1 as [|a l _ IH Hall]; simpl; constructor; [done|by apply Forall_fmap]. Qed.
End maps.
(** ** Steps

    Clients subscribe with a filter object of their own, unsubscribe under the
    lock and release the unlinked filters without it, in any interleaving. *)
Definition set_obj (p : ptr) (f : OrderFilter) m : t :=
  mkMgr (subscrCounter m) (availableSubscriptions m) (subscriptionsByHandler m)
    (subscriptionsBySubscriber m) (<[p := f]> (objs m)).

Inductive sstep : t * list SubscriptionInfo → t * list SubscriptionInfo → Prop :=
  | s_add m ps p f name h : objs m !! p = None → subscrCounter m + 1 < 2 ^ 64 →
      sstep (m, ps) ((addSubscription name p h (set_obj p f m)).2, ps)
  | s_unlink m ps h lst m' : unlink h m = (Ok lst, m') → sstep (m, ps) (m', ps ++ lst)
  | s_release m ps1 x ps2 m' : release x m = (Ok tt, m') → sstep (m, ps1 ++ x :: ps2) (m', ps1 ++ ps2).

Definition reachable m (ps : list SubscriptionInfo) : Prop := rtc sstep (create, []) (m, ps).

Lemma inv_create : Inv create [].
Proof.
  split; try done; try (by constructor); unfold subs; simpl; try set_solver;
    intros; rewrite lookup_empty in *; simpl in *; try set_solver.
Qed.

(** The group a handler's next subscription is entered into. *)
Lemma handler_group m ps h : Inv m ps →
  let v := default (replicate TOTAL_SUBSCRIPTION (mkSG ∅ [])) (map_find h (subscriptionsBySubscriber m)) in
  length v = TOTAL_SUBSCRIPTION ∧ ∃ g, v !! ORDER_INDEX = Some g ∧
    (∀ x, in_group x g ↔ x ∈ subs m h) ∧ (∀ x, x ∈ subs m h → placed m x g).
Proof.
  intros Hi v. unfold v. destruct (map_find h (subscriptionsBySubscriber m)) as [v0|] eqn:E.
  - apply (inv_vector _ _ Hi h), map_find_elem, E.
  - apply map_find_None in E. rewrite (inv_absent _ _ Hi h E). split; [done|]. exists (mkSG ∅ []).
    split; [done|]. split; [|set_solver]. intros x. split; [|set_solver].
    intros [?|(s0 & l & Hl & _)]; [set_solver|]. simpl in Hl. by rewrite lookup_empty in Hl.
Qed.

Lemma placed_mono m m' x g : placed m x g →
  (∀ q f, objs m !! q = Some f → si_order x = Some q → objs m' !! q = Some f) → placed m' x g.
Proof. intros (q & f & Hq & Hf & H1 & H2) Hmono. exists q, f. split_and!; auto. Qed.

Lemma enter_in_group b sy val g : (∀ x, in_group x g → si_id x ≠ si_id val) →
  ∀ x, in_group x (enter b sy val g) ↔ x = val ∨ in_group x g.
Proof.
  intros Hid x. unfold enter. destruct b; unfold in_group; simpl.
  - rewrite set_insert_elem by (apply Forall_forall; intros; apply Hid; by left). tauto.
  - assert (Forall (λ y, si_id y ≠ si_id val) (default [] (groupedByInstruments g !! sy))) as Hf.
    { apply Forall_forall. intros y Hy. apply Hid. right.
      destruct (groupedByInstruments g !! sy) as [l|] eqn:E; simpl in Hy; [eauto|set_solver]. }
    split.
    + intros [?|(s0 & l & Hl & Hx)]; [tauto|]. destruct (decide (s0 = sy)) as [->|Hne].
      * rewrite lookup_insert_eq in Hl. injection Hl as <-. apply set_insert_elem in Hx as [?|Hx]; [tauto| |done].
        destruct (groupedByInstruments g !! sy) as [l|] eqn:E; simpl in Hx; [|set_solver]. right. right. eauto.
      * rewrite lookup_insert_ne in Hl by done. right. right. eauto.
    + intros [->|[?|(s0 & l & Hl & Hx)]]; [|tauto|]; right.
      * exists sy. eexists. rewrite lookup_insert_eq. split; [done|]. apply set_insert_elem; [done|]. by left.
      * destruct (decide (s0 = sy)) as [->|Hne].
        -- exists sy. eexists. rewrite lookup_insert_eq, Hl. split; [done|]. apply set_insert_elem; [by rewrite Hl in Hf|].
           by right.
        -- exists s0, l. by rewrite lookup_insert_ne.
Qed.

(** Where the subscription itself is, and that the others stay. *)
Lemma enter_placed m b sy val g x : (∀ x, in_group x g → si_id x ≠ si_id val) →
  x ≠ val → placed m x g → placed m x (enter b sy val g).
Proof.
  intros Hid Hne (q & f & Hq & Hf & H1 & H2). exists q, f. split; [done|]. split; [done|].
  assert (∀ l : list SubscriptionInfo, (∀ y, y ∈ l → in_group y g) → x ∈ set_insert val l → x ∈ l) as Hins.
  { intros l Hl Hx. apply set_insert_elem in Hx as [?|?]; [done|done|]. apply Forall_forall. intros; by apply Hid, Hl. }
  unfold enter. destruct b; simpl; split; auto.
  - intros Hx. apply H1, Hins; [|done]. intros y Hy. by left.
  - intros s0 l. destruct (decide (s0 = sy)) as [->|Hs]; [|rewrite lookup_insert_ne by done; apply H2].
    rewrite lookup_insert_eq. intros [= <-] Hx.
    destruct (groupedByInstruments g !! sy) as [l|] eqn:E; simpl in Hx.
    + apply (H2 sy l E), Hins; [|done]. intros y Hy. right. eauto.
    + exfalso. set_solver.
Qed.

Section add.
Variables (m : t) (ps : list SubscriptionInfo) (p : ptr) (f : OrderFilter) (name : string) (h : IdT).
Hypothesis Hi : Inv m ps.
Hypothesis Hp : objs m !! p = None.
Hypothesis Hc : subscrCounter m + 1 < 2 ^ 64.
Let val := mkSub (mkIdT (subscrCounter m) 0) name ORDER_SUBSCRIPTION (Some p) h.
Let m' := (addSubscription name p h (set_obj p f m)).2.
Let r := getInstrument f empty_instrument.
Let v := default (replicate TOTAL_SUBSCRIPTION (mkSG ∅ [])) (map_find h (subscriptionsBySubscriber m)).

Lemma add_eq : m' = mkMgr (subscrCounter m + 1) (set_insert val (availableSubscriptions m))
  (<[h := subs m h ++ [val]]> (subscriptionsByHandler m))
  (map_put h (alter (enter (negb r.1) (in_symbol r.2) val) ORDER_INDEX v) (subscriptionsBySubscriber m))
  (<[p := f]> (objs m)).
Proof.
  unfold m', addSubscription, set_obj. cbn [objs]. rewrite lookup_insert_eq. cbn.
  rewrite wrap64_small; [done|]. pose proof (inv_counter _ _ Hi). unfold is_u64. lia.
Qed.

Lemma add_subs h' : subs m' h' = if decide (h' = h) then subs m h ++ [val] else subs m h'.
Proof.
  rewrite add_eq. unfold subs at 1. cbn. case_decide as E; [subst h'; by rewrite lookup_insert_eq|].
  by rewrite lookup_insert_ne.
Qed.

Lemma add_subs_elem h' x : x ∈ subs m' h' ↔ x ∈ subs m h' ∨ (h' = h ∧ x = val).
Proof. rewrite add_subs. case_decide; [subst|]; set_solver. Qed.

(** No earlier subscription has the filter object. *)
Lemma add_fresh h' x : x ∈ subs m h' → si_order x ≠ Some p.
Proof.
  intros Hx Heq. assert (h' ∈ (subscriptionsBySubscriber m).*1) as Hin.
  { destruct (decide (h' ∈ (subscriptionsBySubscriber m).*1)) as [|Hn]; [done|].
    rewrite (inv_absent _ _ Hi _ Hn) in Hx. set_solver. }
  apply list_elem_of_fmap in Hin as ([h0 v0] & -> & Hin).
  destruct (inv_vector _ _ Hi _ _ Hin) as (_ & g & _ & _ & Hpl).
  destruct (Hpl x Hx) as (q & f0 & Hq & Hf & _). simpl in *. congruence.
Qed.

Lemma add_objs q f0 : objs m !! q = Some f0 → objs m' !! q = Some f0.
Proof. intros Hq. rewrite add_eq. cbn. rewrite lookup_insert_ne; [done|congruence]. Qed.

Lemma add_vector h' v' : (h', v') ∈ subscriptionsBySubscriber m' →
  length v' = TOTAL_SUBSCRIPTION ∧ ∃ g, v' !! ORDER_INDEX = Some g ∧
    (∀ x, in_group x g ↔ x ∈ subs m' h') ∧ (∀ x, x ∈ subs m' h' → placed m' x g).
Proof.
  assert (subscriptionsBySubscriber m' = map_put h (alter (enter (negb r.1) (in_symbol r.2) val) ORDER_INDEX v)
    (subscriptionsBySubscriber m)) as E by (by rewrite add_eq). rewrite E. clear E.
  intros [[= -> ->]|[Hin Hne]]%map_put_elem; [| |apply (inv_sorted _ _ Hi)].
  - destruct (handler_group m ps h Hi) as (Hlen & g & Hg & Hgr & Hpl). fold v in Hlen, Hg.
    rewrite length_alter. split; [done|]. exists (enter (negb r.1) (in_symbol r.2) val g).
    split; [by rewrite list_lookup_alter_eq, Hg|].
    assert (∀ x, in_group x g → si_id x ≠ si_id val) as Hid.
    { intros x Hx%Hgr Heq. destruct (inv_sub _ _ Hi h x Hx) as (_ & _ & _ & Hlt). rewrite Heq in Hlt. simpl in Hlt. lia. }
    split; [intros x; rewrite enter_in_group, Hgr, add_subs_elem by done; naive_solver|].
    intros x [Hx|[_ ->]]%add_subs_elem.
    + apply enter_placed; [done| |].
      * intros ->. by apply (add_fresh h val Hx).
      * eapply placed_mono; [by apply Hpl|]. intros q f0 Hq _. by apply add_objs.
    + exists p, f. split; [done|]. split; [rewrite add_eq; apply lookup_insert_eq|].
      assert (∀ l : list SubscriptionInfo, (∀ y, y ∈ l → in_group y g) → val ∉ l) as Hn.
      { intros l Hl Hv. by apply (Hid val (Hl val Hv)). }
      unfold enter. destruct r as [[] e] eqn:Er; cbn [fst snd negb groupedByInstruments generalSubscriptions]; fold r; rewrite Er.
      * split; [intros Hv; exfalso; eapply (Hn (generalSubscriptions g)); [intros; by left|done]|].
        intros s0 l. destruct (decide (s0 = in_symbol e)) as [->|Hs]; [done|].
        rewrite lookup_insert_ne by done. intros Hl Hv. exfalso. eapply (Hn l); [intros; right; eauto|done].
      * split; [done|]. intros s0 l Hl Hv. exfalso. eapply (Hn l); [intros; right; eauto|done].
  - simpl in Hne. destruct (inv_vector _ _ Hi h' v' Hin) as (Hlen & g & Hg & Hgr & Hpl).
    split; [done|]. exists g. split; [done|]. rewrite add_subs, decide_False by done.
    split; [done|]. intros x Hx. eapply placed_mono; [by apply Hpl|]. intros q f0 Hq _. by apply add_objs.
Qed.

Lemma add_inv : Inv m' ps.
Proof.
  split.
  - rewrite add_eq. cbn. pose proof (inv_counter _ _ Hi). lia.
  - rewrite add_eq. apply map_put_sorted, (inv_sorted _ _ Hi).
  - apply add_vector.
  - intros h' Hn. rewrite add_eq in Hn. cbn in Hn.
    assert (∀ a, a ∈ subscriptionsBySubscriber m ∧ a.1 ≠ h ∨ a = (h, alter (enter (negb r.1) (in_symbol r.2) val) ORDER_INDEX v) →
      a.1 ≠ h') as Hn'.
    { intros a Ha <-. apply Hn, list_elem_of_fmap_2, map_put_elem; [apply (inv_sorted _ _ Hi)|tauto]. }
    assert (h' ≠ h) as Hne by (intros ->; by apply (Hn' (h, alter (enter (negb r.1) (in_symbol r.2) val) ORDER_INDEX v) (or_intror eq_refl))).
    rewrite add_subs, decide_False by done. apply (inv_absent _ _ Hi). intros ([h0 v0] & -> & Ha)%list_elem_of_fmap.
    by apply (Hn' (h0, v0) (or_introl (conj Ha Hne))).
  - intros h' x [Hx|[-> ->]]%add_subs_elem; rewrite add_eq; cbn [subscrCounter].
    + destruct (inv_sub _ _ Hi h' x Hx) as (? & ? & ? & ?). split_and!; try done. lia.
    + split_and!; try done. simpl. lia.
  - intros x Hx. destruct (inv_pending _ _ Hi x Hx) as (? & q & f0 & ? & ?). split; [done|].
    exists q, f0. split; [done|]. by apply add_objs.
  - intros h1 h2 x y [Hx|[-> ->]]%add_subs_elem [Hy|[-> ->]]%add_subs_elem E; [|exfalso..|done].
    + by eapply (inv_owner _ _ Hi).
    + by apply (add_fresh h1 x Hx).
    + by apply (add_fresh h2 y Hy).
  - intros h' x y [Hx|[-> ->]]%add_subs_elem Hy; [by apply (inv_foreign _ _ Hi h')|].
    destruct (inv_pending _ _ Hi y Hy) as (_ & q & f0 & -> & Hq). cbn. congruence.
  - apply (inv_once _ _ Hi).
  - intros h'. rewrite add_subs. case_decide; [|apply (inv_distinct _ _ Hi)].
    rewrite fmap_app. apply NoDup_app. split; [apply (inv_distinct _ _ Hi)|]. split; [|apply NoDup_singleton].
    intros z (x & -> & Hx)%list_elem_of_fmap Hz. apply list_elem_of_singleton in Hz. by apply (add_fresh h x Hx).
Qed.
End add.

Lemma unlink_inv m ps h lst m' : Inv m ps → unlink h m = (Ok lst, m') → Inv m' (ps ++ lst).
Proof.
  intros Hi. unfold unlink. destruct (subscriptionsByHandler m !! h) as [l|] eqn:E; intros [= <- <-].
  2: by rewrite app_nil_r.
  assert (subs m h = l) as El by (unfold subs; by rewrite E).
  set (m' := mkMgr _ _ _ _ _).
  assert (∀ h', subs m' h' = if decide (h' = h) then [] else subs m h') as Es.
  { intros h'. unfold subs, m'. cbn. case_decide; [subst; by rewrite lookup_insert_eq|by rewrite lookup_insert_ne]. }
  assert (∀ h' x, x ∈ subs m' h' → h' ≠ h ∧ x ∈ subs m h') as Hs.
  { intros h' x. rewrite Es. case_decide; set_solver. }
  split.
  - apply (inv_counter _ _ Hi).
  - apply map_erase_sorted, (inv_sorted _ _ Hi).
  - intros h' v' [Hin Hne]%map_erase_elem; [|apply (inv_sorted _ _ Hi)]. simpl in Hne.
    rewrite Es, decide_False by done. apply (inv_vector _ _ Hi h' v' Hin).
  - intros h' Hn. rewrite Es. case_decide as Eh; [done|]. apply (inv_absent _ _ Hi). intros Hin. apply Hn.
    apply list_elem_of_fmap in Hin as (a & -> & Ha). apply list_elem_of_fmap_2, map_erase_elem; [apply (inv_sorted _ _ Hi)|done].
  - intros h' x [_ Hx]%Hs. apply (inv_sub _ _ Hi h' x Hx).
  - intros x [Hx|Hx]%elem_of_app; [apply (inv_pending _ _ Hi x Hx)|]. rewrite <- El in Hx.
    split; [apply (inv_sub _ _ Hi h x Hx)|].
    destruct (handler_group m ps h Hi) as (_ & g & _ & _ & Hpl). destruct (Hpl x Hx) as (q & f & ? & ? & _). eauto.
  - intros h1 h2 x y [_ Hx]%Hs [_ Hy]%Hs. by apply (inv_owner _ _ Hi h1 h2).
  - intros h' x y [Hne Hx]%Hs [Hy|Hy]%elem_of_app; [by apply (inv_foreign _ _ Hi h')|].
    rewrite <- El in Hy. intros Heq. pose proof (inv_owner _ _ Hi _ _ _ _ Hx Hy Heq) as ->.
    destruct (inv_sub _ _ Hi h' y Hx) as (_ & E1 & _), (inv_sub _ _ Hi h y Hy) as (_ & E2 & _). congruence.
  - rewrite fmap_app. apply NoDup_app. split; [apply (inv_once _ _ Hi)|]. rewrite <- El.
    split; [|apply (inv_distinct _ _ Hi)]. intros z (x & -> & Hx)%list_elem_of_fmap (y & Hxy & Hy)%list_elem_of_fmap.
    by apply (inv_foreign _ _ Hi h y x Hy Hx).
  - intros h'. rewrite Es. case_decide; [constructor|apply (inv_distinct _ _ Hi)].
Qed.

(** A pending filter exists, so releasing it succeeds. *)
Lemma release_filter_ok m ps x : Inv m ps → x ∈ ps → ∃ q f, si_order x = Some q ∧ objs m !! q = Some f ∧
  release x m = (Ok tt, mkMgr (subscrCounter m) (availableSubscriptions m) (subscriptionsByHandler m)
    (subscriptionsBySubscriber m) (delete q (objs m))).
Proof.
  intros Hi Hx. destruct (inv_pending _ _ Hi x Hx) as (Ht & q & f & Hq & Hf). exists q, f.
  split; [done|]. split; [done|]. unfold release. rewrite bool_decide_eq_true_2 by done. by rewrite Hq, Hf.
Qed.

Lemma release_inv m ps1 x ps2 m' : Inv m (ps1 ++ x :: ps2) → release x m = (Ok tt, m') → Inv m' (ps1 ++ ps2).
Proof.
  intros Hi E. destruct (release_filter_ok m _ x Hi) as (q & f & Hq & Hf & E'); [set_solver|].
  rewrite E in E'. injection E' as ->.
  assert (∀ y, y ∈ ps1 ++ ps2 → y ∈ ps1 ++ x :: ps2) as Hsub by set_solver.
  assert (∀ y r, y ∈ ps1 ++ ps2 → si_order y = Some r → r ≠ q) as Hne.
  { intros y r Hy Hr ->. pose proof (inv_once _ _ Hi) as Hnd. rewrite fmap_app, fmap_cons in Hnd.
    assert (NoDup (si_order x :: (si_order <$> ps1) ++ (si_order <$> ps2))) as Hnd' by (by rewrite Permutation_middle).
    apply NoDup_cons in Hnd' as [Hn _]. apply Hn. rewrite <- fmap_app, Hq, <- Hr. by apply list_elem_of_fmap_2. }
  assert (∀ h y r, y ∈ subs m h → si_order y = Some r → r ≠ q) as Hne2.
  { intros h y r Hy Hr ->. apply (inv_foreign _ _ Hi h y x Hy); [set_solver|congruence]. }
  split; try apply Hi.
  - intros h v Hin. destruct (inv_vector _ _ Hi h v Hin) as (Hl & g & Hg & Hgr & Hpl).
    split; [done|]. exists g. split; [done|]. split; [done|]. intros y Hy. eapply placed_mono; [by apply Hpl|].
    intros r f0 Hr Hyr. cbn. rewrite lookup_delete_ne; [done|]. apply not_eq_sym. by eapply Hne2.
  - intros y Hy. destruct (inv_pending _ _ Hi y (Hsub y Hy)) as (? & r & f0 & Hr & Hf0). split; [done|].
    exists r, f0. split; [done|]. cbn. rewrite lookup_delete_ne; [done|]. apply not_eq_sym. by eapply Hne.
  - intros h y z Hy Hz. by apply (inv_foreign _ _ Hi h y z Hy (Hsub z Hz)).
  - pose proof (inv_once _ _ Hi) as Hnd. rewrite fmap_app, fmap_cons in Hnd. rewrite fmap_app.
    assert (NoDup (si_order x :: (si_order <$> ps1) ++ (si_order <$> ps2))) as Hnd' by (by rewrite Permutation_middle).
    by apply NoDup_cons in Hnd' as [_ ?].
Qed.

Lemma subscr_inv m ps : reachable m ps → Inv m ps.
Proof.
  unfold reachable. intros Hr.
  change (Inv m ps) with (let y := (m, ps) in Inv y.1 y.2). generalize dependent (m, ps). intros y Hr.
  assert (Inv (create, [] : list SubscriptionInfo).1 (create, []).2) as H0 by exact inv_create. revert H0.
  induction Hr as [x|x y z Hs _ IH]; [done|]. intros Hx. apply IH. clear IH.
  destruct Hs; simpl in *; [by apply add_inv|by eapply unlink_inv|by eapply release_inv].
Qed.

(** ** The subscribers found *)

Definition filter_of m x : option OrderFilter := si_order x ≫= λ p, objs m !! p.

(** The subscription's filter accepts the order. *)
Definition hit m o w x : bool :=
  match filter_of m x with
  | Some f => match match_ regex_match f o w with Ok b => b | _ => false end
  | None => false
  end.

(** A subscription that is entered under an instrument names its symbol. *)
Definition pinned m : Prop := ∀ h x f, x ∈ subs m h → filter_of m x = Some f →
  (getInstrument f empty_instrument).1 = true → names_symbol f.

Definition of_handler m (h : IdT) x : Prop :=
  si_type x = ORDER_SUBSCRIPTION ∧ si_handler x = h ∧ is_Some (filter_of m x).

Lemma any_match_hits m o w h l : resolved o w → Forall (of_handler m h) l →
  any_match regex_match m o w l = Ok (if existsb (hit m o w) l then Some h else None).
Proof.
  intros Hr. induction 1 as [|x l (Ht & Hh & [f Hf]) _ IH]; [done|]. cbn [any_match existsb].
  rewrite bool_decide_eq_false_2 by naive_solver. unfold hit at 1. rewrite Hf. unfold filter_of in Hf.
  destruct (si_order x) as [p|]; [|done]. simpl in Hf. rewrite Hf.
  destruct (match_total regex_match f o w Hr) as [[] ->]; simpl; [by rewrite Hh|done].
Qed.

Lemma group_of_handler m ps h v : Inv m ps → (h, v) ∈ subscriptionsBySubscriber m →
  length v = TOTAL_SUBSCRIPTION ∧ ∃ g, v !! ORDER_INDEX = Some g ∧ (∀ x, in_group x g ↔ x ∈ subs m h) ∧
    (∀ x, x ∈ subs m h → placed m x g) ∧ (∀ x, in_group x g → of_handler m h x).
Proof.
  intros Hi Hin. destruct (inv_vector _ _ Hi h v Hin) as (Hl & g & Hg & Hgr & Hpl).
  split; [done|]. exists g. split_and!; try done. intros x Hx%Hgr.
  destruct (inv_sub _ _ Hi h x Hx) as (? & ? & _). split_and!; try done.
  destruct (Hpl x Hx) as (q & f & Hq & Hf & _). unfold filter_of. rewrite Hq. simpl. rewrite Hf. by eexists.
Qed.

(** A subscription entered under another symbol does not accept the order. *)
Lemma other_symbol_misses m h g x s0 l o w i : pinned m → x ∈ subs m h → placed m x g →
  groupedByInstruments g !! s0 = Some l → x ∈ l → WideData.getInstrument (o_instrument o) w = Ok i →
  s0 ≠ in_symbol i → hit m o w x = false.
Proof.
  intros Hp Hx (q & f & Hq & Hf & _ & H2) Hl Hxl Hi Hne. destruct (H2 s0 l Hl Hxl) as [Ht Hs].
  assert (filter_of m x = Some f) as Hfx by (unfold filter_of; by rewrite Hq).
  unfold hit. rewrite Hfx. destruct (match_ regex_match f o w) as [[]| |] eqn:Em; try done. exfalso. apply Hne.
  destruct (getInstrument f empty_instrument) as [b e] eqn:Eg. simpl in *. subst b.
  rewrite <- Hs. symmetry. by apply (getInstrument_sound regex_match f empty_instrument e o w i (Hp h x f Hx Hfx ltac:(by rewrite Eg)) Eg).
Qed.

Lemma existsb_iff {A} (P : A → bool) (l : list A) b : (b = true ↔ ∃ y, y ∈ l ∧ P y = true) → existsb P l = b.
Proof.
  intros H. apply eq_true_iff_eq. rewrite H, existsb_exists. setoid_rewrite list_elem_of_In. done.
Qed.

Lemma subscriber_match_hits m ps h v o w : Inv m ps → pinned m → resolved o w →
  (h, v) ∈ subscriptionsBySubscriber m →
  subscriber_match regex_match m o w v = Ok (if existsb (hit m o w) (subs m h) then Some h else None).
Proof.
  intros Hi Hp Hr Hin. destruct (group_of_handler m ps h v Hi Hin) as (Hl & g & Hg & Hgr & Hpl & Hof).
  pose proof Hr as ([i Hins] & _). unfold subscriber_match. rewrite Hl, Nat.eqb_refl, Hg, Hins. simpl.
  set (l := default [] (groupedByInstruments g !! in_symbol i)).
  assert (match groupedByInstruments g !! in_symbol i with
    | Some l => any_match regex_match m o w l | None => Ok None end =
    Ok (if existsb (hit m o w) l then Some h else None)) as ->.
  { unfold l. destruct (groupedByInstruments g !! in_symbol i) as [l'|] eqn:E; [|done].
    apply any_match_hits; [done|]. apply Forall_forall. intros x Hx. apply Hof. right. eauto. }
  assert (existsb (hit m o w) (subs m h) = existsb (hit m o w) l || existsb (hit m o w) (generalSubscriptions g)) as ->.
  { apply existsb_iff. rewrite orb_true_iff, !existsb_exists. setoid_rewrite <- list_elem_of_In. split.
    - intros [(x & Hx & Ht)|(x & Hx & Ht)]; exists x; (split; [|done]); apply Hgr; [right|by left].
      unfold l in Hx. destruct (groupedByInstruments g !! in_symbol i) as [l'|] eqn:E; simpl in Hx; [eauto|set_solver].
    - intros (x & Hx & Ht). destruct (proj2 (Hgr x) Hx) as [?|(s0 & l' & Hl' & Hxl)]; [right; eauto|left].
      destruct (decide (s0 = in_symbol i)) as [->|Hne].
      { exists x. split; [|done]. assert (l = l') as -> by (unfold l; replace (groupedByInstruments g !! in_symbol i) with (Some l'); done). done. }
      rewrite (other_symbol_misses m h g x s0 l' o w i) in Ht; eauto. done. }
  destruct (existsb (hit m o w) l); [done|]. simpl.
  apply any_match_hits; [done|]. apply Forall_forall. intros x Hx. apply Hof. by left.
Qed.

Lemma getSubscribers_hits m ps o w : Inv m ps → pinned m → resolved o w →
  getSubscribers regex_match m o w =
    Ok (filter (λ h, existsb (hit m o w) (subs m h) = true) (subscriptionsBySubscriber m).*1).
Proof.
  intros Hi Hp Hr. unfold getSubscribers.
  assert (∀ a, a ∈ subscriptionsBySubscriber m → a ∈ subscriptionsBySubscriber m) as Hall by done. revert Hall.
  generalize (subscriptionsBySubscriber m) at 1 3 4. intros l. induction l as [|[h v] l IH]; intros Hall; [done|].
  cbn [subscribers_loop fmap list_fmap fst]. rewrite (subscriber_match_hits m ps h v) by (try done; apply Hall; by left).
  simpl. rewrite IH by (intros; apply Hall; by right). simpl. rewrite filter_cons.
  case_decide as E; [by rewrite E|]. apply not_true_is_false in E. by rewrite E.
Qed.

(** ** Properties *)

(** C29: the subscribers of an order are exactly the handlers with a subscription
    whose filter accepts it, each once and in the order of their identifiers --
    however subscriptions were added and removed before.  Two conditions: every
    filter that is entered under an instrument names a symbol ([pinned]; without it a
    subscription can be lost, [symbol_less_subscription_lost]), and the references of
    the order lead to stored data ([resolved]; otherwise a filter may throw). *)
Theorem getSubscribers_exact m ps o w : reachable m ps → pinned m → resolved o w →
  getSubscribers regex_match m o w =
    Ok (filter (λ h, existsb (hit m o w) (subs m h) = true) (subscriptionsBySubscriber m).*1) ∧
  StronglySorted IdT_lt (subscriptionsBySubscriber m).*1 ∧
  ∀ h, h ∉ (subscriptionsBySubscriber m).*1 → subs m h = [].
Proof.
  intros Hi%subscr_inv Hp Hr. split; [|split; [|apply (inv_absent _ _ Hi)]].
  - by apply (getSubscribers_hits m ps).
  - apply keys_sorted, (inv_sorted _ _ Hi).
Qed.

Lemma obind_no_crash {A B} (a : outcome A) (k : A → outcome B) c :
  obind a k = Crash c → a = Crash c ∨ ∃ y, a = Ok y ∧ k y = Crash c.
Proof. destruct a; simpl; naive_solver. Qed.

Lemma match_no_crash f o w c : match_ regex_match f o w ≠ Crash c.
Proof.
  assert (∀ a b, (∀ c, a ≠ Crash c) → (∀ c, b ≠ Crash c) → ∀ c, andthen a b ≠ Crash c) as Hand
    by (intros [[]| |] b; simpl; naive_solver).
  assert (∀ A (g : A → outcome bool) l, (∀ y c, g y ≠ Crash c) → ∀ c, all_match g l ≠ Crash c) as Hall.
  { intros A g l Hg. induction l as [|y l IH]; intros c'; simpl; [done|]. specialize (Hg y). destruct (g y) as [[]| |]; simpl; naive_solver. }
  revert c. unfold match_. repeat apply Hand.
  - intros c. unfold instrument_match, WideData.getInstrument. destruct (instrumentFilter f); [done|]. by destruct (_ !! _).
  - intros c. unfold account_match, WideData.getAccount. destruct (accountFilter f); [done|]. by destruct (_ !! _).
  - intros c. unfold clearing_match, WideData.getClearing. destruct (clearingFilter f); [done|]. by destruct (_ !! _).
  - apply Hall. intros [] c; simpl; try done. unfold WideData.getString. by destruct (_ !! _).
  - apply Hall. intros [] c; simpl. unfold WideData.getString. by destruct (_ !! _).
Qed.

Lemma any_match_no_crash m o w h l c : Forall (of_handler m h) l → any_match regex_match m o w l ≠ Crash c.
Proof.
  induction 1 as [|x l (Ht & Hh & [f Hf]) _ IH]; [done|]. cbn [any_match].
  rewrite bool_decide_eq_false_2 by naive_solver. unfold filter_of in Hf.
  destruct (si_order x) as [p|]; [|done]. simpl in Hf. rewrite Hf.
  intros [?|([] & ? & ?)]%obind_no_crash; [by eapply match_no_crash|done|done].
Qed.

(** A filter is never used after it is released, although it is released
    outside the lock: in every interleaving of subscribing, unsubscribing and
    releasing, the search for subscribers only looks at filters that exist, and
    the filters waiting to be released exist and are released once. *)
Theorem released_filters_unused m ps : reachable m ps →
  (∀ o w c, getSubscribers regex_match m o w ≠ Crash c) ∧
  (∀ ps1 x ps2, ps = ps1 ++ x :: ps2 → ∃ m' q, release x m = (Ok tt, m') ∧ si_order x = Some q ∧
     objs m' !! q = None ∧ (∀ y, y ∈ ps1 ++ ps2 → si_order y ≠ Some q) ∧
     ∀ h y, y ∈ subs m' h → si_order y ≠ Some q).
Proof.
  intros Hi%subscr_inv. split.
  - intros o w c. unfold getSubscribers.
    assert (∀ a, a ∈ subscriptionsBySubscriber m → a ∈ subscriptionsBySubscriber m) as Hall by done. revert Hall.
    generalize (subscriptionsBySubscriber m) at 1 3. intros l. induction l as [|[h v] l IH]; intros Hall; [done|].
    cbn [subscribers_loop]. intros [H|(b & _ & [H|(r & _ & H)]%obind_no_crash)]%obind_no_crash; [|apply IH in H; set_solver|done].
    destruct (group_of_handler m ps h v Hi) as (Hl & g & Hg & _ & _ & Hof); [apply Hall; by left|].
    unfold subscriber_match in H. rewrite Hl, Nat.eqb_refl, Hg in H. simpl in H.
    apply obind_no_crash in H as [H|(i & _ & H)]; [unfold WideData.getInstrument in H; by destruct (_ !! _)|].
    apply obind_no_crash in H as [H|([h'|] & _ & H)]; [|done|].
    + destruct (groupedByInstruments g !! in_symbol i) as [l'|] eqn:E; [|done].
      eapply any_match_no_crash; [|exact H]. apply Forall_forall. intros x Hx. apply (Hof x). right. eauto.
    + eapply any_match_no_crash; [|exact H]. apply Forall_forall. intros x Hx. apply (Hof x). by left.
  - intros ps1 x ps2 ->. destruct (release_filter_ok m _ x Hi) as (q & f & Hq & Hf & E); [set_solver|].
    eexists _, q. split; [exact E|]. split; [done|]. pose proof (release_inv _ _ _ _ _ Hi E) as Hi'.
    split; [apply lookup_delete_eq|]. split.
    + intros y Hy Hyq. destruct (inv_pending _ _ Hi' y Hy) as (_ & r & f0 & Hr & Hf0).
      assert (r = q) as -> by congruence. cbn in Hf0. by rewrite lookup_delete_eq in Hf0.
    + intros h y Hy Hyq. apply (inv_foreign _ _ Hi h y x); [done|set_solver|congruence].
Qed.

(** A filter that fixes the security id but no symbol loses its orders: it is
    entered under the empty symbol, so the subscription is not found for any
    order of an instrument that has a symbol, although the filter may accept
    it. *)
Theorem symbol_less_subscription_lost name p h f o w i : ¬ names_symbol f →
  (getInstrument f empty_instrument).1 = true → WideData.getInstrument (o_instrument o) w = Ok i →
  in_symbol i ≠ EmptyString →
  getSubscribers regex_match (addSubscription name p h (set_obj p f create)).2 o w = Ok [].
Proof.
  intros Hn Ht Hi Hne. unfold addSubscription, set_obj. cbn [objs create]. rewrite lookup_insert_eq.
  assert (in_symbol (getInstrument f empty_instrument).2 = EmptyString) as Es.
  { unfold getInstrument, getInstrumentEntry in *. destruct (get_loop (instrumentFilter f) empty_instrument) as [b e] eqn:E.
    simpl in *. apply andb_true_iff in Ht as [-> _].
    destruct (get_loop_symbol _ _ _ E) as [[? _]|Hin]; [done|]. destruct Hn. by eexists. }
  rewrite Ht, Es. unfold getSubscribers. cbn [snd subscriptionsBySubscriber create map_find map_put default negb].
  cbn [subscribers_loop]. unfold subscriber_match. rewrite length_alter, list_lookup_alter_eq.
  change (replicate TOTAL_SUBSCRIPTION (mkSG ∅ []) !! ORDER_INDEX) with (Some (mkSG ∅ [])).
  rewrite Hi. cbn [length replicate TOTAL_SUBSCRIPTION Nat.eqb negb fmap option_fmap option_map obind enter groupedByInstruments generalSubscriptions].
  rewrite lookup_insert_ne by done. rewrite lookup_empty. done.
Qed.
End theory.

(** ** Witnesses: two subscribers, one for a symbol and one for a side *)

Definition ex_regex : string → StringT → bool := λ _ _, false.
Definition ex_id (n : Z) : IdT := mkIdT n 1.
Definition ex_wide : WideData.t unit :=
  WideData.mkWide 20 {[ex_id 7 := mkInstr "AAPL" "US0378331005" "ISIN" (ex_id 7)]}
    {[ex_id 15 := "desk"; ex_id 16 := "gui"]}
    {[ex_id 11 := mkAcct "acct" "firm" (ex_id 11) AGENCY_ACCOUNTTYPE]}
    {[ex_id 12 := mkClr "clr" (ex_id 12)]} ∅ ∅ ∅ ∅ None.
Definition ex_order : OrderEntry :=
  mkOrder (ex_id 1) IdT0 (px_of_pos 101) NEW_ORDSTATUS BUY_SIDE LIMIT_ORDERTYPE 30 0 30
    DAY_TIF px0 px0 px0 1 1 0 0 _3_SETTLTYPE AGENCY_CAPACITY USD_CURRENCY 0 0 0 SMP0
    (ex_id 7) (ex_id 11) (ex_id 12) (ex_id 15) [] IdT0 IdT0 (ex_id 16) IdT0.
Definition ex_symbol : OrderFilter :=
  addInstrumentFilter [InstrumentSymbolFilter (StringEqualFilter "AAPL")] no_filter.
Definition ex_side : OrderFilter := addFilter (SideEqualFilter SELL_SIDE) no_filter.
Definition ex_security : OrderFilter :=
  addInstrumentFilter [InstrumentSecurityIdFilter (StringEqualFilter "US0378331005")] no_filter.
Definition ex_m1 : t := (addSubscription "a" 1%nat (ex_id 30) (set_obj 1%nat ex_symbol create)).2.
Definition ex_m2 : t := (addSubscription "b" 2%nat (ex_id 31) (set_obj 2%nat ex_side ex_m1)).2.
Definition ex_m3 : t * list SubscriptionInfo :=
  match unlink (ex_id 31) ex_m2 with (Ok l, m) => (m, l) | (_, m) => (m, []) end.

Lemma ex_reach2 : reachable ex_m2 [].
Proof.
  eapply rtc_l; [apply (s_add create [] 1%nat ex_symbol "a" (ex_id 30)); [done|by vm_compute]|].
  eapply rtc_l; [apply (s_add ex_m1 [] 2%nat ex_side "b" (ex_id 31)); [by vm_compute|by vm_compute]|].
  apply rtc_refl.
Qed.

Lemma ex_reach3 : reachable ex_m3.1 ex_m3.2.
Proof. eapply rtc_r; [apply ex_reach2|]. apply (s_unlink ex_m2 [] (ex_id 31)). by vm_compute. Qed.

Lemma ex_pinned : pinned ex_m2.
Proof.
  intros h x f Hx Hf Ht. unfold subs in Hx.
  destruct (subscriptionsByHandler ex_m2 !! h) as [l|] eqn:E; simpl in Hx; [|set_solver].
  assert (f = ex_symbol ∨ f = ex_side) as [-> | ->]; [|by eexists; left|by vm_compute in Ht].
  change (subscriptionsByHandler ex_m2) with (<[ex_id 31 := [mkSub (mkIdT 2 0) "b" ORDER_SUBSCRIPTION (Some 2%nat) (ex_id 31)]]>
    (<[ex_id 30 := [mkSub (mkIdT 1 0) "a" ORDER_SUBSCRIPTION (Some 1%nat) (ex_id 30)]]>
      (∅ : gmap IdT (list SubscriptionInfo)))) in E.
  apply lookup_insert_Some in E as [[_ <-]|[_ E]]; [|apply lookup_insert_Some in E as [[_ <-]|[_ E]]; [|by rewrite lookup_empty in E]];
    apply list_elem_of_singleton in Hx as ->; vm_compute in Hf; injection Hf as <-; [by right|by left].
Qed.

Lemma ex_resolved : resolved ex_order ex_wide.
Proof. repeat split; by eexists. Qed.

Lemma getSubscribers_exact_witness :
  getSubscribers ex_regex ex_m2 ex_order ex_wide = Ok [ex_id 30] ∧
  StronglySorted IdT_lt (subscriptionsBySubscriber ex_m2).*1.
Proof.
  destruct (getSubscribers_exact ex_regex ex_m2 [] ex_order ex_wide ex_reach2 ex_pinned ex_resolved) as (E & Hs & _).
  split; [|exact Hs]. rewrite E. by vm_compute.
Defined.

Lemma released_filters_unused_witness :
  (∃ x, ex_m3.2 = [x] ∧ (release x ex_m3.1).1 = Ok tt) ∧
  ∀ c, getSubscribers ex_regex ex_m3.1 ex_order ex_wide ≠ Crash c.
Proof.
  destruct (released_filters_unused ex_regex (SD := unit) ex_m3.1 ex_m3.2 ex_reach3) as [H1 H2]. split.
  - eexists. split; [reflexivity|].
    match goal with |- (release ?x _).1 = _ => destruct (H2 [] x [] eq_refl) as (m' & q & E & _) end.
    rewrite E. reflexivity.
  - intros c. exact (H1 ex_order ex_wide c).
Defined.

Lemma symbol_less_subscription_lost_witness :
  match_ ex_regex ex_security ex_order ex_wide = Ok true ∧
  getSubscribers ex_regex (addSubscription "c" 1%nat (ex_id 30) (set_obj 1%nat ex_security create)).2 ex_order ex_wide = Ok [].
Proof.
  split; [by vm_compute|].
  apply (symbol_less_subscription_lost ex_regex "c" 1%nat (ex_id 30) ex_security ex_order ex_wide
    (mkInstr "AAPL" "US0378331005" "ISIN" (ex_id 7))); [|done..].
  intros [x Hx]. apply list_elem_of_singleton in Hx. discriminate Hx.
Defined.
End SubscrManager.

Module EventManager.

(** class EventManager -- src/src/EventManager.h:34-52
    [sl_], null or attached; [notified] lists the subscribers the layer has
    notified. *)
Record t := mkEM { subscrMgr : SubscrManager.t; sl : bool; notified : list IdT }.

(** EventManager::attach -- src/src/EventManager.cpp:39-45 *)
Definition attach : M t unit :=
  b <- gets sl ;; assert_ (negb b) ;;; modify (λ m, mkEM (subscrMgr m) true (notified m)).

(** EventManager::dettach -- src/src/EventManager.cpp:47-53 *)
Definition dettach : M t bool :=
  b <- gets sl ;; modify (λ m, mkEM (subscrMgr m) false (notified m)) ;;; ret b.

(** SubscriptionLayerImpl::process -- src/src/SubscriptionLayerImpl.cpp:47-73
    A subscriber without a valid identifier is skipped. *)
Definition process (subscribers : list IdT) (m : t) : t :=
  mkEM (subscrMgr m) (sl m) (notified m ++ filter (λ i, isValidId i = true) subscribers).

(** EventManager::dispatch -- src/src/EventManager.cpp:55-61 *)
Definition dispatch (regex_match : string → StringT → bool) {SD} (o : OrderEntry) (w : WideData.t SD) : M t unit :=
  mgr <- gets subscrMgr ;;
  subscribers <- (λ m, (SubscrManager.getSubscribers regex_match mgr o w, m)) ;;
  b <- gets sl ;;
  assert_ b ;;;
  modify (process subscribers).

(** A new order is announced to every subscriber that wants it. *)
Lemma dispatch_notifies regex_match {SD} o (w : WideData.t SD) (em : t) ps :
  let m := subscrMgr em in
  SubscrManager.Inv m ps → SubscrManager.pinned m → Filters.resolved o w → sl em = true →
  dispatch regex_match o w em = (Ok tt, mkEM m true (notified em ++
    filter (λ i, isValidId i = true) (filter (λ h, existsb (SubscrManager.hit regex_match m o w) (SubscrManager.subs m h) = true)
      (SubscrManager.subscriptionsBySubscriber m).*1))).
Proof.
  intros m Hi Hp Hr Hs. unfold dispatch, bind, gets. rewrite (SubscrManager.getSubscribers_hits regex_match _ ps) by done.
  rewrite Hs. cbn. unfold process. unfold modify. by rewrite Hs.
Qed.
End EventManager.
