(* ===== verification/Seed.v ===== *)
(** The program that puts the reference data into a new storage,
    [src/app/seed_data.cpp]. *)

From Stdlib Require Import Ascii String ZArith Lia.
From S2P Require Import Prelude Types WideData.
#[local] Open Scope string_scope.
#[local] Open Scope Z_scope.

Module SeedData.

(** struct InstrDef -- src/app/seed_data.cpp:40-45 *)
Record InstrDef := mkInstrDef { d_symbol : StringT; d_secId : StringT; d_secIdSrc : StringT }.

(** instruments in main -- src/app/seed_data.cpp:46-51 *)
Definition instruments : list InstrDef := [
  mkInstrDef "AAPL" "US0378331005" "ISIN"; mkInstrDef "MSFT" "US5949181045" "ISIN"; mkInstrDef "GOOGL" "US02079K3059" "ISIN";
  mkInstrDef "AMZN" "US0231351067" "ISIN"; mkInstrDef "TSLA" "US88160R1014" "ISIN"; mkInstrDef "META" "US30303M1027" "ISIN";
  mkInstrDef "NVDA" "US67066G1040" "ISIN"; mkInstrDef "JPM" "US46625H1005" "ISIN"; mkInstrDef "V" "US92826C8394" "ISIN";
  mkInstrDef "JNJ" "US4781601046" "ISIN"].

(** struct AcctDef -- src/app/seed_data.cpp:72-77 *)
Record AcctDef := mkAcctDef { d_name : StringT; d_firm : StringT; d_type : AccountType }.

(** accounts in main -- src/app/seed_data.cpp:78-82 *)
Definition accounts : list AcctDef := [
  mkAcctDef "TRADING-1" "Apex Capital" PRINCIPAL_ACCOUNTTYPE; mkAcctDef "TRADING-2" "Apex Capital" PRINCIPAL_ACCOUNTTYPE;
  mkAcctDef "CLIENT-A" "Summit Partners" AGENCY_ACCOUNTTYPE; mkAcctDef "CLIENT-B" "Meridian Fund" AGENCY_ACCOUNTTYPE;
  mkAcctDef "PROP-DESK" "Apex Capital" PRINCIPAL_ACCOUNTTYPE].

Section ops.
Context {SD : Type} (sv_data : WideData.DataRecord → M SD unit).
Abbreviation S := (WideData.t SD).

(** the loop over the instruments in main -- src/app/seed_data.cpp:53-69
    Returns the number of instruments added. *)
Fixpoint seedInstruments (l : list InstrDef) (n : Z) : M S Z :=
  match l with
  | [] => ret n
  | d :: l' =>
      w <- gets (λ w, w) ;;
      if isValidId (WideData.findInstrumentBySymbol (d_symbol d) w) then seedInstruments l' n
      else
        WideData.addInstrument sv_data (mkInstr (d_symbol d) (d_secId d) (d_secIdSrc d) IdT0) ;;;
        seedInstruments l' (n + 1)
  end.

(** the loop over the accounts in main -- src/app/seed_data.cpp:84-99 *)
Fixpoint seedAccounts (l : list AcctDef) (n : Z) : M S Z :=
  match l with
  | [] => ret n
  | d :: l' =>
      w <- gets (λ w, w) ;;
      if isValidId (WideData.findAccountByName (d_name d) w) then seedAccounts l' n
      else
        WideData.addAccount sv_data (mkAcct (d_name d) (d_firm d) IdT0 (d_type d)) ;;;
        seedAccounts l' (n + 1)
  end.

(** main, with the storage loaded and bound -- src/app/seed_data.cpp:37-101 *)
Definition seed : M S (Z * Z) :=
  i <- seedInstruments instruments 0 ;;
  a <- seedAccounts accounts 0 ;;
  ret (i, a).
End ops.

Section theory.
Context {SD : Type} (sv_data : WideData.DataRecord → M SD unit) (Hsaver : ∀ d s, (sv_data d s).1 = Ok tt).
Implicit Types (w : WideData.t SD).

Definition room (n : nat) w : Prop := 0 < WideData.subscrCounter w ∧ WideData.subscrCounter w + Z.of_nat n < 2 ^ 64.

Lemma fresh_valid n w : room (S n) w → isValidId (mkIdT (WideData.subscrCounter w) 1) = true.
Proof. intros [H _]. unfold isValidId. cbn. destruct (WideData.subscrCounter w); [lia|done|lia]. Qed.

Ltac run_add :=
  intros [H0 Hn]; unfold WideData.addInstrument, WideData.addAccount, bind, WideData.fetch_id, WideData.saver_save, modify, ret;
  match goal with w : WideData.t SD |- _ => destruct w as [c i s a cl r e bs bn [st|]] end; cbn in *;
  [match goal with |- context [sv_data ?d ?x] =>
     let Hx := fresh in pose proof (Hsaver d x) as Hx; destruct (sv_data d x) as [? ?]; cbn in Hx; rewrite Hx end|];
  (eexists; split; [reflexivity|]; cbn; split; [done|]; split; [done|];
   unfold room; cbn; rewrite wrap64_small by (unfold is_u64; lia); lia).

Lemma add_instrument_run v n w : room (S n) w → ∃ w', WideData.addInstrument sv_data v w = (Ok (mkIdT (WideData.subscrCounter w) 1), w') ∧
  WideData.instrumentsBySymbol w' = <[in_symbol v := mkIdT (WideData.subscrCounter w) 1]> (WideData.instrumentsBySymbol w) ∧
  WideData.accountsByName w' = WideData.accountsByName w ∧ room n w'.
Proof. run_add. Qed.

Lemma add_account_run v n w : room (S n) w → ∃ w', WideData.addAccount sv_data v w = (Ok (mkIdT (WideData.subscrCounter w) 1), w') ∧
  WideData.accountsByName w' = <[ac_account v := mkIdT (WideData.subscrCounter w) 1]> (WideData.accountsByName w) ∧
  WideData.instrumentsBySymbol w' = WideData.instrumentsBySymbol w ∧ room n w'.
Proof. run_add. Qed.

(** What a loop over [l] does, for the index [byKey] and the key of a definition. *)
Definition seeded {D} (run : list D → Z → M (WideData.t SD) Z) (key : D → StringT) (byKey other : WideData.t SD → gmap StringT IdT) : Prop :=
  ∀ l n w m, room (length l + m) w →
  ∃ n' w', run l n w = (Ok n', w') ∧ (∀ d, d ∈ l → isValidId (default IdT0 (byKey w' !! key d)) = true) ∧
    (∀ k, isValidId (default IdT0 (byKey w !! k)) = true → byKey w' !! k = byKey w !! k) ∧ other w' = other w ∧ room m w'.

Lemma instruments_seeded : seeded (seedInstruments sv_data) d_symbol WideData.instrumentsBySymbol WideData.accountsByName.
Proof.
  intros l. induction l as [|d l IH]; intros n w m Hr; cbn [seedInstruments].
  - exists n, w. split; [done|]. split; [by intros d ?%not_elem_of_nil|done].
  - rewrite (bind_ok (gets _) _ w w w eq_refl). unfold WideData.findInstrumentBySymbol.
    destruct (isValidId _) eqn:Ev.
    + destruct (IH n w m) as (n' & w' & E & H1 & H2 & H3 & H4); [destruct Hr; split; cbn in *; lia|].
      exists n', w'. split; [done|]. split; [|done]. intros d' [->|Hd]%elem_of_cons; [rewrite (H2 _ Ev); exact Ev|by apply H1].
    + destruct (add_instrument_run (mkInstr (d_symbol d) (d_secId d) (d_secIdSrc d) IdT0) (length l + m) w Hr) as (w1 & E1 & Eb & Eo & Hr1).
      rewrite (bind_ok _ _ w _ w1 E1). destruct (IH (n + 1) w1 m Hr1) as (n' & w' & E & H1 & H2 & H3 & H4).
      exists n', w'. cbn [in_symbol] in Eb. assert (WideData.instrumentsBySymbol w' !! d_symbol d = Some (mkIdT (WideData.subscrCounter w) 1)) as Hd.
      { rewrite H2; rewrite Eb, lookup_insert_eq; [done|]. cbn. exact (fresh_valid (length l + m) w Hr). }
      split; [done|]. split; [|split; [|by rewrite H3]].
      * intros d' [E'|Hd']%elem_of_cons; [|by apply H1]. rewrite E', Hd. exact (fresh_valid (length l + m) w Hr).
      * intros k Hk. destruct (decide (k = d_symbol d)) as [->|Hne]; [by rewrite Ev in Hk|].
        rewrite H2; rewrite Eb, lookup_insert_ne by done; done.
Qed.

Lemma accounts_seeded : seeded (seedAccounts sv_data) d_name WideData.accountsByName WideData.instrumentsBySymbol.
Proof.
  intros l. induction l as [|d l IH]; intros n w m Hr; cbn [seedAccounts].
  - exists n, w. split; [done|]. split; [by intros d ?%not_elem_of_nil|done].
  - rewrite (bind_ok (gets _) _ w w w eq_refl). unfold WideData.findAccountByName.
    destruct (isValidId _) eqn:Ev.
    + destruct (IH n w m) as (n' & w' & E & H1 & H2 & H3 & H4); [destruct Hr; split; cbn in *; lia|].
      exists n', w'. split; [done|]. split; [|done]. intros d' [->|Hd]%elem_of_cons; [rewrite (H2 _ Ev); exact Ev|by apply H1].
    + destruct (add_account_run (mkAcct (d_name d) (d_firm d) IdT0 (d_type d)) (length l + m) w Hr) as (w1 & E1 & Eb & Eo & Hr1).
      rewrite (bind_ok _ _ w _ w1 E1). destruct (IH (n + 1) w1 m Hr1) as (n' & w' & E & H1 & H2 & H3 & H4).
      exists n', w'. cbn [ac_account] in Eb. assert (WideData.accountsByName w' !! d_name d = Some (mkIdT (WideData.subscrCounter w) 1)) as Hd.
      { rewrite H2; rewrite Eb, lookup_insert_eq; [done|]. cbn. exact (fresh_valid (length l + m) w Hr). }
      split; [done|]. split; [|split; [|by rewrite H3]].
      * intros d' [E'|Hd']%elem_of_cons; [|by apply H1]. rewrite E', Hd. exact (fresh_valid (length l + m) w Hr).
      * intros k Hk. destruct (decide (k = d_name d)) as [->|Hne]; [by rewrite Ev in Hk|].
        rewrite H2; rewrite Eb, lookup_insert_ne by done; done.
Qed.

(** Nothing is added when everything is there. *)
Lemma instruments_known l n w : (∀ d, d ∈ l → isValidId (default IdT0 (WideData.instrumentsBySymbol w !! d_symbol d)) = true) →
  seedInstruments sv_data l n w = (Ok n, w).
Proof.
  induction l as [|d l IH]; intros H; [done|]. cbn [seedInstruments]. rewrite (bind_ok (gets _) _ w w w eq_refl).
  unfold WideData.findInstrumentBySymbol. rewrite (H d) by (by left). apply IH. intros d' Hd. apply H. by right.
Qed.

Lemma accounts_known l n w : (∀ d, d ∈ l → isValidId (default IdT0 (WideData.accountsByName w !! d_name d)) = true) →
  seedAccounts sv_data l n w = (Ok n, w).
Proof.
  induction l as [|d l IH]; intros H; [done|]. cbn [seedAccounts]. rewrite (bind_ok (gets _) _ w w w eq_refl).
  unfold WideData.findAccountByName. rewrite (H d) by (by left). apply IH. intros d' Hd. apply H. by right.
Qed.

(** Seeding makes every instrument and account of its tables known, keeps the
    identifiers of those that were known before, and is idempotent: a second run adds
    nothing and changes nothing. *)
Theorem seed_idempotent w : room 15 w → ∃ i a w', seed sv_data w = (Ok (i, a), w') ∧
  (∀ d, d ∈ instruments → isValidId (WideData.findInstrumentBySymbol (d_symbol d) w') = true) ∧
  (∀ d, d ∈ accounts → isValidId (WideData.findAccountByName (d_name d) w') = true) ∧
  (∀ k, isValidId (WideData.findInstrumentBySymbol k w) = true →
     WideData.findInstrumentBySymbol k w' = WideData.findInstrumentBySymbol k w) ∧
  (∀ k, isValidId (WideData.findAccountByName k w) = true → WideData.findAccountByName k w' = WideData.findAccountByName k w) ∧
  seed sv_data w' = (Ok (0, 0), w').
Proof.
  intros Hr. destruct (instruments_seeded instruments 0 w 5%nat Hr) as (i & w1 & E1 & I1 & I2 & I3 & Hr1).
  destruct (accounts_seeded accounts 0 w1 0%nat Hr1) as (a & w2 & E2 & A1 & A2 & A3 & _).
  unfold WideData.findInstrumentBySymbol, WideData.findAccountByName. rewrite I3 in A2.
  exists i, a, w2. split; [unfold seed; by rewrite (bind_ok _ _ w i w1 E1), (bind_ok _ _ w1 a w2 E2)|].
  rewrite A3. split; [exact I1|]. split; [exact A1|]. split; [intros k Hk; by rewrite I2|]. split; [intros k Hk; by rewrite A2|].
  unfold seed. rewrite (bind_ok _ _ w2 0 w2) by (apply instruments_known; by rewrite A3).
  by rewrite (bind_ok _ _ w2 0 w2) by (by apply accounts_known).
Qed.
End theory.

Lemma seed_idempotent_witness : ∃ i a w', seed (λ _, ret tt) (WideData.create (SV := unit)) = (Ok (i, a), w') ∧
  isValidId (WideData.findInstrumentBySymbol "AAPL" w') = true ∧ seed (λ _, ret tt) w' = (Ok (0, 0), w').
Proof.
  destruct (seed_idempotent (SD := unit) (λ _, ret tt) (λ _ _, eq_refl) WideData.create) as (i & a & w' & E & H1 & _ & _ & _ & E2);
    [unfold room; cbn; lia|].
  exists i, a, w'. split; [exact E|]. split; [|exact E2]. apply (H1 (mkInstrDef "AAPL" "US0378331005" "ISIN")). by left.
Defined.
End SeedData.
