(* ===== verification/EnumStr.v ===== *)
(** The names of the enumerations: [src/app/EnumStrings.h] for the JSON messages,
    [src/src/PGEnumStrings.h] for the database. *)

From Stdlib Require Import Ascii String ZArith Lia.
From S2P Require Import Prelude Types.
#[local] Open Scope string_scope.

Module EnumStrings.

(** ** Names in the messages *)

(** toJsonString(Side) -- src/app/EnumStrings.h:10-37 *)
Definition toJson_Side (v : Side) : string :=
  match v with
  | BUY_SIDE => "BUY"
  | SELL_SIDE => "SELL"
  | BUY_MINUS_SIDE => "BUY_MINUS"
  | SELL_PLUS_SIDE => "SELL_PLUS"
  | SELL_SHORT_SIDE => "SELL_SHORT"
  | CROSS_SIDE => "CROSS"
  | _ => "INVALID"
  end.

(** sideFromJson -- src/app/EnumStrings.h:39-66 *)
Definition sideFromJson (sv : string) : Side :=
  if (sv =? "BUY")%string then BUY_SIDE
  else if (sv =? "SELL")%string then SELL_SIDE
  else if (sv =? "BUY_MINUS")%string then BUY_MINUS_SIDE
  else if (sv =? "SELL_PLUS")%string then SELL_PLUS_SIDE
  else if (sv =? "SELL_SHORT")%string then SELL_SHORT_SIDE
  else if (sv =? "CROSS")%string then CROSS_SIDE
  else INVALID_SIDE.

(** toJsonString(OrderType) -- src/app/EnumStrings.h:68-87 *)
Definition toJson_OrderType (v : OrderType) : string :=
  match v with
  | MARKET_ORDERTYPE => "MARKET"
  | LIMIT_ORDERTYPE => "LIMIT"
  | STOP_ORDERTYPE => "STOP"
  | STOPLIMIT_ORDERTYPE => "STOPLIMIT"
  | _ => "INVALID"
  end.

(** orderTypeFromJson -- src/app/EnumStrings.h:89-108 *)
Definition orderTypeFromJson (sv : string) : OrderType :=
  if (sv =? "MARKET")%string then MARKET_ORDERTYPE
  else if (sv =? "LIMIT")%string then LIMIT_ORDERTYPE
  else if (sv =? "STOP")%string then STOP_ORDERTYPE
  else if (sv =? "STOPLIMIT")%string then STOPLIMIT_ORDERTYPE
  else INVALID_ORDERTYPE.

(** toJsonString(TimeInForce) -- src/app/EnumStrings.h:110-141 *)
Definition toJson_TimeInForce (v : TimeInForce) : string :=
  match v with
  | DAY_TIF => "DAY"
  | GTD_TIF => "GTD"
  | GTC_TIF => "GTC"
  | FOK_TIF => "FOK"
  | IOC_TIF => "IOC"
  | OPG_TIF => "OPG"
  | ATCLOSE_TIF => "ATCLOSE"
  | _ => "INVALID"
  end.

(** tifFromJson -- src/app/EnumStrings.h:143-174 *)
Definition tifFromJson (sv : string) : TimeInForce :=
  if (sv =? "DAY")%string then DAY_TIF
  else if (sv =? "GTD")%string then GTD_TIF
  else if (sv =? "GTC")%string then GTC_TIF
  else if (sv =? "FOK")%string then FOK_TIF
  else if (sv =? "IOC")%string then IOC_TIF
  else if (sv =? "OPG")%string then OPG_TIF
  else if (sv =? "ATCLOSE")%string then ATCLOSE_TIF
  else INVALID_TIF.

(** toJsonString(Currency) -- src/app/EnumStrings.h:176-187 *)
Definition toJson_Currency (v : Currency) : string :=
  match v with
  | USD_CURRENCY => "USD"
  | EUR_CURRENCY => "EUR"
  | _ => "INVALID"
  end.

(** currencyFromJson -- src/app/EnumStrings.h:189-200 *)
Definition currencyFromJson (sv : string) : Currency :=
  if (sv =? "USD")%string then USD_CURRENCY
  else if (sv =? "EUR")%string then EUR_CURRENCY
  else INVALID_CURRENCY.

(** toJsonString(Capacity) -- src/app/EnumStrings.h:202-229 *)
Definition toJson_Capacity (v : Capacity) : string :=
  match v with
  | AGENCY_CAPACITY => "AGENCY"
  | PRINCIPAL_CAPACITY => "PRINCIPAL"
  | PROPRIETARY_CAPACITY => "PROPRIETARY"
  | INDIVIDUAL_CAPACITY => "INDIVIDUAL"
  | RISKLESS_PRINCIPAL_CAPACITY => "RISKLESS_PRINCIPAL"
  | AGENT_FOR_ANOTHER_MEMBER_CAPACITY => "AGENT_FOR_ANOTHER_MEMBER"
  | _ => "INVALID"
  end.

(** capacityFromJson -- src/app/EnumStrings.h:231-258 *)
Definition capacityFromJson (sv : string) : Capacity :=
  if (sv =? "AGENCY")%string then AGENCY_CAPACITY
  else if (sv =? "PRINCIPAL")%string then PRINCIPAL_CAPACITY
  else if (sv =? "PROPRIETARY")%string then PROPRIETARY_CAPACITY
  else if (sv =? "INDIVIDUAL")%string then INDIVIDUAL_CAPACITY
  else if (sv =? "RISKLESS_PRINCIPAL")%string then RISKLESS_PRINCIPAL_CAPACITY
  else if (sv =? "AGENT_FOR_ANOTHER_MEMBER")%string then AGENT_FOR_ANOTHER_MEMBER_CAPACITY
  else INVALID_CAPACITY.

(** toJsonString(OrderStatus) -- src/app/EnumStrings.h:260-311 *)
Definition toJson_OrderStatus (v : OrderStatus) : string :=
  match v with
  | RECEIVEDNEW_ORDSTATUS => "RECEIVED_NEW"
  | REJECTED_ORDSTATUS => "REJECTED"
  | PENDINGNEW_ORDSTATUS => "PENDING_NEW"
  | PENDINGREPLACE_ORDSTATUS => "PENDING_REPLACE"
  | NEW_ORDSTATUS => "NEW"
  | PARTFILL_ORDSTATUS => "PARTIAL_FILL"
  | FILLED_ORDSTATUS => "FILLED"
  | EXPIRED_ORDSTATUS => "EXPIRED"
  | DFD_ORDSTATUS => "DONE_FOR_DAY"
  | SUSPENDED_ORDSTATUS => "SUSPENDED"
  | REPLACED_ORDSTATUS => "REPLACED"
  | CANCELED_ORDSTATUS => "CANCELED"
  | _ => "INVALID"
  end.

(** toJsonString(ExecType) -- src/app/EnumStrings.h:313-368 *)
Definition toJson_ExecType (v : ExecType) : string :=
  match v with
  | NEW_EXECTYPE => "NEW"
  | TRADE_EXECTYPE => "TRADE"
  | DFD_EXECTYPE => "DFD"
  | CORRECT_EXECTYPE => "CORRECT"
  | CANCEL_EXECTYPE => "CANCEL"
  | REJECT_EXECTYPE => "REJECT"
  | REPLACE_EXECTYPE => "REPLACE"
  | EXPIRED_EXECTYPE => "EXPIRED"
  | SUSPENDED_EXECTYPE => "SUSPENDED"
  | STATUS_EXECTYPE => "STATUS"
  | RESTATED_EXECTYPE => "RESTATED"
  | PEND_CANCEL_EXECTYPE => "PEND_CANCEL"
  | PEND_REPLACE_EXECTYPE => "PEND_REPLACE"
  | _ => "INVALID"
  end.

(** toJsonString(AccountType) -- src/app/EnumStrings.h:370-381 *)
Definition toJson_AccountType (v : AccountType) : string :=
  match v with
  | PRINCIPAL_ACCOUNTTYPE => "PRINCIPAL"
  | AGENCY_ACCOUNTTYPE => "AGENCY"
  | _ => "INVALID"
  end.

(** ** Names in the database; [None] is a null pointer *)

(** toSQL(Side) -- src/src/PGEnumStrings.h:20-39 *)
Definition toSQL_Side (v : Side) : option string :=
  match v with
  | BUY_SIDE => Some "BUY"
  | SELL_SIDE => Some "SELL"
  | BUY_MINUS_SIDE => Some "BUY_MINUS"
  | SELL_PLUS_SIDE => Some "SELL_PLUS"
  | SELL_SHORT_SIDE => Some "SELL_SHORT"
  | CROSS_SIDE => Some "CROSS"
  | _ => None
  end.

(** toSQL(OrderType) -- src/src/PGEnumStrings.h:41-56 *)
Definition toSQL_OrderType (v : OrderType) : option string :=
  match v with
  | MARKET_ORDERTYPE => Some "MARKET"
  | LIMIT_ORDERTYPE => Some "LIMIT"
  | STOP_ORDERTYPE => Some "STOP"
  | STOPLIMIT_ORDERTYPE => Some "STOPLIMIT"
  | _ => None
  end.

(** toSQL(OrderStatus) -- src/src/PGEnumStrings.h:58-89 *)
Definition toSQL_OrderStatus (v : OrderStatus) : option string :=
  match v with
  | RECEIVEDNEW_ORDSTATUS => Some "RECEIVED_NEW"
  | REJECTED_ORDSTATUS => Some "REJECTED"
  | PENDINGNEW_ORDSTATUS => Some "PENDING_NEW"
  | PENDINGREPLACE_ORDSTATUS => Some "PENDING_REPLACE"
  | NEW_ORDSTATUS => Some "NEW"
  | PARTFILL_ORDSTATUS => Some "PARTIAL_FILL"
  | FILLED_ORDSTATUS => Some "FILLED"
  | EXPIRED_ORDSTATUS => Some "EXPIRED"
  | DFD_ORDSTATUS => Some "DONE_FOR_DAY"
  | SUSPENDED_ORDSTATUS => Some "SUSPENDED"
  | REPLACED_ORDSTATUS => Some "REPLACED"
  | CANCELED_ORDSTATUS => Some "CANCELED"
  | _ => None
  end.

(** toSQL(TimeInForce) -- src/src/PGEnumStrings.h:91-112 *)
Definition toSQL_TimeInForce (v : TimeInForce) : option string :=
  match v with
  | DAY_TIF => Some "DAY"
  | GTD_TIF => Some "GTD"
  | GTC_TIF => Some "GTC"
  | FOK_TIF => Some "FOK"
  | IOC_TIF => Some "IOC"
  | OPG_TIF => Some "OPG"
  | ATCLOSE_TIF => Some "ATCLOSE"
  | _ => None
  end.

(** toSQL(Capacity) -- src/src/PGEnumStrings.h:114-133 *)
Definition toSQL_Capacity (v : Capacity) : option string :=
  match v with
  | AGENCY_CAPACITY => Some "AGENCY"
  | PRINCIPAL_CAPACITY => Some "PRINCIPAL"
  | PROPRIETARY_CAPACITY => Some "PROPRIETARY"
  | INDIVIDUAL_CAPACITY => Some "INDIVIDUAL"
  | RISKLESS_PRINCIPAL_CAPACITY => Some "RISKLESS_PRINCIPAL"
  | AGENT_FOR_ANOTHER_MEMBER_CAPACITY => Some "AGENT_FOR_ANOTHER_MEMBER"
  | _ => None
  end.

(** toSQL(Currency) -- src/src/PGEnumStrings.h:135-146 *)
Definition toSQL_Currency (v : Currency) : option string :=
  match v with
  | USD_CURRENCY => Some "USD"
  | EUR_CURRENCY => Some "EUR"
  | _ => None
  end.

(** toSQL(SettlTypeBase) -- src/src/PGEnumStrings.h:148-181 *)
Definition toSQL_SettlTypeBase (v : SettlTypeBase) : option string :=
  match v with
  | _0_SETTLTYPE => Some "REGULAR"
  | _1_SETTLTYPE => Some "CASH"
  | _2_SETTLTYPE => Some "NEXT_DAY"
  | _3_SETTLTYPE => Some "T_PLUS_2"
  | _4_SETTLTYPE => Some "T_PLUS_3"
  | _5_SETTLTYPE => Some "T_PLUS_4"
  | _6_SETTLTYPE => Some "T_PLUS_5"
  | _7_SETTLTYPE => Some "SELLERS_OPTION"
  | _8_SETTLTYPE => Some "WHEN_ISSUED"
  | _9_SETTLTYPE => Some "T_PLUS_1"
  | _B_SETTLTYPE => Some "BUYERS_OPTION"
  | _C_SETTLTYPE => Some "SPECIAL_TRADE"
  | TENOR_SETTLTYPE => Some "TENOR"
  | _ => None
  end.

(** toSQL(AccountType) -- src/src/PGEnumStrings.h:183-194 *)
Definition toSQL_AccountType (v : AccountType) : option string :=
  match v with
  | PRINCIPAL_ACCOUNTTYPE => Some "PRINCIPAL"
  | AGENCY_ACCOUNTTYPE => Some "AGENCY"
  | _ => None
  end.

(** ** The two directions *)

(** What the two functions of an enumeration promise: reading undoes writing, and
    only names are read as values other than [inv]. *)
Class JsonEnum {A : Type} (to : A → string) (rd : string → A) (inv : A) := {
  json_of_to v : rd (to v) = v;
  json_to_of s : rd s ≠ inv → to (rd s) = s;
}.

(** The database uses the name of the message, and has none for the invalid
    value. *)
Class SameName {A : Type} (sql : A → option string) (to : A → string) (inv : A) := {
  sql_name v : v ≠ inv → sql v = Some (to v);
  sql_inv : sql inv = None;
}.

Ltac solve_json_enum := split; [by intros []|]; intros s; cbv beta delta [
    sideFromJson orderTypeFromJson tifFromJson currencyFromJson capacityFromJson];
  repeat match goal with
  | |- context [if (?x =? ?y) then _ else _] => destruct (String.eqb_spec x y) as [->|]; [reflexivity|]
  end; intros Hs; by destruct Hs.
Ltac solve_same_name := split; [by intros []|done].

#[export] Instance Side_json : JsonEnum toJson_Side sideFromJson INVALID_SIDE.
Proof. solve_json_enum. Qed.
#[export] Instance OrderType_json : JsonEnum toJson_OrderType orderTypeFromJson INVALID_ORDERTYPE.
Proof. solve_json_enum. Qed.
#[export] Instance TimeInForce_json : JsonEnum toJson_TimeInForce tifFromJson INVALID_TIF.
Proof. solve_json_enum. Qed.
#[export] Instance Currency_json : JsonEnum toJson_Currency currencyFromJson INVALID_CURRENCY.
Proof. solve_json_enum. Qed.
#[export] Instance Capacity_json : JsonEnum toJson_Capacity capacityFromJson INVALID_CAPACITY.
Proof. solve_json_enum. Qed.

#[export] Instance Side_name : SameName toSQL_Side toJson_Side INVALID_SIDE.
Proof. solve_same_name. Qed.
#[export] Instance OrderType_name : SameName toSQL_OrderType toJson_OrderType INVALID_ORDERTYPE.
Proof. solve_same_name. Qed.
#[export] Instance OrderStatus_name : SameName toSQL_OrderStatus toJson_OrderStatus INVALID_ORDSTATUS.
Proof. solve_same_name. Qed.
#[export] Instance TimeInForce_name : SameName toSQL_TimeInForce toJson_TimeInForce INVALID_TIF.
Proof. solve_same_name. Qed.
#[export] Instance Capacity_name : SameName toSQL_Capacity toJson_Capacity INVALID_CAPACITY.
Proof. solve_same_name. Qed.
#[export] Instance Currency_name : SameName toSQL_Currency toJson_Currency INVALID_CURRENCY.
Proof. solve_same_name. Qed.
#[export] Instance AccountType_name : SameName toSQL_AccountType toJson_AccountType INVALID_ACCOUNTTYPE.
Proof. solve_same_name. Qed.

(** A name stands for one value. *)
Lemma sql_inj {A} (sql : A → option string) (to : A → string) (rd : string → A) inv `{!SameName sql to inv, !JsonEnum to rd inv, EqDecision A} v w :
  sql v = sql w → v = w.
Proof.
  intros E. pose proof (sql_inv (sql := sql) (to := to) (inv := inv)) as Ei.
  pose proof (sql_name (sql := sql) (to := to) (inv := inv)) as En.
  destruct (decide (v = inv)) as [->|Hv], (decide (w = inv)) as [->|Hw]; [done| | |].
  - rewrite (En w Hw) in E. congruence.
  - rewrite (En v Hv) in E. congruence.
  - rewrite (En v Hv), (En w Hw) in E. injection E as E. by rewrite <- (json_of_to v), E, json_of_to.
Qed.
End EnumStrings.
