(* ===== verification/ExchUtils.v ===== *)
(** Numbers as text: [src/src/ExchUtils.cpp] and [IdT::toString] of
    [src/src/DataModelDef.cpp].  A [char] buffer is the list of its bytes, a pointer into
    it an index. *)

From Stdlib Require Import Ascii String ZArith Lia.
From stdpp Require Import pretty.
From S2P Require Import Prelude Types.

Module ExchUtils.

Definition chars : Type := list ascii.
Definition NUL : ascii := zero.
Definition text (s : string) : chars := list_ascii_of_string s.

(** ** The C library *)

(** The index of the terminating zero of the string at [p]. *)
Fixpoint nul_from (b : chars) : option nat :=
  match b with
  | [] => None
  | c :: b' => if bool_decide (c = NUL) then Some O else S <$> nul_from b'
  end.

(** [b[p ..] = d], inside the buffer. *)
Definition store (p : nat) (d : chars) : M chars unit := λ b,
  if (p + length d <=? length b)%nat then (Ok tt, take p b ++ d ++ drop (p + length d) b)
  else (Crash "buffer overrun", b).

Definition strcat (p : nat) (s : chars) : M chars unit :=
  b <- gets id ;;
  match nul_from (drop p b) with
  | None => crash "buffer overrun"
  | Some n => store (p + n) (s ++ [NUL])
  end.

(** ** The functions *)

(** NUMBERS -- src/src/ExchUtils.cpp:22-34 *)
Definition NUMBERS : list string := [
  "0"; "1"; "2"; "3"; "4"; "5"; "6"; "7"; "8"; "9";
  "10"; "11"; "12"; "13"; "14"; "15"; "16"; "17"; "18"; "19";
  "20"; "21"; "22"; "23"; "24"; "25"; "26"; "27"; "28"; "29";
  "30"; "31"; "32"; "33"; "34"; "35"; "36"; "37"; "38"; "39";
  "40"; "41"; "42"; "43"; "44"; "45"; "46"; "47"; "48"; "49";
  "50"; "51"; "52"; "53"; "54"; "55"; "56"; "57"; "58"; "59";
  "60"; "61"; "62"; "63"; "64"; "65"; "66"; "67"; "68"; "69";
  "70"; "71"; "72"; "73"; "74"; "75"; "76"; "77"; "78"; "79";
  "80"; "81"; "82"; "83"; "84"; "85"; "86"; "87"; "88"; "89";
  "90"; "91"; "92"; "93"; "94"; "95"; "96"; "97"; "98"; "99"]%string.

Definition NUMBERS_AMOUNT : Z := 100.
Definition number (v : Z) : chars := text (default EmptyString (NUMBERS !! Z.to_nat v)).

(** append -- src/src/ExchUtils.cpp:74-85 *)
Definition append (buf : nat) (val : Z) : M chars nat :=
  assert_ (val <? NUMBERS_AMOUNT) ;;;
  strcat buf (number val) ;;;
  ret (if 10 <=? val then S (S buf) else S buf).

(** append_2PosZeroFwd -- src/src/ExchUtils.cpp:87-97 *)
Definition append_2PosZeroFwd (buf : nat) (val : Z) : M chars nat :=
  assert_ (val <? NUMBERS_AMOUNT) ;;;
  when (val <? 10) (strcat buf (number 0)) ;;;
  strcat buf (number val) ;;;
  ret (S (S buf)).

(** toStr(char, size_t) -- src/src/ExchUtils.cpp:104-161 *)
Definition toStr (buf : nat) (val : Z) : M chars nat :=
  store buf [NUL] ;;;
  if NUMBERS_AMOUNT <=? val then
    let part1 := val `mod` NUMBERS_AMOUNT in
    let v := val / NUMBERS_AMOUNT in
    p <- (if v <? NUMBERS_AMOUNT then append buf v
          else
            let part2 := v `mod` NUMBERS_AMOUNT in
            let v := v / NUMBERS_AMOUNT in
            p <- (if v <? NUMBERS_AMOUNT then append buf v
                  else
                    let part3 := v `mod` NUMBERS_AMOUNT in
                    let v := v / NUMBERS_AMOUNT in
                    p <- (if v <? NUMBERS_AMOUNT then append buf v
                          else
                            let part4 := v `mod` NUMBERS_AMOUNT in
                            let v := v / NUMBERS_AMOUNT in
                            p <- (if v <? NUMBERS_AMOUNT then append buf v
                                  else
                                    let part5 := v `mod` NUMBERS_AMOUNT in
                                    let v := v / NUMBERS_AMOUNT in
                                    assert_ (v <? NUMBERS_AMOUNT) ;;;
                                    p <- append buf v ;;
                                    append_2PosZeroFwd p part5) ;;
                            append_2PosZeroFwd p part4) ;;
                    append_2PosZeroFwd p part3) ;;
            append_2PosZeroFwd p part2) ;;
    append_2PosZeroFwd p part1
  else append buf val.

(** toStr(char, int) -- src/src/ExchUtils.cpp:163-174 *)
Definition toStr_int (buf : nat) (val : Z) : M chars nat :=
  if val <? 0 then store buf ["-"%char] ;;; toStr (S buf) (- val) else toStr buf val.

(** The number of digits, as the two padding functions find it. *)
Definition usePos (val : Z) : nat :=
  if val <? 10 then 1 else if val <? 100 then 2 else if val <? 1000 then 3
  else if val <? 10000 then 4 else if val <? 100000 then 5 else if val <? 1000000 then 6
  else if val <? 10000000 then 7 else if val <? 100000000 then 8 else if val <? 1000000000 then 9
  else 10.

Fixpoint pad (n : nat) (buf : nat) : M chars nat :=
  match n with O => ret buf | S n' => p <- append buf 0 ;; pad n' p end.

(** toStr(char, int, size_t) -- src/src/ExchUtils.cpp:176-234
    Negating the least [int] overflows. *)
Definition toStr_int_pos (buf : nat) (val : Z) (pos : nat) : M chars nat :=
  r <- (if val <? 0 then
          store buf ["-"%char] ;;;
          (if val =? - 2 ^ 31 then crash "signed overflow" else ret (S buf, - val))
        else ret (buf, val)) ;;
  store r.1 [NUL] ;;;
  p <- pad (pos - usePos r.2) r.1 ;;
  toStr_int p r.2.

(** toStr(char, u32) -- src/src/ExchUtils.cpp:236-240 *)
Definition toStr_u32 (buf : nat) (val : Z) : M chars nat := toStr buf val.

(** toStr(char, u32, size_t) -- src/src/ExchUtils.cpp:242-294 *)
Definition toStr_u32_pos (buf : nat) (val : Z) (pos : nat) : M chars nat :=
  store buf [NUL] ;;;
  p <- pad (pos - usePos val) buf ;;
  toStr p val.

(** toStr(char, u64), the nested branches -- src/src/ExchUtils.cpp:306-398
    [n] more pairs of digits may follow; the innermost branch asserts. *)
Fixpoint u64_pairs (n : nat) (buf : nat) (v : Z) : M chars nat :=
  match n with
  | O => assert_ (v <? NUMBERS_AMOUNT) ;;; append buf v
  | S n' =>
      if v <? NUMBERS_AMOUNT then append buf v
      else p <- u64_pairs n' buf (v / NUMBERS_AMOUNT) ;; append_2PosZeroFwd p (v `mod` NUMBERS_AMOUNT)
  end.

(** toStr(char, u64) -- src/src/ExchUtils.cpp:298-405
    Compiled where [size_t] is not a [u64]. *)
Definition toStr_u64 (buf : nat) (val : Z) : M chars nat :=
  store buf [NUL] ;;;
  if NUMBERS_AMOUNT <=? val then
    p <- u64_pairs 9 buf (val / NUMBERS_AMOUNT) ;; append_2PosZeroFwd p (val `mod` NUMBERS_AMOUNT)
  else append buf val.

(** toStr(char, i64) -- src/src/ExchUtils.cpp:407-417
    Negating the least value overflows. *)
Definition toStr_i64 (buf : nat) (val : Z) : M chars nat :=
  if val <? 0 then
    store buf ["-"%char] ;;; (if val =? - 2 ^ 63 then crash "signed overflow" else toStr_u64 (S buf) (- val))
  else toStr_u64 buf val.

(** IdT::toString -- src/src/DataModelDef.cpp:122-130
    [buf] are the 36 bytes the local array happens to hold; the text appended to
    [msg]. *)
Definition IdT_toString (buf : chars) (i : IdT) : outcome chars :=
  let r := (p <- toStr_u32 0 (date_ i) ;;
            store p ["."%char] ;;;
            toStr (S p) (id_ i)) buf in
  match r.1 with Ok p => Ok (take p r.2) | Throw m => Throw m | Crash w => Crash w end.

(** ** What they write *)

(** The decimal digits of a number. *)
Definition decimal (n : Z) : chars := text (pretty (Z.to_N n)).

(** [b'] is [b] with the zero-terminated string [s] at [p]. *)
Definition wrote (p : nat) (s b b' : chars) : Prop :=
  (p + length s < length b)%nat ∧ b' = take p b ++ s ++ NUL :: drop (p + length s + 1) b.

(** A string without zeros. *)
Definition no_nul (s : chars) : Prop := NUL ∉ s.

Lemma nul_from_head s b : no_nul s → nul_from (s ++ NUL :: b) = Some (length s).
Proof.
  unfold no_nul. induction s as [|c s IH]; intros Hn; [done|]. cbn [nul_from app].
  rewrite bool_decide_eq_false_2 by set_solver. by rewrite IH by set_solver.
Qed.

Lemma wrote_nul p b : (p < length b)%nat → ∃ b', store p [NUL] b = (Ok tt, b') ∧ wrote p [] b b'.
Proof.
  intros Hp. unfold store. cbn [length]. rewrite (proj2 (Nat.leb_le _ _)) by lia. eexists. split; [done|].
  split; [simpl; lia|]. cbn [length app]. by replace (p + 0 + 1)%nat with (p + 1)%nat by lia.
Qed.

Lemma strcat_inside p s1 s2 t b b' : wrote p (s1 ++ s2) b b' → no_nul s2 → (p + length (s1 ++ s2) + length t < length b)%nat →
  ∃ b2, strcat (p + length s1) t b' = (Ok tt, b2) ∧ wrote p ((s1 ++ s2) ++ t) b b2.
Proof.
  intros [Hp ->] Hn Hl. unfold strcat. rewrite (bind_ok (gets id) _ _ _ _ eq_refl). cbn [id].
  assert (length (take p b) = p) as Ht by (rewrite length_take; lia). set (s := s1 ++ s2) in *.
  assert (drop (p + length s1) (take p b ++ s ++ NUL :: drop (p + length s + 1) b) = s2 ++ NUL :: drop (p + length s + 1) b) as E.
  { rewrite <- Ht at 1. rewrite <- drop_drop, drop_app_length. unfold s at 1. rewrite <- (assoc_L (++)). by rewrite drop_app_length. }
  rewrite E, (nul_from_head _ _ Hn). unfold store. replace (p + length s1 + length s2)%nat with (p + length s)%nat by (unfold s; rewrite length_app; lia).
  assert (length (take p b ++ s ++ NUL :: drop (p + length s + 1) b) = length b) as Hb.
  { rewrite !length_app, Ht. cbn [length]. rewrite length_drop. lia. }
  rewrite Hb, length_app. cbn [length]. rewrite (proj2 (Nat.leb_le _ _)) by lia. eexists. split; [done|].
  split; [rewrite length_app; lia|]. rewrite (assoc_L (++) (take p b) s).
  assert (length (take p b ++ s) = (p + length s)%nat) as Hx by (rewrite length_app; lia).
  rewrite (take_app_length' (take p b ++ s) _ _ (eq_sym Hx)), length_app.
  rewrite drop_app_ge by lia. rewrite Hx. replace (p + length s + (length t + 1) - (p + length s))%nat with (S (length t)) by lia.
  cbn [drop]. rewrite drop_drop, <- !(assoc_L (++)). do 3 f_equal. cbn [app]. do 2 f_equal. lia.
Qed.

Lemma strcat_wrote p s t b b' : wrote p s b b' → (p + length s + length t < length b)%nat →
  ∃ b2, strcat (p + length s) t b' = (Ok tt, b2) ∧ wrote p (s ++ t) b b2.
Proof.
  intros Hw Hl. pose proof (strcat_inside p s [] t b b') as H0. rewrite app_nil_r in H0. apply H0; [done| |done].
  apply not_elem_of_nil.
Qed.

(** *** Digits *)

(** The two digits of a number below 100. *)
Definition two (r : Z) : chars := (if r <? 10 then number 0 else []) ++ number r.

(** What a finite check of the table shows. *)
Lemma below_100 (Q : Z → Prop) `{!∀ v, Decision (Q v)} :
  forallb (λ n : nat, bool_decide (Q (Z.of_nat n))) (seq 0 100) = true → ∀ v, 0 <= v < 100 → Q v.
Proof.
  intros Hall v Hv. rewrite forallb_forall in Hall. specialize (Hall (Z.to_nat v)). rewrite Z2Nat.id in Hall by lia.
  apply (bool_decide_eq_true_1 _), Hall, in_seq. lia.
Qed.

Lemma number_decimal v : 0 <= v < 100 → number v = decimal v.
Proof. revert v. apply (below_100 (λ v, number v = decimal v)). by vm_compute. Qed.

Lemma number_length v : 0 <= v < 100 → length (number v) = if 10 <=? v then 2%nat else 1%nat.
Proof. revert v. apply (below_100 (λ v, length (number v) = _)). by vm_compute. Qed.

Lemma two_length v : 0 <= v < 100 → length (two v) = 2%nat.
Proof. revert v. apply (below_100 (λ v, length (two v) = 2%nat)). by vm_compute. Qed.

Lemma two_digits v : 0 <= v < 100 →
  two v = text (String (pretty_N_char (Z.to_N v `div` 10)) (String (pretty_N_char (Z.to_N v `mod` 10)) "")).
Proof. revert v. apply (below_100 (λ v, two v = _)). by vm_compute. Qed.

Lemma string_app_assoc (a b c : string) : ((a +:+ b) +:+ c = a +:+ (b +:+ c))%string.
Proof. induction a as [|x a IH]; [done|]. exact (f_equal (String x) IH). Qed.

Lemma pretty_N_go_app x s : pretty_N_go x s = (pretty_N_go x "" +:+ s)%string.
Proof.
  revert s. induction (N.lt_wf_0 x) as [x _ IH]; intros s. destruct (decide (x = 0)%N) as [->|Hx]; [done|].
  rewrite (pretty_N_go_step x s), (pretty_N_go_step x "") by lia.
  rewrite (IH (x `div` 10)%N) by (apply N.div_lt; lia).
  rewrite (IH (x `div` 10)%N ltac:(apply N.div_lt; lia) (String _ "")). by rewrite string_app_assoc.
Qed.

Lemma text_app a b : text (a +:+ b) = text a ++ text b.
Proof. unfold text. induction a as [|c a IH]; [done|]. exact (f_equal (cons c) IH). Qed.

Lemma decimal_step v r : 0 < v → 0 <= r < 100 → decimal (v * 100 + r) = decimal v ++ two r.
Proof.
  intros Hv Hr. rewrite two_digits by done. unfold decimal, pretty, pretty_N.
  rewrite !decide_False by lia. set (n := Z.to_N (v * 100 + r)).
  assert (n `div` 10 = 10 * Z.to_N v + Z.to_N r `div` 10)%N as E1.
  { symmetry. apply (N.div_unique _ _ _ (Z.to_N r `mod` 10)%N); [apply N.mod_lt; lia|].
    pose proof (N.div_mod (Z.to_N r) 10). unfold n. lia. }
  assert (n `mod` 10 = Z.to_N r `mod` 10)%N as E2.
  { symmetry. apply (N.mod_unique _ _ (10 * Z.to_N v + Z.to_N r `div` 10)%N); [apply N.mod_lt; lia|].
    pose proof (N.div_mod (Z.to_N r) 10). unfold n. lia. }
  assert (Z.to_N r `div` 10 < 10)%N as H10 by (apply N.Div0.div_lt_upper_bound; lia).
  rewrite pretty_N_go_step by (unfold n; lia). rewrite E1, E2.
  generalize dependent (Z.to_N r `div` 10)%N. intros q E1 Hq. clear E1. generalize (Z.to_N r `mod` 10)%N. intros m.
  assert (0 < Z.to_N v)%N as Hv' by lia. clear E2. generalize dependent (Z.to_N v). intros v' Hv'.
  rewrite pretty_N_go_step by lia.
  replace ((10 * v' + q) `div` 10)%N with v' by (apply (N.div_unique _ _ _ q); lia).
  replace ((10 * v' + q) `mod` 10)%N with q by (apply (N.mod_unique _ _ v'); lia).
  by rewrite pretty_N_go_app, text_app.
Qed.

(** *** The functions *)

Lemma append_wrote p s v b b' : wrote p s b b' → 0 <= v < 100 → (p + length s + 2 < length b)%nat →
  ∃ b2, append (p + length s) v b' = (Ok (p + length (s ++ number v))%nat, b2) ∧ wrote p (s ++ number v) b b2.
Proof.
  intros Hw Hv Hl. pose proof (number_length v Hv) as Hn.
  destruct (strcat_wrote p s (number v) b b' Hw) as (b2 & E & Hw2); [rewrite Hn; destruct (10 <=? v); lia|].
  exists b2. split; [|done]. unfold append, NUMBERS_AMOUNT. rewrite (proj2 (Z.ltb_lt _ _)) by lia. cbn [assert_]. rewrite ret_bind.
  rewrite (bind_ok _ _ _ _ _ E). rewrite length_app, Hn. unfold ret. destruct (10 <=? v); (do 2 f_equal; lia).
Qed.

Lemma append2_wrote p s v b b' : wrote p s b b' → 0 <= v < 100 → (p + length s + 2 < length b)%nat →
  ∃ b2, append_2PosZeroFwd (p + length s) v b' = (Ok (p + length (s ++ two v))%nat, b2) ∧ wrote p (s ++ two v) b b2.
Proof.
  intros Hw Hv Hl. unfold append_2PosZeroFwd, NUMBERS_AMOUNT. rewrite (proj2 (Z.ltb_lt _ _)) by lia. cbn [assert_]. rewrite ret_bind.
  rewrite length_app, two_length by done. pose proof (number_length v Hv) as Hn. unfold two.
  assert (length (number 0) = 1%nat) as H0 by reflexivity.
  replace (p + (length s + 2))%nat with (S (S (p + length s))) by lia. destruct (Z.ltb_spec v 10); cbn [when app].
  - destruct (strcat_wrote p s (number 0) b b' Hw) as (b1 & E1 & Hw1); [lia|]. rewrite (bind_ok _ _ _ _ _ E1).
    destruct (strcat_inside p s (number 0) (number v) b b1 Hw1) as (b2 & E2 & Hw2); [by apply (bool_decide_unpack _)| |].
    { rewrite length_app, Hn. rewrite (proj2 (Z.leb_gt _ _)) by lia. lia. }
    rewrite (bind_ok _ _ _ _ _ E2). exists b2. split; [done|]. by rewrite (assoc_L (++)).
  - rewrite ret_bind. destruct (strcat_wrote p s (number v) b b' Hw) as (b2 & E2 & Hw2).
    { rewrite Hn. destruct (10 <=? v); lia. }
    rewrite (bind_ok _ _ _ _ _ E2). by exists b2.
Qed.

(** *** toStr *)

(** [s] stands at [p], and the byte behind it may be anything. *)
Definition ready (p : nat) (s b b1 : chars) : Prop :=
  (p + length s < length b)%nat ∧ ∃ c, b1 = take p b ++ s ++ c :: drop (p + length s + 1) b.

Lemma ready_start p b : (p < length b)%nat → ready p [] b b.
Proof.
  intros Hp. split; [simpl; lia|]. destruct (lookup_lt_is_Some_2 b p Hp) as [c Hc]. exists c. cbn [length app].
  replace (p + 0 + 1)%nat with (S p) by lia. by rewrite take_drop_middle.
Qed.

Lemma wrote_ready p s b b1 : wrote p s b b1 → ready p s b b1.
Proof. intros [? ->]. split; [done|by eexists]. Qed.

Lemma store_ready p s c b b1 : ready p s b b1 →
  ∃ b2, store (p + length s) [c] b1 = (Ok tt, b2) ∧ b2 = take p b ++ s ++ c :: drop (p + length s + 1) b.
Proof.
  intros [Hp (c0 & ->)]. assert (length (take p b ++ s) = (p + length s)%nat) as Hx by (rewrite length_app, length_take; lia).
  unfold store. rewrite (assoc_L (++) (take p b)). rewrite length_app, Hx. cbn [length].
  rewrite (proj2 (Nat.leb_le _ _)) by lia. eexists. split; [done|].
  rewrite (take_app_length' (take p b ++ s) _ _ (eq_sym Hx)). rewrite drop_app_ge by lia. rewrite Hx.
  replace (p + length s + 1 - (p + length s))%nat with 1%nat by lia. cbn [drop]. by rewrite <- (assoc_L (++)).
Qed.

Lemma store_nul p s b b1 : ready p s b b1 → ∃ b2, store (p + length s) [NUL] b1 = (Ok tt, b2) ∧ wrote p s b b2.
Proof. intros Hr. destruct (store_ready p s NUL b b1 Hr) as (b2 & E & ->). eexists. split; [done|]. by destruct Hr. Qed.

Lemma store_char p s c b b1 : ready p s b b1 → (p + length s + 1 < length b)%nat →
  ∃ b2, store (p + length s) [c] b1 = (Ok tt, b2) ∧ ready p (s ++ [c]) b b2.
Proof.
  intros Hr Hl. destruct (store_ready p s c b b1 Hr) as (b2 & E & ->). eexists. split; [done|].
  split; [rewrite length_app; simpl; lia|]. destruct (lookup_lt_is_Some_2 b _ Hl) as [c' Hc]. exists c'.
  rewrite <- (assoc_L (++)). cbn [app]. rewrite length_app. cbn [length].
  replace (p + (length s + 1) + 1)%nat with (S (p + length s + 1)) by lia. by rewrite (drop_S _ _ _ Hc).
Qed.

(** [c] appends the digits of [n] to [s]. *)
Definition prints (p : nat) (s : chars) (n : Z) (b b1 : chars) (c : M chars nat) : Prop :=
  ∃ b2, c b1 = (Ok (p + length (s ++ decimal n))%nat, b2) ∧ wrote p (s ++ decimal n) b b2.

Lemma decimal_split v : 100 <= v → decimal v = decimal (v / 100) ++ two (v `mod` 100).
Proof.
  intros Hv. pose proof (Z.mod_pos_bound v 100). rewrite <- decimal_step; [|apply Z.div_str_pos; lia|lia].
  f_equal. pose proof (Z.div_mod v 100). lia.
Qed.

Lemma decimal_length v (k : nat) : 0 <= v < 100 ^ (Z.of_nat k + 1) → (length (decimal v) <= 2 * (k + 1))%nat.
Proof.
  revert v. induction k as [|k IH]; intros v Hv; (destruct (Z.lt_ge_cases v 100) as [Hs|Hs];
    [rewrite <- number_decimal, number_length by lia; destruct (10 <=? v); lia|]); [exfalso; simpl in Hv; lia|].
  rewrite decimal_split, length_app by done. rewrite two_length by (apply Z.mod_pos_bound; lia).
  specialize (IH (v / 100)). rewrite Nat2Z.inj_succ in Hv. cut (0 <= v / 100 < 100 ^ (Z.of_nat k + 1)); [intros H1; specialize (IH H1); lia|].
  split; [apply Z.div_pos; lia|]. apply Z.div_lt_upper_bound; [lia|].
  replace (Z.succ (Z.of_nat k) + 1) with (1 + (Z.of_nat k + 1)) in Hv by lia. rewrite Z.pow_add_r in Hv by lia. lia.
Qed.

Lemma prints_small p s v b b1 : wrote p s b b1 → 0 <= v < 100 → (p + length s + 2 < length b)%nat →
  prints p s v b b1 (append (p + length s) v).
Proof. intros Hw Hv Hl. unfold prints. rewrite <- number_decimal by done. by apply append_wrote. Qed.

Lemma prints_next p s v b b1 c : 100 <= v → prints p s (v / 100) b b1 c →
  (p + length s + length (decimal (v / 100)) + 2 < length b)%nat →
  prints p s v b b1 (q <- c ;; append_2PosZeroFwd q (v `mod` 100)).
Proof.
  intros Hv (b2 & E & Hw) Hl. unfold prints. rewrite (bind_ok _ _ _ _ _ E), (decimal_split v Hv), !(assoc_L (++)).
  apply append2_wrote; [done|apply Z.mod_pos_bound; lia|rewrite length_app; lia].
Qed.

Lemma div_100 v k : 0 <= v < 100 ^ (k + 1) → 0 <= k → 0 <= v / 100 < 100 ^ k.
Proof.
  intros Hv Hk. split; [apply Z.div_pos; lia|]. apply Z.div_lt_upper_bound; [lia|]. rewrite Z.pow_add_r in Hv by lia. lia.
Qed.

Lemma toStr_prints p s v b b1 : ready p s b b1 → 0 <= v < 10 ^ 12 → (p + length s + 12 < length b)%nat →
  prints p s v b b1 (toStr (p + length s) v).
Proof.
  intros Hr Hv Hl. destruct (store_nul _ _ _ _ Hr) as (b0 & E0 & Hw). unfold toStr. unfold prints. rewrite (bind_ok _ _ _ _ _ E0).
  unfold NUMBERS_AMOUNT. cbv zeta.
  assert (∀ k w, 0 <= w < 100 ^ (Z.of_nat k + 1) → (k < 5)%nat → (p + length s + length (decimal w) + 2 < length b)%nat) as Hlen.
  { intros k w Hw' Hk. pose proof (decimal_length w k Hw'). lia. }
  pose proof (div_100 v 5 Hv ltac:(lia)) as H1. pose proof (div_100 _ 4 H1 ltac:(lia)) as H2.
  pose proof (div_100 _ 3 H2 ltac:(lia)) as H3. pose proof (div_100 _ 2 H3 ltac:(lia)) as H4.
  pose proof (div_100 _ 1 H4 ltac:(lia)) as H5. change (100 ^ 1) with 100 in H5.
  destruct (Z.leb_spec 100 v) as [C1|C1]; [|apply prints_small; [done|lia|lia]].
  apply prints_next; [done| |by apply (Hlen 4%nat); [|lia]].
  destruct (Z.ltb_spec (v / 100) 100) as [C2|C2]; [apply prints_small; [done|lia|lia]|].
  apply prints_next; [done| |by apply (Hlen 3%nat); [|lia]].
  destruct (Z.ltb_spec (v / 100 / 100) 100) as [C3|C3]; [apply prints_small; [done|lia|lia]|].
  apply prints_next; [done| |by apply (Hlen 2%nat); [|lia]].
  destruct (Z.ltb_spec (v / 100 / 100 / 100) 100) as [C4|C4]; [apply prints_small; [done|lia|lia]|].
  apply prints_next; [done| |by apply (Hlen 1%nat); [|lia]].
  destruct (Z.ltb_spec (v / 100 / 100 / 100 / 100) 100) as [C5|C5]; [apply prints_small; [done|lia|lia]|].
  rewrite (proj2 (Z.ltb_lt _ _)) by lia. unfold prints. cbn [assert_]. rewrite ret_bind.
  apply prints_next; [done| |by apply (Hlen 0%nat); [|lia]]. apply prints_small; [done|lia|lia].
Qed.

Lemma toStr_asserts p v b : 10 ^ 12 <= v → (p < length b)%nat → (toStr p v b).1 = Crash "assert".
Proof.
  intros Hv Hp. destruct (wrote_nul p b Hp) as (b0 & E0 & _). unfold toStr. rewrite (bind_ok _ _ _ _ _ E0). unfold NUMBERS_AMOUNT. cbv zeta.
  assert (∀ a w, 100 * a <= w → a <= w / 100) as Hd by (intros; apply Z.div_le_lower_bound; lia).
  pose proof (Hd (10 ^ 10) v ltac:(lia)) as H1. pose proof (Hd (10 ^ 8) (v / 100) ltac:(lia)) as H2.
  pose proof (Hd (10 ^ 6) (v / 100 / 100) ltac:(lia)) as H3.
  pose proof (Hd (10 ^ 4) (v / 100 / 100 / 100) ltac:(lia)) as H4.
  pose proof (Hd (10 ^ 2) (v / 100 / 100 / 100 / 100) ltac:(lia)) as H5.
  rewrite (proj2 (Z.leb_le 100 v)) by lia. rewrite !(proj2 (Z.ltb_ge _ 100)) by lia. done.
Qed.

(** *** The 64-bit overloads *)

Lemma u64_pairs_prints n p s v b b1 : wrote p s b b1 → 0 <= v < 100 ^ (Z.of_nat n + 1) → (p + length s + 2 * (n + 1) < length b)%nat →
  prints p s v b b1 (u64_pairs n (p + length s) v).
Proof.
  intros Hw. revert v. induction n as [|n IH]; intros v Hv Hl; cbn [u64_pairs]; unfold NUMBERS_AMOUNT.
  { change (100 ^ (Z.of_nat 0 + 1)) with 100 in Hv. rewrite (proj2 (Z.ltb_lt _ _)) by lia. cbn [assert_]. unfold prints. rewrite ret_bind. apply prints_small; [done|lia|lia]. }
  destruct (Z.ltb_spec v 100); [apply prints_small; [done|lia|lia]|].
  assert (0 <= v / 100 < 100 ^ (Z.of_nat n + 1)) as Hd by (apply div_100; [by replace (Z.of_nat n + 1 + 1) with (Z.of_nat (S n) + 1) by lia|lia]).
  apply prints_next; [done|apply IH; [done|lia]|]. pose proof (decimal_length (v / 100) n Hd). lia.
Qed.

(** The 64-bit overload prints every value of its type, unlike the one for [size_t]. *)
Theorem toStr_u64_prints p v b : is_u64 v → (p + 22 < length b)%nat →
  ∃ b2, toStr_u64 p v b = (Ok (p + length (decimal v))%nat, b2) ∧ wrote p (decimal v) b b2.
Proof.
  unfold is_u64. intros Hv Hl. destruct (store_nul p [] b b) as (b0 & E0 & Hw); [apply ready_start; lia|]. cbn [length] in E0. rewrite Nat.add_0_r in E0.
  unfold toStr_u64. rewrite (bind_ok _ _ _ _ _ E0). unfold NUMBERS_AMOUNT.
  pose proof (u64_pairs_prints 10 p [] v b b0 Hw ltac:(cbn; lia) ltac:(cbn; lia)) as Hp. cbn [length app] in Hp. rewrite Nat.add_0_r in Hp.
  destruct (Z.leb_spec 100 v).
  - assert ((v <? 100) = false) as Hf by (apply Z.ltb_ge; lia). unfold prints in Hp. cbn [u64_pairs app] in Hp. unfold NUMBERS_AMOUNT in Hp. rewrite Hf in Hp. exact Hp.
  - assert ((v <? 100) = true) as Ht by (apply Z.ltb_lt; lia). unfold prints in Hp. cbn [u64_pairs app] in Hp. unfold NUMBERS_AMOUNT in Hp. rewrite Ht in Hp. exact Hp.
Qed.

(** *** The padding functions *)

Lemma decimal_digits v : 0 <= v < 10 ^ 10 → usePos v = length (decimal v).
Proof.
  intros Hv. cut (∀ (k : nat) w, 0 <= w < 10 ^ 10 → w < 100 ^ (Z.of_nat k + 1) → usePos w = length (decimal w)).
  { intros H1. apply (H1 4%nat); [done|]. simpl. lia. }
  clear v Hv. induction k as [|k IH]; intros w Hw Hk; (destruct (Z.lt_ge_cases w 100);
    [rewrite <- number_decimal, number_length by lia; unfold usePos;
     destruct (Z.leb_spec 10 w), (Z.ltb_spec w 10), (Z.ltb_spec w 100); lia|]); [exfalso; simpl in Hk; lia|].
  rewrite decimal_split, length_app, two_length, <- IH by (try apply Z.mod_pos_bound; try lia;
    first [apply (div_100 w 4); simpl; lia | apply (div_100 w (Z.of_nat k + 1)); [rewrite Nat2Z.inj_succ in Hk; split; [lia|]; by replace (Z.of_nat k + 1 + 1) with (Z.succ (Z.of_nat k) + 1) by lia|lia]
          | split; [apply Z.div_pos; lia|apply Z.div_lt_upper_bound; lia]]).
  pose proof (Z.div_mod w 100 ltac:(lia)). pose proof (Z.mod_pos_bound w 100 ltac:(lia)). unfold usePos.
  repeat match goal with |- context [?a <? ?b] => destruct (Z.ltb_spec a b); try lia end.
Qed.

Lemma pad_wrote n p s b b1 : wrote p s b b1 → (p + length s + n + 2 < length b)%nat →
  ∃ b2, pad n (p + length s) b1 = (Ok (p + length (s ++ replicate n "0"%char))%nat, b2) ∧ wrote p (s ++ replicate n "0"%char) b b2.
Proof.
  revert s b1. induction n as [|n IH]; intros s b1 Hw Hl; [exists b1; by rewrite app_nil_r|]. cbn [pad].
  destruct (append_wrote p s 0 b b1 Hw) as (b2 & E & Hw2); [lia|lia|]. rewrite (bind_ok _ _ _ _ _ E).
  change (number 0) with ["0"%char] in *. destruct (IH (s ++ ["0"%char]) b2 Hw2) as (b3 & E3 & Hw3); [rewrite length_app; simpl; lia|].
  exists b3. cbn [replicate]. by rewrite <- !(assoc_L (++)) in E3, Hw3.
Qed.

(** A padded number has the width asked for, or that of its digits if they need
    more: [toStr(buf, val, pos)] puts zeros in front of the digits. *)
Theorem toStr_u32_pos_pads (p pos : nat) (v : Z) (b : chars) : is_u32 v → (p + pos + 24 < length b)%nat →
  ∃ b2, toStr_u32_pos p v pos b = (Ok (p + Nat.max pos (length (decimal v)))%nat, b2) ∧
    wrote p (replicate (pos - length (decimal v)) "0"%char ++ decimal v) b b2.
Proof.
  unfold is_u32. intros Hv Hl. unfold toStr_u32_pos.
  destruct (store_nul p [] b b) as (b0 & E0 & Hw0); [apply ready_start; lia|]. cbn [length] in E0. rewrite Nat.add_0_r in E0.
  rewrite (bind_ok _ _ _ _ _ E0), decimal_digits by lia.
  destruct (pad_wrote (pos - length (decimal v)) p [] b b0 Hw0) as (b1 & E1 & Hw1); [simpl; lia|].
  cbn [length app] in E1, Hw1. rewrite Nat.add_0_r in E1. rewrite (bind_ok _ _ _ _ _ E1).
  destruct (toStr_prints p _ v b b1 (wrote_ready _ _ _ _ Hw1)) as (b2 & E2 & Hw2); [lia|rewrite length_replicate; lia|].
  exists b2. split; [|done]. rewrite E2. do 2 f_equal. rewrite length_app, length_replicate. lia.
Qed.

(** C39: An identifier as text is its date, a dot and its number, both in decimal; the
    local buffer of 36 bytes is large enough whatever it holds.  A number of
    thirteen digits runs into the assertion of [toStr]. *)
Theorem toString_decimal (buf : chars) (i : IdT) : length buf = 36%nat → is_u32 (date_ i) → is_u64 (id_ i) →
  IdT_toString buf i =
    if id_ i <? 10 ^ 12 then Ok (decimal (date_ i) ++ "."%char :: decimal (id_ i)) else Crash "assert".
Proof.
  unfold is_u32, is_u64. intros Hb Hd Hi. unfold IdT_toString, toStr_u32.
  pose proof (decimal_length (date_ i) 4 ltac:(simpl; lia)) as Hl.
  destruct (toStr_prints 0 [] (date_ i) buf buf) as (b1 & E1 & Hw1); [apply ready_start; lia|lia|simpl; lia|].
  cbn [length app Nat.add] in E1, Hw1. rewrite (bind_ok _ _ _ _ _ E1).
  destruct (store_char 0 _ "."%char buf b1 (wrote_ready _ _ _ _ Hw1)) as (b2 & E2 & Hr2); [lia|]. cbn [Nat.add] in E2.
  rewrite (bind_ok _ _ _ _ _ E2). destruct (Z.ltb_spec (id_ i) (10 ^ 12)) as [Hs|Hs].
  - destruct (toStr_prints 0 _ (id_ i) buf b2 Hr2) as (b3 & E3 & Hl3 & ->); [lia|rewrite length_app; simpl; lia|].
    replace (S (length (decimal (date_ i)))) with (0 + length (decimal (date_ i) ++ ["."%char]))%nat by (rewrite length_app; simpl; lia).
    rewrite E3. cbn [fst snd Nat.add]. rewrite take_0, app_nil_l, take_app_length. by rewrite <- (assoc_L (++)).
  - destruct Hr2 as (Hl2 & c & E). rewrite (toStr_asserts _ _ b2 Hs); [done|]. rewrite E, !length_app in *.
    cbn [take length Nat.add] in *. rewrite length_drop. lia.
Qed.

Lemma toString_decimal_witness :
  IdT_toString (replicate 36 "?"%char) (mkIdT 1234567890 20260101) = Ok (text "20260101.1234567890") ∧
  IdT_toString (replicate 36 "?"%char) (mkIdT (10 ^ 12) 7) = Crash "assert".
Proof.
  split.
  - rewrite (toString_decimal (replicate 36 "?"%char) (mkIdT 1234567890 20260101)) by (vm_compute; intuition congruence). reflexivity.
  - rewrite (toString_decimal (replicate 36 "?"%char) (mkIdT (10 ^ 12) 7)) by (vm_compute; intuition congruence). reflexivity.
Defined.
End ExchUtils.
