(* ===== verification/LogMask.v ===== *)
(** The logger, [src/src/Logger.cpp]: the mask of the enabled levels, which is updated
    without a lock, and the lines that are written.  The clock, the thread's name and the
    sink of the lines belong to the environment. *)

From Stdlib Require Import String ZArith Lia.
From stdpp Require Import pretty.
From S2P Require Import Prelude Types.
#[local] Open Scope string_scope.
#[local] Open Scope Z_scope.

Module Logger.

(** ** Levels *)

Inductive Level := Debug | Note | Warn | Error | Fatal.
#[global] Instance Level_dec : EqDecision Level. Proof. solve_decision. Defined.

(** enum LoggerImpl::LoggingMask -- src/src/Logger.cpp:66-75 *)
Definition flag (v : Level) : Z := match v with Debug => 1 | Note => 2 | Warn => 4 | Error => 8 | Fatal => 16 end.
Definition ALL_ENABLED_FLAG : Z := 31.

(** DEBUG_PREFIX ... FATAL_PREFIX -- src/src/Logger.cpp:30-34 *)
Definition prefix (v : Level) : string :=
  match v with Debug => ": [Debug][" | Note => ": [Note][" | Warn => ": [Warn][" | Error => ": [Error][" | Fatal => ": [Fatal][" end.

(** ** The mask *)

(** a round of LoggerImpl::setFlag -- src/src/Logger.cpp:111-130
    [None]: the call returns; otherwise the value it tries to store. *)
Definition setFlag_next (enabled : bool) (f before : Z) : option Z :=
  if enabled then
    if negb (0 =? Z.land before f) then None else Some (Z.lor before f)
  else
    if 0 =? Z.land before (Z.lnot f) then None else Some (Z.land before (Z.lnot f)).

(** LoggerImpl::isFlag -- src/src/Logger.cpp:138-142 *)
Definition isFlag (f mask : Z) : bool := negb (0 =? Z.land mask f).

(** Where a call of [setFlag] stands: before the load, before the exchange, returned. *)
Inductive Pc := Load (e : bool) (f : Z) | Exchange (e : bool) (f before newVal : Z) | Returned.

(** The mask, the calls in progress and the calls that have returned, in the order in
    which they took effect. *)
Record conf := mkLog { mask : Z; calls : gmap nat Pc; effects : list (nat * (bool * Z)) }.

(** LoggerImpl::setFlag -- src/src/Logger.cpp:108-136
    One step per access to the mask. *)
Inductive lstep : conf → conf → Prop :=
  | l_return t e f c : calls c !! t = Some (Load e f) → setFlag_next e f (mask c) = None →
      lstep c (mkLog (mask c) (<[t := Returned]> (calls c)) (effects c ++ [(t, (e, f))]))
  | l_load t e f v c : calls c !! t = Some (Load e f) → setFlag_next e f (mask c) = Some v →
      lstep c (mkLog (mask c) (<[t := Exchange e f (mask c) v]> (calls c)) (effects c))
  | l_exchange t e f v c : calls c !! t = Some (Exchange e f (mask c) v) →
      lstep c (mkLog v (<[t := Returned]> (calls c)) (effects c ++ [(t, (e, f))]))
  | l_retry t e f b v c : calls c !! t = Some (Exchange e f b v) → mask c ≠ b →
      lstep c (mkLog (mask c) (<[t := Load e f]> (calls c)) (effects c)).

(** A call on its own. *)
Definition setFlag (enabled : bool) (f m : Z) : Z := default m (setFlag_next enabled f m).

(** ** The logger *)

(** What can be logged: texts, numbers, and a [LogMessage], which prepares its text. *)
Inductive Msg := MText (s : string) | MInt (n : Z) | MPrepared (prepare : unit → string).

Definition msg_text (m : Msg) : string := match m with MText s => s | MInt n => pretty n | MPrepared f => f tt end.

(** class Logger, struct LoggerImpl -- src/src/Logger.cpp:58-77
    The mask and the lines. *)
Record t := mkLogger { loggingMask : Z; lines : list string }.

(** [stamp] is [getTimestamp()], [thread] is [getThreadId()]. *)
Section ops.
Context (stamp thread : string).

(** LoggerImpl::logMessage, four overloads -- src/src/Logger.cpp:144-187 *)
Definition logMessage (m : Msg) (f : Z) (p : string) (s : t) : t :=
  if isFlag f (loggingMask s) then mkLogger (loggingMask s) (lines s ++ [(stamp ++ p ++ thread ++ "] " ++ msg_text m)%string]) else s.

(** Logger::debug, four overloads -- src/src/Logger.cpp:306-328 *)
Definition debug (m : Msg) : t → t := logMessage m (flag Debug) (prefix Debug).
(** Logger::note, four overloads -- src/src/Logger.cpp:330-352 *)
Definition note (m : Msg) : t → t := logMessage m (flag Note) (prefix Note).
(** Logger::warn, four overloads -- src/src/Logger.cpp:354-376 *)
Definition warn (m : Msg) : t → t := logMessage m (flag Warn) (prefix Warn).
(** Logger::error, four overloads -- src/src/Logger.cpp:378-400 *)
Definition error (m : Msg) : t → t := logMessage m (flag Error) (prefix Error).
(** Logger::fatal, four overloads -- src/src/Logger.cpp:402-424 *)
Definition fatal (m : Msg) : t → t := logMessage m (flag Fatal) (prefix Fatal).

(** the names in Logger::setDebugOn ... setFatalOn -- src/src/Logger.cpp:212-216 *)
Definition level_name (v : Level) : string :=
  match v with Debug => "Debug" | Note => "Notification" | Warn => "Warning" | Error => "Error" | Fatal => "Fatal" end.

(** Logger::setDebugOn, setNoteOn, setWarnOn, setErrorOn, setFatalOn -- src/src/Logger.cpp:206-274 *)
Definition setOn (v : Level) (val : bool) (s : t) : t :=
  warn (MText (level_name v ++ " logging turned " ++ if val then "on." else "off."))
    (mkLogger (setFlag val (flag v) (loggingMask s)) (lines s)).

(** Logger::isDebugOn, isNoteOn, isWarnOn, isErrorOn, isFatalOn -- src/src/Logger.cpp:276-304 *)
Definition isOn (v : Level) (s : t) : bool := isFlag (flag v) (loggingMask s).

(** Logger::Logger, LoggerImpl::LoggerImpl -- src/src/Logger.cpp:192-198 *)
Definition create : t :=
  note (MText " LogSystem initialized.")
    (note (MText "----------------------------------------------------------------------") (mkLogger ALL_ENABLED_FLAG [])).

(** Logger::~Logger -- src/src/Logger.cpp:200-204 *)
Definition stop (s : t) : t :=
  note (MText "----------------------------------------------------------------------") (note (MText " LogSystem stopped.") s).
End ops.

(** ** Calls of several threads *)

Section theory.
Implicit Types (c : conf).

(** The call a thread makes. *)
Definition call_of (p : Pc) : option (bool * Z) := match p with Load e f | Exchange e f _ _ => Some (e, f) | Returned => None end.

Definition apply_calls (m : Z) (l : list (nat * (bool * Z))) : Z := foldl (λ m x, setFlag x.2.1 x.2.2 m) m l.

(** The threads make the calls [want], starting from the mask [m0]. *)
Record LInv (m0 : Z) (want : gmap nat (bool * Z)) c : Prop := {
  li_mask : mask c = apply_calls m0 (effects c);
  li_calls t p ef : calls c !! t = Some p → call_of p = Some ef → want !! t = Some ef;
  li_value t e f b v : calls c !! t = Some (Exchange e f b v) → setFlag_next e f b = Some v;
  li_returned t : t ∈ (effects c).*1 ↔ calls c !! t = Some Returned;
  li_effects t ef : (t, ef) ∈ effects c → want !! t = Some ef;
  li_nodup : NoDup (effects c).*1;
}.

Lemma apply_calls_snoc m l x : apply_calls m (l ++ [x]) = setFlag x.2.1 x.2.2 (apply_calls m l).
Proof. unfold apply_calls. by rewrite foldl_app. Qed.

(** A call takes effect and returns. *)
Lemma effect_inv m0 want c t p e f m' : LInv m0 want c → calls c !! t = Some p → call_of p = Some (e, f) →
  m' = setFlag e f (mask c) → LInv m0 want (mkLog m' (<[t := Returned]> (calls c)) (effects c ++ [(t, (e, f))])).
Proof.
  intros [H1 H2 H3 H4 H5 H6] Hp Hc ->.
  assert (t ∉ (effects c).*1) as Hnt by (rewrite H4, Hp; by intros [= ->]).
  split; cbn.
  - by rewrite apply_calls_snoc, H1.
  - intros t' p' ef. destruct (decide (t = t')) as [<-|]; [rewrite lookup_insert_eq; by intros [= <-]|].
    rewrite lookup_insert_ne by done. apply H2.
  - intros t' e' f' b v. destruct (decide (t = t')) as [<-|]; [by rewrite lookup_insert_eq|].
    rewrite lookup_insert_ne by done. apply H3.
  - intros t'. rewrite fmap_app, elem_of_app. cbn. rewrite list_elem_of_singleton, H4.
    destruct (decide (t = t')) as [<-|Hne]; [rewrite lookup_insert_eq; naive_solver|].
    rewrite lookup_insert_ne by done. naive_solver.
  - intros t' ef. rewrite elem_of_app, list_elem_of_singleton. intros [Hin|[= -> ->]]; [by apply H5|by eapply H2].
  - rewrite fmap_app. apply NoDup_app. split; [done|]. split; [|apply NoDup_singleton].
    cbn. intros x Hx ->%list_elem_of_singleton. done.
Qed.

(** A step that changes neither the mask nor the calls that have returned. *)
Lemma pending_inv m0 want c t p p' ef : LInv m0 want c → calls c !! t = Some p → call_of p = Some ef → call_of p' = Some ef →
  (∀ e f b v, p' = Exchange e f b v → setFlag_next e f b = Some v) →
  LInv m0 want (mkLog (mask c) (<[t := p']> (calls c)) (effects c)).
Proof.
  intros [H1 H2 H3 H4 H5 H6] Hp Hc Hc' Hv. split; cbn; try done.
  - intros t' q ef'. destruct (decide (t = t')) as [<-|]; [|rewrite lookup_insert_ne by done; apply H2].
    rewrite lookup_insert_eq. intros [= <-] E. rewrite Hc' in E. injection E as <-. by eapply H2.
  - intros t' e' f' b v. destruct (decide (t = t')) as [<-|]; [|rewrite lookup_insert_ne by done; apply H3].
    rewrite lookup_insert_eq. intros [= ->]. by apply Hv.
  - intros t'. rewrite H4. destruct (decide (t = t')) as [<-|]; [|by rewrite lookup_insert_ne].
    rewrite lookup_insert_eq, Hp. split; intros [= ->]; done.
Qed.

Lemma lstep_inv m0 want c c' : lstep c c' → LInv m0 want c → LInv m0 want c'.
Proof.
  intros [t e f x Hp Hn|t e f v x Hp Hn|t e f v x Hp|t e f b v x Hp Hne] Hi.
  - eapply (effect_inv m0 want x t); [done|exact Hp|done|]. unfold setFlag. by rewrite Hn.
  - eapply (pending_inv m0 want x t); [done|exact Hp|done|done|]. by intros ? ? ? ? [= <- <- <- <-].
  - eapply (effect_inv m0 want x t); [done|exact Hp|done|]. unfold setFlag. by rewrite (li_value _ _ _ Hi _ _ _ _ _ Hp).
  - eapply (pending_inv m0 want x t); [done|exact Hp|done|done|]. done.
Qed.

(** The threads before their calls. *)
Definition start (m0 : Z) (want : gmap nat (bool * Z)) : conf := mkLog m0 ((λ ef : bool * Z, Load ef.1 ef.2) <$> want) [].

Lemma start_inv m0 want : LInv m0 want (start m0 want).
Proof.
  split; cbn; try done.
  - intros t p ef. rewrite lookup_fmap. intros (ef' & E & ->)%fmap_Some E'. cbn in E'. destruct ef' as [e f]. cbn in E'. by rewrite E, E'.
  - intros t e f b v. rewrite lookup_fmap. by intros (ef' & E & [=])%fmap_Some.
  - intros t. split; [by intros ?%not_elem_of_nil|]. rewrite lookup_fmap. by intros (ef' & E & [=])%fmap_Some.
  - by intros t ef ?%not_elem_of_nil.
  - constructor.
Qed.

(** The levels are switched atomically although the mask is changed without a lock:
    however the loads and exchanges of concurrent calls of [setFlag] interleave, the mask
    is the result of the calls that have returned, applied one after the other in some
    order, each once; the calls still in progress have had no effect. *)
Theorem setFlag_atomic m0 want c : rtc lstep (start m0 want) c →
  mask c = foldl (λ m x, setFlag x.2.1 x.2.2 m) m0 (effects c) ∧ NoDup (effects c).*1 ∧
  (∀ t, t ∈ (effects c).*1 ↔ calls c !! t = Some Returned) ∧ (∀ t ef, (t, ef) ∈ effects c → want !! t = Some ef).
Proof.
  intros Hs. assert (LInv m0 want c) as [H1 _ _ H4 H5 H6]; [|done].
  pose proof (start_inv m0 want) as Hi. revert Hi. induction Hs as [|c1 c2 c3 H12 _ IH]; [done|].
  intros Hi. apply IH. by eapply lstep_inv.
Qed.
End theory.

(** ** What a switch does *)

Definition all_levels : list Level := [Debug; Note; Warn; Error; Fatal].

Lemma level_in v : v ∈ all_levels.
Proof. destruct v; unfold all_levels; set_solver. Qed.

(** Switching a level leaves the other levels alone and switches it, except that the
    last enabled level cannot be switched off: [setFlag] tests whether any other level is
    enabled instead of whether this one is. *)
Theorem setOn_levels stamp thread v val s : 0 <= loggingMask s < 32 →
  isOn v (setOn stamp thread v val s) = (if val then true else bool_decide (loggingMask s = flag v)) ∧
  (∀ v', v' ≠ v → isOn v' (setOn stamp thread v val s) = isOn v' s) ∧
  0 <= loggingMask (setOn stamp thread v val s) < 32.
Proof.
  intros Hm.
  assert (∀ v val m, In m (Z.of_nat <$> seq 0 32) → let m' := setFlag val (flag v) m in
    isFlag (flag v) m' = (if val then true else bool_decide (m = flag v)) ∧
    (∀ v', v' ≠ v → isFlag (flag v') m' = isFlag (flag v') m) ∧ 0 <= m' < 32) as Hall.
  { intros v0 val0 m Hin.
    assert (Forall (λ m, isFlag (flag v0) (setFlag val0 (flag v0) m) = (if val0 then true else bool_decide (m = flag v0)) ∧
      Forall (λ v', v' = v0 ∨ isFlag (flag v') (setFlag val0 (flag v0) m) = isFlag (flag v') m) all_levels ∧
      0 <= setFlag val0 (flag v0) m < 32) (Z.of_nat <$> seq 0 32)) as H.
    { destruct v0, val0; apply (bool_decide_unpack _); vm_compute; exact I. }
    rewrite Forall_forall in H. specialize (H m (proj2 (list_elem_of_In _ _) Hin)). cbn zeta in *. destruct H as (H1 & H2 & H3).
    split; [done|]. split; [|done]. intros v' Hv. rewrite Forall_forall in H2. by destruct (H2 v' (level_in v')). }
  unfold isOn. assert (loggingMask (setOn stamp thread v val s) = setFlag val (flag v) (loggingMask s)) as ->.
  { unfold setOn, warn, logMessage. cbn [loggingMask]. by case_goal. }
  apply Hall. apply list_elem_of_In, list_elem_of_fmap. exists (Z.to_nat (loggingMask s)). split; [lia|]. apply elem_of_seq. lia.
Qed.

(** ** Runs *)

Lemma setFlag_atomic_witness : ∃ c, rtc lstep (start 31 {[1%nat := (false, 1); 2%nat := (false, 2)]}) c ∧
  effects c = [(2%nat, (false, 2)); (1%nat, (false, 1))] ∧ mask c = 28 ∧ NoDup (effects c).*1.
Proof.
  assert (∃ c, rtc lstep (start 31 {[1%nat := (false, 1); 2%nat := (false, 2)]}) c ∧
    effects c = [(2%nat, (false, 2)); (1%nat, (false, 1))]) as (c & Hc & E).
  { eexists. split.
    - eapply rtc_l; [by apply (l_load 1%nat false 1)|]. eapply rtc_l; [by apply (l_load 2%nat false 2)|].
      eapply rtc_l; [by apply (l_exchange 2%nat false 2)|]. eapply rtc_l; [by eapply (l_retry 1%nat false 1)|].
      eapply rtc_l; [by apply (l_load 1%nat false 1)|]. eapply rtc_l; [by apply (l_exchange 1%nat false 1)|]. apply rtc_refl.
    - reflexivity. }
  exists c. destruct (setFlag_atomic _ _ _ Hc) as (H1 & H2 & _). split; [exact Hc|]. split; [exact E|]. split; [|exact H2].
  rewrite H1, E. vm_compute. reflexivity.
Defined.

Lemma setOn_levels_witness : loggingMask (mkLogger 16 []) = 16 ∧ isOn Fatal (setOn "t" "1" Fatal false (mkLogger 16 [])) = true.
Proof.
  split; [reflexivity|]. destruct (setOn_levels "t" "1" Fatal false (mkLogger 16 [])) as (H & _); [cbn; lia|]. exact H.
Defined.
End Logger.
