(* ===== verification/PgWrite.v ===== *)
(** The export to PostgreSQL: the requests ([src/src/PGWriteRequest.h],
    [src/src/PGRequestBuilder.cpp]) and the queue of the writing thread
    ([src/src/PGWriteBehind.cpp]).  The database is the environment: it decides which
    connections and writes succeed. *)

From Stdlib Require Import Ascii String ZArith Lia.
From S2P Require Import Prelude Types WideData EnumStr.
Import EnumStrings.

Module PGWriteBehind.

(** ** Requests *)

(** struct InstrumentWrite -- src/src/PGWriteRequest.h:22-27 *)
Record InstrumentWrite := mkIW { iw_symbol : StringT; iw_securityId : StringT; iw_securityIdSource : StringT }.

(** struct AccountWrite -- src/src/PGWriteRequest.h:29-34 *)
Record AccountWrite := mkAW { aw_account : StringT; aw_firm : StringT; aw_type : StringT }.

(** struct ClearingWrite -- src/src/PGWriteRequest.h:36-39 *)
Record ClearingWrite := mkCW { cw_firm : StringT }.

(** struct OrderWrite -- src/src/PGWriteRequest.h:41-75 *)
Record OrderWrite := mkOW {
  ow_orderId : Z; ow_orderDate : Z; ow_clOrderId : list ascii; ow_origClOrderId : list ascii;
  ow_source : StringT; ow_destination : StringT; ow_instrumentSymbol : StringT; ow_accountName : StringT;
  ow_clearingFirm : StringT; ow_side : StringT; ow_ordType : StringT; ow_status : StringT; ow_tif : StringT;
  ow_capacity : StringT; ow_currency : StringT; ow_settlType : StringT;
  ow_price : PriceT; ow_stopPx : PriceT; ow_avgPx : PriceT; ow_dayAvgPx : PriceT;
  ow_minQty : QuantityT; ow_orderQty : QuantityT; ow_leavesQty : QuantityT; ow_cumQty : QuantityT;
  ow_dayOrderQty : QuantityT; ow_dayCumQty : QuantityT; ow_expireTime : DateTimeT; ow_settlDate : DateTimeT }.

(** using PGWriteRequest = std::variant -- src/src/PGWriteRequest.h:77-77 *)
Inductive PGWriteRequest :=
  | WInstrument (w : InstrumentWrite) | WAccount (w : AccountWrite) | WClearing (w : ClearingWrite) | WOrder (w : OrderWrite).

(** safeStr -- src/src/PGRequestBuilder.cpp:22-25 *)
Definition safeStr (s : option string) : string := default EmptyString s.

(** PGRequestBuilder::fromInstrument -- src/src/PGRequestBuilder.cpp:28-31 *)
Definition fromInstrument (v : InstrumentEntry) : InstrumentWrite := mkIW (in_symbol v) (in_securityId v) (in_securityIdSource v).

(** PGRequestBuilder::fromAccount -- src/src/PGRequestBuilder.cpp:33-36 *)
Definition fromAccount (v : AccountEntry) : AccountWrite := mkAW (ac_account v) (ac_firm v) (safeStr (toSQL_AccountType (ac_type v))).

(** PGRequestBuilder::fromClearing -- src/src/PGRequestBuilder.cpp:38-41 *)
Definition fromClearing (v : ClearingEntry) : ClearingWrite := mkCW (cl_firm v).

(** PGRequestBuilder::fromOrder, a client order identifier -- src/src/PGRequestBuilder.cpp:66-73 *)
Definition raw_text {SD} (i : IdT) (w : WideData.t SD) : outcome (list ascii) :=
  if isValidId i then obind (WideData.getRawData i w) (λ r, Ok (rd_data r)) else Ok [].

(** PGRequestBuilder::fromOrder -- src/src/PGRequestBuilder.cpp:43-111
    A reference that cannot be resolved throws. *)
Definition fromOrder {SD} (v : OrderEntry) (w : WideData.t SD) : outcome OrderWrite :=
  obind (WideData.getInstrument (o_instrument v) w) (λ ins,
  obind (WideData.getAccount (o_account v) w) (λ acc,
  obind (WideData.getClearing (o_clearing v) w) (λ clr,
  obind (WideData.getString (o_destination v) w) (λ dest,
  obind (WideData.getString (o_source v) w) (λ src,
  obind (raw_text (o_clOrderId v) w) (λ cl,
  obind (raw_text (o_origClOrderId v) w) (λ ocl,
  Ok {| ow_orderId := id_ (o_orderId v); ow_orderDate := date_ (o_orderId v);
        ow_clOrderId := cl; ow_origClOrderId := ocl; ow_source := src; ow_destination := dest;
        ow_instrumentSymbol := in_symbol ins; ow_accountName := ac_account acc; ow_clearingFirm := cl_firm clr;
        ow_side := safeStr (toSQL_Side (o_side v)); ow_ordType := safeStr (toSQL_OrderType (o_ordType v));
        ow_status := safeStr (toSQL_OrderStatus (o_status v)); ow_tif := safeStr (toSQL_TimeInForce (o_tif v));
        ow_capacity := safeStr (toSQL_Capacity (o_capacity v)); ow_currency := safeStr (toSQL_Currency (o_currency v));
        ow_settlType := safeStr (toSQL_SettlTypeBase (o_settlType v));
        ow_price := o_price v; ow_stopPx := o_stopPx v; ow_avgPx := o_avgPx v; ow_dayAvgPx := o_dayAvgPx v;
        ow_minQty := o_minQty v; ow_orderQty := o_orderQty v; ow_leavesQty := o_leavesQty v; ow_cumQty := o_cumQty v;
        ow_dayOrderQty := o_dayOrderQty v; ow_dayCumQty := o_dayCumQty v;
        ow_expireTime := o_expireTime v; ow_settlDate := o_settlDate v |}))))))).

(** ** The tables the writes update *)

(** static_cast<int>, static_cast<int64_t> in executeWrite -- src/src/PGWriteBehind.cpp:112-113 *)
Definition to_signed (bits z : Z) : Z := let r := z `mod` 2 ^ bits in if r <? 2 ^ (bits - 1) then r else r - 2 ^ bits.

(** The row of an order, as the INSERT of [UPSERT_ORDER_SQL] fills it. *)
Record OrderRow := mkRow {
  or_cl_order_id : list ascii; or_orig_cl_order_id : list ascii; or_source : StringT; or_destination : StringT;
  or_side : StringT; or_ord_type : StringT; or_price : PriceT; or_stop_px : PriceT;
  or_order_qty : Z; or_min_qty : Z; or_leaves_qty : Z; or_cum_qty : Z; or_avg_px : PriceT;
  or_day_order_qty : Z; or_day_cum_qty : Z; or_day_avg_px : PriceT;
  or_status : StringT; or_tif : StringT; or_settl_type : option StringT; or_capacity : StringT; or_currency : StringT;
  or_instrument : option StringT; or_account : option StringT; or_clearing : option StringT;
  or_expire_time : option Z; or_settl_date : option Z }.

(** The tables, by the columns of their uniqueness constraints.  A reference of an
    order row to another table is given by the unique column of the row it points to. *)
Record Tables := mkTables {
  instruments : gmap StringT (StringT * StringT); accounts : gmap StringT (StringT * StringT);
  clearing_firms : gset StringT; orders : gmap (Z * Z) OrderRow }.

(** What PostgreSQL does with the values bound to a statement: the conversion of a
    number read as [YYYYMMDD] to a date, and whether the values belong to the
    enumeration types and fit the columns. *)
Class Postgres := {
  to_date : Z → option Z;
  fits : PGWriteRequest → bool }.

Section tables.
Context `{Postgres}.

(** executeWrite(InstrumentWrite) -- src/src/PGWriteBehind.cpp:87-92 *)
Definition executeWrite_Instrument (w : InstrumentWrite) (db : Tables) : Tables :=
  mkTables (<[iw_symbol w := (iw_securityId w, iw_securityIdSource w)]> (instruments db)) (accounts db) (clearing_firms db) (orders db).

(** executeWrite(AccountWrite) -- src/src/PGWriteBehind.cpp:94-99 *)
Definition executeWrite_Account (w : AccountWrite) (db : Tables) : Tables :=
  mkTables (instruments db) (<[aw_account w := (aw_firm w, aw_type w)]> (accounts db)) (clearing_firms db) (orders db).

(** executeWrite(ClearingWrite) -- src/src/PGWriteBehind.cpp:101-106 *)
Definition executeWrite_Clearing (w : ClearingWrite) (db : Tables) : Tables :=
  mkTables (instruments db) (accounts db) ({[cw_firm w]} ∪ clearing_firms db) (orders db).

(** UPSERT_ORDER_SQL, the inserted values -- src/src/PGWriteBehind.cpp:47-67 *)
Definition order_row (w : OrderWrite) (settl : option Z) (db : Tables) : OrderRow :=
  {| or_cl_order_id := ow_clOrderId w; or_orig_cl_order_id := ow_origClOrderId w;
     or_source := ow_source w; or_destination := ow_destination w; or_side := ow_side w; or_ord_type := ow_ordType w;
     or_price := ow_price w; or_stop_px := ow_stopPx w;
     or_order_qty := to_signed 32 (ow_orderQty w); or_min_qty := to_signed 32 (ow_minQty w);
     or_leaves_qty := to_signed 32 (ow_leavesQty w); or_cum_qty := to_signed 32 (ow_cumQty w); or_avg_px := ow_avgPx w;
     or_day_order_qty := to_signed 32 (ow_dayOrderQty w); or_day_cum_qty := to_signed 32 (ow_dayCumQty w);
     or_day_avg_px := ow_dayAvgPx w; or_status := ow_status w; or_tif := ow_tif w;
     or_settl_type := if bool_decide (ow_settlType w = EmptyString) then None else Some (ow_settlType w);
     or_capacity := ow_capacity w; or_currency := ow_currency w;
     or_instrument := if bool_decide (ow_instrumentSymbol w ∈ dom (instruments db)) then Some (ow_instrumentSymbol w) else None;
     or_account := if bool_decide (ow_accountName w ∈ dom (accounts db)) then Some (ow_accountName w) else None;
     or_clearing := if bool_decide (ow_clearingFirm w ∈ clearing_firms db) then Some (ow_clearingFirm w) else None;
     or_expire_time := if to_signed 64 (ow_expireTime w) =? 0 then None else Some (to_signed 64 (ow_expireTime w));
     or_settl_date := settl |}.

(** UPSERT_ORDER_SQL, the conflict -- src/src/PGWriteBehind.cpp:68-77 *)
Definition conflict_row (old new : OrderRow) : OrderRow :=
  {| or_cl_order_id := or_cl_order_id new; or_orig_cl_order_id := or_orig_cl_order_id new;
     or_source := or_source old; or_destination := or_destination old; or_side := or_side old; or_ord_type := or_ord_type old;
     or_price := or_price old; or_stop_px := or_stop_px old; or_order_qty := or_order_qty old; or_min_qty := or_min_qty old;
     or_leaves_qty := or_leaves_qty new; or_cum_qty := or_cum_qty new; or_avg_px := or_avg_px new;
     or_day_order_qty := or_day_order_qty new; or_day_cum_qty := or_day_cum_qty new; or_day_avg_px := or_day_avg_px new;
     or_status := or_status new; or_tif := or_tif old; or_settl_type := or_settl_type old;
     or_capacity := or_capacity old; or_currency := or_currency old;
     or_instrument := or_instrument old; or_account := or_account old; or_clearing := or_clearing old;
     or_expire_time := or_expire_time old; or_settl_date := or_settl_date old |}.

(** the order identifier of a row: [order_id, to_date(order_date)] -- src/src/PGWriteBehind.cpp:57-57 *)
Definition row_key (w : OrderWrite) : option (Z * Z) :=
  d ← to_date (to_signed 64 (ow_orderDate w)); Some (to_signed 64 (ow_orderId w), d).

(** the settlement date of a row -- src/src/PGWriteBehind.cpp:66-66 *)
Definition row_settl (w : OrderWrite) : option (option Z) :=
  if to_signed 64 (ow_settlDate w) =? 0 then Some None else d ← to_date (to_signed 64 (ow_settlDate w)); Some (Some d).

(** executeWrite(OrderWrite) -- src/src/PGWriteBehind.cpp:108-141
    [None]: the statement is refused. *)
Definition executeWrite_Order (w : OrderWrite) (db : Tables) : option Tables :=
  k ← row_key w; settl ← row_settl w;
  let new := order_row w settl db in
  Some (mkTables (instruments db) (accounts db) (clearing_firms db)
          (<[k := match orders db !! k with None => new | Some old => conflict_row old new end]> (orders db))).

(** std::visit(executeWrite) -- src/src/PGWriteBehind.cpp:218-223 *)
Definition executeWrite (r : PGWriteRequest) (db : Tables) : option Tables :=
  if fits r then
    match r with
    | WInstrument w => Some (executeWrite_Instrument w db)
    | WAccount w => Some (executeWrite_Account w db)
    | WClearing w => Some (executeWrite_Clearing w db)
    | WOrder w => executeWrite_Order w db
    end
  else None.

(** The tables after the writes that succeeded, in the order they were made. *)
Definition archive (l : list (PGWriteRequest * bool)) (db : Tables) : option Tables :=
  foldl (λ (o : option Tables) (x : PGWriteRequest * bool), db ← o; if x.2 then executeWrite x.1 db else Some db) (Some db) l.
End tables.

(** ** The queue and its thread *)

Section queue.
Context {R : Type}.

(** Where the thread stands: before its first connection; at the top of the loop;
    with a request taken out; with the queue found empty; draining, and with a
    request to drain; finished. *)
Inductive PC := Start | Top | Has (r : R) | Empty | Drain | DrainHas (r : R) | Done.

(** class PGWriteBehind -- src/src/PGWriteBehind.h:24-57
    With the variables of [run]: [conn] tells whether there is a connection,
    [backoff] is in milliseconds.  [submitted], [handled] (with the success of the
    write) and [requeued] record what happened. *)
Record t := mkPG {
  queue : list R; conn : bool; backoff : Z; down : bool; totalEnqueued : Z; totalWritten : Z; totalErrors : Z; pc : PC;
  submitted : list R; handled : list (R * bool); requeued : nat }.

(** PGWriteBehind::PGWriteBehind -- src/src/PGWriteBehind.cpp:145-148 *)
Definition create : t := mkPG [] false 1000 false 0 0 0 Start [] [] 0.

Definition goto (c : PC) (s : t) : t :=
  mkPG (queue s) (conn s) (backoff s) (down s) (totalEnqueued s) (totalWritten s) (totalErrors s) c
    (submitted s) (handled s) (requeued s).

(** PGWriteBehind::enqueue -- src/src/PGWriteBehind.cpp:155-159
    The push and the increment of the counter, which only its accessor reads, in
    one step. *)
Definition enqueue (r : R) (s : t) : t :=
  mkPG (queue s ++ [r]) (conn s) (backoff s) (down s) (wrap64 (totalEnqueued s + 1)) (totalWritten s) (totalErrors s) (pc s)
    (submitted s ++ [r]) (handled s) (requeued s).

(** PGWriteBehind::shutdown -- src/src/PGWriteBehind.cpp:161-172
    The thread that calls it then waits for the end of [run]. *)
Definition shutdown (s : t) : t :=
  mkPG (queue s) (conn s) (backoff s) true (totalEnqueued s) (totalWritten s) (totalErrors s) (pc s)
    (submitted s) (handled s) (requeued s).

(** tryConnect in PGWriteBehind::run -- src/src/PGWriteBehind.cpp:182-198
    [ok]: the connection is made and the statements are prepared. *)
Definition tryConnect (ok : bool) (s : t) : t :=
  mkPG (queue s) ok (if ok then 1000 else backoff s) (down s) (totalEnqueued s) (totalWritten s) (totalErrors s) (pc s)
    (submitted s) (handled s) (requeued s).

(** [queue_.try_pop(req)], into the place [c]. *)
Definition pop (c : R → PC) (e : PC) (s : t) : t :=
  match queue s with
  | [] => goto e s
  | r :: q => mkPG q (conn s) (backoff s) (down s) (totalEnqueued s) (totalWritten s) (totalErrors s) (c r)
                (submitted s) (handled s) (requeued s)
  end.

(** the requeueing in PGWriteBehind::run -- src/src/PGWriteBehind.cpp:209-213
    [queue_.push(std::move(req))], and the longer interval. *)
Definition put_back (r : R) (s : t) : t :=
  mkPG (queue s ++ [r]) (conn s) (Z.min (backoff s * 2) 30000) (down s) (totalEnqueued s) (totalWritten s) (totalErrors s) Top
    (submitted s) (handled s) (S (requeued s)).

(** A request written or given up, and the place [c] to go on. *)
Definition finish (r : R) (ok : bool) (c : PC) (s : t) : t :=
  mkPG (queue s) (conn s) (backoff s) (down s) (totalEnqueued s)
    (if ok then wrap64 (totalWritten s + 1) else totalWritten s)
    (if ok then totalErrors s else wrap64 (totalErrors s + 1)) c
    (submitted s) (handled s ++ [(r, ok)]) (requeued s).

(** What the database does with a write. *)
Inductive Answer := Written | Broken | Refused.

(** PGWriteBehind::run, one step -- src/src/PGWriteBehind.cpp:174-281
    [ok] answers an attempt to connect, [ans] a write. *)
Definition run_step (ok : bool) (ans : Answer) (s : t) : option t :=
  match pc s with
  | Start => Some (goto Top (tryConnect ok s))
  | Top => Some (pop Has Empty s)
  | Has r =>
      if conn s then
        Some (match ans with
              | Written => finish r true Top s
              | Broken => put_back r (mkPG (queue s) false (backoff s) (down s) (totalEnqueued s) (totalWritten s) (totalErrors s) (pc s)
                                        (submitted s) (handled s) (requeued s))
              | Refused => finish r false Top s
              end)
      else Some (if ok then tryConnect true s else put_back r (tryConnect false s))
  | Empty => Some (goto (if down s then Drain else Top) s)
  | Drain => Some (pop DrainHas Done s)
  | DrainHas r =>
      if conn s then Some (finish r (match ans with Written => true | _ => false end) Drain s)
      else Some (if ok then tryConnect true s else goto Done (tryConnect false s))
  | Done => None
  end.

(** A step of the thread, or of another one. *)
Inductive step : t → t → Prop :=
  | s_run ok ans s s' : run_step ok ans s = Some s' → step s s'
  | s_enqueue r s : step s (enqueue r s)
  | s_shutdown s : step s (shutdown s).

Definition reachable (s : t) : Prop := rtc step create s.
End queue.
Arguments t : clear implicits.
Arguments PC : clear implicits.

(** ** What happens to the requests *)

Section theory.
Context {R : Type}.
Implicit Types (s : t R) (r : R).

(** The request the thread has taken out. *)
Definition held (c : PC R) : list R := match c with Has r | DrainHas r => [r] | _ => [] end.

Definition count (ok : bool) (l : list (R * bool)) : Z := Z.of_nat (length (filter (λ x, x.2 = ok) l)).

(** Requests by fate; [lost] is the one the final drain drops. *)
Definition all_requests (lost : list R) s : list R := (handled s).*1 ++ held (pc s) ++ lost ++ queue s.

Record Inv (lost : list R) s : Prop := {
  i_all : submitted s ≡ₚ all_requests lost s;
  i_order : requeued s = O → submitted s = all_requests lost s;
  i_lost : lost ≠ [] → pc s = Done ∧ conn s = false;
  i_one : (length lost <= 1)%nat;
  i_enqueued : totalEnqueued s = wrap64 (Z.of_nat (length (submitted s)));
  i_written : totalWritten s = wrap64 (count true (handled s));
  i_errors : totalErrors s = wrap64 (count false (handled s)) }.

Lemma wrap64_succ x : wrap64 (wrap64 x + 1) = wrap64 (x + 1).
Proof. unfold wrap64. apply Zplus_mod_idemp_l. Qed.

Lemma count_snoc ok l r b : count ok (l ++ [(r, b)]) = count ok l + if bool_decide (b = ok) then 1 else 0.
Proof.
  unfold count. rewrite filter_app, length_app, filter_cons, filter_nil. cbn [snd]. destruct b, ok; simpl; lia.
Qed.

(** A step that changes neither the requests nor the counters. *)
Lemma inv_same lost s s' : Inv lost s → lost = [] → submitted s' = submitted s → handled s' = handled s →
  held (pc s') ++ queue s' = held (pc s) ++ queue s → requeued s' = requeued s → totalEnqueued s' = totalEnqueued s →
  totalWritten s' = totalWritten s → totalErrors s' = totalErrors s → Inv [] s'.
Proof.
  intros [] -> E1 E2 E3 E4 E5 E6 E7.
  assert (all_requests [] s' = all_requests [] s) as E by (unfold all_requests; rewrite E2; cbn [app]; by rewrite E3).
  split; rewrite ?E, ?E1, ?E2, ?E4, ?E5, ?E6, ?E7; done.
Qed.

Lemma inv_finish s r c ok : Inv [] s → held (pc s) = [r] → held c = [] → Inv [] (finish r ok c s).
Proof.
  intros [] Hh Hc. unfold all_requests in *. rewrite Hh in *. cbn [app] in *.
  split; unfold all_requests; cbn [submitted handled requeued pc queue finish totalEnqueued totalWritten totalErrors]; try done.
  - rewrite fmap_app, Hc. cbn [fmap list_fmap app fst]. by rewrite <- (assoc_L (++)).
  - intros Hr. rewrite fmap_app, Hc. cbn [fmap list_fmap app fst]. rewrite <- (assoc_L (++)). by apply i_order0.
  - rewrite count_snoc. destruct ok; [rewrite bool_decide_eq_true_2 by done; by rewrite i_written0, wrap64_succ|].
    rewrite bool_decide_eq_false_2 by done. by rewrite Z.add_0_r.
  - rewrite count_snoc. destruct ok; [|rewrite bool_decide_eq_true_2 by done; by rewrite i_errors0, wrap64_succ].
    rewrite bool_decide_eq_false_2 by done. by rewrite Z.add_0_r.
Qed.

Lemma inv_put_back s r : Inv [] s → held (pc s) = [r] → Inv [] (put_back r s).
Proof.
  intros [] Hh. unfold all_requests in *. rewrite Hh in *. cbn [app] in *.
  split; unfold all_requests; cbn [submitted handled requeued pc queue put_back totalEnqueued totalWritten totalErrors held app]; try done.
  rewrite i_all0. f_equiv. by rewrite Permutation_cons_append.
Qed.

Lemma inv_pop s c e : Inv [] s → held (pc s) = [] → held e = [] → (∀ r, held (c r) = [r]) → Inv [] (pop c e s).
Proof.
  intros Hi Hh He Hc. unfold pop. destruct (queue s) as [|r q] eqn:Eq.
  - eapply inv_same; [done|done|done|done| |done|done|done|done]. cbn [pc queue goto]. by rewrite Hh, He, Eq.
  - eapply inv_same; [done|done|done|done| |done|done|done|done]. cbn [pc queue]. by rewrite Hh, Hc, Eq.
Qed.

Ltac same_requests Hi Epc :=
  eapply inv_same; [exact Hi|reflexivity|reflexivity|reflexivity| |reflexivity..]; cbn; rewrite ?Epc; try reflexivity.

Lemma run_step_inv ok ans s s' : Inv [] s → run_step ok ans s = Some s' → ∃ lost, Inv lost s'.
Proof.
  intros Hi E. unfold run_step in E. destruct (pc s) as [| |r| | |r|] eqn:Epc; try (injection E as <-).
  - exists []. same_requests Hi Epc.
  - exists []. apply inv_pop; by rewrite ?Epc.
  - exists []. destruct (conn s); [|injection E as <-; destruct ok].
    + injection E as <-. destruct ans; [by apply inv_finish; rewrite ?Epc| |by apply inv_finish; rewrite ?Epc].
      apply inv_put_back; [|cbn; by rewrite ?Epc]. same_requests Hi Epc.
    + same_requests Hi Epc.
    + apply inv_put_back; [|cbn; by rewrite ?Epc]. same_requests Hi Epc.
  - exists []. same_requests Hi Epc. by destruct (down s).
  - exists []. apply inv_pop; by rewrite ?Epc.
  - destruct (conn s); [|injection E as <-; destruct ok].
    + injection E as <-. exists []. by apply inv_finish; rewrite ?Epc.
    + exists []. same_requests Hi Epc.
    + exists [r]. destruct Hi. unfold all_requests in *. rewrite Epc in *. split; simpl; done || lia.
  - done.
Qed.

Lemma inv_enqueue lost s r : Inv lost s → Inv lost (enqueue r s).
Proof.
  intros []. unfold all_requests in *.
  split; unfold all_requests; cbn [submitted handled requeued pc queue enqueue totalEnqueued totalWritten totalErrors]; try done.
  - rewrite i_all0. by rewrite !(assoc_L (++)).
  - intros Hr. rewrite (i_order0 Hr). by rewrite !(assoc_L (++)).
  - rewrite i_enqueued0, wrap64_succ, length_app. simpl. f_equal. lia.
Qed.

Lemma pg_step_inv s s' lost : step s s' → Inv lost s → ∃ lost', Inv lost' s'.
Proof.
  intros [ok ans s1 s2 E|r s1|s1] Hi.
  - destruct lost as [|x l]; [by eapply run_step_inv|]. destruct (i_lost _ _ Hi) as [Hd _]; [done|].
    unfold run_step in E. by rewrite Hd in E.
  - exists lost. by apply inv_enqueue.
  - exists lost. by destruct Hi.
Qed.

Lemma reachable_requests s : reachable s → ∃ lost, Inv lost s.
Proof.
  intros Hs. unfold reachable in Hs. remember create as s0. assert (∃ lost, Inv lost s0) as Hi.
  { exists []. subst. split; simpl; done || lia. }
  clear Heqs0. induction Hs as [|s1 s2 s3 H12 _ IH]; [done|]. apply IH. destruct Hi as [lost Hi]. by eapply pg_step_inv.
Qed.

(** C26: The export keeps account of every request, whatever the database does and
    however producers and the writing thread interleave: each is written once,
    counted once as an error, taken out by the thread or still in the queue, except
    that the drain at the end drops one if it cannot connect; the counters are the
    numbers of these modulo 2^64.  As long as nothing had to be put back the
    requests are handled in the order they were submitted. *)
Theorem pg_accounting s : reachable s → ∃ lost,
  submitted s ≡ₚ (handled s).*1 ++ held (pc s) ++ lost ++ queue s ∧
  (requeued s = O → submitted s = (handled s).*1 ++ held (pc s) ++ lost ++ queue s) ∧
  (length lost <= 1)%nat ∧ (lost ≠ [] → pc s = Done ∧ conn s = false) ∧
  totalEnqueued s = wrap64 (Z.of_nat (length (submitted s))) ∧
  totalWritten s = wrap64 (count true (handled s)) ∧ totalErrors s = wrap64 (count false (handled s)).
Proof. intros Hs. destruct (reachable_requests s Hs) as [lost []]. by exists lost. Qed.

(** ** The end of the thread *)

(** A step of the thread when the database accepts everything. *)
Definition answered s s' : Prop := run_step true Written s = Some s'.

(** A request that has been taken out is written in at most two steps. *)
Lemma request_written r (c c' : PC R) s : pc s = c → (c = Has r ∧ c' = Top ∨ c = DrainHas r ∧ c' = Drain) →
  ∃ n s', (n <= 2)%nat ∧ nsteps answered n s s' ∧ pc s' = c' ∧ queue s' = queue s ∧ down s' = down s ∧
          handled s' = handled s ++ [(r, true)].
Proof.
  intros Ec Hc. destruct (conn s) eqn:Ecn.
  - exists 1%nat, (finish r true c' s). split; [lia|]. split; [|done]. apply nsteps_once. unfold answered, run_step.
    rewrite Ec, Ecn. by destruct Hc as [[-> ->]|[-> ->]].
  - exists 2%nat, (finish r true c' (tryConnect true s)). split; [lia|]. split; [|done].
    apply nsteps_l with (tryConnect true s); [|apply nsteps_once]; unfold answered, run_step; cbn [pc conn tryConnect];
      rewrite ?Ec, ?Ecn; by destruct Hc as [[-> ->]|[-> ->]].
Qed.

Lemma pop_step (c : R → PC R) (e : PC R) s : (pc s = Top ∧ c = Has ∧ e = Empty ∨ pc s = Drain ∧ c = DrainHas ∧ e = Done) → answered s (pop c e s).
Proof. unfold answered, run_step. by intros [(-> & -> & ->)|(-> & -> & ->)]. Qed.

(** Both loops write the queue out in its order. *)
Lemma loop_written (c : R → PC R) (c' e : PC R) q : ∀ s, (c' = Top ∧ c = Has ∧ e = Empty ∨ c' = Drain ∧ c = DrainHas ∧ e = Done) →
  pc s = c' → queue s = q →
  ∃ n s', (n <= 3 * length q + 1)%nat ∧ nsteps answered n s s' ∧ pc s' = e ∧ queue s' = [] ∧ down s' = down s ∧
          handled s' = handled s ++ ((., true) <$> q).
Proof.
  induction q as [|r q IH]; intros s Hc Epc Eq.
  - exists 1%nat, (pop c e s). split; [simpl; lia|]. split; [apply nsteps_once, pop_step; rewrite Epc; naive_solver|].
    unfold pop. rewrite Eq. cbn. by rewrite app_nil_r.
  - set (s1 := pop c e s). assert (pc s1 = c r ∧ queue s1 = q ∧ down s1 = down s ∧ handled s1 = handled s) as (E1 & E2 & E3 & E4).
    { unfold s1, pop. by rewrite Eq. }
    destruct (request_written r (c r) c' s1 E1) as (n1 & s2 & Hn1 & H12 & Ep2 & Eq2 & Ed2 & Eh2);
      [destruct Hc as [(-> & -> & _)|(-> & -> & _)]; auto|].
    destruct (IH s2 Hc Ep2) as (n2 & s3 & Hn2 & H23 & Ep3 & Eq3 & Ed3 & Eh3); [by rewrite Eq2|].
    exists (S n1 + n2)%nat, s3. split; [cbn [length]; lia|]. split.
    { apply nsteps_trans with s2; [|done]. apply nsteps_l with s1; [|done]. apply pop_step. rewrite Epc. naive_solver. }
    split; [done|]. split; [done|]. split; [by rewrite Ed3, Ed2|].
    rewrite Eh3, Eh2, E4, fmap_cons. by rewrite <- (assoc_L (++)).
Qed.

(** The thread ends within [k] steps, having handled [h]. *)
Definition ends (k : nat) s (h : list (R * bool)) : Prop :=
  ∃ n s', (n <= k)%nat ∧ nsteps answered n s s' ∧ pc s' = Done ∧ queue s' = [] ∧ handled s' = h.

Lemma ends_after n k s s1 h : nsteps answered n s s1 → ends k s1 h → ends (n + k) s h.
Proof. intros H1 (m & s' & Hm & H2 & H3). exists (n + m)%nat, s'. split; [lia|]. split; [by eapply nsteps_trans|done]. Qed.

Lemma ends_weaken k k' s h : ends k s h → (k <= k')%nat → ends k' s h.
Proof. intros (n & s' & Hn & H) Hk. exists n, s'. split; [lia|done]. Qed.

Definition all_written s (q : list R) : list (R * bool) := handled s ++ ((., true) <$> q).

Lemma all_written_snoc s s1 r q : handled s1 = handled s ++ [(r, true)] → all_written s1 q = all_written s (r :: q).
Proof. intros E. unfold all_written. rewrite E, fmap_cons. by rewrite <- (assoc_L (++)). Qed.

Lemma ends_drain s : pc s = Drain → ends (3 * length (queue s) + 1) s (all_written s (queue s)).
Proof.
  intros Ep. destruct (loop_written DrainHas Drain Done (queue s) s) as (n & s' & Hn & H & Ed & Eq & _ & Eh); [by right|done..|].
  by exists n, s'.
Qed.

Lemma ends_empty s : pc s = Empty → down s = true → ends (3 * length (queue s) + 2) s (all_written s (queue s)).
Proof.
  intros Ep Hd. eapply ends_weaken; [eapply (ends_after 1 _ _ (goto Drain s)); [|exact (ends_drain (goto Drain s) eq_refl)]|cbn; lia].
  apply nsteps_once. unfold answered, run_step. by rewrite Ep, Hd.
Qed.

Lemma ends_top s : pc s = Top → down s = true → ends (3 * length (queue s) + 3) s (all_written s (queue s)).
Proof.
  intros Ep Hd. destruct (loop_written Has Top Empty (queue s) s) as (n & s1 & Hn & H & Ep1 & Eq1 & Ed1 & Eh1); [by left|done..|].
  pose proof (ends_empty s1 Ep1) as He. rewrite Eq1 in He. unfold all_written in *. rewrite Eh1, app_nil_r in He.
  eapply ends_weaken; [eapply ends_after, He; [exact H|by rewrite Ed1]|simpl; lia].
Qed.

(** C32: After [shutdown], a thread whose database accepts connections and writes ends
    within three steps per request and a constant: it has then written, in their order,
    the request it held and every request of the queue, and dropped none. *)
Theorem pg_flushes s : down s = true → pc s ≠ Done →
  ∃ n s', (n <= 3 * length (queue s) + 5)%nat ∧ nsteps answered n s s' ∧ pc s' = Done ∧ queue s' = [] ∧
          handled s' = handled s ++ ((., true) <$> held (pc s) ++ queue s).
Proof.
  intros Hd Hp. change (ends (3 * length (queue s) + 5) s (all_written s (held (pc s) ++ queue s))).
  destruct (pc s) as [| |r| | |r|] eqn:Ep; cbn [held app].
  - eapply ends_weaken; [eapply (ends_after 1 _ _ (goto Top (tryConnect true s))); [|exact (ends_top (goto Top (tryConnect true s)) eq_refl Hd)]|cbn; lia].
    apply nsteps_once. unfold answered, run_step. by rewrite Ep.
  - eapply ends_weaken; [by apply ends_top|lia].
  - destruct (request_written r _ Top s Ep) as (n & s1 & Hn & H & Ep1 & Eq1 & Ed1 & Eh1); [auto|].
    rewrite <- (all_written_snoc s s1), <- Eq1 by done.
    eapply ends_weaken; [eapply ends_after, ends_top; [exact H|done|by rewrite Ed1]|lia].
  - eapply ends_weaken; [by apply ends_empty|lia].
  - eapply ends_weaken; [by apply ends_drain|lia].
  - destruct (request_written r _ Drain s Ep) as (n & s1 & Hn & H & Ep1 & Eq1 & Ed1 & Eh1); [auto|].
    rewrite <- (all_written_snoc s s1), <- Eq1 by done.
    eapply ends_weaken; [eapply ends_after, ends_drain; [exact H|done]|lia].
  - done.
Qed.

(** A step while no connection can be made. *)
Inductive unreachable_step : t R → t R → Prop :=
  | u_run ans s s' : run_step false ans s = Some s' → unreachable_step s s'
  | u_enqueue r s : unreachable_step s (enqueue r s)
  | u_shutdown s : unreachable_step s (shutdown s).

(** The thread is stuck in its first loop with something to write. *)
Definition waiting s : Prop :=
  conn s = false ∧ match pc s with Has _ => True | Start | Top => queue s ≠ [] | _ => False end.

Lemma waiting_step s s' : unreachable_step s s' → waiting s → waiting s' ∧ handled s' = handled s.
Proof.
  intros [ans s1 s2 E|r s1|s1] [Hc Hw]; unfold waiting.
  - unfold run_step in E. rewrite Hc in E. destruct (pc s1) eqn:Ep; try done; injection E as <-; [done| |].
    + unfold pop. by destruct (queue s1) eqn:Eq.
    + cbn. split; [|done]. split; [done|]. by destruct (queue s1).
  - cbn. split; [|done]. split; [done|]. destruct (pc s1); try done; by destruct (queue s1).
  - done.
Qed.

(** A thread without a connection that has something to write never ends while the
    database cannot be reached, even after [shutdown], which waits for its end: the
    first loop is left only when the queue is empty, and each request it takes out is
    put back.  Nothing is handled either. *)
Theorem pg_shutdown_hangs s s' : conn s = false → (∃ r, pc s = Has r) ∨ (pc s = Top ∧ queue s ≠ []) →
  rtc unreachable_step s s' → pc s' ≠ Done ∧ handled s' = handled s.
Proof.
  intros Hc Hp Hs. assert (waiting s) as Hw by (unfold waiting; by destruct Hp as [[r ->]|[-> Hq]]). clear Hc Hp.
  revert Hw. induction Hs as [s|s s1 s' H1 _ IH]; intros Hw.
  - split; [|done]. destruct Hw as [_ Hw]. by destruct (pc s).
  - destruct (waiting_step s s1 H1 Hw) as [Hw1 E1]. destruct (IH Hw1) as [Hd E]. by rewrite E, E1.
Qed.
End theory.

(** ** What the archive holds *)

Section archive.
Context `{Postgres}.
Implicit Types (r : PGWriteRequest) (w : OrderWrite) (k : Z * Z) (db : Tables).

(** The orders of a list of requests that go to the row [k]. *)
Definition to_row k r : option OrderWrite :=
  match r with WOrder w => if bool_decide (row_key w = Some k) then Some w else None | _ => None end.

(** The row holds the state of the order that [w] brings. *)
Definition shows w (row : OrderRow) : Prop :=
  or_status row = ow_status w ∧ or_leaves_qty row = to_signed 32 (ow_leavesQty w) ∧
  or_cum_qty row = to_signed 32 (ow_cumQty w) ∧ or_avg_px row = ow_avgPx w ∧
  or_cl_order_id row = ow_clOrderId w ∧ or_orig_cl_order_id row = ow_origClOrderId w.

Lemma archive_snoc l r db : archive (l ++ [(r, true)]) db = archive l db ≫= executeWrite r.
Proof. unfold archive. by rewrite foldl_app. Qed.

Lemma write_other r k db db' : executeWrite r db = Some db' → to_row k r = None → orders db' !! k = orders db !! k.
Proof.
  unfold executeWrite. destruct (fits r), r as [w|w|w|w]; try done; cbn [to_row]; intros E Hk; try by injection E as <-.
  unfold executeWrite_Order in E. case_bool_decide as Hne; [done|].
  destruct (row_key w) as [k'|] eqn:Ek; [|done]. cbn in E. destruct (row_settl w); [|done]. injection E as <-. cbn.
  by rewrite lookup_insert_ne by congruence.
Qed.

Lemma write_shows w k db db' : executeWrite (WOrder w) db = Some db' → row_key w = Some k →
  ∃ row, orders db' !! k = Some row ∧ shows w row.
Proof.
  unfold executeWrite, executeWrite_Order. destruct (fits _); [|done]. intros E Ek. rewrite Ek in E. cbn in E.
  destruct (row_settl w) as [settl|]; [|done]. injection E as <-. cbn. rewrite lookup_insert_eq. eexists. split; [done|].
  by destruct (orders db !! k).
Qed.

(** The row of an order shows its last write. *)
Lemma archived_last l k w : ∀ db db', archive ((., true) <$> l) db = Some db' → last (omap (to_row k) l) = Some w →
  ∃ row, orders db' !! k = Some row ∧ shows w row.
Proof.
  induction l as [|r l IH] using rev_ind; intros db db' E Hl; [done|].
  rewrite fmap_app in E. change ((., true) <$> [r]) with [(r, true)] in E. rewrite archive_snoc in E.
  destruct (archive _ db) as [db1|] eqn:E1; [|done]. cbn in E.
  rewrite omap_app in Hl. cbn [omap list_omap] in Hl. destruct (to_row k r) as [w'|] eqn:Er.
  - rewrite last_snoc in Hl. injection Hl as ->. destruct r as [| | |w'']; try done. cbn [to_row] in Er.
    case_bool_decide; [|done]. injection Er as ->. by eapply write_shows.
  - rewrite app_nil_r in Hl. rewrite (write_other r k db1 db') by done. by eapply IH.
Qed.

Lemma handled_all_written (l : list (PGWriteRequest * bool)) : Forall (λ x, x.2 = true) l → l = (., true) <$> l.*1.
Proof. induction 1 as [|[r b] l Hb _ IH]; [done|]. rewrite !fmap_cons, <- IH. simpl in *. by rewrite Hb. Qed.

(** When the thread has written every request without an error and nothing had to be
    put back, the archived row of each order shows the last state submitted for it. *)
Theorem pg_archive_current (s : t PGWriteRequest) db db' k w : reachable s → pc s ≠ Done → requeued s = O →
  held (pc s) = [] → queue s = [] → Forall (λ x, x.2 = true) (handled s) →
  archive (handled s) db = Some db' → last (omap (to_row k) (submitted s)) = Some w →
  ∃ row, orders db' !! k = Some row ∧ shows w row.
Proof.
  intros Hs Hp Hr Hh Hq Hw E Hl. destruct (reachable_requests s Hs) as [lost []].
  assert (lost = []) as -> by (destruct lost; [done|]; by destruct i_lost0).
  rewrite (i_order0 Hr) in Hl. unfold all_requests in Hl. rewrite Hh, Hq, !app_nil_r in Hl.
  rewrite (handled_all_written _ Hw) in E. by eapply archived_last.
Qed.

(** The steps of the thread for the given answers of the database. *)
Fixpoint replay (l : list (bool * Answer)) (s : t PGWriteRequest) : option (t PGWriteRequest) :=
  match l with [] => Some s | (ok, ans) :: l => run_step ok ans s ≫= replay l end.

Lemma replay_reachable l : ∀ s s', reachable s → replay l s = Some s' → reachable s'.
Proof.
  induction l as [|[ok ans] l IH]; cbn [replay]; intros s s' Hs E; [by injection E as <-|].
  apply bind_Some in E as (s1 & E1 & E). apply (IH s1); [|done]. eapply rtc_r; [exact Hs|]. by eapply s_run.
Qed.

(** The thread connects, takes the first request, loses the connection while writing it,
    takes the second one, reconnects, and writes both. *)
Definition broken_once : list (bool * Answer) :=
  [(true, Written); (true, Written); (true, Broken)] ++ replicate 5 (true, Written).

(** One lost connection is enough to leave the archive wrong for good: the request
    being written goes to the end of the queue, behind a later state of the same order,
    and everything is written, without an error, in the wrong order. *)
Theorem pg_archive_stale w1 w2 k : row_key w1 = Some k → row_key w2 = Some k →
  ∃ s, reachable s ∧ submitted s = [WOrder w1; WOrder w2] ∧ handled s = [(WOrder w2, true); (WOrder w1, true)] ∧
       queue s = [] ∧ totalErrors s = 0 ∧
       ∀ db db', archive (handled s) db = Some db' → ∃ row, orders db' !! k = Some row ∧ shows w1 row.
Proof.
  intros E1 E2.
  assert (reachable (enqueue (WOrder w2) (enqueue (WOrder w1) create))) as H0 by (eapply rtc_l, rtc_once; apply s_enqueue).
  exists {| queue := []; conn := true; backoff := 1000; down := false; totalEnqueued := 2; totalWritten := 2; totalErrors := 0;
            pc := Top; submitted := [WOrder w1; WOrder w2]; handled := [(WOrder w2, true); (WOrder w1, true)]; requeued := 1 |}.
  split; [apply (replay_reachable broken_once _ _ H0); vm_compute; reflexivity|]. do 4 (split; [reflexivity|]).
  intros db db' E. apply (archived_last [WOrder w2; WOrder w1] k w1 db db' E). cbn. by rewrite E1, E2, !bool_decide_eq_true_2.
Qed.
End archive.

(** ** Runs *)

Section examples.

#[local] Instance ex_pg : Postgres := {| to_date := Some; fits := λ _, true |}.

Definition pg_order (st : string) (cum : Z) : OrderWrite :=
  {| ow_orderId := 7; ow_orderDate := 20260105; ow_clOrderId := []; ow_origClOrderId := []; ow_source := "WebSocket"%string;
     ow_destination := "Internal"%string; ow_instrumentSymbol := "AAPL"%string; ow_accountName := "CLIENT-A"%string;
     ow_clearingFirm := "CLR"%string; ow_side := "BUY"%string; ow_ordType := "LIMIT"%string; ow_status := st; ow_tif := "DAY"%string;
     ow_capacity := "AGENCY"%string; ow_currency := "USD"%string; ow_settlType := EmptyString;
     ow_price := 10; ow_stopPx := 0; ow_avgPx := 0; ow_dayAvgPx := 0; ow_minQty := 0; ow_orderQty := 100;
     ow_leavesQty := 100 - cum; ow_cumQty := cum; ow_dayOrderQty := 0; ow_dayCumQty := 0; ow_expireTime := 0; ow_settlDate := 0 |}.

Definition empty_db : Tables := mkTables ∅ ∅ ∅ ∅.
Definition two_orders : t PGWriteRequest := enqueue (WOrder (pg_order "FILLED"%string 100)) (enqueue (WOrder (pg_order "NEW"%string 0)) create).

Lemma two_orders_reachable : reachable two_orders.
Proof. eapply rtc_l, rtc_once; apply s_enqueue. Qed.

(** Two orders are submitted; the thread connects and writes both. *)
Definition both_written : t PGWriteRequest := default create (replay (replicate 5 (true, Written)) two_orders).

Lemma pg_accounting_witness : totalWritten both_written = 2 ∧ ∃ lost, submitted both_written ≡ₚ
  (handled both_written).*1 ++ held (pc both_written) ++ lost ++ queue both_written.
Proof.
  split; [vm_compute; reflexivity|].
  destruct (pg_accounting both_written) as (lost & Hp & _); [|by exists lost].
  apply (replay_reachable (replicate 5 (true, Written)) two_orders); [exact two_orders_reachable|vm_compute; reflexivity].
Defined.

Lemma pg_flushes_witness : ∃ n s', (n <= 11)%nat ∧ nsteps answered n (shutdown two_orders) s' ∧ pc s' = Done ∧ queue s' = [] ∧
  handled s' = [(WOrder (pg_order "NEW"%string 0), true); (WOrder (pg_order "FILLED"%string 100), true)].
Proof. exact (pg_flushes (shutdown two_orders) eq_refl ltac:(discriminate)). Defined.

Lemma pg_shutdown_hangs_witness : conn (goto Top (shutdown two_orders)) = false ∧
  (pc (put_back (WOrder (pg_order "NEW"%string 0)) (pop Has Empty (goto Top (shutdown two_orders)))) ≠ Done ∧
   handled (put_back (WOrder (pg_order "NEW"%string 0)) (pop Has Empty (goto Top (shutdown two_orders)))) = []).
Proof.
  split; [reflexivity|]. apply (pg_shutdown_hangs (goto Top (shutdown two_orders))); [reflexivity|right; split; [reflexivity|discriminate]|].
  eapply rtc_l; [by apply (u_run Written)|]. apply rtc_once. by apply (u_run Written).
Defined.

Lemma pg_archive_current_witness : ∃ db' row, archive (handled both_written) empty_db = Some db' ∧
  orders db' !! (7, 20260105) = Some row ∧ or_status row = "FILLED"%string ∧ or_cum_qty row = 100.
Proof.
  destruct (archive (handled both_written) empty_db) as [db'|] eqn:E; [|vm_compute in E; discriminate].
  destruct (pg_archive_current both_written empty_db db' (7, 20260105) (pg_order "FILLED"%string 100)) as (row & Hr & Hs).
  - apply (replay_reachable (replicate 5 (true, Written)) two_orders); [exact two_orders_reachable|vm_compute; reflexivity].
  - vm_compute. discriminate.
  - vm_compute. reflexivity.
  - vm_compute. reflexivity.
  - vm_compute. reflexivity.
  - vm_compute. by repeat constructor.
  - exact E.
  - vm_compute. reflexivity.
  - exists db', row. destruct Hs as (E1 & _ & E3 & _). by split_and!.
Defined.

Lemma pg_archive_stale_witness : ∃ s, reachable s ∧ totalErrors s = 0 ∧ ∃ db' row, archive (handled s) empty_db = Some db' ∧
  orders db' !! (7, 20260105) = Some row ∧ or_status row = "NEW"%string ∧ or_cum_qty row = 0.
Proof.
  destruct (pg_archive_stale (pg_order "NEW"%string 0) (pg_order "FILLED"%string 100) (7, 20260105)) as (s & Hs & _ & Eh & _ & Ee & Ha);
    [vm_compute; reflexivity..|].
  exists s. split; [exact Hs|]. split; [exact Ee|].
  destruct (archive (handled s) empty_db) as [db'|] eqn:E; [|rewrite Eh in E; vm_compute in E; discriminate].
  destruct (Ha empty_db db' E) as (row & Hr & E1 & _ & E3 & _). exists db', row. by split_and!.
Defined.
End examples.
End PGWriteBehind.
