(* ===== verification/WsJson.v ===== *)
(** The JSON messages of the WebSocket server, [src/app/JsonSerializer.cpp].  The JSON
    library is the class [JsonLib]; the values the server builds are [JVal]. *)

From Stdlib Require Import Ascii String ZArith Lia.
From S2P Require Import Prelude Types WideData OrderStore OrderBook EnumStr.
Import EnumStrings.
#[local] Open Scope string_scope.
#[local] Open Scope Z_scope.

Module JsonSerializer.

(** ** The JSON library *)

(** The values the server assembles; an object is the list of its members, a number
    with a fraction the bit pattern of the [double]. *)
Inductive JVal :=
  | JStr (s : string) | JInt (n : Z) | JDouble (p : PriceT) | JArr (l : list JVal) | JObj (l : list (string * JVal)).

(** What the server calls of [nlohmann::json].  [None] is a [json::exception]: the text
    is no JSON; a value is asked of something that is no object, or has another type. *)
Class JsonLib := {
  json : Type;
  parse : string → option json;
  field : json → string → option json;
  value_str : json → string → string → option string;
  value_double : json → string → PriceT → option PriceT;
  value_u32 : json → string → Z → option Z;
  value_u64 : json → string → Z → option Z;
  contains : json → string → bool;
  dump : JVal → outcome string }.

Section json.
Context `{JsonLib} {SO SD : Type}.
Implicit Types (w : WideData.t SD) (s : OrderStore.t SO).

(** ** Messages to the clients *)

(** the client order identifiers in orderToJson -- src/app/JsonSerializer.cpp:20-28 *)
Definition raw_json (i : IdT) w : outcome JVal :=
  obind (WideData.getRawData i w) (λ r,
    Ok (JStr (if 0 <? rd_length r then string_of_list_ascii (rd_data r) else EmptyString))).

(** orderToJson -- src/app/JsonSerializer.cpp:13-61
    Each [get] of a reference throws when the store has no such entry. *)
Definition orderToJson (o : OrderEntry) w : outcome JVal :=
  obind (raw_json (o_clOrderId o) w) (λ clOrd,
  obind (raw_json (o_origClOrderId o) w) (λ origClOrd,
  obind (WideData.getInstrument (o_instrument o) w) (λ ins,
  obind (WideData.getAccount (o_account o) w) (λ acc,
  obind (WideData.getString (o_destination o) w) (λ dest,
  obind (WideData.getString (o_source o) w) (λ src,
  Ok (JObj [
    ("orderId", JInt (id_ (o_orderId o))); ("origOrderId", JInt (id_ (o_origOrderId o)));
    ("clOrderId", clOrd); ("origClOrderId", origClOrd); ("symbol", JStr (in_symbol ins));
    ("side", JStr (toJson_Side (o_side o))); ("ordType", JStr (toJson_OrderType (o_ordType o)));
    ("price", JDouble (o_price o)); ("stopPx", JDouble (o_stopPx o)); ("avgPx", JDouble (o_avgPx o));
    ("orderQty", JInt (o_orderQty o)); ("cumQty", JInt (o_cumQty o)); ("leavesQty", JInt (o_leavesQty o));
    ("minQty", JInt (o_minQty o)); ("status", JStr (toJson_OrderStatus (o_status o)));
    ("tif", JStr (toJson_TimeInForce (o_tif o))); ("capacity", JStr (toJson_Capacity (o_capacity o)));
    ("currency", JStr (toJson_Currency (o_currency o))); ("account", JStr (ac_account acc));
    ("destination", JStr dest); ("source", JStr src); ("creationTime", JInt (o_creationTime o));
    ("lastUpdateTime", JInt (o_lastUpdateTime o)); ("expireTime", JInt (o_expireTime o))]))))))).

(** the members of a kind of report in execToJson -- src/app/JsonSerializer.cpp:73-107
    The object is cast to the class its [type_] names: a different class is undefined
    behaviour. *)
Definition exec_members (e : ExecutionEntry) : outcome (list (string * JVal)) :=
  match ex_type e, ex_body e with
  | TRADE_EXECTYPE, XTrade t =>
      Ok [("lastQty", JInt (tp_lastQty t)); ("lastPx", JDouble (tp_lastPx t));
          ("currency", JStr (toJson_Currency (tp_currency t))); ("tradeDate", JInt (tp_tradeDate t))]
  | REJECT_EXECTYPE, XReject reason => Ok [("rejectReason", JStr reason)]
  | REPLACE_EXECTYPE, XReplace origOrderId => Ok [("origOrderId", JInt (id_ origOrderId))]
  | CORRECT_EXECTYPE, XCorrect c =>
      Ok [("cumQty", JInt (cp_cumQty c)); ("leavesQty", JInt (cp_leavesQty c)); ("lastQty", JInt (cp_lastQty c));
          ("lastPx", JDouble (cp_lastPx c)); ("currency", JStr (toJson_Currency (cp_currency c)));
          ("tradeDate", JInt (cp_tradeDate c)); ("origOrderId", JInt (id_ (cp_origOrderId c)));
          ("execRefId", JInt (id_ (cp_execRefId c)))]
  | CANCEL_EXECTYPE, XTradeCancel execRefId => Ok [("execRefId", JInt (id_ execRefId))]
  | (TRADE_EXECTYPE | REJECT_EXECTYPE | REPLACE_EXECTYPE | CORRECT_EXECTYPE | CANCEL_EXECTYPE), _ => Crash "bad cast"
  | _, _ => Ok []
  end.

(** execToJson -- src/app/JsonSerializer.cpp:63-110 *)
Definition execToJson (e : ExecutionEntry) : outcome JVal :=
  obind (exec_members e) (λ more,
  Ok (JObj ([("execId", JInt (id_ (ex_execId e))); ("orderId", JInt (id_ (ex_orderId e)));
             ("type", JStr (toJson_ExecType (ex_type e))); ("orderStatus", JStr (toJson_OrderStatus (ex_orderStatus e)));
             ("market", JStr (ex_market e)); ("transactTime", JInt (ex_transactTime e))] ++ more))).

Definition message (type : string) (data : JVal) : JVal := JObj [("type", JStr type); ("data", data)].

(** App::serializeConnected -- src/app/JsonSerializer.cpp:114-119 *)
Definition serializeConnected : outcome string := dump (JObj [("type", JStr "connected")]).

(** The entries of a [std::map], in the order of its keys. *)
Definition in_order {A} (m : gmap IdT A) : list (IdT * A) := merge_sort (λ x y, ¬ IdT_lt y.1 x.1) (map_to_list m).

(** App::serializeInstrumentList -- src/app/JsonSerializer.cpp:121-137 *)
Definition serializeInstrumentList w : outcome string :=
  dump (message "instrument_list" (JArr ((λ x : IdT * InstrumentEntry, JObj [
    ("id", JInt (id_ x.1)); ("symbol", JStr (in_symbol x.2)); ("securityId", JStr (in_securityId x.2));
    ("securityIdSource", JStr (in_securityIdSource x.2))]) <$> in_order (WideData.instruments w)))).

(** App::serializeAccountList -- src/app/JsonSerializer.cpp:139-155 *)
Definition serializeAccountList w : outcome string :=
  dump (message "account_list" (JArr ((λ x : IdT * AccountEntry, JObj [
    ("id", JInt (id_ x.1)); ("account", JStr (ac_account x.2)); ("firm", JStr (ac_firm x.2));
    ("type", JStr (toJson_AccountType (ac_type x.2)))]) <$> in_order (WideData.accounts w)))).

(** the loop of App::serializeOrderSnapshot -- src/app/JsonSerializer.cpp:162-166
    An entry of the map points to an order of the heap. *)
Fixpoint orders_json (l : list (IdT * OrderStore.loc)) s w : outcome (list JVal) :=
  match l with
  | [] => Ok []
  | (_, p) :: l' =>
      match OrderStore.heap s !! p with
      | None => Crash "dangling order pointer"
      | Some o => obind (orderToJson o w) (λ j, obind (orders_json l' s w) (λ js, Ok (j :: js)))
      end
  end.

(** App::serializeOrderSnapshot -- src/app/JsonSerializer.cpp:157-168 *)
Definition serializeOrderSnapshot s w : outcome string :=
  obind (orders_json (in_order (OrderStore.ordersById s)) s w) (λ js, dump (message "order_snapshot" (JArr js))).

(** App::serializeOrderUpdate -- src/app/JsonSerializer.cpp:170-176 *)
Definition serializeOrderUpdate (o : OrderEntry) w : outcome string :=
  obind (orderToJson o w) (λ j, dump (message "order_update" j)).

(** App::serializeExecReport -- src/app/JsonSerializer.cpp:178-184 *)
Definition serializeExecReport (e : ExecutionEntry) : outcome string :=
  obind (execToJson e) (λ j, dump (message "execution_report" j)).

Definition level_json (l : Book.BookLevel) : JVal :=
  JObj [("price", JDouble (Book.lv_price l)); ("qty", JInt (Book.lv_totalQty l)); ("orderCount", JInt (Book.lv_orderCount l))].

(** App::serializeBookUpdate -- src/app/JsonSerializer.cpp:186-207
    [millis] is the clock. *)
Definition serializeBookUpdate (millis : Z) (symbol : string) (snap : Book.BookSnapshot) : outcome string :=
  dump (message "book_update" (JObj [
    ("symbol", JStr symbol); ("bids", JArr (level_json <$> Book.bids snap)); ("asks", JArr (level_json <$> Book.asks snap));
    ("timestamp", JInt (wrap64 millis))])).

(** App::serializeCancelReject -- src/app/JsonSerializer.cpp:209-215 *)
Definition serializeCancelReject (orderId : Z) (reason : string) : outcome string :=
  dump (message "cancel_reject" (JObj [("orderId", JInt orderId); ("reason", JStr reason)])).

(** App::serializeBusinessReject -- src/app/JsonSerializer.cpp:217-223 *)
Definition serializeBusinessReject (refId : Z) (reason : string) : outcome string :=
  dump (message "business_reject" (JObj [("refId", JInt refId); ("reason", JStr reason)])).

(** App::serializeError -- src/app/JsonSerializer.cpp:225-231 *)
Definition serializeError (msg : string) : outcome string := dump (JObj [("type", JStr "error"); ("message", JStr msg)]).

(** struct SystemMetrics -- src/app/JsonSerializer.h:31-50 *)
Record SystemMetrics := mkMetrics {
  m_eventsCreated : Z; m_eventsProcessed : Z; m_eventsFinished : Z;
  m_transactionsCreated : Z; m_transactionsProcessed : Z; m_transactionsFinished : Z;
  m_availableEventProcessors : Z; m_totalEventProcessors : Z;
  m_availableTransactProcessors : Z; m_totalTransactProcessors : Z;
  m_queueDepth : Z; m_poolSize : Z; m_poolCacheMisses : Z; m_poolArenaSize : Z;
  m_activeSessions : Z; m_activeOrders : Z; m_timestamp : Z }.

(** App::serializeMetricsUpdate -- src/app/JsonSerializer.cpp:233-257 *)
Definition serializeMetricsUpdate (m : SystemMetrics) : outcome string :=
  dump (message "metrics_update" (JObj [
    ("eventsCreated", JInt (m_eventsCreated m)); ("eventsProcessed", JInt (m_eventsProcessed m));
    ("eventsFinished", JInt (m_eventsFinished m)); ("transactionsCreated", JInt (m_transactionsCreated m));
    ("transactionsProcessed", JInt (m_transactionsProcessed m)); ("transactionsFinished", JInt (m_transactionsFinished m));
    ("availableEventProcessors", JInt (m_availableEventProcessors m)); ("totalEventProcessors", JInt (m_totalEventProcessors m));
    ("availableTransactProcessors", JInt (m_availableTransactProcessors m));
    ("totalTransactProcessors", JInt (m_totalTransactProcessors m));
    ("queueDepth", JInt (m_queueDepth m)); ("poolSize", JInt (m_poolSize m)); ("poolCacheMisses", JInt (m_poolCacheMisses m));
    ("poolArenaSize", JInt (m_poolArenaSize m)); ("activeSessions", JInt (m_activeSessions m));
    ("activeOrders", JInt (m_activeOrders m)); ("timestamp", JInt (m_timestamp m))])).

(** ** Messages of the clients *)

(** struct ParsedNewOrder -- src/app/JsonSerializer.h:54-67 *)
Record ParsedNewOrder := mkNew {
  no_symbol : string; no_side : Side; no_ordType : OrderType; no_price : PriceT; no_stopPx : PriceT;
  no_orderQty : Z; no_minQty : Z; no_tif : TimeInForce; no_account : string; no_currency : Currency; no_capacity : Capacity }.

(** struct ParsedCancelOrder -- src/app/JsonSerializer.h:69-73 *)
Record ParsedCancelOrder := mkCancel { co_orderId : Z; co_clOrderId : string }.

(** struct ParsedReplaceOrder -- src/app/JsonSerializer.h:75-84 *)
Record ParsedReplaceOrder := mkReplace {
  ro_orderId : Z; ro_price : PriceT; ro_orderQty : Z; ro_tif : TimeInForce; ro_hasPrice : bool; ro_hasQty : bool; ro_hasTif : bool }.

(** struct ParsedClientMessage -- src/app/JsonSerializer.h:86-95
    With the member its type selects; the type of [POther] is any other text. *)
Inductive ParsedClientMessage :=
  | PNewOrder (no : ParsedNewOrder) | PCancelOrder (co : ParsedCancelOrder) | PReplaceOrder (ro : ParsedReplaceOrder)
  | PSubscribe (symbol : string) | PUnsubscribe (symbol : string) | POther (type : string).

(** the new order in App::parseClientMessage -- src/app/JsonSerializer.cpp:267-281 *)
Definition parseNewOrder (d : json) : option ParsedNewOrder :=
  symbol ← value_str d "symbol" ""; side ← value_str d "side" ""; ordType ← value_str d "ordType" "";
  price ← value_double d "price" px0; stopPx ← value_double d "stopPx" px0;
  orderQty ← value_u32 d "orderQty" 0; minQty ← value_u32 d "minQty" 0;
  tif ← value_str d "tif" ""; account ← value_str d "account" "";
  currency ← value_str d "currency" ""; capacity ← value_str d "capacity" "";
  Some (mkNew symbol (sideFromJson side) (orderTypeFromJson ordType) price stopPx orderQty minQty (tifFromJson tif)
          account (currencyFromJson currency) (capacityFromJson capacity)).

(** the cancel in App::parseClientMessage -- src/app/JsonSerializer.cpp:282-287 *)
Definition parseCancelOrder (d : json) : option ParsedCancelOrder :=
  orderId ← value_u64 d "orderId" 0; clOrderId ← value_str d "clOrderId" ""; Some (mkCancel orderId clOrderId).

(** the replace in App::parseClientMessage -- src/app/JsonSerializer.cpp:288-298 *)
Definition parseReplaceOrder (d : json) : option ParsedReplaceOrder :=
  orderId ← value_u64 d "orderId" 0; price ← value_double d "price" px0;
  orderQty ← value_u32 d "orderQty" 0; tif ← value_str d "tif" "";
  Some (mkReplace orderId price orderQty (tifFromJson tif) (contains d "price") (contains d "orderQty") (contains d "tif")).

(** App::parseClientMessage -- src/app/JsonSerializer.cpp:259-309
    A [json::exception] makes the type [error]. *)
Definition parseClientMessage (text : string) : ParsedClientMessage :=
  default (POther "error") (
    j ← parse text;
    type ← value_str j "type" "";
    if decide (type = "new_order") then d ← field j "data"; PNewOrder <$> parseNewOrder d
    else if decide (type = "cancel_order") then d ← field j "data"; PCancelOrder <$> parseCancelOrder d
    else if decide (type = "replace_order") then d ← field j "data"; PReplaceOrder <$> parseReplaceOrder d
    else if decide (type = "subscribe_book") then PSubscribe <$> value_str j "symbol" ""
    else if decide (type = "unsubscribe_book") then PUnsubscribe <$> value_str j "symbol" ""
    else Some (POther type)).
End json.

(** ** Orders that cannot be shown *)

Section theory.
Context `{JsonLib} {SO SD : Type}.
Implicit Types (w : WideData.t SD) (s : OrderStore.t SO).

Definition returns_or_throws {B} (x : outcome B) : Prop := (∃ b, x = Ok b) ∨ ∃ m, x = Throw m.

Lemma orderToJson_total o w : returns_or_throws (orderToJson o w).
Proof.
  unfold returns_or_throws, orderToJson, raw_json, WideData.getRawData, WideData.getInstrument, WideData.getAccount, WideData.getString.
  repeat (case_goal; cbn [obind]); eauto.
Qed.

(** An order whose original client order identifier is not stored, as that of any order
    that replaces no other, cannot be written as JSON. *)
Lemma orderToJson_throws o w : WideData.rawDatas w !! o_origClOrderId o = None → ∃ m, orderToJson o w = Throw m.
Proof.
  intros Ho. unfold orderToJson, raw_json, WideData.getRawData. rewrite Ho. case_goal; cbn [obind]; eauto.
Qed.

Lemma in_order_elem {B} (m : gmap IdT B) i b : (i, b) ∈ in_order m ↔ m !! i = Some b.
Proof. unfold in_order. by rewrite merge_sort_Permutation, elem_of_map_to_list. Qed.

Lemma orders_json_throws l s w i p o : (∀ j q, (j, q) ∈ l → is_Some (OrderStore.heap s !! q)) → (i, p) ∈ l →
  OrderStore.heap s !! p = Some o → WideData.rawDatas w !! o_origClOrderId o = None → ∃ m, orders_json l s w = Throw m.
Proof.
  intros Hl Hin Hp Ho. induction l as [|[j q] l IH]; [by apply not_elem_of_nil in Hin|]. cbn [orders_json].
  destruct (Hl j q) as [o' Hq]; [by left|]. rewrite Hq. destruct (orderToJson_total o' w) as [[b Eb]|[m ->]]; [|by exists m].
  apply elem_of_cons in Hin as [E|Hin].
  - injection E as <- <-. rewrite Hp in Hq. injection Hq as <-. destruct (orderToJson_throws o w Ho) as [m Em]. by rewrite Em in Eb.
  - rewrite Eb. destruct IH as [m ->]; [|done|by exists m]. intros j' q' ?. apply (Hl j' q'). by right.
Qed.

Lemma snapshot_throws s w i p o : (∀ j q, OrderStore.ordersById s !! j = Some q → is_Some (OrderStore.heap s !! q)) →
  OrderStore.ordersById s !! i = Some p → OrderStore.heap s !! p = Some o → WideData.rawDatas w !! o_origClOrderId o = None →
  ∃ m, serializeOrderSnapshot s w = Throw m.
Proof.
  intros Hs Hi Hp Ho. unfold serializeOrderSnapshot.
  destruct (orders_json_throws (in_order (OrderStore.ordersById s)) s w i p o) as [m ->]; try done.
  - intros j q Hj%in_order_elem. by eapply Hs.
  - by apply in_order_elem.
  - by exists m.
Qed.
End theory.
End JsonSerializer.
