(* ===== verification/WsApp.v ===== *)
(** The WebSocket server: sessions ([src/app/WsSession.cpp]), their list
    ([src/app/SessionManager.cpp]), the outgoing queue ([src/app/WsOutQueues.cpp]) and
    the metrics ([src/app/MetricsPublisher.cpp]).  The handlers of a session run on one
    thread, one at a time; the engine's threads hand texts to it with [post]. *)

From Stdlib Require Import Ascii String ZArith Lia.
From stdpp Require Import pretty.
From S2P Require Import Prelude Types IdGen WideData OrderStore OrderBook LinkTree TxScope TxMgr Engine Queues.
From S2P Require Import StateTable StateActions Processor Handlers EnumStr WsJson.
Import JsonSerializer.
#[local] Open Scope string_scope.
#[local] Open Scope Z_scope.

Module WsApp.

(** class WsSession -- src/app/WsSession.h:34-70
    [started] lists the texts given to [async_write]. *)
Record WsSession := mkSession { writeQueue : list string; started : list string; bookSubscriptions : gset string }.

(** class SessionManager -- src/app/SessionManager.h:13-25
    With what the sessions share.  [sessions] is the list of the manager, [objects] the
    sessions themselves, [posted] the sends that wait for the sessions' thread. *)
Record App (SO SD : Type) := mkApp {
  sessions : list nat; objects : gmap nat WsSession; posted : list (nat * string);
  a_wide : WideData.t SD; a_store : OrderStore.t SO; a_in : IncomingQueues.t; a_book : Book.OrderBookImpl SO }.
Arguments mkApp {SO SD} _ _ _ _ _ _ _.
Arguments sessions {SO SD} _.
Arguments objects {SO SD} _.
Arguments posted {SO SD} _.
Arguments a_wide {SO SD} _.
Arguments a_store {SO SD} _.
Arguments a_in {SO SD} _.
Arguments a_book {SO SD} _.

(** [sv_data] is the saver of the reference data; [micros] and [millis] are the clock. *)
Section ops.
Context `{JsonLib} {SO SD : Type} (sv_data : WideData.DataRecord → M SD unit) (micros millis : Z).
Abbreviation A := (App SO SD).
Implicit Types (a : A) (self : nat).

Definition set_sessions l a : A := mkApp l (objects a) (posted a) (a_wide a) (a_store a) (a_in a) (a_book a).
Definition set_objects m a : A := mkApp (sessions a) m (posted a) (a_wide a) (a_store a) (a_in a) (a_book a).
Definition set_posted l a : A := mkApp (sessions a) (objects a) l (a_wide a) (a_store a) (a_in a) (a_book a).
Definition set_store s a : A := mkApp (sessions a) (objects a) (posted a) (a_wide a) s (a_in a) (a_book a).
Definition set_in q a : A := mkApp (sessions a) (objects a) (posted a) (a_wide a) (a_store a) q (a_book a).
Definition on_wide {B} (c : M (WideData.t SD) B) : M A B := λ a,
  let r := c (a_wide a) in (r.1, mkApp (sessions a) (objects a) (posted a) r.2 (a_store a) (a_in a) (a_book a)).
Definition lift {B} (o : outcome B) : M A B := λ a, (o, a).

(** ** The list of sessions *)

(** SessionManager::addSession -- src/app/SessionManager.cpp:9-13 *)
Definition addSession self : M A unit := modify (λ a, set_sessions (sessions a ++ [self]) a).

(** SessionManager::removeSession -- src/app/SessionManager.cpp:15-19 *)
Definition removeSession self : M A unit := modify (λ a, set_sessions (filter (λ x, x ≠ self) (sessions a)) a).

(** SessionManager::broadcast -- src/app/SessionManager.cpp:21-33 *)
Definition broadcast (text : string) : M A unit := modify (λ a, set_posted (posted a ++ ((., text) <$> sessions a)) a).

(** SessionManager::sessionCount -- src/app/SessionManager.cpp:35-39 *)
Definition sessionCount a : nat := length (sessions a).

(** WsSession::isSubscribedTo -- src/app/WsSession.cpp:245-248 *)
Definition isSubscribedTo (symbol : string) (x : WsSession) : bool := bool_decide (symbol ∈ bookSubscriptions x).

Definition subscribed symbol a self : bool :=
  match objects a !! self with Some x => isSubscribedTo symbol x | None => false end.

(** SessionManager::broadcastBookUpdate -- src/app/SessionManager.cpp:41-57 *)
Definition broadcastBookUpdate (symbol text : string) : M A unit :=
  modify (λ a, set_posted (posted a ++ ((., text) <$> filter (λ x, subscribed symbol a x = true) (sessions a))) a).

(** ** Writing *)

(** WsSession::doWrite -- src/app/WsSession.cpp:218-228 *)
Definition doWrite (x : WsSession) : WsSession :=
  match writeQueue x with [] => x | m :: _ => mkSession (writeQueue x) (started x ++ [m]) (bookSubscriptions x) end.

(** WsSession::send -- src/app/WsSession.cpp:209-216 *)
Definition send (m : string) (x : WsSession) : WsSession :=
  let x' := mkSession (writeQueue x ++ [m]) (started x) (bookSubscriptions x) in
  if bool_decide (length (writeQueue x') = 1%nat) then doWrite x' else x'.

(** WsSession::onWrite, without an error -- src/app/WsSession.cpp:230-243 *)
Definition onWrite_ok (x : WsSession) : WsSession :=
  let x' := mkSession (tail (writeQueue x)) (started x) (bookSubscriptions x) in
  match writeQueue x' with [] => x' | _ => doWrite x' end.

(** A member function of the session [self]. *)
Definition on_session self (f : WsSession → WsSession) : M A unit := modify (λ a, set_objects (alter f self (objects a)) a).

(** WsSession::onWrite -- src/app/WsSession.cpp:230-243 *)
Definition onWrite (ec : bool) self : M A unit := if ec then removeSession self else on_session self onWrite_ok.

(** A posted send runs on the sessions' thread. *)
Definition run_posted : M A unit := λ a,
  match posted a with
  | [] => (Ok tt, a)
  | (self, m) :: l => on_session self (send m) (set_posted l a)
  end.

(** [send(serialize...)] *)
Definition send_text self (o : outcome string) : M A unit := m <- lift o ;; on_session self (send m).

(** ** Messages of the clients *)

(** the account in WsSession::handleMessage -- src/app/WsSession.cpp:95-105
    [None]: the account is not known. *)
Definition find_account (name : string) (w : WideData.t SD) : option IdT :=
  if empty_string name then Some IdT0
  else let i := WideData.findAccountByName name w in if isValidId i then Some i else None.

(** the order in WsSession::handleMessage -- src/app/WsSession.cpp:131-145 *)
Definition ws_order (no : ParsedNewOrder) (srcId destId clOrdId instrId acctId execListId : IdT) : OrderEntry :=
  let o := OrderEntry_make srcId destId clOrdId IdT0 instrId acctId IdT0 execListId in
  {| o_orderId := o_orderId o; o_origOrderId := o_origOrderId o; o_price := no_price no; o_status := RECEIVEDNEW_ORDSTATUS;
     o_side := no_side no; o_ordType := no_ordType no; o_leavesQty := no_orderQty no; o_cumQty := o_cumQty o;
     o_orderQty := no_orderQty no; o_tif := no_tif no; o_stopPx := no_stopPx no; o_avgPx := o_avgPx o; o_dayAvgPx := o_dayAvgPx o;
     o_creationTime := wrap64 millis; o_lastUpdateTime := o_lastUpdateTime o; o_expireTime := o_expireTime o;
     o_settlDate := o_settlDate o; o_settlType := o_settlType o; o_capacity := no_capacity no; o_currency := no_currency no;
     o_minQty := no_minQty no; o_dayOrderQty := o_dayOrderQty o; o_dayCumQty := o_dayCumQty o; o_smp := o_smp o;
     o_instrument := o_instrument o; o_account := o_account o; o_clearing := o_clearing o; o_destination := o_destination o;
     o_execInstruct := o_execInstruct o; o_clOrderId := o_clOrderId o; o_origClOrderId := o_origClOrderId o;
     o_source := o_source o; o_executions := o_executions o |}.

(** [new OrderEntry], into the heap of the orders. *)
Definition new_order_entry (o : OrderEntry) : M A loc := λ a,
  let r := OrderStore.alloc o (a_store a) in (Ok r.1, set_store r.2 a).

Definition push_event (e : InEvent) : M A unit := modify (λ a, set_in (IncomingQueues.push "WebSocket" e (a_in a)) a).

(** WsSession::handleMessage, a new order -- src/app/WsSession.cpp:83-149 *)
Definition handleNewOrder self (no : ParsedNewOrder) : M A unit :=
  w <- gets a_wide ;;
  let instrId := WideData.findInstrumentBySymbol (no_symbol no) w in
  if negb (isValidId instrId) then send_text self (serializeError ("Unknown instrument: " ++ no_symbol no))
  else
    match find_account (no_account no) w with
    | None => send_text self (serializeError ("Unknown account: " ++ no_account no))
    | Some acctId =>
        clOrdId <- on_wide (WideData.addRawData sv_data
          (RawDataEntry_make STRING_RAWDATATYPE (list_ascii_of_string ("WS-" ++ pretty micros)))) ;;
        execListId <- on_wide (WideData.addExecutions sv_data []) ;;
        srcId <- on_wide (WideData.addString sv_data "WebSocket") ;;
        destId <- on_wide (WideData.addString sv_data "Internal") ;;
        l <- new_order_entry (ws_order no srcId destId clOrdId instrId acctId execListId) ;;
        push_event (OrderEvent (Some l))
    end.

(** WsSession::handleMessage, a cancel -- src/app/WsSession.cpp:150-155 *)
Definition handleCancelOrder (co : ParsedCancelOrder) : M A unit :=
  push_event (OrderCancelEvent (mkIdT (co_orderId co) 1) "Canceled by user").

(** the replacement in WsSession::handleMessage -- src/app/WsSession.cpp:169-182 *)
Definition replacement (ro : ParsedReplaceOrder) (existing : OrderEntry) : OrderEntry :=
  upd_order (OrderEntry_clone existing)
    (λ oid ooid px st sd ty lq cq oq tif, mkOrder oid ooid (if ro_hasPrice ro then ro_price ro else px) st sd ty
       (if ro_hasQty ro then ro_orderQty ro else lq) cq (if ro_hasQty ro then ro_orderQty ro else oq)
       (if ro_hasTif ro then ro_tif ro else tif)).

(** WsSession::handleMessage, a replace -- src/app/WsSession.cpp:156-186 *)
Definition handleReplaceOrder self (ro : ParsedReplaceOrder) : M A unit :=
  let origOrderId := mkIdT (ro_orderId ro) 1 in
  s <- gets a_store ;;
  match OrderStore.locateByOrderId origOrderId s with
  | None => send_text self (serializeError ("Order not found for replace: " ++ pretty (ro_orderId ro)))
  | Some p =>
      match OrderStore.heap s !! p with
      | None => crash "dangling order pointer"
      | Some existing => l <- new_order_entry (replacement ro existing) ;; push_event (OrderReplaceEvent origOrderId (Some l))
      end
  end.

(** WsSession::handleMessage, a subscription -- src/app/WsSession.cpp:187-198 *)
Definition handleSubscribe self (symbol : string) : M A unit :=
  on_session self (λ x, mkSession (writeQueue x) (started x) ({[symbol]} ∪ bookSubscriptions x)) ;;;
  a <- gets (λ a, a) ;;
  let instrId := WideData.findInstrumentBySymbol symbol (a_wide a) in
  when (isValidId instrId) (send_text self (serializeBookUpdate millis symbol
    (Book.getSnapshot instrId (λ i, OrderStore.order_at i (a_store a)) (a_book a)))).

(** WsSession::handleMessage -- src/app/WsSession.cpp:79-207 *)
Definition handleMessage self (text : string) : M A unit :=
  match parseClientMessage text with
  | PNewOrder no => handleNewOrder self no
  | PCancelOrder co => handleCancelOrder co
  | PReplaceOrder ro => handleReplaceOrder self ro
  | PSubscribe symbol => handleSubscribe self symbol
  | PUnsubscribe symbol =>
      on_session self (λ x, mkSession (writeQueue x) (started x) (bookSubscriptions x ∖ {[symbol]}))
  | POther type => send_text self (serializeError ("Unknown message type: " ++ type))
  end.

(** WsSession::onRead -- src/app/WsSession.cpp:64-77
    [None] is an error of the connection. *)
Definition onRead self (text : option string) : M A unit :=
  match text with None => removeSession self | Some m => handleMessage self m end.

(** WsSession::onAccept -- src/app/WsSession.cpp:41-57 *)
Definition onAccept (ec : bool) self : M A unit :=
  when (negb ec) (
    addSession self ;;;
    send_text self serializeConnected ;;;
    a <- gets (λ a, a) ;;
    send_text self (serializeInstrumentList (a_wide a)) ;;;
    send_text self (serializeAccountList (a_wide a)) ;;;
    send_text self (serializeOrderSnapshot (a_store a) (a_wide a))).

(** WsServer::onAccept -- src/app/WsServer.cpp:58-70
    A session object for the connection. *)
Definition accept_connection self : M A unit := modify (λ a, set_objects (<[self := mkSession [] [] ∅]> (objects a)) a).

(** ** Reports of the engine *)

(** WsOutQueues::push(ExecReportEvent) -- src/app/WsOutQueues.cpp:18-36 *)
Definition push_exec (e : ExecutionEntry) : M A unit :=
  m <- lift (serializeExecReport e) ;;
  broadcast m ;;;
  a <- gets (λ a, a) ;;
  match OrderStore.locateByOrderId (ex_orderId e) (a_store a) with
  | None => ret tt
  | Some p =>
      match OrderStore.heap (a_store a) !! p with
      | None => crash "dangling order pointer"
      | Some o =>
          m <- lift (serializeOrderUpdate o (a_wide a)) ;;
          broadcast m ;;;
          ins <- lift (WideData.getInstrument (o_instrument o) (a_wide a)) ;;
          b <- lift (serializeBookUpdate millis (in_symbol ins)
                 (Book.getSnapshot (o_instrument o) (λ i, OrderStore.order_at i (a_store a)) (a_book a))) ;;
          broadcastBookUpdate (in_symbol ins) b
      end
  end.

(** WsOutQueues::push(CancelRejectEvent) -- src/app/WsOutQueues.cpp:38-41 *)
Definition push_cancelReject (id : IdT) : M A unit := m <- lift (serializeCancelReject (id_ id) "Cancel rejected") ;; broadcast m.

(** WsOutQueues::push(BusinessRejectEvent) -- src/app/WsOutQueues.cpp:43-46 *)
Definition push_businessReject (id : IdT) : M A unit := m <- lift (serializeBusinessReject (id_ id) "Business reject") ;; broadcast m.

(** ** Metrics *)

(** MetricsPublisher::collectAndBroadcast -- src/app/MetricsPublisher.cpp:55-97
    [m] brings the counters of the task manager and the scope pool. *)
Definition collectAndBroadcast (m : SystemMetrics) : M A unit :=
  a <- gets (λ a, a) ;;
  t <- lift (serializeMetricsUpdate {|
    m_eventsCreated := m_eventsCreated m; m_eventsProcessed := m_eventsProcessed m; m_eventsFinished := m_eventsFinished m;
    m_transactionsCreated := m_transactionsCreated m; m_transactionsProcessed := m_transactionsProcessed m;
    m_transactionsFinished := m_transactionsFinished m;
    m_availableEventProcessors := m_availableEventProcessors m; m_totalEventProcessors := m_totalEventProcessors m;
    m_availableTransactProcessors := m_availableTransactProcessors m; m_totalTransactProcessors := m_totalTransactProcessors m;
    m_queueDepth := IncomingQueues.size (a_in a); m_poolSize := m_poolSize m; m_poolCacheMisses := m_poolCacheMisses m;
    m_poolArenaSize := m_poolArenaSize m; m_activeSessions := Z.of_nat (sessionCount a);
    m_activeOrders := Z.of_nat (size (OrderStore.ordersById (a_store a))); m_timestamp := wrap64 millis |}) ;;
  broadcast t.
End ops.

(** ** Writes *)

Section writes.
Implicit Types (x : WsSession).

(** What happens to a session: a text is sent, or the write of the front ends. *)
Inductive wcall := CSend (m : string) | CWritten.

(** A write ends only when one was started: the queue is not empty. *)
Definition wrun (c : wcall) x : option WsSession :=
  match c with
  | CSend m => Some (send m x)
  | CWritten => match writeQueue x with [] => None | _ => Some (onWrite_ok x) end
  end.

Definition sends (c : wcall) : list string := match c with CSend m => [m] | CWritten => [] end.
Definition wends (c : wcall) : nat := match c with CSend _ => 0%nat | CWritten => 1%nat end.

Fixpoint wruns (l : list wcall) x : option WsSession :=
  match l with [] => Some x | c :: l => wrun c x ≫= wruns l end.

(** Every text is in the queue until its write ends; the write of the front, and only
    that one, is under way. *)
Definition wstate (sent : list string) (done : nat) x : Prop :=
  writeQueue x = drop done sent ∧ started x = take (S done) sent ∧ (done <= length sent)%nat.

Lemma wrun_state c sent done x x' : wstate sent done x → wrun c x = Some x' → wstate (sent ++ sends c) (wends c + done) x'.
Proof.
  intros (Eq & Es & Hl) E. destruct c as [m|]; cbn [wrun sends wends] in *.
  - injection E as <-. unfold send. cbn [writeQueue]. rewrite Eq.
    assert (length (drop done sent ++ [m]) = (length sent - done + 1)%nat) as El by (rewrite length_app, length_drop; done).
    case_bool_decide as H1; rewrite El in H1.
    + assert (done = length sent) as -> by lia. rewrite drop_all. unfold doWrite, wstate. cbn. rewrite Es.
      rewrite drop_app_length, (take_ge sent) by lia. split_and!; [done| |rewrite length_app; lia].
      rewrite take_ge; [done|rewrite length_app; simpl; lia].
    + unfold wstate. cbn. rewrite Es, drop_app_le, take_app_le by lia. split_and!; [done..|rewrite length_app; lia].
  - rewrite app_nil_r. rewrite Eq in E.
    assert (tail (drop done sent) = drop (S done) sent) as Et.
    { clear. revert done. induction sent as [|y l IH]; intros [|n]; try done; cbn [drop]. apply IH. }
    assert (done < length sent)%nat as Hlt.
    { destruct (decide (done = length sent)) as [->|]; [by rewrite drop_all in E|lia]. }
    destruct (drop done sent) as [|y q] eqn:Ed; [done|]. injection E as <-. unfold onWrite_ok. cbn [writeQueue]. rewrite Eq.
    cbn [tail] in *. subst q. destruct (drop (S done) sent) as [|z q] eqn:Ez.
    + unfold wstate. cbn. rewrite Es. split_and!; [done| |lia].
      assert (length (drop (S done) sent) = 0%nat) as E0 by (by rewrite Ez). rewrite length_drop in E0.
      rewrite !take_ge by lia. done.
    + unfold doWrite, wstate. cbn. rewrite Es, Ez. split_and!; [done| |lia].
      symmetry. apply take_S_r. by rewrite <- (Nat.add_0_r (S done)), <- lookup_drop, Ez.
Qed.

Lemma wruns_state l : ∀ sent done x x', wstate sent done x → wruns l x = Some x' →
  wstate (sent ++ (l ≫= sends)) (sum_list (wends <$> l) + done) x'.
Proof.
  induction l as [|c l IH]; intros sent done x x' Hx E; cbn [wruns] in E.
  - injection E as <-. cbn. by rewrite app_nil_r.
  - apply bind_Some in E as (x1 & E1 & E). pose proof (IH _ _ _ _ (wrun_state _ _ _ _ _ Hx E1) E) as H1.
    rewrite bind_cons, (assoc_L (++)), fmap_cons. cbn [sum_list]. by replace (wends c + sum_list (wends <$> l) + done)%nat
      with (sum_list (wends <$> l) + (wends c + done))%nat by lia.
Qed.

(** C27: The texts sent on a session are written one at a time, in the order of the
    [send]s and each once: after [done] writes have ended, the queue holds the texts
    from the [done]-th on, and the writes started are those of the first [done] texts
    and of the next one, if there is one. *)
Theorem session_writes_in_order l x : wruns l (mkSession [] [] ∅) = Some x →
  let sent := l ≫= sends in let done := sum_list (wends <$> l) in
  writeQueue x = drop done sent ∧ started x = take (S done) sent ∧ (done <= length sent)%nat.
Proof.
  intros E sent done. assert (wstate [] 0 (mkSession [] [] ∅)) as H0 by (split_and!; done || simpl; lia).
  pose proof (wruns_state l [] 0 _ _ H0 E) as H1. by rewrite Nat.add_0_r in H1.
Qed.
End writes.

(** ** New orders *)

Section orders.
Context `{JsonLib} {SO SD : Type} (sv_data : WideData.DataRecord → M SD unit) (micros millis : Z).
Implicit Types (a : App SO SD) (self : nat).

(** An order built from a message carries no update time and no settlement type, and
    its clearing firm is the null identifier. *)
Lemma ws_order_invalid {SV} no i1 i2 i3 i4 i5 i6 (w : WideData.t SV) :
  is_Some (WideData.OrderEntry_isValid (ws_order millis no i1 i2 i3 i4 i5 i6) w).
Proof.
  unfold WideData.OrderEntry_isValid, ws_order. cbn -[Z.eqb InstrumentEntry_isValid AccountEntry_isValid ClearingEntry_isValid].
  destruct (WideData.getRawData _ w) as [r| |]; cbn [obind WideData.o_check]; [|done..].
  destruct (0 =? rd_length r); [done|].
  destruct (WideData.getInstrument _ w) as [x| |]; cbn [obind WideData.o_check]; [|done..].
  destruct (InstrumentEntry_isValid x); [done|].
  destruct (WideData.getAccount _ w) as [y| |]; cbn [obind WideData.o_check]; [|done..].
  destruct (AccountEntry_isValid y); [done|].
  destruct (WideData.getClearing _ w) as [z| |]; cbn [obind WideData.o_check]; [|done..].
  destruct (ClearingEntry_isValid z); [done|]. by destruct (0 =? wrap64 millis).
Qed.

(** Everything but the reference data. *)
Definition same_but_wide a a' : Prop :=
  sessions a' = sessions a ∧ objects a' = objects a ∧ posted a' = posted a ∧ a_store a' = a_store a ∧ a_in a' = a_in a ∧
  a_book a' = a_book a.

Lemma on_wide_same {B} (c : M (WideData.t SD) B) a r a' : on_wide c a = (r, a') → same_but_wide a a'.
Proof. unfold on_wide. intros E. injection E as _ <-. done. Qed.

Lemma same_but_wide_trans a1 a2 a3 : same_but_wide a1 a2 → same_but_wide a2 a3 → same_but_wide a1 a3.
Proof. intros (E1 & E2 & E3 & E4 & E5 & E6) (F1 & F2 & F3 & F4 & F5 & F6). unfold same_but_wide. by rewrite F1, F2, F3, F4, F5, F6. Qed.

(** A step on the reference data before the rest of a handler: the rest runs, or the
    step fails, the handler ends with its exception and only the reference data have
    changed. *)
Lemma on_wide_case {B C} (c : M (WideData.t SD) B) (k : B → M (App SO SD) C) a a1 : same_but_wide a a1 →
  (∃ b a2, same_but_wide a a2 ∧ bind (on_wide c) k a1 = k b a2) ∨
  (is_ok (c (a_wide a1)).1 = false ∧ is_ok (bind (on_wide c) k a1).1 = false ∧ same_but_wide a (bind (on_wide c) k a1).2).
Proof.
  intros Hs. destruct (on_wide c a1) as [r a2] eqn:E. pose proof (same_but_wide_trans _ _ _ Hs (on_wide_same _ _ _ _ E)) as Hs'.
  unfold on_wide in E. injection E as E1 E2. unfold bind, on_wide. rewrite E2, E1.
  destruct r as [b|m|m]; [left; by exists b, a2|by right..].
Qed.

(** The reference data take every value when the saver takes every record. *)
Definition saver_total : Prop := ∀ d s, (sv_data d s).1 = Ok tt.

Lemma saver_save_total d (w : WideData.t SD) : saver_total → (WideData.saver_save sv_data d w).1 = Ok tt.
Proof. intros Hs. unfold WideData.saver_save. destruct (WideData.storage w) as [s|]; [apply Hs|done]. Qed.

Ltac add_total := unfold bind, WideData.fetch_id, modify; cbn [fst snd];
  match goal with |- context [WideData.saver_save sv_data ?d ?w] =>
    let E := fresh in pose proof (saver_save_total d w) as E; destruct (WideData.saver_save sv_data d w); cbn [fst] in *; by rewrite E end.

Lemma addString_total v w : saver_total → is_ok (WideData.addString sv_data v w).1 = true.
Proof. intros Hs. unfold WideData.addString. add_total. Qed.
Lemma addRawData_total v w : saver_total → is_ok (WideData.addRawData sv_data v w).1 = true.
Proof. intros Hs. unfold WideData.addRawData. add_total. Qed.
Lemma addExecutions_total v w : saver_total → is_ok (WideData.addExecutions sv_data v w).1 = true.
Proof. intros Hs. unfold WideData.addExecutions. add_total. Qed.

(** Why a new order is refused at once: its symbol, or the account it names, is not known. *)
Definition refusal (no : ParsedNewOrder) (w : WideData.t SD) : option string :=
  if negb (isValidId (WideData.findInstrumentBySymbol (no_symbol no) w)) then Some ("Unknown instrument: " ++ no_symbol no)
  else if negb (empty_string (no_account no)) && negb (isValidId (WideData.findAccountByName (no_account no) w))
  then Some ("Unknown account: " ++ no_account no) else None.

(** The handler has queued one new-order event with a new order [o], and done nothing
    else but extend the reference data. *)
Definition queued (o : OrderEntry) a a' : Prop :=
  let l := OrderStore.nextLoc (a_store a) in
  OrderStore.heap (a_store a') = <[l := o]> (OrderStore.heap (a_store a)) ∧
  a_in a' = IncomingQueues.push "WebSocket" (OrderEvent (Some l)) (a_in a) ∧
  sessions a' = sessions a ∧ objects a' = objects a ∧ posted a' = posted a.

Lemma new_order_refused self no a why : refusal no (a_wide a) = Some why →
  handleNewOrder sv_data micros millis self no a = send_text self (serializeError why) a.
Proof.
  unfold refusal, handleNewOrder, find_account. rewrite (bind_ok (gets a_wide) _ a (a_wide a) a eq_refl).
  destruct (isValidId (WideData.findInstrumentBySymbol _ _)); cbn [negb]; [|by intros [= <-]].
  destruct (empty_string (no_account no)); cbn [negb andb]; [done|].
  destruct (isValidId (WideData.findAccountByName _ _)); cbn [negb]; [done|]. by intros [= <-].
Qed.

Lemma new_order_run self no a : refusal no (a_wide a) = None →
  let r := handleNewOrder sv_data micros millis self no a in
  (∃ i1 i2 i3 i4 acct, r.1 = Ok tt ∧
     queued (ws_order millis no i1 i2 i3 (WideData.findInstrumentBySymbol (no_symbol no) (a_wide a)) acct i4) a r.2) ∨
  (¬ saver_total ∧ is_ok r.1 = false ∧ same_but_wide a r.2).
Proof.
  unfold refusal, handleNewOrder, find_account. rewrite (bind_ok (gets a_wide) _ a (a_wide a) a eq_refl).
  destruct (isValidId (WideData.findInstrumentBySymbol _ _)); cbn [negb]; [|done].
  destruct (if empty_string (no_account no) then Some IdT0 else _) as [acct|] eqn:Ha; cycle 1.
  { destruct (empty_string (no_account no)); [done|]. destruct (isValidId (WideData.findAccountByName _ _)); done. }
  assert (negb (empty_string (no_account no)) && negb (isValidId (WideData.findAccountByName (no_account no) (a_wide a))) = false) as ->.
  { destruct (empty_string (no_account no)); [done|]. by destruct (isValidId (WideData.findAccountByName _ _)). }
  intros _. cbv zeta.
  match goal with |- context [bind (on_wide ?c) ?k a] =>
    destruct (on_wide_case c k a a) as [(i3 & a1 & S1 & ->)|(E & ?)] end;
    [done| |right; split; [by intros Hs; rewrite addRawData_total in E|done]].
  match goal with |- context [bind (on_wide ?c) ?k a1] =>
    destruct (on_wide_case c k a a1 S1) as [(i4 & a2 & S2 & ->)|(E & ?)] end;
    [|right; split; [by intros Hs; rewrite addExecutions_total in E|done]].
  match goal with |- context [bind (on_wide ?c) ?k a2] =>
    destruct (on_wide_case c k a a2 S2) as [(i1 & a3 & S3 & ->)|(E & ?)] end;
    [|right; split; [by intros Hs; rewrite addString_total in E|done]].
  match goal with |- context [bind (on_wide ?c) ?k a3] =>
    destruct (on_wide_case c k a a3 S3) as [(i2 & a4 & S4 & ->)|(E & ?)] end;
    [|right; split; [by intros Hs; rewrite addString_total in E|done]].
  left. destruct S4 as (F1 & F2 & F3 & F4 & F5 & _). exists i1, i2, i3, i4, acct. split; [done|].
  unfold queued. cbn. by rewrite F1, F2, F3, F4, F5.
Qed.

End orders.

(** ** Identifiers of the messages *)

Section identifiers.
Context `{JsonLib} {SO SD : Type} (sv_data : WideData.DataRecord → M SD unit) (micros millis : Z).
Implicit Types (a : App SO SD) (self : nat).

(** No stored order has the date 1. *)
Definition dated (s : OrderStore.t SO) : Prop := ∀ i l, OrderStore.ordersById s !! i = Some l → date_ i ≠ 1.

(** An order that is stored under a generated identifier keeps it so: the date of a
    generated identifier is the clock. *)
Lemma save_dated (sv_order : OrderEntry → M SO unit) getRaw o now s c l s' c' : dated s → wrap32 now ≠ 1 →
  isValidId (o_orderId o) = false → OrderStore.save sv_order getRaw o now (s, c) = (Ok l, (s', c')) → dated s'.
Proof.
  intros Hd Hn Hv E. destruct (OrderStore.save_frame _ _ _ _ _ _ _ _ E) as (Es & _). cbn [fst] in Es.
  intros i p Hi. rewrite Es in Hi. apply map_insert_cases in Hi as [->|Hi]; [|by eapply Hd].
  unfold OrderStore.saved. by rewrite OrderStore.o_orderId_set, Hv.
Qed.

(** A client can neither cancel nor replace an order.  The identifier in a
    [cancel_order] or [replace_order] message gets the date 1, while stored orders have
    the dates their identifiers were generated with: the queued cancel is refused by the
    engine without an effect, and the replace is answered with an error and not queued. *)
Theorem ws_order_not_found self text a : dated (a_store a) →
  (∀ co, parseClientMessage text = PCancelOrder co →
     ∃ a' e, handleMessage sv_data micros millis self text a = (Ok tt, a') ∧ a_in a' = IncomingQueues.push "WebSocket" e (a_in a) ∧
     ∀ sv_order now (B : Backend sv_order now) fuel (p : Processor.t SO SD), w_store (Processor.p_world p) = a_store a →
       ∃ m p', Processor.onEvent sv_order now fuel e p = Some (Throw m, p') ∧ Handlers.untouched p p') ∧
  (∀ ro m, parseClientMessage text = PReplaceOrder ro →
     serializeError ("Order not found for replace: " ++ pretty (ro_orderId ro)) = Ok m →
     handleMessage sv_data micros millis self text a = (Ok tt, set_objects (alter (send m) self (objects a)) a)).
Proof.
  intros Hd.
  assert (∀ n, OrderStore.locateByOrderId (mkIdT n 1) (a_store a) = None) as Hn.
  { intros n. unfold OrderStore.locateByOrderId. destruct (OrderStore.ordersById (a_store a) !! mkIdT n 1) eqn:E; [|done].
    by destruct (Hd _ _ E). }
  split.
  - intros co Hp. unfold handleMessage. rewrite Hp. eexists _, _. split; [reflexivity|]. split; [reflexivity|].
    intros sv_order now B fuel p Es. unfold Processor.onEvent, Processor.then_deferred. cbn [Processor.handle].
    unfold Processor.onOrderCancelEvent. destruct (isValidId (mkIdT (co_orderId co) 1)); cbn [negb].
    + rewrite Handlers.scoped_throws by (by rewrite Es). eexists _, _. split; [reflexivity|]. apply Handlers.untouched_scope.
    + eexists _, p. split; [reflexivity|]. by exists 0%nat.
  - intros ro m Hp Hm. unfold handleMessage, handleReplaceOrder. rewrite Hp.
    rewrite (bind_ok (gets a_store) _ a (a_store a) a eq_refl), Hn. unfold send_text.
    by rewrite Hm.
Qed.
End identifiers.

(** ** What is broadcast *)

Section broadcasts.
Context `{JsonLib} {SO SD : Type} (sv_data : WideData.DataRecord → M SD unit) (millis : Z).
Implicit Types (a : App SO SD) (self : nat).

Lemma send_queue t y : writeQueue (send t y) = (writeQueue y ++ [t])%list.
Proof. unfold send, doWrite. cbn [writeQueue]. case_bool_decide; [|done]. by destruct (writeQueue y ++ [t])%list eqn:E; cbn. Qed.

(** A client that connects while the storage holds an order with no original client
    order identifier, which is every order that replaces no other, makes [onAccept]
    throw: the client has got three of the four messages, the snapshot of the orders is
    not sent, and the exception leaves [io_context::run], which nothing catches. *)
Theorem ws_accept_throws self x a i p o : (∀ j, ∃ t, dump j = Ok t) →
  (∀ j q, OrderStore.ordersById (a_store a) !! j = Some q → is_Some (OrderStore.heap (a_store a) !! q)) →
  OrderStore.ordersById (a_store a) !! i = Some p → OrderStore.heap (a_store a) !! p = Some o →
  WideData.rawDatas (a_wide a) !! o_origClOrderId o = None → objects a !! self = Some x →
  ∃ m a' x', onAccept false self a = (Throw m, a') ∧ objects a' !! self = Some x' ∧
    length (writeQueue x') = (length (writeQueue x) + 3)%nat.
Proof.
  intros Hj Hs Hi Hp Ho Hx. destruct (snapshot_throws (a_store a) (a_wide a) i p o Hs Hi Hp Ho) as [m Em].
  destruct (Hj (JObj [("type", JStr "connected")])) as [t1 E1].
  assert (∃ t2, serializeInstrumentList (a_wide a) = Ok t2) as [t2 E2] by apply Hj.
  assert (∃ t3, serializeAccountList (a_wide a) = Ok t3) as [t3 E3] by apply Hj.
  exists m, (set_objects (alter (send t3) self (alter (send t2) self (alter (send t1) self (objects a)))) (set_sessions (sessions a ++ [self])%list a)),
    (send t3 (send t2 (send t1 x))). split_and!.
  - unfold onAccept, when, send_text, addSession. cbn [negb].
    rewrite (bind_ok (modify _) _ a tt _ eq_refl). unfold serializeConnected. rewrite E1.
    do 2 (erewrite bind_ok by reflexivity). cbn [a_wide a_store set_sessions set_objects]. rewrite E2, E3, Em. reflexivity.
  - cbn. by rewrite !lookup_alter_eq, Hx.
  - rewrite !send_queue, !length_app. simpl. lia.
Qed.

(** A report of the engine goes to every session, in the order of the session list.
    If its order is stored and can be written as JSON, the order follows, and then its
    book to the sessions subscribed to the symbol.  If the original client order
    identifier of the order is not stored, the exception reaches the engine after the
    report has been broadcast. *)
Theorem ws_report_broadcast e a t1 : serializeExecReport e = Ok t1 →
  let reported := (posted a ++ ((., t1) <$> sessions a))%list in
  (OrderStore.locateByOrderId (ex_orderId e) (a_store a) = None → push_exec millis e a = (Ok tt, set_posted reported a)) ∧
  (∀ p o, OrderStore.locateByOrderId (ex_orderId e) (a_store a) = Some p → OrderStore.heap (a_store a) !! p = Some o →
    (∀ t2 ins t3, serializeOrderUpdate o (a_wide a) = Ok t2 → WideData.getInstrument (o_instrument o) (a_wide a) = Ok ins →
       serializeBookUpdate millis (in_symbol ins)
         (Book.getSnapshot (o_instrument o) (λ i, OrderStore.order_at i (a_store a)) (a_book a)) = Ok t3 →
       push_exec millis e a = (Ok tt, set_posted (reported ++ ((., t2) <$> sessions a) ++
         ((., t3) <$> filter (λ x, subscribed (in_symbol ins) a x = true) (sessions a)))%list a)) ∧
    (WideData.rawDatas (a_wide a) !! o_origClOrderId o = None →
       ∃ m, push_exec millis e a = (Throw m, set_posted reported a))).
Proof.
  intros E1 reported.
  assert (∀ {B} (k : string → M (App SO SD) B), bind (lift (serializeExecReport e)) k a = k t1 a) as Hl by (intros; by rewrite E1).
  split; [|intros p o Hl1 Hp; split].
  - intros Hn. unfold push_exec. rewrite Hl, (bind_ok (broadcast t1) _ a tt _ eq_refl), (bind_ok (gets _) _ _ _ _ eq_refl).
    cbn [a_store set_posted]. by rewrite Hn.
  - intros t2 ins t3 E2 Ei E3. unfold push_exec.
    rewrite Hl, (bind_ok (broadcast t1) _ a tt _ eq_refl), (bind_ok (gets _) _ _ _ _ eq_refl).
    cbn [a_store a_wide a_book set_posted]. rewrite Hl1, Hp, E2, Ei. unfold bind, lift, broadcast, modify. rewrite E3.
    unfold reported, broadcastBookUpdate, modify, set_posted. cbn [posted sessions objects a_wide a_store a_in a_book]. by rewrite !(assoc_L (++)).
  - intros Hr. destruct (orderToJson_throws o (a_wide a) Hr) as [m Em]. exists m. unfold push_exec.
    rewrite Hl, (bind_ok (broadcast t1) _ a tt _ eq_refl), (bind_ok (gets _) _ _ _ _ eq_refl).
    cbn [a_store a_wide a_book set_posted]. rewrite Hl1, Hp. unfold serializeOrderUpdate. by rewrite Em.
Qed.
End broadcasts.

(** ** Runs *)

(** A library over [JVal] that knows the three messages [new], [cancel] and [replace]. *)
Definition ex_member (j : JVal) (k : string) : option (option JVal) :=
  match j with JObj l => Some (snd <$> List.find (λ x, String.eqb x.1 k) l) | _ => None end.

Definition ex_text (j : JVal) (k d : string) : option string :=
  m ← ex_member j k; match m with None => Some d | Some (JStr s) => Some s | Some _ => None end.

Definition ex_int (j : JVal) (k : string) (d : Z) : option Z :=
  m ← ex_member j k; match m with None => Some d | Some (JInt n) => Some n | Some _ => None end.

Definition ex_new : JVal := JObj [("type", JStr "new_order"); ("data", JObj [
  ("symbol", JStr "AAPL"); ("side", JStr "BUY"); ("ordType", JStr "LIMIT"); ("orderQty", JInt 100); ("tif", JStr "DAY")])].
Definition ex_cancel : JVal := JObj [("type", JStr "cancel_order"); ("data", JObj [("orderId", JInt 100)])].
Definition ex_replace : JVal := JObj [("type", JStr "replace_order"); ("data", JObj [("orderId", JInt 100); ("orderQty", JInt 5)])].

#[local] Instance ex_json : JsonLib := {|
  json := JVal;
  parse t := if String.eqb t "new" then Some ex_new else if String.eqb t "cancel" then Some ex_cancel
             else if String.eqb t "replace" then Some ex_replace else None;
  field j k := m ← ex_member j k; m;
  value_str := ex_text; value_double j k d := Some d; value_u32 := ex_int; value_u64 := ex_int;
  contains j k := match ex_member j k with Some (Some _) => true | _ => false end;
  dump _ := Ok "text" |}.

(** One instrument, one stored order with the identifier (100, 1000), one session. *)
Definition ex_wide : WideData.t unit :=
  (WideData.addInstrument (λ _, ret tt) (mkInstr "AAPL" "US0378331005" "ISIN" IdT0) WideData.create).2.
Definition ex_id : IdT := mkIdT 100 1000.
Definition ex_stored : OrderEntry := set_orderId ex_id (OrderEntry_make IdT0 IdT0 IdT0 IdT0 IdT0 IdT0 IdT0 IdT0).
Definition ex_app : App unit unit :=
  mkApp [7%nat] {[7%nat := mkSession [] [] ∅]} [] ex_wide
    (OrderStore.mkStore {[0%nat := ex_stored]} 1%nat {[ex_id := 0%nat]} ∅ ∅ None) IncomingQueues.create
    OrderStateMachine.ex_empty_book.

Lemma ex_lookup (i : IdT) (l : loc) : OrderStore.ordersById (a_store ex_app) !! i = Some l → i = ex_id ∧ l = 0%nat.
Proof. cbn. intros E. apply lookup_singleton_Some in E. naive_solver. Qed.

Lemma session_writes_in_order_witness :
  ∃ x, wruns [CSend "a"; CSend "b"; CWritten; CSend "c"] (mkSession [] [] ∅) = Some x ∧ writeQueue x = ["b"; "c"] ∧ started x = ["a"; "b"].
Proof.
  eexists. split; [reflexivity|].
  destruct (session_writes_in_order [CSend "a"; CSend "b"; CWritten; CSend "c"] _ eq_refl) as (E1 & E2 & _).
  split; [exact E1|exact E2].
Defined.


Lemma ws_order_not_found_witness :
  (∃ a' e, handleMessage (λ _, ret tt) 0 5 7 "cancel" ex_app = (Ok tt, a') ∧
     a_in a' = IncomingQueues.push "WebSocket" e (a_in ex_app)) ∧
  handleMessage (λ _, ret tt) 0 5 7 "replace" ex_app = (Ok tt, set_objects (alter (send "text") 7%nat (objects ex_app)) ex_app).
Proof.
  assert (dated (a_store ex_app)) as Hd by (by intros i l [-> _]%ex_lookup).
  destruct (ws_order_not_found (λ _, ret tt) 0 5 7 "cancel" ex_app Hd) as [Hc _].
  destruct (ws_order_not_found (λ _, ret tt) 0 5 7 "replace" ex_app Hd) as [_ Hr]. split.
  - destruct (Hc (mkCancel 100 "") ltac:(by vm_compute)) as (a' & e & E & Eq & _). by exists a', e.
  - by apply (Hr (mkReplace 100 px0 5 INVALID_TIF false true false) "text").
Defined.

Lemma ws_accept_throws_witness : ∃ m a' x', onAccept false 7 ex_app = (Throw m, a') ∧ objects a' !! 7%nat = Some x' ∧
  length (writeQueue x') = 3%nat.
Proof.
  apply (ws_accept_throws 7 (mkSession [] [] ∅) ex_app ex_id 0%nat ex_stored).
  - intros j. by exists "text".
  - intros j q [_ ->]%ex_lookup. by eexists.
  - reflexivity.
  - reflexivity.
  - reflexivity.
  - reflexivity.
Defined.

Definition ex_report : ExecutionEntry := mkExec NEW_EXECTYPE 5 ex_id (mkIdT 3 1000) NEW_ORDSTATUS "" XPlain.

Lemma ws_report_broadcast_witness : ∃ m, push_exec 5 ex_report ex_app = (Throw m, set_posted [(7%nat, "text")] ex_app).
Proof.
  destruct (ws_report_broadcast 5 ex_report ex_app "text") as [_ H]; [vm_compute; reflexivity|].
  exact (proj2 (H 0%nat ex_stored eq_refl eq_refl) eq_refl).
Defined.
End WsApp.
