(* ===== verification/Codecs.v ===== *)
(** The record codecs of [src/src/*Codec.cpp] and the [serialize]/[restore] pairs
    of [src/src/DataModelDef.cpp] and [src/src/OrderStateMachineImpl.cpp].  A
    buffer is the list of its bytes; integers are little-endian ([int] and
    enumerations 4 bytes, [size_t], [u64] and [double] 8 bytes). *)

From Stdlib Require Import Ascii String ZArith Lia.
From S2P Require Import Prelude Types.

Abbreviation bytes := (list ascii).

(** ** Little-endian integers *)

(** The [n] bytes [memcpy] copies out of an integer. *)
Fixpoint le_enc (n : nat) (z : Z) : bytes :=
  match n with
  | O => []
  | S n' => ascii_of_N (Z.to_N (z `mod` 256)) :: le_enc n' (z / 256)
  end.

Fixpoint le_dec (l : bytes) : Z :=
  match l with
  | [] => 0
  | b :: l' => Z.of_N (N_of_ascii b) + 256 * le_dec l'
  end.

Lemma le_enc_length n z : length (le_enc n z) = n.
Proof. revert z. induction n; simpl; auto. Qed.

Lemma le_dec_enc n z : 0 <= z < 256 ^ Z.of_nat n → le_dec (le_enc n z) = z.
Proof.
  revert z. induction n as [|n IH]; intros z Hz; simpl.
  { change (256 ^ Z.of_nat 0) with 1 in Hz. lia. }
  rewrite Nat2Z.inj_succ, Z.pow_succ_r in Hz by lia.
  pose proof (Z.mod_pos_bound z 256 ltac:(lia)).
  rewrite N_ascii_embedding by lia. rewrite Z2N.id by lia.
  rewrite IH; [pose proof (Z.div_mod z 256 ltac:(lia)); lia|].
  split; [apply Z.div_pos; lia|apply Z.div_lt_upper_bound; lia].
Qed.

(** A signed 32-bit integer and its two's complement. *)
Definition to_i32 (u : Z) : Z := if u <? 2 ^ 31 then u else u - 2 ^ 32.

Lemma to_i32_wrap z : is_i32 z → to_i32 (wrap32 z) = z.
Proof.
  unfold is_i32, to_i32, wrap32. intros Hz. destruct (Z.ltb_spec z 0).
  - rewrite <- (Z_mod_plus_full z 1 (2 ^ 32)), Z.mod_small by lia.
    destruct (Z.ltb_spec (z + 1 * 2 ^ 32) (2 ^ 31)); lia.
  - rewrite Z.mod_small by lia. destruct (Z.ltb_spec z (2 ^ 31)); lia.
Qed.

(** ** Reading a buffer

    The state is the rest of the buffer; every read past its end is a
    [Crash]. *)
Definition P (A : Type) : Type := M bytes A.

Definition overread : string := "read past the end of the buffer".

Definition memcpy (n : nat) : P bytes := λ b,
  if (length b <? n)%nat then (Crash overread, b) else (Ok (take n b), drop n b).

(** [if (c != *p) throw runtime_error(msg); ++p;] -- no size check precedes it. *)
Definition expect (c : ascii) (msg : string) : P unit := λ b,
  match b with
  | [] => (Crash overread, b)
  | x :: b' => if Ascii.eqb x c then (Ok tt, b') else (Throw msg, b)
  end.

(** [if (size < (p - buf) + n) throw runtime_error(msg);] *)
Definition need (n : nat) (msg : string) : P unit := λ b,
  if (length b <? n)%nat then (Throw msg, b) else (Ok tt, b).

Arguments memcpy : simpl never.
Arguments expect : simpl never.
Arguments need : simpl never.

Definition rd_u32 : P Z := b <- memcpy 4 ;; ret (le_dec b).
Definition rd_u64 : P Z := b <- memcpy 8 ;; ret (le_dec b).
Definition rd_i32 : P Z := b <- memcpy 4 ;; ret (to_i32 (le_dec b)).
Definition rd_enum {A} `{Enum A} : P A :=
  b <- memcpy 4 ;;
  match enum_of_code (A := A) (to_i32 (le_dec b)) with
  | Some x => ret x
  | None => crash "value outside the enumeration"
  end.

Arguments rd_u32 : simpl never.
Arguments rd_u64 : simpl never.
Arguments rd_i32 : simpl never.

Definition wr_u32 (z : Z) : bytes := le_enc 4 z.
Definition wr_u64 (z : Z) : bytes := le_enc 8 z.
Definition wr_i32 (z : Z) : bytes := le_enc 4 (wrap32 z).
Definition wr_enum {A} `{Enum A} (x : A) : bytes := le_enc 4 (enum_code x).

Arguments wr_u32 : simpl never.
Arguments wr_u64 : simpl never.
Arguments wr_i32 : simpl never.
Arguments wr_enum : simpl never.

(** ** The round-trip interface

    [dec] reads back what [enc] wrote, and stops exactly behind it. *)
Class RoundTrip {A} (wf : A → Prop) (enc : A → bytes) (dec : P A) : Prop :=
  round_trip : ∀ v rest, wf v → dec (enc v ++ rest) = (Ok v, rest).

Lemma memcpy_app b rest : memcpy (length b) (b ++ rest) = (Ok b, rest).
Proof.
  unfold memcpy. rewrite length_app. destruct (Nat.ltb_spec (length b + length rest) (length b)); [lia|].
  by rewrite take_app_length, drop_app_length.
Qed.

Lemma memcpy_le n z rest : memcpy n (le_enc n z ++ rest) = (Ok (le_enc n z), rest).
Proof. rewrite <- (le_enc_length n z) at 1. apply memcpy_app. Qed.

Lemma expect_cons c msg rest : expect c msg (c :: rest) = (Ok tt, rest).
Proof. unfold expect. by rewrite Ascii.eqb_refl. Qed.

Lemma need_ok n msg b : (n <= length b)%nat → need n msg b = (Ok tt, b).
Proof. intros. unfold need. destruct (Nat.ltb_spec (length b) n); [lia|done]. Qed.

#[global] Instance rt_u32 : RoundTrip is_u32 wr_u32 rd_u32.
Proof.
  intros z rest Hz. unfold rd_u32, wr_u32, bind, ret. rewrite memcpy_le, le_dec_enc; done.
Qed.
#[global] Instance rt_u64 : RoundTrip is_u64 wr_u64 rd_u64.
Proof.
  intros z rest Hz. unfold rd_u64, wr_u64, bind, ret. rewrite memcpy_le, le_dec_enc; done.
Qed.
#[global] Instance rt_i32 : RoundTrip is_i32 wr_i32 rd_i32.
Proof.
  intros z rest Hz. unfold rd_i32, wr_i32, bind, ret. rewrite memcpy_le, le_dec_enc.
  - by rewrite to_i32_wrap.
  - apply wrap32_range.
Qed.

(** An enumeration small enough for an [int], as they all are. *)
Class SmallEnum (A : Type) `{Enum A} : Prop :=
  small_enum : (length (enum_all (A := A)) <= 100)%nat.
#[global] Instance rt_enum {A} `{SmallEnum A} : RoundTrip (λ _ : A, True) wr_enum rd_enum.
Proof.
  intros x rest _. unfold rd_enum, wr_enum, bind, ret. rewrite memcpy_le.
  pose proof (enum_code_range x). pose proof small_enum.
  rewrite le_dec_enc by (change (256 ^ Z.of_nat 4) with (2 ^ 32); lia).
  unfold to_i32. destruct (Z.ltb_spec (enum_code x) (2 ^ 31)); [|lia].
  by rewrite enum_of_code_code.
Qed.

Ltac solve_small := unfold SmallEnum; simpl; lia.
#[global] Instance small_RawDataType : SmallEnum RawDataType. Proof. solve_small. Qed.
#[global] Instance small_AccountType : SmallEnum AccountType. Proof. solve_small. Qed.
#[global] Instance small_OrderType : SmallEnum OrderType. Proof. solve_small. Qed.
#[global] Instance small_Currency : SmallEnum Currency. Proof. solve_small. Qed.
#[global] Instance small_Capacity : SmallEnum Capacity. Proof. solve_small. Qed.
#[global] Instance small_TimeInForce : SmallEnum TimeInForce. Proof. solve_small. Qed.
#[global] Instance small_Side : SmallEnum Side. Proof. solve_small. Qed.
#[global] Instance small_SettlType : SmallEnum SettlTypeBase. Proof. solve_small. Qed.
#[global] Instance small_OrderStatus : SmallEnum OrderStatus. Proof. solve_small. Qed.

(** ** Identifiers and the state machine zones *)

(** IdT::serialize(string) -- src/src/DataModelDef.cpp:132-143 *)
Definition IdT_serialize (i : IdT) : bytes := wr_u32 (date_ i) ++ ":"%char :: wr_u64 (id_ i).

(** IdT::restore -- src/src/DataModelDef.cpp:159-176 *)
Definition IdT_restore : P IdT :=
  need 13 "Unable to restore IdT - buffer size less than expected!" ;;;
  d <- rd_u32 ;;
  expect ":"%char "Unable to restore IdT - ':' missed after date!" ;;;
  i <- rd_u64 ;;
  ret (mkIdT i d).

Lemma IdT_serialize_length i : length (IdT_serialize i) = 13%nat.
Proof.
  unfold IdT_serialize, wr_u32, wr_u64. rewrite length_app, le_enc_length.
  cbn [length]. by rewrite le_enc_length.
Qed.

#[global] Instance rt_IdT : RoundTrip wf_IdT IdT_serialize IdT_restore.
Proof.
  intros [i d] rest [Hi Hd]. unfold IdT_restore, IdT_serialize, bind, ret. cbn [id_ date_] in *.
  rewrite need_ok by (rewrite length_app; pose proof (IdT_serialize_length (mkIdT i d)) as E;
    unfold IdT_serialize in E; cbn [id_ date_] in E; lia).
  rewrite <- app_assoc, (round_trip (wf := is_u32) (dec := rd_u32)) by done.
  cbn [app].
  by rewrite expect_cons, (round_trip (wf := is_u64) (dec := rd_u64)).
Qed.

(** OrderStatePersistence::serialize(string) -- src/src/OrderStateMachineImpl.cpp:57-68 *)
Definition SMP_serialize (s : OrderStatePersistence) : bytes :=
  wr_i32 (smp_zone1 s) ++ ":"%char :: wr_i32 (smp_zone2 s).

(** OrderStatePersistence::restore -- src/src/OrderStateMachineImpl.cpp:82-99 *)
Definition SMP_restore : P OrderStatePersistence :=
  need 9 "Unable to restore OrderStatePersistence - buffer size less than expected!" ;;;
  z1 <- rd_i32 ;;
  expect ":"%char "Unable to restore OrderStatePersistence - ':' missed after stateZone1Id!" ;;;
  z2 <- rd_i32 ;;
  ret (mkSMP z1 z2).

Definition wf_SMP (s : OrderStatePersistence) : Prop := is_i32 (smp_zone1 s) ∧ is_i32 (smp_zone2 s).

Lemma SMP_serialize_length s : length (SMP_serialize s) = 9%nat.
Proof.
  unfold SMP_serialize, wr_i32. rewrite length_app, le_enc_length.
  cbn [length]. by rewrite le_enc_length.
Qed.

#[global] Instance rt_SMP : RoundTrip wf_SMP SMP_serialize SMP_restore.
Proof.
  intros [z1 z2] rest [H1 H2]. unfold SMP_restore, SMP_serialize, bind, ret.
  cbn [smp_zone1 smp_zone2] in *.
  rewrite need_ok by (rewrite length_app; pose proof (SMP_serialize_length (mkSMP z1 z2)) as E;
    unfold SMP_serialize in E; cbn [smp_zone1 smp_zone2] in E; lia).
  rewrite <- app_assoc, (round_trip (wf := is_i32) (dec := rd_i32)) by done.
  cbn [app].
  by rewrite expect_cons, (round_trip (wf := is_i32) (dec := rd_i32)).
Qed.

(** ** Running a decoder on what an encoder wrote *)
Section run.
Context {A B : Type}.

Lemma rt_bind (wf : A → Prop) enc dec (k : A → P B) v rest :
  RoundTrip wf enc dec → wf v → bind dec k (enc v ++ rest) = k v rest.
Proof. intros Hrt Hv. unfold bind. by rewrite (Hrt v rest Hv). Qed.

Lemma expect_bind c msg (k : unit → P B) rest : bind (expect c msg) k (c :: rest) = k tt rest.
Proof. unfold bind. by rewrite expect_cons. Qed.

Lemma need_bind n msg (k : unit → P B) b : (n <= length b)%nat → bind (need n msg) k b = k tt b.
Proof. intros. unfold bind. by rewrite need_ok. Qed.
End run.

(** ** Strings and reference data *)

(** StringTCodec::serialize -- src/src/StringTCodec.cpp:32-43
    Appended to the target buffer by the callers. *)
Definition StringT_serialize (s : StringT) : bytes :=
  wr_u64 (Z.of_nat (String.length s)) ++ list_ascii_of_string s.

(** StringTCodec::restore -- src/src/StringTCodec.cpp:45-64
    The restored characters are appended to [*val], here [old]. *)
Definition StringT_restore (old : StringT) : P StringT := λ b,
  if (length b <? 8)%nat then (Crash "assert", b)
  else (valSize <- rd_u64 ;;
        rest <- gets (λ b : bytes, Z.of_nat (length b)) ;;
        if rest <? valSize then
          throw "restore(StringT): unable to restore value, buffer size too small!"
        else if 0 =? valSize then ret old
        else bs <- memcpy (Z.to_nat valSize) ;; ret (old +:+ string_of_list_ascii bs)) b.

Lemma list_ascii_length s : length (list_ascii_of_string s) = String.length s.
Proof. induction s; simpl; auto. Qed.

(** A string whose size fits a [size_t]. *)
Definition wf_string (s : StringT) : Prop := Z.of_nat (String.length s) < 2 ^ 64.

#[global] Instance rt_StringT : RoundTrip wf_string StringT_serialize (StringT_restore "").
Proof.
  intros s rest Hs. unfold StringT_serialize, StringT_restore. rewrite <- app_assoc.
  destruct (Nat.ltb_spec (length (wr_u64 (Z.of_nat (String.length s)) ++
    list_ascii_of_string s ++ rest)) 8) as [Hl|_].
  { rewrite length_app in Hl. unfold wr_u64 in Hl. rewrite le_enc_length in Hl. lia. }
  rewrite (rt_bind is_u64); [|apply _|split; [lia|done]].
  unfold bind, gets, ret. rewrite length_app, list_ascii_length.
  destruct (Z.ltb_spec (Z.of_nat (String.length s + length rest)) (Z.of_nat (String.length s))); [lia|].
  destruct (Z.eqb_spec 0 (Z.of_nat (String.length s))); [by destruct s|].
  rewrite Nat2Z.id, <- list_ascii_length, memcpy_app. by rewrite string_of_list_ascii_of_string.
Qed.

Definition dot : ascii := ".".

(** RawDataCodec::encode -- src/src/RawDataCodec.cpp:43-66
    The bytes appended to [*buf]; [*id] is [rd_id], [*version] is 0. *)
Definition RawData_encode (v : RawDataEntry) : bytes :=
  wr_enum (rd_type v) ++ dot :: wr_u32 (rd_length v) ++ dot :: rd_data v.

(** RawDataCodec::decode -- src/src/RawDataCodec.cpp:68-115
    Into a default constructed entry. *)
Definition RawData_decode (id : IdT) : P RawDataEntry :=
  need 4 "Invalid format of the encoded RawData - size less than required, unable decode type!" ;;;
  ty <- rd_enum ;;
  expect dot "Invalid format of the encoded RawData - missed '.' after type!" ;;;
  need 4 "Invalid format of the encoded RawData - size less than required, unable decode length!" ;;;
  len <- rd_u32 ;;
  expect dot "Invalid format of the encoded RawData - missed '.' after length!" ;;;
  if 0 =? len then ret (mkRaw id ty [])
  else
    need (Z.to_nat len)
      "Invalid format of the encoded RawData - size less than required, unable decode data!" ;;;
    data <- memcpy (Z.to_nat len) ;;
    ret (mkRaw id ty data).

(** AccountCodec::encode -- src/src/AccountCodec.cpp:41-60 *)
Definition Account_encode (v : AccountEntry) : bytes :=
  StringT_serialize (ac_account v) ++ dot :: StringT_serialize (ac_firm v) ++ dot ::
  wr_enum (ac_type v).

(** AccountCodec::decode -- src/src/AccountCodec.cpp:62-89 *)
Definition Account_decode (id : IdT) : P AccountEntry :=
  account <- StringT_restore "" ;;
  expect dot "Invalid format of the encoded Account - missed '.' after account!" ;;;
  firm <- StringT_restore "" ;;
  expect dot "Invalid format of the encoded Account - missed '.' after firm!" ;;;
  need 4 "Invalid format of the encoded Account - size less than required, unable decode type!" ;;;
  ty <- rd_enum ;;
  ret (mkAcct account firm id ty).

(** ClearingCodec::encode -- src/src/ClearingCodec.cpp:37-47 *)
Definition Clearing_encode (v : ClearingEntry) : bytes := StringT_serialize (cl_firm v).

(** ClearingCodec::decode -- src/src/ClearingCodec.cpp:49-57 *)
Definition Clearing_decode (id : IdT) : P ClearingEntry :=
  firm <- StringT_restore "" ;; ret (mkClr firm id).

(** InstrumentCodec::encode -- src/src/InstrumentCodec.cpp:38-52 *)
Definition Instrument_encode (v : InstrumentEntry) : bytes :=
  StringT_serialize (in_symbol v) ++ dot :: StringT_serialize (in_securityId v) ++ dot ::
  StringT_serialize (in_securityIdSource v).

(** InstrumentCodec::decode -- src/src/InstrumentCodec.cpp:54-74 *)
Definition Instrument_decode (id : IdT) : P InstrumentEntry :=
  symbol <- StringT_restore "" ;;
  expect dot "Invalid format of the encoded Instrument - missed '.' after symbol!" ;;;
  sid <- StringT_restore "" ;;
  expect dot "Invalid format of the encoded Instrument - missed '.' after securityId!" ;;;
  src <- StringT_restore "" ;;
  ret (mkInstr symbol sid src id).

Definition wf_raw (v : RawDataEntry) : Prop := rd_length v < 2 ^ 32.
Definition wf_account (v : AccountEntry) : Prop := wf_string (ac_account v) ∧ wf_string (ac_firm v).
Definition wf_clearing (v : ClearingEntry) : Prop := wf_string (cl_firm v).
Definition wf_instrument (v : InstrumentEntry) : Prop :=
  wf_string (in_symbol v) ∧ wf_string (in_securityId v) ∧ wf_string (in_securityIdSource v).

Lemma wr_u32_length z : length (wr_u32 z) = 4%nat.
Proof. apply le_enc_length. Qed.
Lemma wr_u64_length z : length (wr_u64 z) = 8%nat.
Proof. apply le_enc_length. Qed.
Lemma wr_i32_length z : length (wr_i32 z) = 4%nat.
Proof. apply le_enc_length. Qed.
Lemma wr_enum_length {A} `{Enum A} (x : A) : length (wr_enum x) = 4%nat.
Proof. apply le_enc_length. Qed.

Lemma RawData_round_trip v rest : wf_raw v →
  RawData_decode (rd_id v) (RawData_encode v ++ rest) = (Ok v, rest).
Proof.
  intros Hv. unfold RawData_decode, RawData_encode. rewrite <- app_assoc, need_bind.
  2: rewrite length_app, wr_enum_length; lia.
  rewrite (rt_bind (λ _, True)) by (done || apply _). cbn [app]. rewrite expect_bind, <- app_assoc.
  rewrite need_bind by (rewrite length_app, wr_u32_length; lia).
  rewrite (rt_bind is_u32) by (apply _ || (unfold is_u32, rd_length, wf_raw, rd_length in *; lia)).
  cbn [app]. rewrite expect_bind. unfold rd_length.
  destruct (Z.eqb_spec 0 (Z.of_nat (length (rd_data v)))).
  - destruct v as [i ty [|b d]]; simpl in *; [done|lia].
  - rewrite need_bind by (rewrite length_app; lia). unfold bind, ret.
    rewrite Nat2Z.id, memcpy_app. by destruct v.
Qed.

Lemma Account_round_trip v rest : wf_account v →
  Account_decode (ac_id v) (Account_encode v ++ rest) = (Ok v, rest).
Proof.
  intros [H1 H2]. unfold Account_decode, Account_encode.
  rewrite <- app_assoc, (rt_bind wf_string) by (done || apply _). cbn [app]. rewrite expect_bind.
  rewrite <- app_assoc, (rt_bind wf_string) by (done || apply _). cbn [app]. rewrite expect_bind.
  rewrite need_bind by (rewrite length_app, wr_enum_length; lia).
  rewrite (rt_bind (λ _, True)) by (done || apply _). by destruct v.
Qed.

Lemma Clearing_round_trip v rest : wf_clearing v →
  Clearing_decode (cl_id v) (Clearing_encode v ++ rest) = (Ok v, rest).
Proof.
  intros H1. unfold Clearing_decode, Clearing_encode.
  rewrite (rt_bind wf_string) by (done || apply _). by destruct v.
Qed.

Lemma Instrument_round_trip v rest : wf_instrument v →
  Instrument_decode (in_id v) (Instrument_encode v ++ rest) = (Ok v, rest).
Proof.
  intros (H1 & H2 & H3). unfold Instrument_decode, Instrument_encode.
  rewrite <- app_assoc, (rt_bind wf_string) by (done || apply _). cbn [app]. rewrite expect_bind.
  rewrite <- app_assoc, (rt_bind wf_string) by (done || apply _). cbn [app]. rewrite expect_bind.
  rewrite (rt_bind wf_string) by (done || apply _). by destruct v.
Qed.

(** ** Orders *)

(** OrderCodec::encode, the fields it appends -- src/src/OrderCodec.cpp:40-157
    In the order they are written; [execInstruct_] is not among them. *)
Definition Order_fields (o : OrderEntry) : list bytes :=
  [IdT_serialize (o_instrument o); IdT_serialize (o_account o); IdT_serialize (o_clearing o);
   IdT_serialize (o_destination o); IdT_serialize (o_clOrderId o);
   IdT_serialize (o_origClOrderId o); IdT_serialize (o_source o); IdT_serialize (o_executions o);
   IdT_serialize (o_origOrderId o);
   wr_u64 (o_creationTime o); wr_u64 (o_lastUpdateTime o); wr_u64 (o_expireTime o);
   wr_u64 (o_settlDate o); wr_u64 (o_price o); wr_u64 (o_stopPx o); wr_u64 (o_avgPx o);
   wr_u64 (o_dayAvgPx o);
   wr_enum (o_status o); wr_enum (o_side o); wr_enum (o_ordType o); wr_enum (o_tif o);
   wr_enum (o_settlType o); wr_enum (o_capacity o); wr_enum (o_currency o);
   wr_u32 (o_minQty o); wr_u32 (o_orderQty o); wr_u32 (o_leavesQty o); wr_u32 (o_cumQty o);
   wr_u32 (o_dayOrderQty o); wr_u32 (o_dayCumQty o)].

(** Each field followed by a dot, then the last part. *)
Definition dotted (fields : list bytes) (final : bytes) : bytes :=
  foldr (λ b acc, b ++ dot :: acc) final fields.

(** OrderCodec::encode(string) -- src/src/OrderCodec.cpp:31-159
    [buf] is the string appended to; the results are [*buf], [*id] and
    [*version]. *)
Definition Order_encode (o : OrderEntry) (buf : bytes) : bytes * IdT * Z :=
  (buf ++ dotted (Order_fields o) (SMP_serialize (o_smp o)), o_orderId o, 0).

(** [memcpy(p, ...); p += n;] and [*p = c; ++p;] into a buffer: the state is the
    buffer and the position of [p]; a write past the buffer is a [Crash]. *)
Definition write (b : bytes) : M (bytes * nat) unit := λ st,
  let '(buf, p) := st in
  if (length buf <? p + length b)%nat then (Crash "write past the end of the buffer", st)
  else (Ok tt, (take p buf ++ b ++ drop (p + length b) buf, p + length b))%nat.

(** IdT::serialize(char pointer) -- src/src/DataModelDef.cpp:145-157 *)
Definition IdT_write (i : IdT) : M (bytes * nat) unit :=
  write (wr_u32 (date_ i)) ;;; write [":"%char] ;;; write (wr_u64 (id_ i)).

(** OrderStatePersistence::serialize(char pointer) -- src/src/OrderStateMachineImpl.cpp:70-80 *)
Definition SMP_write (s : OrderStatePersistence) : M (bytes * nat) unit :=
  write (wr_i32 (smp_zone1 s)) ;;; write [":"%char] ;;; write (wr_i32 (smp_zone2 s)).

Definition id_dot (i : IdT) : M (bytes * nat) unit := IdT_write i ;;; write [dot].
Definition raw_dot (b : bytes) : M (bytes * nat) unit := write b ;;; write [dot].

(** OrderCodec::encode(char pointer) -- src/src/OrderCodec.cpp:161-318 *)
Definition Order_encode_ptr (o : OrderEntry) : M (bytes * nat) unit :=
  id_dot (o_instrument o) ;;; id_dot (o_account o) ;;; id_dot (o_clearing o) ;;;
  id_dot (o_destination o) ;;; id_dot (o_clOrderId o) ;;; id_dot (o_origClOrderId o) ;;;
  id_dot (o_source o) ;;; id_dot (o_executions o) ;;; id_dot (o_origOrderId o) ;;;
  raw_dot (wr_u64 (o_creationTime o)) ;;; raw_dot (wr_u64 (o_lastUpdateTime o)) ;;;
  raw_dot (wr_u64 (o_expireTime o)) ;;; raw_dot (wr_u64 (o_settlDate o)) ;;;
  raw_dot (wr_u64 (o_price o)) ;;; raw_dot (wr_u64 (o_stopPx o)) ;;;
  raw_dot (wr_u64 (o_avgPx o)) ;;; raw_dot (wr_u64 (o_dayAvgPx o)) ;;;
  raw_dot (wr_enum (o_status o)) ;;; raw_dot (wr_enum (o_side o)) ;;;
  raw_dot (wr_enum (o_ordType o)) ;;; raw_dot (wr_enum (o_tif o)) ;;;
  raw_dot (wr_enum (o_settlType o)) ;;; raw_dot (wr_enum (o_capacity o)) ;;;
  raw_dot (wr_enum (o_currency o)) ;;;
  raw_dot (wr_u32 (o_minQty o)) ;;; raw_dot (wr_u32 (o_orderQty o)) ;;;
  raw_dot (wr_u32 (o_leavesQty o)) ;;; raw_dot (wr_u32 (o_cumQty o)) ;;;
  raw_dot (wr_u32 (o_dayOrderQty o)) ;;; raw_dot (wr_u32 (o_dayCumQty o)) ;;;
  SMP_write (o_smp o).

Definition missed (name : string) : string :=
  "Invalid format of the encoded OrderEntry - missed '.' after " +:+ name +:+ "!".
Definition too_short (name : string) : string :=
  "Invalid format of the encoded OrderEntry - size less than required, unable decode "
    +:+ name +:+ "!".

(** [p = x.restore(p, size - (p - buf)); if ('.' != *p) throw ...; ++p;] *)
Definition id_field (name : string) : P IdT :=
  i <- IdT_restore ;; expect dot (missed name) ;;; ret i.

(** [if (size < (p - buf) + sizeof(x)) throw ...; memcpy(&x, p, sizeof(x)); ...] *)
Definition field {A} (n : nat) (dec : P A) (name : string) : P A :=
  need n (too_short name) ;;; v <- dec ;; expect dot (missed name) ;;; ret v.

(** OrderCodec::decode, the identifiers -- src/src/OrderCodec.cpp:320-391 *)
Definition Order_decode_ids (id : IdT) : P OrderEntry :=
  instrumentId <- id_field "instrumentId" ;;
  accountId <- id_field "accountId" ;;
  clearingId <- id_field "cleaingId" ;;
  destId <- id_field "destinationId" ;;
  clOrderId <- id_field "clOrderId_" ;;
  origClOrderID <- id_field "origClOrderId_" ;;
  sourceId <- id_field "source_" ;;
  executionsId <- id_field "executions_" ;;
  ret (set_orderId id
    (OrderEntry_make sourceId destId clOrderId origClOrderID instrumentId accountId clearingId
       executionsId)).

(** The times and prices of a decoded order. *)
Record DecodedTimes := mkDT {
  dt_origOrderId : IdT; dt_creationTime : Z; dt_lastUpdateTime : Z; dt_expireTime : Z;
  dt_settlDate : Z; dt_price : Z; dt_stopPx : Z; dt_avgPx : Z; dt_dayAvgPx : Z }.

(** OrderCodec::decode, times and prices -- src/src/OrderCodec.cpp:393-502 *)
Definition Order_decode_times : P DecodedTimes :=
  origOrderId <- id_field "origOrderId_" ;;
  creationTime <- field 8 rd_u64 "creationTime" ;;
  lastUpdateTime <- field 8 rd_u64 "lastUpdateTime_" ;;
  expireTime <- field 8 rd_u64 "expireTime_" ;;
  settlDate <- field 8 rd_u64 "settlDate_" ;;
  price <- field 8 rd_u64 "price_" ;;
  stopPx <- field 8 rd_u64 "stopPx_" ;;
  avgPx <- field 8 rd_u64 "avgPx_" ;;
  dayAvgPx <- field 8 rd_u64 "dayAvgPx_" ;;
  ret (mkDT origOrderId creationTime lastUpdateTime expireTime settlDate price stopPx avgPx dayAvgPx).

(** OrderCodec::decode, enumerations, quantities and zones -- src/src/OrderCodec.cpp:504-675
    The remaining fields, read into the order that holds the identifiers. *)
Definition Order_decode_rest (o : OrderEntry) (t : DecodedTimes) : P OrderEntry :=
  status <- field 4 rd_enum "status_" ;;
  side <- field 4 rd_enum "side_" ;;
  ordType <- field 4 rd_enum "ordType_" ;;
  tif <- field 4 rd_enum "tif_" ;;
  settlType <- field 4 rd_enum "settlType_" ;;
  capacity <- field 4 rd_enum "capacity_" ;;
  currency <- field 4 rd_enum "currency_" ;;
  minQty <- field 4 rd_u32 "minQty_" ;;
  orderQty <- field 4 rd_u32 "orderQty_" ;;
  leavesQty <- field 4 rd_u32 "leavesQty_" ;;
  cumQty <- field 4 rd_u32 "cumQty_" ;;
  dayOrderQty <- field 4 rd_u32 "dayOrderQty_" ;;
  dayCumQty <- field 4 rd_u32 "dayCumQty_" ;;
  smp <- SMP_restore ;;
  ret (mkOrder (o_orderId o) (dt_origOrderId t) (dt_price t) status side ordType leavesQty cumQty
    orderQty tif (dt_stopPx t) (dt_avgPx t) (dt_dayAvgPx t) (dt_creationTime t)
    (dt_lastUpdateTime t) (dt_expireTime t) (dt_settlDate t) settlType capacity currency minQty
    dayOrderQty dayCumQty smp (o_instrument o) (o_account o) (o_clearing o) (o_destination o)
    (o_execInstruct o) (o_clOrderId o) (o_origClOrderId o) (o_source o) (o_executions o)).

(** OrderCodec::decode -- src/src/OrderCodec.cpp:320-675
    The three parts in a row. *)
Definition Order_decode (id : IdT) : P OrderEntry := λ b,
  match b with
  | [] => (Crash "assert", b)
  | _ => (o <- Order_decode_ids id ;; t <- Order_decode_times ;; Order_decode_rest o t) b
  end.

(** ** Properties of the codecs *)

(** Every field within the range of its C++ type. *)
Record wf_order (o : OrderEntry) : Prop := {
  wo_ids : Forall wf_IdT [o_instrument o; o_account o; o_clearing o; o_destination o;
    o_clOrderId o; o_origClOrderId o; o_source o; o_executions o; o_origOrderId o];
  wo_u64 : Forall is_u64 [o_creationTime o; o_lastUpdateTime o; o_expireTime o; o_settlDate o;
    o_price o; o_stopPx o; o_avgPx o; o_dayAvgPx o];
  wo_u32 : Forall is_u32 [o_minQty o; o_orderQty o; o_leavesQty o; o_cumQty o; o_dayOrderQty o;
    o_dayCumQty o];
  wo_smp : wf_SMP (o_smp o);
}.

(** The order without its execution instructions. *)
Definition drop_execInstruct (o : OrderEntry) : OrderEntry :=
  upd_order o (λ a b c d e f g h i j k l m n p q r s t u w x y z aa bb cc dd _,
    mkOrder a b c d e f g h i j k l m n p q r s t u w x y z aa bb cc dd []).

Section order_fields.
Context {B : Type}.

Lemma id_field_bind name (k : IdT → P B) i rest : wf_IdT i →
  bind (id_field name) k (IdT_serialize i ++ dot :: rest) = k i rest.
Proof.
  intros Hi. unfold id_field, bind. rewrite (round_trip (wf := wf_IdT)) by done.
  by rewrite expect_cons.
Qed.

Lemma field_bind {A} (wf : A → Prop) enc dec n name (k : A → P B) v rest :
  RoundTrip wf enc dec → wf v → length (enc v) = n →
  bind (field n dec name) k (enc v ++ dot :: rest) = k v rest.
Proof.
  intros Hrt Hv Hn. unfold field, bind. rewrite need_ok by (rewrite length_app; lia).
  rewrite (Hrt v _ Hv). by rewrite expect_cons.
Qed.
End order_fields.

Lemma dotted_app fields final rest : dotted fields final ++ rest = dotted fields (final ++ rest).
Proof.
  induction fields as [|b fields IH]; simpl; [done|]. rewrite <- app_assoc. simpl. by rewrite IH.
Qed.

(** Read one field of a decoder run, by the kind of the field. *)
Ltac read_field :=
  first
    [ rewrite id_field_bind by assumption
    | rewrite (field_bind is_u64) by (apply _ || assumption || apply wr_u64_length)
    | rewrite (field_bind is_u32) by (apply _ || assumption || apply wr_u32_length)
    | rewrite (field_bind (λ _, True)) by (apply _ || exact I || apply wr_enum_length) ].

Lemma Order_round_trip o rest : wf_order o →
  Order_decode (o_orderId o) (dotted (Order_fields o) (SMP_serialize (o_smp o)) ++ rest) =
    (Ok (drop_execInstruct o), rest).
Proof.
  intros [Hids Hu64 Hu32 Hsmp]. rewrite dotted_app. unfold Order_decode, Order_fields.
  destruct (dotted _ _) as [|c b] eqn:E.
  { apply (f_equal length) in E. cbn [dotted foldr] in E.
    rewrite length_app, IdT_serialize_length in E. simpl in E. lia. }
  rewrite <- E. clear E c b. cbn [dotted foldr].
  repeat match goal with H : Forall _ (_ :: _) |- _ => apply Forall_cons in H as [? ?] end.
  unfold Order_decode_ids. repeat (rewrite bind_assoc || read_field). rewrite ret_bind.
  unfold Order_decode_times. repeat (rewrite bind_assoc || read_field). rewrite ret_bind.
  unfold Order_decode_rest. repeat read_field.
  rewrite (rt_bind wf_SMP) by (done || apply _). unfold ret. by destruct o.
Qed.

(** A writer that puts [bs] at [p] and advances [p] behind it. *)
Definition writes (c : M (bytes * nat) unit) (bs : bytes) : Prop :=
  ∀ buf p, (p + length bs <= length buf)%nat →
    c (buf, p) = (Ok tt, (take p buf ++ bs ++ drop (p + length bs) buf, p + length bs)%nat).

Lemma writes_write b : writes (write b) b.
Proof.
  intros buf p Hp. unfold write. destruct (Nat.ltb_spec (length buf) (p + length b)); [lia|done].
Qed.

Lemma writes_bind c d b1 b2 : writes c b1 → writes d b2 → writes (c ;;; d) (b1 ++ b2).
Proof.
  intros Hc Hd buf p Hp. rewrite length_app in *. unfold bind. rewrite Hc by lia.
  rewrite Hd; [|rewrite !length_app, length_take, length_drop; lia].
  do 2 f_equal; [|lia].
  assert (length (take p buf ++ b1) = p + length b1)%nat as Hl
    by (rewrite length_app, length_take; lia).
  rewrite (app_assoc (take p buf)), <- Hl, take_app_length, drop_app, Hl.
  rewrite drop_ge by lia. rewrite app_nil_l, drop_drop, <- !app_assoc.
  do 4 f_equal. lia.
Qed.

Lemma writes_eq c b b' : writes c b → b = b' → writes c b'.
Proof. by intros ? <-. Qed.

Lemma writes_IdT i : writes (IdT_write i) (IdT_serialize i).
Proof. apply (writes_bind _ _ _ (_ :: _)); [apply writes_write|].
  apply (writes_bind _ _ [_]); apply writes_write. Qed.
Lemma writes_SMP s : writes (SMP_write s) (SMP_serialize s).
Proof. apply (writes_bind _ _ _ (_ :: _)); [apply writes_write|].
  apply (writes_bind _ _ [_]); apply writes_write. Qed.

Lemma writes_id_dot i d rest : writes d rest →
  writes (id_dot i ;;; d) (IdT_serialize i ++ dot :: rest).
Proof.
  intros Hd. eapply writes_eq; [apply writes_bind; [|exact Hd]|].
  - apply (writes_bind _ _ (IdT_serialize i) [dot]); [apply writes_IdT|apply writes_write].
  - by rewrite <- app_assoc.
Qed.
Lemma writes_raw_dot b d rest : writes d rest → writes (raw_dot b ;;; d) (b ++ dot :: rest).
Proof.
  intros Hd. eapply writes_eq; [apply writes_bind; [|exact Hd]|].
  - apply (writes_bind _ _ b [dot]); apply writes_write.
  - by rewrite <- app_assoc.
Qed.
#[export] Hint Resolve writes_id_dot writes_raw_dot writes_SMP : cop.

Lemma writes_Order o :
  writes (Order_encode_ptr o) (dotted (Order_fields o) (SMP_serialize (o_smp o))).
Proof. unfold Order_encode_ptr, Order_fields. cbn [dotted foldr]. auto 50 with cop. Qed.

Lemma Order_encoded_length o :
  length (dotted (Order_fields o) (SMP_serialize (o_smp o))) = 272%nat.
Proof.
  unfold Order_fields. cbn [dotted foldr].
  repeat (rewrite length_app; cbn [length]).
  by rewrite !IdT_serialize_length, !wr_u64_length, !wr_enum_length, !wr_u32_length,
    SMP_serialize_length.
Qed.

(** C30: round trip of the order codec: decoding what [encode] appended to any
    buffer gives back every field of the order except the execution
    instructions, which are not encoded, and consumes exactly the record. *)
Theorem order_codec_round_trip o buf rest : wf_order o →
  let enc := Order_encode o buf in
  Order_decode enc.1.2 (drop (length buf) enc.1.1 ++ rest) = (Ok (drop_execInstruct o), rest).
Proof. intros Hwf. simpl. rewrite drop_app_length. by apply Order_round_trip. Qed.

(** C33: the two order encoders agree: the pointer version writes exactly the 272
    bytes the string version appends, wherever the buffer has room for them,
    and leaves the rest of the buffer alone. *)
Theorem order_encoders_agree o buf p : (p + 272 <= length buf)%nat →
  Order_encode_ptr o (buf, p) =
    (Ok tt, (take p buf ++ (Order_encode o []).1.1 ++ drop (p + 272) buf, p + 272)%nat).
Proof.
  intros Hp. rewrite <- (Order_encoded_length o) in *.
  by rewrite (writes_Order o buf p).
Qed.

(** Round trips of the reference-data codecs: instruments, accounts, clearing
    entries, raw data and strings of any content, embedded dots included, are
    decoded to what was encoded. *)
Theorem reference_codecs_round_trip ins acc clr raw str rest :
  wf_instrument ins → wf_account acc → wf_clearing clr → wf_raw raw → wf_string str →
  Instrument_decode (in_id ins) (Instrument_encode ins ++ rest) = (Ok ins, rest) ∧
  Account_decode (ac_id acc) (Account_encode acc ++ rest) = (Ok acc, rest) ∧
  Clearing_decode (cl_id clr) (Clearing_encode clr ++ rest) = (Ok clr, rest) ∧
  RawData_decode (rd_id raw) (RawData_encode raw ++ rest) = (Ok raw, rest) ∧
  StringT_restore "" (StringT_serialize str ++ rest) = (Ok str, rest).
Proof.
  intros Hi Ha Hc Hr Hs.
  split; [by apply Instrument_round_trip|]. split; [by apply Account_round_trip|].
  split; [by apply Clearing_round_trip|]. split; [by apply RawData_round_trip|].
  by apply rt_StringT.
Qed.

(** The decoders check the size before each field but not before the
    separators: on a record cut right behind a field they read one byte past the
    buffer instead of throwing. *)
Theorem decoders_overread_cut_records id i ty str : wf_IdT i → wf_string str →
  Order_decode id (IdT_serialize i) = (Crash overread, []) ∧
  RawData_decode id (wr_enum (A := RawDataType) ty) = (Crash overread, []) ∧
  Instrument_decode id (StringT_serialize str) = (Crash overread, []) ∧
  Account_decode id (StringT_serialize str) = (Crash overread, []).
Proof.
  intros Hi Hs.
  assert (∀ b : bytes, b = b ++ []) as Hnil by (intros; by rewrite app_nil_r).
  split; [|split; [|split]].
  - unfold Order_decode. destruct (IdT_serialize i) as [|c b] eqn:E.
    { apply (f_equal length) in E. by rewrite IdT_serialize_length in E. }
    rewrite <- E. unfold Order_decode_ids, id_field. rewrite !bind_assoc, (Hnil (IdT_serialize i)).
    by rewrite (rt_bind wf_IdT) by (done || apply _).
  - unfold RawData_decode. rewrite need_bind by (rewrite wr_enum_length; lia).
    rewrite (Hnil (wr_enum ty)). by rewrite (rt_bind (λ _, True)) by (done || apply _).
  - unfold Instrument_decode. rewrite (Hnil (StringT_serialize str)).
    by rewrite (rt_bind wf_string) by (done || apply _).
  - unfold Account_decode. rewrite (Hnil (StringT_serialize str)).
    by rewrite (rt_bind wf_string) by (done || apply _).
Qed.

(** ** Witnesses *)

Definition ex_id (n : Z) : IdT := mkIdT n 20.
Definition ex_order : OrderEntry :=
  mkOrder (ex_id 1) (ex_id 2) 4636737291354636288 NEW_ORDSTATUS SELL_SIDE LIMIT_ORDERTYPE 70 30 100
    GTC_TIF 0 4607182418800017408 0 5 6 7 8 _C_SETTLTYPE PRINCIPAL_CAPACITY EUR_CURRENCY 1 2 3
    (mkSMP 4 (-1)) (ex_id 3) (ex_id 4) (ex_id 5) (ex_id 6) [WORK_INSTRUCTION] (ex_id 7) (ex_id 8)
    (ex_id 9) (ex_id 10).

Ltac solve_ranges :=
  repeat (apply Forall_cons; split); try apply Forall_nil_2; repeat split; simpl; try done; lia.

Lemma ex_order_wf : wf_order ex_order.
Proof. split; solve_ranges. Qed.

Lemma order_codec_round_trip_witness :
  Order_decode (ex_id 1) (drop 1 (Order_encode ex_order ["x"%char]).1.1 ++ ["y"%char]) =
    (Ok (drop_execInstruct ex_order), ["y"%char]).
Proof. exact (order_codec_round_trip ex_order ["x"%char] ["y"%char] ex_order_wf). Defined.

Lemma order_encoders_agree_witness :
  Order_encode_ptr ex_order (replicate 300 "z"%char, 10%nat) =
    (Ok tt, (replicate 10 "z"%char ++ (Order_encode ex_order []).1.1 ++ replicate 18 "z"%char, 282%nat)).
Proof.
  rewrite (order_encoders_agree ex_order (replicate 300 "z"%char) 10
    ltac:(rewrite length_replicate; lia)). reflexivity.
Defined.

Lemma reference_codecs_round_trip_witness :
  Account_decode (ex_id 2) (Account_encode (mkAcct "a.b" "" (ex_id 2) AGENCY_ACCOUNTTYPE)) =
    (Ok (mkAcct "a.b" "" (ex_id 2) AGENCY_ACCOUNTTYPE), []).
Proof.
  pose proof (reference_codecs_round_trip (mkInstr "s" "i" "c" (ex_id 1))
    (mkAcct "a.b" "" (ex_id 2) AGENCY_ACCOUNTTYPE) (mkClr "f" (ex_id 3))
    (mkRaw (ex_id 4) STRING_RAWDATATYPE ["x"%char]) "t" []
    ltac:(repeat split; reflexivity) ltac:(repeat split; reflexivity) ltac:(reflexivity)
    ltac:(reflexivity) ltac:(reflexivity)) as (_ & H & _).
  rewrite app_nil_r in H. exact H.
Defined.

Lemma decoders_overread_cut_records_witness :
  Order_decode (ex_id 1) (IdT_serialize (ex_id 2)) = (Crash overread, []).
Proof.
  exact (proj1 (decoders_overread_cut_records (ex_id 1) (ex_id 2) STRING_RAWDATATYPE "s"
    ltac:(repeat split; simpl; lia) ltac:(reflexivity))).
Defined.
