(* ===== verification/Persist.v ===== *)
(** The record dispatcher of [src/src/StorageRecordDispatcher.cpp]: what it writes
    for each kind of data and what it restores from a record. *)

From Stdlib Require Import Ascii String ZArith Lia.
From S2P Require Import Prelude Types IdGen WideData OrderStore OrderBook LinkTree TxScope Engine Codecs.

Module Dispatcher.

(** enum StorageRecordDispatcher::RecordType -- src/src/StorageRecordDispatcher.h:76-88 *)
Inductive RecordType :=
  INVALID_RECORDTYPE | INSTRUMENT_RECORDTYPE | STRING_RECORDTYPE | ACCOUNT_RECORDTYPE
  | CLEARING_RECORDTYPE | RAWDATA_RECORDTYPE | ORDER_RECORDTYPE | EXECUTION_RECORDTYPE
  | EXECUTIONS_RECORDTYPE | TOTAL_RECORDTYPE.
#[global] Instance RecordType_dec : EqDecision RecordType. Proof. solve_decision. Defined.
#[global] Program Instance RecordType_enum : Enum RecordType := {|
  enum_all := [INVALID_RECORDTYPE; INSTRUMENT_RECORDTYPE; STRING_RECORDTYPE; ACCOUNT_RECORDTYPE;
    CLEARING_RECORDTYPE; RAWDATA_RECORDTYPE; ORDER_RECORDTYPE; EXECUTION_RECORDTYPE;
    EXECUTIONS_RECORDTYPE; TOTAL_RECORDTYPE] |}.
Next Obligation. solve_enum. Qed.

(** What the dispatcher is asked to save. *)
Inductive Data :=
  | Reference (d : WideData.DataRecord)
  | Order (o : OrderEntry).

(** [memcpy(typebuf, &t, sizeof(t)); buffer.append(typebuf, sizeof(t));] *)
Definition header (t : RecordType) : bytes := wr_enum t.

(** StorageRecordDispatcher::save, reference data -- src/src/StorageRecordDispatcher.cpp:135-243
    The identifier and the buffer given to [fileStorage_->save]. *)
Definition reference_record (d : WideData.DataRecord) : IdT * bytes :=
  match d with
  | WideData.DInstrument v => (in_id v, header INSTRUMENT_RECORDTYPE ++ Instrument_encode v)
  | WideData.DString i v => (i, header STRING_RECORDTYPE ++ StringT_serialize v)
  | WideData.DRawData v => (rd_id v, header RAWDATA_RECORDTYPE ++ RawData_encode v)
  | WideData.DAccount v => (ac_id v, header ACCOUNT_RECORDTYPE ++ Account_encode v)
  | WideData.DClearing v => (cl_id v, header CLEARING_RECORDTYPE ++ Clearing_encode v)
  | WideData.DExecutions l =>
      (mkIdT (Z.of_nat (length l)) 0,
       header EXECUTIONS_RECORDTYPE ++ wr_u64 (Z.of_nat (length l)) ++ mjoin (IdT_serialize <$> l))
  end.

(** StorageRecordDispatcher::save(OrderEntry) -- src/src/StorageRecordDispatcher.cpp:245-264 *)
Definition order_record (o : OrderEntry) : IdT * bytes :=
  let r := Order_encode o (header ORDER_RECORDTYPE) in (r.1.2, r.1.1).

Definition record (d : Data) : IdT * bytes :=
  match d with Reference d => reference_record d | Order o => order_record o end.

(** [FS] is the state of the file saver and [fs_save] its [save]. *)
Section save.
Context {FS : Type} (fs_save : IdT → bytes → M FS unit).

Definition save (d : Data) : M FS unit := fs_save (record d).1 (record d).2.
End save.

Section load.
Context {SO SD : Type} (sv_order : OrderEntry → M SO unit).
Abbreviation W := (World SO SD).

(** [orderBook_] is not null. *)
Context (orderBook_ : bool).

(** [new OrderEntry(...)] by the decoder. *)
Definition new_order (o : OrderEntry) : M W loc := λ w,
  let a := OrderStore.alloc o (w_store w) in (Ok a.1, set_store a.2 (w_gen w) w).

(** StorageRecordDispatcher::onRecordLoaded, an order -- src/src/StorageRecordDispatcher.cpp:119-126
    [orderBook_->restore(order); orderStorage_->restore(order)] *)
Definition restore_order (o : OrderEntry) : M W unit :=
  l <- new_order o ;;
  (if orderBook_ then on_book (Book.restore o) else crash "nullptr") ;;;
  w <- gets (λ w, w) ;;
  on_store (OrderStore.restore sv_order (getRaw w) l).

(** Decode the rest of the record and hand the entry on. *)
Definition decode_to {A} (dec : P A) (b : bytes) (k : A → M W unit) : M W unit :=
  v <- lift (dec b).1 ;; k v.

(** StorageRecordDispatcher::onRecordLoaded -- src/src/StorageRecordDispatcher.cpp:62-131 *)
Definition onRecordLoaded (id : IdT) (buf : bytes) : M W unit :=
  if (length buf <? 4)%nat then throw "Record size invalid, record could not be restored!"
  else
    let body := drop 4 buf in
    match enum_of_code (to_i32 (le_dec (take 4 buf))) with
    | Some INSTRUMENT_RECORDTYPE =>
        decode_to (Instrument_decode id) body (λ v, on_wide (WideData.restoreInstrument v))
    | Some STRING_RECORDTYPE =>
        decode_to (StringT_restore "") body (λ v, on_wide (WideData.restoreString id v))
    | Some ACCOUNT_RECORDTYPE =>
        decode_to (Account_decode id) body (λ v, on_wide (WideData.restoreAccount v))
    | Some CLEARING_RECORDTYPE =>
        decode_to (Clearing_decode id) body (λ v, on_wide (WideData.restoreClearing v))
    | Some RAWDATA_RECORDTYPE =>
        decode_to (RawData_decode id) body (λ v, on_wide (WideData.restoreRawData v))
    | Some EXECUTION_RECORDTYPE | Some EXECUTIONS_RECORDTYPE => ret tt
    | Some ORDER_RECORDTYPE => decode_to (Order_decode id) body restore_order
    | Some INVALID_RECORDTYPE | Some TOTAL_RECORDTYPE | None =>
        throw "Invalid record type, unable to decode record!"
    end.

(** Loading a sequence of records; an exception ends the load. *)
Fixpoint load (l : list (IdT * bytes)) : M W unit :=
  match l with
  | [] => ret tt
  | r :: l' => onRecordLoaded r.1 r.2 ;;; load l'
  end.

(** Restoring an entity itself, in the storage of its kind. *)
Definition restore_entity (d : Data) : M W unit :=
  match d with
  | Reference d => on_wide (WideData.restore d)
  | Order o => restore_order o
  end.

(** The entity that the record of [d] is read back as: the dispatcher skips the records
    of execution lists, and the codec of orders does not write the execution instructions. *)
Definition recorded (d : Data) : option Data :=
  match d with
  | Reference (WideData.DExecutions _) => None
  | Reference d => Some (Reference d)
  | Order o => Some (Order (drop_execInstruct o))
  end.

(** Nothing of the entity is lost. *)
Definition lossless (d : Data) : Prop :=
  match d with
  | Reference (WideData.DExecutions _) => False
  | Reference _ => True
  | Order o => o_execInstruct o = []
  end.

Lemma lossless_recorded d : lossless d → recorded d = Some d.
Proof. destruct d as [[]|o]; try done. cbn. intros E. f_equal. f_equal. destruct o; cbn in *. by subst. Qed.

(** What a saved record gives back. *)
Definition restore_data (d : Data) : M W unit :=
  match recorded d with Some e => restore_entity e | None => ret tt end.

(** Data within the ranges of its C++ types. *)
Definition wf_data (d : Data) : Prop :=
  match d with
  | Reference (WideData.DInstrument v) => wf_instrument v
  | Reference (WideData.DString _ v) => wf_string v
  | Reference (WideData.DRawData v) => wf_raw v
  | Reference (WideData.DAccount v) => wf_account v
  | Reference (WideData.DClearing v) => wf_clearing v
  | Reference (WideData.DExecutions _) => True
  | Order o => wf_order o
  end.

Lemma header_read t body : (length (header t ++ body) <? 4)%nat = false ∧
  enum_of_code (to_i32 (le_dec (take 4 (header t ++ body)))) = Some t ∧
  drop 4 (header t ++ body) = body.
Proof.
  unfold header. pose proof (wr_enum_length t) as Hl.
  split; [apply Nat.ltb_ge; rewrite length_app; lia|].
  assert (length (wr_enum t) = 4%nat) as Hl' by done. rewrite <- Hl' at 1.
  rewrite take_app_length. split; [by destruct t|]. by apply drop_app_length'.
Qed.

(** Decoding a body a codec wrote. *)
Lemma decode_to_ok {A} (dec : P A) b (k : A → M W unit) v w : dec b = (Ok v, []) →
  decode_to dec b k w = k v w.
Proof. intros H. unfold decode_to, bind, lift. by rewrite H. Qed.

Lemma load_record d w : wf_data d → onRecordLoaded (record d).1 (record d).2 w = restore_data d w.
Proof.
  intros Hwf. unfold onRecordLoaded.
  destruct d as [[v|i v|v|v|v|l]|o]; unfold restore_data; cbn [recorded restore_entity record reference_record fst snd order_record Order_encode].
  all: match goal with |- context [header ?t ++ ?b] => destruct (header_read t b) as (H1 & H2 & H3) end.
  all: rewrite H1, H2, ?H3; try done.
  all: erewrite decode_to_ok; [reflexivity|].
  - rewrite <- (app_nil_r (Instrument_encode v)). by apply Instrument_round_trip.
  - rewrite <- (app_nil_r (StringT_serialize v)). by apply rt_StringT.
  - rewrite <- (app_nil_r (RawData_encode v)). by apply RawData_round_trip.
  - rewrite <- (app_nil_r (Account_encode v)). by apply Account_round_trip.
  - rewrite <- (app_nil_r (Clearing_encode v)). by apply Clearing_round_trip.
  - rewrite <- (app_nil_r (dotted _ _)). by apply Order_round_trip.
Qed.

(** What the dispatcher saves it can load: replaying the records written for
    any sequence of data does exactly what restoring the data themselves in that
    order does, exceptions included -- instruments, strings, raw data, accounts
    and clearing entries come back unchanged, an order without its execution
    instructions, first into the book and then into the order storage, and
    execution lists are not restored at all. *)
Lemma replay_restores (ds : list Data) w : Forall wf_data ds →
  load (record <$> ds) w = foldr (λ d k, restore_data d ;;; k) (ret tt) ds w.
Proof.
  revert w. induction ds as [|d ds IH]; intros w Hwf; [done|].
  apply Forall_cons in Hwf as [Hd Hds]. cbn [fmap list_fmap load foldr]. unfold bind.
  rewrite (load_record d w Hd). destruct (restore_data d w) as [[[]|m|c] w']; [|done..].
  by apply IH.
Qed.
End load.

(** *** An instrument and a resting order *)

Definition ex_instr : InstrumentEntry := mkInstr "A.B" "id" "" (ex_id 3).
Definition ex_raw : RawDataEntry := mkRaw (ex_id 7) STRING_RAWDATATYPE ["c"%char].
Definition ex_data : list Data :=
  [Reference (WideData.DInstrument ex_instr); Reference (WideData.DRawData ex_raw); Order ex_order].
Definition ex_world : World unit unit :=
  mkWorld (OrderStore.create) 1 (Book.mkBook {[ex_id 3 := Book.mkGroup [] []]} None) WideData.create
    TransactionScope.empty 0%nat [] ∅ [] [].

End Dispatcher.
