(* ===== verification/FileStore.v ===== *)
(** The record file of [src/src/FileStorage.cpp]: its byte format, the operations
    that append and disable records, and loading, also of damaged files. *)

From Stdlib Require Import Ascii String ZArith Lia.
From S2P Require Import Prelude Types IdGen Codecs.

Module FileStorage.

Definition str (s : string) : bytes := list_ascii_of_string s.

(** ** Standard streams *)

(** A [FILE] opened for update: the file's bytes, the position and the
    end-of-file indicator.  Reads and writes succeed. *)
Record FILE := mkFILE { content : bytes; fpos : nat; feof : bool }.

Definition fread (n : nat) : M FILE bytes := λ f,
  let d := take n (drop (fpos f) (content f)) in
  (Ok d, mkFILE (content f) (fpos f + length d) (feof f || (length d <? n)%nat)).

Definition fseek (p : nat) : M FILE unit := λ f, (Ok tt, mkFILE (content f) p false).

Definition fseek_end : M FILE unit := λ f, (Ok tt, mkFILE (content f) (length (content f)) false).

(** Bytes written at the position; a gap after the end reads as zeros. *)
Definition write_at (p : nat) (d : bytes) (b : bytes) : bytes :=
  take p b ++ replicate (p - length b) zero ++ d ++ drop (p + length d) b.

Definition fwrite (d : bytes) : M FILE unit := λ f,
  (Ok tt, mkFILE (write_at (fpos f) d (content f)) (fpos f + length d) (feof f)).

(** ** Records *)

(** struct FileRecord -- src/src/FileStorage.h:28-39 *)
Record FileRecord := mkRec {
  fr_id : IdT; fr_offset : nat; fr_size : Z; fr_version : Z; fr_enabled : bool }.
#[global] Instance FileRecord_dec : EqDecision FileRecord. Proof. solve_decision. Defined.

(** VERSION_RECORD -- src/src/FileStorage.cpp:26-28
    As [FileStorage::init] leaves it. *)
Definition VERSION_SIZE : nat := 25.
Definition VERSION_RECORD : bytes := str "<S" ++ le_enc 4 25 ++ str "::Version 0.0.0.1E>".

(** HEADER_SIZE, HEADER_TEMPLATE, TAIL_BODY -- src/src/FileStorage.cpp:30-38 *)
Definition HEADER_SIZE : nat := 32.
Definition TAIL_SIZE : nat := 2.
Definition HEADER_ACTIVE_POS : nat := 7.

(** The object representation of an [IdT]; [pad] are its four padding bytes. *)
Definition id_bytes (i : IdT) (pad : bytes) : bytes := le_enc 8 (id_ i) ++ le_enc 4 (date_ i) ++ pad.

(** The buffer [saveRecord] fills, with the flag at [HEADER_ACTIVE_POS]. *)
Definition record_bytes (flag : ascii) (i : IdT) (pad : bytes) (version : Z) (body : bytes) : bytes :=
  str "<S" ++ le_enc 4 (Z.of_nat (length body) + 34) ++ ["."%char; flag; "."%char] ++ id_bytes i pad ++
  ["."%char] ++ le_enc 4 version ++ str "::" ++ body ++ str "E>".

(** addVersionRecord -- src/src/FileStorage.cpp:42-60 *)
Definition addVersionRecord : M FILE unit := fseek 0 ;;; fwrite VERSION_RECORD.

(** [if (!b) throw std::runtime_error(msg);] *)
Definition check (b : bool) (msg : string) : M FILE unit := if b then ret tt else throw msg.

(** checkVersionRecord -- src/src/FileStorage.cpp:62-78 *)
Definition checkVersionRecord : M FILE unit :=
  fseek 0 ;;;
  buf <- fread VERSION_SIZE ;;
  check (length buf =? VERSION_SIZE)%nat "Unable to read version record from file!" ;;;
  check (bool_decide (buf = VERSION_RECORD)) "Content of the version record incorrect!".

Definition sub (i n : nat) (l : bytes) : bytes := take n (drop i l).

(** readRecord -- src/src/FileStorage.cpp:80-161
    [body->at] throws outside the body. *)
Definition readRecord : M FILE (FileRecord * bytes) :=
  off <- gets fpos ;;
  buf <- fread HEADER_SIZE ;;
  if bool_decide (buf = []) then ret (mkRec IdT0 off 0 0 false, [])
  else
    catch (
      check (length buf =? HEADER_SIZE)%nat "Invalid record, unable to read record header!" ;;;
      check (bool_decide (sub 0 2 buf = str "<S")) "Invalid record, record header does not begins from '<S'!" ;;;
      let size := le_dec (sub 2 4 buf) in
      check (Z.of_nat HEADER_SIZE <=? size) "Invalid record, record size is less than header length!" ;;;
      check (bool_decide (sub 6 1 buf = ["."%char]))
        "Invalid record, delimiter '.' missed after record size in record header!" ;;;
      check (bool_decide (sub 7 1 buf = ["Y"%char]) || bool_decide (sub 7 1 buf = ["N"%char]))
        "Invalid record, valid flag should be 'Y'/'N' in header!" ;;;
      check (bool_decide (sub 8 1 buf = ["."%char]))
        "Invalid record, delimiter '.' missed after valid flag in record header!" ;;;
      let id := mkIdT (le_dec (sub 9 8 buf)) (le_dec (sub 17 4 buf)) in
      check (bool_decide (sub 25 1 buf = ["."%char]))
        "Invalid record, delimiter '.' missed after record id in record header!" ;;;
      let version := le_dec (sub 26 4 buf) in
      check (bool_decide (sub 30 2 buf = str "::")) "Invalid record, '::' is missed after header!" ;;;
      check (negb (size =? Z.of_nat HEADER_SIZE)) "vector::_M_range_check" ;;;
      let n := Z.to_nat (size - Z.of_nat HEADER_SIZE) in
      body <- fread n ;;
      check (length body =? n)%nat "Unable to read body of the record!" ;;;
      check (2 <=? length body)%nat "vector::_M_range_check" ;;;
      check (bool_decide (drop (length body - 2) body = str "E>")) "Invalid record's tail, 'E' or '>' is missed!" ;;;
      ret (mkRec id off size version (bool_decide (sub 7 1 buf = ["Y"%char])), take (length body - 2) body))
      (λ m, fseek (S off) ;;; throw m).

(** saveRecord -- src/src/FileStorage.cpp:163-202
    The record with its offset.  A body whose record size does not fit 32 bits
    overruns the buffer. *)
Definition saveRecord (body pad : bytes) (rec : FileRecord) : M FILE FileRecord :=
  fseek_end ;;;
  off <- gets fpos ;;
  if 2 ^ 32 <=? Z.of_nat (length body) + 34 then crash "buffer overrun"
  else
    fwrite (record_bytes "Y"%char (fr_id rec) pad (fr_version rec) body) ;;;
    ret (mkRec (fr_id rec) off (fr_size rec) (fr_version rec) (fr_enabled rec)).

(** [memchr(buf, '<', n)] *)
Fixpoint index_lt (l : bytes) : option nat :=
  match l with
  | [] => None
  | c :: l' => if bool_decide (c = "<"%char) then Some O else S <$> index_lt l'
  end.

Definition bufSize : nat := Z.to_nat 65536.

(** findNextRecord, the loop -- src/src/FileStorage.cpp:212-226
    The loop of [findNextRecord]; a round that finds nothing advances, so the
    file's length bounds the rounds. *)
Fixpoint find_chunks (fuel surrPos : nat) : M FILE unit :=
  match fuel with
  | O => crash "fuel"
  | S fuel' =>
      e <- gets feof ;;
      if e : bool then ret tt
      else
        d <- fread bufSize ;;
        if bool_decide (d = []) then ret tt
        else match index_lt d with
             | Some i => fseek (surrPos + i)
             | None => find_chunks fuel' (surrPos + length d)
             end
  end.

(** findNextRecord -- src/src/FileStorage.cpp:204-227 *)
Definition findNextRecord : M FILE unit := λ f,
  find_chunks (S (S (length (content f) - fpos f))) (fpos f) f.

(** disableRecord -- src/src/FileStorage.cpp:229-249 *)
Definition disableRecord (rec : FileRecord) : M FILE unit :=
  fseek (fr_offset rec + HEADER_ACTIVE_POS) ;;; fwrite ["N"%char].

(** ** The storage *)

(** class FileStorage -- src/src/FileStorage.h:48-104 *)
Record t := mkFS { file : option FILE; records : gmap IdT (list FileRecord); generator : IdTGenerator.t }.

(** FileStorage::FileStorage -- src/src/FileStorage.cpp:258-258 *)
Definition create : t := mkFS None ∅ IdTGenerator.init.

Definition set_records (r : gmap IdT (list FileRecord)) (st : t) : t := mkFS (file st) r (generator st).

(** An operation on [file_], asserted to be open. *)
Definition on_file {A} (c : M FILE A) : M t A := λ st,
  match file st with
  | None => (Crash "assert", st)
  | Some f => let r := c f in (r.1, mkFS (Some r.2) (records st) (generator st))
  end.

(** [assert(nullptr != file_);] *)
Definition opened : M t unit := o <- gets file ;; assert_ (bool_decide (is_Some o)).

(** FileStorage::save(id, buf, size) -- src/src/FileStorage.cpp:364-384
    [pad] are the padding bytes of the identifier. *)
Definition save (pad : bytes) (id : IdT) (buf : bytes) : M t unit :=
  opened ;;;
  assert_ (0 <? length buf)%nat ;;;
  r <- gets records ;;
  match r !! id with
  | Some _ => throw "FileStorage::save: Unable to save record, record with this Id already exists!"
  | None =>
      rec <- on_file (saveRecord buf pad (mkRec id 0 (Z.of_nat (length buf)) 0 true)) ;;
      modify (λ st, set_records (<[id := [rec]]> (records st)) st)
  end.

(** FileStorage::save(buf, size) -- src/src/FileStorage.cpp:357-362 *)
Definition save_new (pad : bytes) (now : Z) (buf : bytes) : M t IdT :=
  id <- (λ st, let r := IdTGenerator.getId now (generator st) in (Ok r.1, mkFS (file st) (records st) r.2)) ;;
  save pad id buf ;;; ret id.

(** [it->second->back().version_] *)
Definition back_version (l : list FileRecord) : option Z := fr_version <$> last l.

(** FileStorage::update -- src/src/FileStorage.cpp:386-412 *)
Definition update (pad : bytes) (id : IdT) (buf : bytes) : M t Z :=
  opened ;;;
  assert_ (0 <? length buf)%nat ;;;
  r <- gets records ;;
  v <- match r !! id with
       | None => modify (set_records (<[id := []]> r)) ;;; ret 0
       | Some l => match back_version l with
                   | Some v => ret (wrap32 (v + 1))
                   | None => crash "assert"
                   end
       end ;;
  rec <- on_file (saveRecord buf pad (mkRec id 0 (Z.of_nat (length buf)) v true)) ;;
  modify (λ st, set_records (<[id := default [] (records st !! id) ++ [rec]]> (records st)) st) ;;;
  ret v.

(** FileStorage::erase(id, version), the loop -- src/src/FileStorage.cpp:458-466
    The first record of a chain with a version, and the rest. *)
Fixpoint take_version (v : Z) (l : list FileRecord) : option (FileRecord * list FileRecord) :=
  match l with
  | [] => None
  | x :: l' => if fr_version x =? v then Some (x, l')
               else (λ r, (r.1, x :: r.2)) <$> take_version v l'
  end.

Definition no_id : string := "FileStorage::replace: Unable to replace record, record with this Id not exists!".
Definition no_version : string := "FileStorage::replace: Unable to replace record, record with this version not exists!".

(** FileStorage::replace -- src/src/FileStorage.cpp:414-446 *)
Definition replace (pad : bytes) (id : IdT) (version : Z) (buf : bytes) : M t Z :=
  opened ;;;
  assert_ (0 <? length buf)%nat ;;;
  r <- gets records ;;
  match r !! id with
  | None => throw no_id
  | Some l =>
      match back_version l with
      | None => crash "assert"
      | Some b =>
          match take_version version l with
          | None => throw no_version
          | Some (x, l') =>
              on_file (disableRecord x) ;;;
              modify (set_records (<[id := l']> r)) ;;;
              rec <- on_file (saveRecord buf pad (mkRec id 0 (Z.of_nat (length buf)) (wrap32 (b + 1)) true)) ;;
              modify (set_records (<[id := l' ++ [rec]]> r)) ;;;
              ret (wrap32 (b + 1))
          end
      end
  end.

(** FileStorage::erase(id, version) -- src/src/FileStorage.cpp:448-467 *)
Definition erase_version (id : IdT) (version : Z) : M t unit :=
  opened ;;;
  r <- gets records ;;
  match r !! id with
  | None => ret tt
  | Some l =>
      match take_version version l with
      | None => ret tt
      | Some (x, l') => on_file (disableRecord x) ;;; modify (set_records (<[id := l']> r))
      end
  end.

(** FileStorage::erase(id), the loop -- src/src/FileStorage.cpp:478-481 *)
Fixpoint disable_all (l : list FileRecord) : M FILE unit :=
  match l with [] => ret tt | x :: l' => disableRecord x ;;; disable_all l' end.

(** FileStorage::erase(id) -- src/src/FileStorage.cpp:469-483 *)
Definition erase (id : IdT) : M t unit :=
  r <- gets records ;;
  match r !! id with
  | None => ret tt
  | Some l => on_file (disable_all l) ;;; modify (set_records (delete id r))
  end.

(** FileStorage::clear -- src/src/FileStorage.cpp:338-355 *)
Definition clear (st : t) : t := mkFS None ∅ (generator st).

(** ** Loading *)
Section load.
Context {S : Type} (onRecordLoaded : IdT → Z → bytes → M S unit).

(** A storage, loading, with its observer. *)
Definition on_storage {A} (c : M t A) : M (t * S) A := λ s, let r := c s.1 in (r.1, (r.2, s.2)).
Definition on_observer {A} (c : M S A) : M (t * S) A := λ s, let r := c s.2 in (r.1, (s.1, r.2)).

(** FileStorage::pocessRecord -- src/src/FileStorage.cpp:305-336 *)
Definition pocessRecord : M (t * S) unit :=
  catch (
    rb <- on_storage (on_file readRecord) ;;
    let rec := rb.1 in
    if negb (fr_enabled rec) then ret tt
    else
      on_storage (modify (λ st, set_records
        (<[fr_id rec := default [] (records st !! fr_id rec) ++ [rec]]> (records st)) st)) ;;;
      on_observer (onRecordLoaded (fr_id rec) (fr_version rec) rb.2))
    (λ _, on_storage (on_file findNextRecord)).

(** FileStorage::load, the loop -- src/src/FileStorage.cpp:293-296
    [while (!feof(file_)) pocessRecord(file_, observer);], [None] when [fuel]
    rounds are not enough. *)
Fixpoint load_loop (fuel : nat) (s : t * S) : option (outcome unit * (t * S)) :=
  if default true (feof <$> file s.1) then Some (Ok tt, s)
  else match fuel with
       | O => None
       | Datatypes.S fuel' =>
           match pocessRecord s with
           | (Ok _, s') => load_loop fuel' s'
           | r => Some r
           end
       end.

(** FileStorage::load -- src/src/FileStorage.cpp:271-303
    [existing] are the bytes of the file, if there is one. *)
Definition load (fuel : nat) (existing : option bytes) (s : t * S) : option (outcome unit * (t * S)) :=
  match file s.1 with
  | Some _ => Some (Crash "assert", s)
  | None =>
      let open b := (mkFS (Some (mkFILE b 0 false)) (records s.1) (generator s.1), s.2) in
      match existing with
      | None => Some (on_storage (on_file addVersionRecord) (open []))
      | Some b =>
          match on_storage (on_file checkVersionRecord) (open b) with
          | (Ok _, s') => load_loop fuel s'
          | r => Some r
          end
      end
  end.
End load.
(** ** The format *)

(** A record of the file: its flag, identifier with padding, version and body. *)
Record Entry := mkEntry { e_on : bool; e_id : IdT; e_pad : bytes; e_version : Z; e_body : bytes }.

Definition entry_bytes (e : Entry) : bytes :=
  record_bytes (if e_on e then "Y"%char else "N"%char) (e_id e) (e_pad e) (e_version e) (e_body e).

Definition entry_wf (e : Entry) : Prop :=
  length (e_pad e) = 4%nat ∧ is_u64 (id_ (e_id e)) ∧ is_u32 (date_ (e_id e)) ∧ is_u32 (e_version e) ∧
  (0 < length (e_body e))%nat ∧ Z.of_nat (length (e_body e)) + 34 < 2 ^ 32.

Definition entry_size (e : Entry) : nat := (length (e_body e) + 34)%nat.

(** What [readRecord] makes of it. *)
Definition read_rec (off : nat) (e : Entry) : FileRecord :=
  mkRec (e_id e) off (Z.of_nat (entry_size e)) (e_version e) (e_on e).

Definition header (e : Entry) : bytes :=
  str "<S" ++ le_enc 4 (Z.of_nat (length (e_body e)) + 34) ++ ["."%char; if e_on e then "Y"%char else "N"%char; "."%char] ++
  id_bytes (e_id e) (e_pad e) ++ ["."%char] ++ le_enc 4 (e_version e) ++ str "::".

Lemma entry_split e : entry_bytes e = header e ++ e_body e ++ str "E>".
Proof. unfold entry_bytes, record_bytes, header. by rewrite <- !app_assoc. Qed.

Lemma pad4 (l : bytes) : length l = 4%nat → ∃ a b c d, l = [a; b; c; d].
Proof. destruct l as [|a [|b [|c [|d [|]]]]]; simpl; try lia. eauto 10. Qed.

Lemma header_length e : entry_wf e → length (header e) = 32%nat.
Proof. intros (Hp & _). apply pad4 in Hp as (a & b & c & d & Hp). unfold header, id_bytes. by rewrite Hp. Qed.

Lemma entry_length e : entry_wf e → length (entry_bytes e) = entry_size e.
Proof.
  intros Hw. rewrite entry_split, !length_app, header_length by done. unfold entry_size. cbn [length str list_ascii_of_string]. lia.
Qed.

(** The fields of a header, as [readRecord] takes them out. *)
Lemma header_fields e : entry_wf e → let h := header e in
  sub 0 2 h = str "<S" ∧ le_dec (sub 2 4 h) = Z.of_nat (entry_size e) ∧ sub 6 1 h = ["."%char] ∧
  sub 7 1 h = [if e_on e then "Y"%char else "N"%char] ∧ sub 8 1 h = ["."%char] ∧
  le_dec (sub 9 8 h) = id_ (e_id e) ∧ le_dec (sub 17 4 h) = date_ (e_id e) ∧ sub 25 1 h = ["."%char] ∧
  le_dec (sub 26 4 h) = e_version e ∧ sub 30 2 h = str "::".
Proof.
  intros (Hp & Hi & Hd & Hv & Hb & Hs) h. apply pad4 in Hp as (p1 & p2 & p3 & p4 & Hp).
  assert (∀ i n x, sub i n (str "<S" ++ le_enc 4 (Z.of_nat (length (e_body e)) + 34) ++
    ["."%char; if e_on e then "Y"%char else "N"%char; "."%char] ++ id_bytes (e_id e) [p1; p2; p3; p4] ++ ["."%char] ++
    le_enc 4 (e_version e) ++ str "::") = x → sub i n h = x) as Hsub by (intros; unfold h, header; by rewrite Hp).
  split_and!; try (by apply Hsub).
  - rewrite (Hsub 2%nat 4%nat (le_enc 4 (Z.of_nat (length (e_body e)) + 34)) eq_refl).
    rewrite le_dec_enc by (change (256 ^ Z.of_nat 4) with (2 ^ 32); lia). unfold entry_size. lia.
  - rewrite (Hsub 9%nat 8%nat (le_enc 8 (id_ (e_id e))) eq_refl). by apply le_dec_enc.
  - rewrite (Hsub 17%nat 4%nat (le_enc 4 (date_ (e_id e))) eq_refl). by apply le_dec_enc.
  - rewrite (Hsub 26%nat 4%nat (le_enc 4 (e_version e)) eq_refl). by apply le_dec_enc.
Qed.

Lemma fread_app pre d rest eof : fread (length d) (mkFILE (pre ++ d ++ rest) (length pre) eof) =
  (Ok d, mkFILE (pre ++ d ++ rest) (length pre + length d) eof).
Proof.
  unfold fread. cbn [content fpos feof]. rewrite drop_app_length, take_app_length.
  by rewrite (proj2 (Nat.ltb_ge _ _) (le_n _)), orb_false_r.
Qed.

(** Reading an entry where it stands. *)
Lemma readRecord_entry pre e rest : entry_wf e →
  readRecord (mkFILE (pre ++ entry_bytes e ++ rest) (length pre) false) =
    (Ok (read_rec (length pre) e, e_body e),
     mkFILE (pre ++ entry_bytes e ++ rest) (length pre + entry_size e) false).
Proof.
  intros Hw. pose proof (header_length e Hw) as Hh. pose proof Hw as (Hp & Hi & Hd & Hv & Hb & Hs).
  set (tail := e_body e ++ str "E>").
  assert (length tail = entry_size e - 32)%nat as Ht
    by (unfold tail, entry_size; rewrite length_app; cbn [length str list_ascii_of_string]; lia).
  assert (pre ++ entry_bytes e ++ rest = pre ++ header e ++ tail ++ rest) as Ec
    by (rewrite entry_split; unfold tail; by rewrite <- !app_assoc).
  unfold readRecord. rewrite Ec. set (f0 := mkFILE _ _ _). rewrite (bind_ok (gets fpos) _ f0 (length pre) f0) by done.
  unfold HEADER_SIZE at 1. rewrite <- Hh at 1. rewrite (bind_ok _ _ _ _ _ (fread_app pre (header e) (tail ++ rest) false)).
  rewrite bool_decide_eq_false_2 by (intros E; by rewrite E in Hh).
  rewrite Hh. unfold catch, check. rewrite Nat.eqb_refl. rewrite ret_bind.
  destruct (header_fields e Hw) as (H0 & Hsz & H6 & H7 & H8 & Hid & Hdt & H25 & Hve & H30).
  rewrite Hsz, Hid, Hdt, Hve, H7.
  rewrite (bool_decide_eq_true_2 (sub 0 2 _ = _)), ret_bind by done.
  rewrite (proj2 (Z.leb_le _ _)), ret_bind by (unfold entry_size, HEADER_SIZE; lia).
  rewrite (bool_decide_eq_true_2 (sub 6 1 _ = _)), ret_bind by done.
  replace (bool_decide _ || bool_decide _) with true by (by destruct (e_on e)). rewrite ret_bind.
  rewrite (bool_decide_eq_true_2 (sub 8 1 _ = _)), ret_bind by done.
  rewrite (bool_decide_eq_true_2 (sub 25 1 _ = _)), ret_bind by done.
  rewrite (bool_decide_eq_true_2 (sub 30 2 _ = _)), ret_bind by done.
  rewrite (proj2 (Z.eqb_neq _ _)) by (unfold entry_size, HEADER_SIZE; lia). cbn [negb]. rewrite ret_bind.
  replace (Z.to_nat (Z.of_nat (entry_size e) - Z.of_nat HEADER_SIZE)) with (length tail)
    by (rewrite Ht; unfold HEADER_SIZE; lia).
  rewrite (bind_ok _ _ _ tail (mkFILE (pre ++ header e ++ tail ++ rest) (length pre + 32 + length tail) false)).
  2:{ pose proof (fread_app (pre ++ header e) tail rest false) as E.
      rewrite <- !app_assoc, length_app, Hh in E. exact E. }
  rewrite Nat.eqb_refl, ret_bind. rewrite (proj2 (Nat.leb_le _ _)), ret_bind by (rewrite Ht; unfold entry_size; lia).
  assert (length tail - 2 = length (e_body e))%nat as Hb2 by (rewrite Ht; unfold entry_size; lia).
  rewrite Hb2. assert (drop (length (e_body e)) tail = str "E>") as -> by apply drop_app_length.
  assert (take (length (e_body e)) tail = e_body e) as -> by apply take_app_length.
  rewrite bool_decide_eq_true_2, ret_bind by done. unfold ret. rewrite Ht. unfold read_rec.
  assert (bool_decide ([if e_on e then "Y"%char else "N"%char] = ["Y"%char]) = e_on e) as -> by (by destruct (e_on e)).
  replace (length pre + 32 + (entry_size e - 32))%nat with (length pre + entry_size e)%nat by (unfold entry_size; lia).
  by destruct e as [? []].
Qed.
(** ** Looking for the next record *)

Lemma index_lt_app l1 l2 : index_lt (l1 ++ l2) =
  match index_lt l1 with Some i => Some i | None => (λ i, length l1 + i)%nat <$> index_lt l2 end.
Proof.
  induction l1 as [|c l1 IH]; simpl; [by destruct (index_lt l2)|]. case_bool_decide; [done|]. rewrite IH.
  destruct (index_lt l1); [done|]. by destruct (index_lt l2).
Qed.

Lemma bufSize_pos : (0 < bufSize)%nat.
Proof. unfold bufSize. lia. Qed.
#[local] Opaque bufSize.

(** The search in blocks finds what a search of the rest of the file finds. *)
Lemma find_chunks_spec fuel f : feof f = false → (length (content f) - fpos f + 1 < fuel)%nat →
  find_chunks fuel (fpos f) f = (Ok tt,
    match index_lt (drop (fpos f) (content f)) with
    | Some i => mkFILE (content f) (fpos f + i) false
    | None => mkFILE (content f) (fpos f + length (drop (fpos f) (content f))) true
    end).
Proof.
  pose proof bufSize_pos as Hn. revert f. induction fuel as [|fuel IH]; intros f He Hf; [lia|].
  cbn [find_chunks]. rewrite (bind_ok (gets feof) _ f false f) by (unfold gets; by rewrite He).
  set (d := take bufSize (drop (fpos f) (content f))). set (r := drop bufSize (drop (fpos f) (content f))).
  assert (drop (fpos f) (content f) = d ++ r) as Hdr by (symmetry; apply take_drop).
  rewrite (bind_ok _ _ _ d (mkFILE (content f) (fpos f + length d) (length d <? bufSize)%nat))
    by (unfold fread; by rewrite He).
  assert (length d < bufSize → r = [])%nat as Hr.
  { unfold d, r. rewrite length_take. intros Hl. apply drop_ge. lia. }
  case_bool_decide as Ed.
  { assert (r = []) as Er by (apply Hr; rewrite Ed; simpl; lia). rewrite Hdr, Er, Ed. unfold ret. cbn [length app index_lt].
    rewrite (proj2 (Nat.ltb_lt _ _) Hn). done. }
  rewrite Hdr, index_lt_app. destruct (index_lt d) as [i|] eqn:Ei; [done|].
  assert (0 < length d)%nat as Hd by (destruct d; [done|simpl; lia]).
  assert (length d <= length (content f) - fpos f)%nat as Hdl by (unfold d; rewrite length_take, length_drop; lia).
  destruct (Nat.ltb_spec (length d) bufSize) as [Hlt|Hge].
  - rewrite (Hr Hlt). destruct fuel as [|fuel]; [lia|]. cbn [find_chunks].
    unfold bind, gets, ret. cbn [feof index_lt fmap option_fmap option_map]. by rewrite app_nil_r.
  - change (fpos f + length d)%nat with (fpos (mkFILE (content f) (fpos f + length d) false)) at 1.
    rewrite IH; [|done|cbn [content fpos]; lia]. cbn [content fpos].
    rewrite <- drop_drop, Hdr, drop_app_length. destruct (index_lt r) as [j|]; cbn [fmap option_fmap option_map].
    + by rewrite Nat.add_assoc.
    + rewrite length_app. by rewrite Nat.add_assoc.
Qed.

Lemma findNextRecord_spec f : feof f = false →
  findNextRecord f = (Ok tt,
    match index_lt (drop (fpos f) (content f)) with
    | Some i => mkFILE (content f) (fpos f + i) false
    | None => mkFILE (content f) (fpos f + length (drop (fpos f) (content f))) true
    end).
Proof. intros He. unfold findNextRecord. apply find_chunks_spec; [done|lia]. Qed.

(** ** Progress on any file *)

(** A computation that only reads. *)
Definition reads {A} (c : M FILE A) : Prop := ∀ f,
  content (c f).2 = content f ∧ (fpos f <= fpos (c f).2)%nat ∧ ∀ w, (c f).1 ≠ Crash w.

Lemma reads_ret {A} (a : A) : reads (ret a).
Proof. by intros f. Qed.
Lemma reads_check b m : reads (check b m).
Proof. intros f. by destruct b. Qed.
Lemma reads_fread n : reads (fread n).
Proof. intros f. split_and!; try done. simpl. lia. Qed.
Lemma reads_bind {A B} (c : M FILE A) (k : A → M FILE B) : reads c → (∀ a, reads (k a)) → reads (bind c k).
Proof.
  intros Hc Hk f. destruct (Hc f) as (H1 & H2 & H3). unfold bind. destruct (c f) as [[a|m|w] f1]; simpl in *; [|done|].
  - destruct (Hk a f1) as (K1 & K2 & K3). split_and!; [congruence|lia|done].
  - by destruct (H3 w).
Qed.

(** A round of [readRecord] on any bytes: at the end it sets the indicator; it
    returns beyond the position or throws one byte after it. *)
Lemma readRecord_progress f : feof f = false →
  match readRecord f with
  | (Ok rb, f') => content f' = content f ∧ (feof f' = true ∧ fr_enabled rb.1 = false ∨
      (fpos f < fpos f')%nat ∧ (fpos f < length (content f))%nat)
  | (Throw _, f') => f' = mkFILE (content f) (S (fpos f)) false ∧ (fpos f < length (content f))%nat
  | (Crash _, _) => False
  end.
Proof.
  intros He. unfold readRecord. rewrite (bind_ok (gets fpos) _ f (fpos f) f) by done.
  unfold bind at 1. unfold fread at 1. set (buf := take HEADER_SIZE (drop (fpos f) (content f))).
  set (f1 := mkFILE _ _ _). case_bool_decide as Eb.
  { unfold ret. split; [done|]. left. split; [|done]. unfold f1. cbn [feof]. rewrite Eb. by rewrite orb_true_r. }
  assert (0 < length buf)%nat as Hb by (destruct buf; [done|simpl; lia]).
  assert (fpos f < length (content f))%nat as Hlt.
  { unfold buf in Hb. rewrite length_take, length_drop in Hb. lia. }
  unfold catch. match goal with |- context [match ?c f1 with _ => _ end] => assert (reads c) as Hr end.
  { repeat first [apply reads_ret|apply reads_check|apply reads_fread|apply reads_bind; [|intros ?]]. }
  destruct (Hr f1) as (H1 & H2 & H3).
  match goal with |- context [match ?c f1 with _ => _ end] => destruct (c f1) as [[rb|m|w] f2] end; simpl in *.
  - split; [done|]. right. split; [lia|done].
  - by rewrite H1.
  - by destruct (H3 w).
Qed.

Lemma findNextRecord_progress f : ∃ f', findNextRecord f = (Ok tt, f') ∧ content f' = content f ∧
  (feof f' = true ∨ (fpos f <= fpos f')%nat).
Proof.
  destruct (feof f) eqn:He.
  - exists f. split_and!; [|done|by left]. unfold findNextRecord, find_chunks, bind, gets. by rewrite He.
  - eexists. rewrite findNextRecord_spec by done. split; [done|].
    destruct (index_lt _); cbn [content feof fpos]; split; auto with lia.
Qed.

Lemma on_storage_file {S A} (c : M FILE A) st (o : S) f : file st = Some f →
  on_storage (on_file c) (st, o) = ((c f).1, (mkFS (Some (c f).2) (records st) (generator st), o)).
Proof. intros Hf. unfold on_storage, on_file. cbn [fst snd]. by rewrite Hf. Qed.

(** [pocessRecord] by what [readRecord] and the observer do. *)
Lemma pocessRecord_eq {S} (onR : IdT → Z → bytes → M S unit) st o f : file st = Some f →
  pocessRecord onR (st, o) =
    let st1 := mkFS (Some (readRecord f).2) (records st) (generator st) in
    match (readRecord f).1 with
    | Ok (rec, body) =>
        if fr_enabled rec then
          let st2 := set_records (<[fr_id rec := default [] (records st !! fr_id rec) ++ [rec]]> (records st)) st1 in
          match onR (fr_id rec) (fr_version rec) body o with
          | (Ok u, o') => (Ok u, (st2, o'))
          | (Throw _, o') => on_storage (on_file findNextRecord) (st2, o')
          | (Crash w, o') => (Crash w, (st2, o'))
          end
        else (Ok tt, (st1, o))
    | Throw _ => on_storage (on_file findNextRecord) (st1, o)
    | Crash w => (Crash w, (st1, o))
    end.
Proof.
  intros Hf. unfold pocessRecord, catch, bind at 1. rewrite (on_storage_file readRecord st o f Hf).
  generalize (readRecord f) findNextRecord. intros [[[rec body]|m|w] f1] fnd; [|done|done].
  cbn [fst snd]. destruct (fr_enabled rec); [|done]. cbn [negb]. unfold bind, on_storage, modify, on_observer.
  cbn [fst snd records set_records]. by destruct (onR _ _ _ o) as [[]].
Qed.

Section termination.
Context {S : Type} (onRecordLoaded : IdT → Z → bytes → M S unit).
Hypothesis observer_returns : ∀ i v b o w, (onRecordLoaded i v b o).1 ≠ Crash w.

(** One round of the loading loop on any file position. *)
Lemma pocessRecord_progress st o f : file st = Some f → feof f = false →
  ∃ st' o' f', pocessRecord onRecordLoaded (st, o) = (Ok tt, (st', o')) ∧ file st' = Some f' ∧
    content f' = content f ∧ (feof f' = true ∨ (fpos f < fpos f')%nat ∧ (fpos f < length (content f))%nat).
Proof.
  intros Hf He. rewrite (pocessRecord_eq _ _ _ _ Hf).
  pose proof (readRecord_progress f He) as Hr. destruct (readRecord f) as [[[rec body]|m|w] f1]; cbn [fst snd] in *; [| |done].
  - destruct Hr as (Hc & Hr). destruct (fr_enabled rec) eqn:Een.
    2:{ eexists _, _, f1. split; [reflexivity|]. split_and!; [done|done|]. naive_solver. }
    destruct Hr as [[_ ?]|Hr]; [done|].
    pose proof (observer_returns (fr_id rec) (fr_version rec) body o) as Ho.
    destruct (onRecordLoaded _ _ _ o) as [[[]|m|w] o1]; cbn [fst snd] in *; [| |by destruct (Ho w)].
    + eexists _, _, f1. split; [reflexivity|]. split_and!; [done|done|]. by right.
    + rewrite (on_storage_file findNextRecord _ _ f1) by done.
      destruct (findNextRecord_progress f1) as (f2 & -> & Hc2 & Hp). eexists _, _, f2. split; [reflexivity|].
      cbn [file]. split_and!; [done|congruence|]. destruct Hp; [by left|right; lia].
  - destruct Hr as (-> & Hlt).
    rewrite (on_storage_file findNextRecord _ _ (mkFILE (content f) (Datatypes.S (fpos f)) false)) by done.
    destruct (findNextRecord_progress (mkFILE (content f) (Datatypes.S (fpos f)) false)) as (f2 & -> & Hc2 & Hp).
    eexists _, _, f2. split; [reflexivity|]. cbn [file fpos content] in *. split_and!; [done|done|].
    destruct Hp; [by left|right; lia].
Qed.

Lemma load_loop_terminates fuel st o f : file st = Some f → (length (content f) - fpos f < fuel)%nat →
  ∃ st' o' f', load_loop onRecordLoaded fuel (st, o) = Some (Ok tt, (st', o')) ∧ file st' = Some f' ∧
    content f' = content f ∧ feof f' = true.
Proof.
  revert st o f. induction fuel as [|fuel IH]; intros st o f Hf Hl; [lia|]. cbn [load_loop fst]. rewrite Hf.
  cbn [fmap option_fmap option_map default]. destruct (feof f) eqn:He; [by eauto 10|].
  destruct (pocessRecord_progress st o f Hf He) as (st1 & o1 & f1 & -> & Hf1 & Hc & Hp).
  destruct Hp as [He1|Hp].
  - exists st1, o1, f1. destruct fuel; cbn [load_loop fst]; rewrite Hf1; cbn [fmap option_fmap option_map default];
      by rewrite He1.
  - destruct (IH st1 o1 f1 Hf1) as (st2 & o2 & f2 & E & ? & ? & ?); [rewrite Hc; lia|].
    exists st2, o2, f2. rewrite E. split_and!; solve [done|congruence].
Qed.

(** C20: [FileStorage::load] ends on every file, whatever bytes it holds: the
    version record is refused, or the scan reaches the end of the file after at
    most one round per byte and one more, its bytes unchanged.  The observer may
    throw at any record.  A file that does not exist is created with the version
    record alone. *)
Theorem load_terminates (st : t) (o : S) (existing : option bytes) (fuel : nat) :
  file st = None → (length (default [] existing) < fuel)%nat →
  ∃ r st' o' f, load onRecordLoaded fuel existing (st, o) = Some (r, (st', o')) ∧ file st' = Some f ∧
    match existing with
    | None => r = Ok tt ∧ content f = VERSION_RECORD
    | Some b => content f = b ∧
        if bool_decide (take VERSION_SIZE b = VERSION_RECORD) then r = Ok tt ∧ feof f = true
        else ∃ m, r = Throw m
    end.
Proof.
  intros Hf Hl. unfold load. cbn [fst snd]. rewrite Hf. destruct existing as [b|]; [|by eauto 10]. change (length b < fuel)%nat in Hl.
  unfold on_storage, on_file. cbn [fst snd file records generator].
  unfold checkVersionRecord. rewrite (bind_ok (fseek 0) _ _ tt (mkFILE b 0 false)) by done.
  set (d := take VERSION_SIZE b). set (f1 := mkFILE b (length d) (length d <? VERSION_SIZE)%nat).
  rewrite (bind_ok (fread VERSION_SIZE) _ _ d f1) by done. unfold check.
  destruct (Nat.eqb_spec (length d) VERSION_SIZE) as [El|Hn].
  2:{ rewrite bool_decide_eq_false_2 by (intros E; by rewrite E in Hn). eexists _, _, _, f1. split_and!; eauto. }
  rewrite ret_bind. case_bool_decide as Ed; [|eexists _, _, _, f1; by split_and!; eauto]. cbn [fst snd ret].
  destruct (load_loop_terminates fuel (mkFS (Some f1) (records st) (generator st)) o f1 eq_refl) as (st2 & o2 & f2 & E & ? & Hc & ?).
  { unfold f1. cbn [content fpos]. lia. }
  exists (Ok tt), st2, o2, f2. by split_and!.
Qed.
End termination.

(** A file with a damaged block before a record. *)
Definition damaged : bytes := VERSION_RECORD ++ str "x<<S?" ++ entry_bytes (mkEntry true (mkIdT 1 5) (replicate 4 zero) 0 (str "ab")).

Lemma load_terminates_witness : ∃ r st' o' f,
  load (λ i v b, modify (cons (i, v, b))) 100 (Some damaged) (create, []) = Some (r, (st', o')) ∧ file st' = Some f ∧
  content f = damaged ∧ r = Ok tt ∧ feof f = true ∧ o' = [(mkIdT 1 5, 0, str "ab")].
Proof.
  destruct (load_terminates (λ i v b, modify (cons (i, v, b))) ltac:(done) create [] (Some damaged) 100) as (r & st' & o' & f & E & Hf & H).
  { reflexivity. } { vm_compute. lia. }
  rewrite bool_decide_eq_true_2 in H by (vm_compute; reflexivity). destruct H as (H1 & -> & H2).
  exists (Ok tt), st', o', f. split; [exact E|]. split_and!; [exact Hf|exact H1|reflexivity|exact H2|].
  enough (snd ∘ snd <$> load (λ i v b, modify (cons (i, v, b))) 100 (Some damaged) (create, []) = Some [(mkIdT 1 5, 0, str "ab")]) as E2
    by (rewrite E in E2; injection E2; exact id).
  vm_compute. reflexivity.
Defined.
End FileStorage.
