(* ===== verification/FileLog.v ===== *)
(** What [FileStorage] promises: a map from identifiers to chains of versioned
    records, that a reload of the file brings back.  [FileStore] implements it. *)

From Stdlib Require Import Ascii String ZArith Lia.
From S2P Require Import Prelude Types IdGen Codecs FileStore.

Module FileLog.
Import FileStorage.

(** ** The specification *)

(** The versions of every record, oldest first, with their bodies. *)
Abbreviation versions := (gmap IdT (list (Z * bytes))).

Inductive Op :=
  | OSave (pad : bytes) (id : IdT) (buf : bytes)
  | OUpdate (pad : bytes) (id : IdT) (buf : bytes)
  | OReplace (pad : bytes) (id : IdT) (version : Z) (buf : bytes)
  | OErase (id : IdT) (version : Z)
  | OEraseAll (id : IdT).

(** The specified effect of an operation. *)
Definition spec_op (o : Op) : M versions Z := λ m,
  match o with
  | OSave _ i b =>
      match m !! i with
      | Some _ => (Throw "FileStorage::save: Unable to save record, record with this Id already exists!", m)
      | None => (Ok 0, <[i := [(0, b)]]> m)
      end
  | OUpdate _ i b =>
      match m !! i with
      | None => (Ok 0, <[i := [(0, b)]]> m)
      | Some l => match last l with
                  | None => (Crash "assert", m)
                  | Some x => let v := wrap32 (x.1 + 1) in (Ok v, <[i := l ++ [(v, b)]]> m)
                  end
      end
  | OReplace _ i v b =>
      match m !! i with
      | None => (Throw no_id, m)
      | Some l => match last l, rm1 (λ x, x.1 =? v) l with
                  | None, _ => (Crash "assert", m)
                  | _, None => (Throw no_version, m)
                  | Some x, Some l' => let w := wrap32 (x.1 + 1) in (Ok w, <[i := l' ++ [(w, b)]]> m)
                  end
      end
  | OErase i v =>
      match m !! i ≫= rm1 (λ x, x.1 =? v) with
      | None => (Ok 0, m)
      | Some l' => (Ok 0, <[i := l']> m)
      end
  | OEraseAll i => (Ok 0, delete i m)
  end.

(** The code. *)
Definition code_op (o : Op) : M t Z :=
  match o with
  | OSave p i b => save p i b ;;; ret 0
  | OUpdate p i b => update p i b
  | OReplace p i v b => replace p i v b
  | OErase i v => erase_version i v ;;; ret 0
  | OEraseAll i => erase i ;;; ret 0
  end.

(** Operations one after the other, up to a crash: what each returned, and the
    last state. *)
Fixpoint run_all {A S} (exec : A → M S Z) (ops : list A) (s : S) : list (outcome Z) * S :=
  match ops with
  | [] => ([], s)
  | o :: ops' =>
      match exec o s with
      | (Crash w, s') => ([Crash w], s')
      | (r, s') => let rs := run_all exec ops' s' in (r :: rs.1, rs.2)
      end
  end.

(** An operation on an identifier and a body of the widths of the code. *)
Definition op_wf (o : Op) : Prop :=
  match o with
  | OSave p i b | OUpdate p i b | OReplace p i _ b => entry_wf (mkEntry true i p 0 b)
  | OErase _ _ | OEraseAll _ => True
  end.

(** ** The records of a file *)

Definition layout (es : list Entry) : bytes := concat (entry_bytes <$> es).
Definition total (es : list Entry) : nat := sum_list (entry_size <$> es).

(** The enabled records of an identifier with their offsets, from an offset on. *)
Fixpoint chain (i : IdT) (off : nat) (es : list Entry) : list (nat * Entry) :=
  match es with
  | [] => []
  | e :: es' =>
      if e_on e && bool_decide (e_id e = i) then (off, e) :: chain i (off + entry_size e) es'
      else chain i (off + entry_size e) es'
  end.

Definition stamp (r : FileRecord) : IdT * nat * Z := (fr_id r, fr_offset r, fr_version r).
Definition ostamp (x : nat * Entry) : IdT * nat * Z := (e_id x.2, x.1, e_version x.2).
Definition vb (x : nat * Entry) : Z * bytes := (e_version x.2, e_body x.2).

Definition off_entry (e : Entry) : Entry := mkEntry false (e_id e) (e_pad e) (e_version e) (e_body e).

(** The first enabled record of an identifier and version, disabled. *)
Fixpoint kill (i : IdT) (v : Z) (es : list Entry) : list Entry :=
  match es with
  | [] => []
  | e :: es' => if e_on e && bool_decide (e_id e = i) && (e_version e =? v) then off_entry e :: es' else e :: kill i v es'
  end.

Definition kill_all (i : IdT) (es : list Entry) : list Entry :=
  (λ e, if bool_decide (e_id e = i) then off_entry e else e) <$> es.

Lemma off_entry_wf e : entry_wf e → entry_wf (off_entry e).
Proof. done. Qed.

Lemma layout_app es1 es2 : layout (es1 ++ es2) = layout es1 ++ layout es2.
Proof. unfold layout. by rewrite fmap_app, concat_app. Qed.

Lemma layout_length es : Forall entry_wf es → length (layout es) = total es.
Proof.
  induction 1 as [|e es He _ IH]; [done|]. unfold layout, total in *. cbn [fmap list_fmap concat sum_list].
  rewrite length_app, IH, entry_length by done. done.
Qed.

Lemma chain_app i off es1 es2 : chain i off (es1 ++ es2) = chain i off es1 ++ chain i (off + total es1) es2.
Proof.
  revert off. induction es1 as [|e es1 IH]; intros off; cbn [app chain total fmap list_fmap sum_list].
  { unfold total. simpl. by rewrite Nat.add_0_r. }
  rewrite IH. unfold total. cbn [fmap list_fmap sum_list]. rewrite Nat.add_assoc. by destruct (e_on e && _).
Qed.

(** Writing the disabled flag over a record that stands at [length pre]. *)
Lemma write_flag pre e post :
  write_at (length pre + HEADER_ACTIVE_POS) ["N"%char] (pre ++ entry_bytes e ++ post) = pre ++ entry_bytes (off_entry e) ++ post.
Proof.
  unfold HEADER_ACTIVE_POS. set (h := str "<S" ++ le_enc 4 (Z.of_nat (length (e_body e)) + 34) ++ ["."%char]).
  set (r := ["."%char] ++ id_bytes (e_id e) (e_pad e) ++ ["."%char] ++ le_enc 4 (e_version e) ++ str "::" ++ e_body e ++ str "E>").
  assert (∀ c, record_bytes c (e_id e) (e_pad e) (e_version e) (e_body e) = h ++ [c] ++ r) as E by done.
  unfold entry_bytes. cbn [e_on e_id e_pad e_version e_body off_entry]. rewrite !E.
  set (c := if e_on e then _ else _). replace (length pre + 7)%nat with (length (pre ++ h)) by (by rewrite length_app).
  unfold write_at. cbn [length]. rewrite <- !app_assoc, (app_assoc pre h).
  rewrite take_app_length. replace (length (pre ++ h) - _)%nat with O by (rewrite !length_app; lia). cbn [replicate app].
  rewrite drop_app_add. by rewrite <- !app_assoc.
Qed.

Lemma layout_cons e es : layout (e :: es) = entry_bytes e ++ layout es.
Proof. done. Qed.

Lemma chain_skip i off e es : e_on e && bool_decide (e_id e = i) = false →
  chain i off (e :: es) = chain i (off + entry_size e) es.
Proof. cbn [chain]. by intros ->. Qed.

Lemma chain_take i off e es : e_on e && bool_decide (e_id e = i) = true →
  chain i off (e :: es) = (off, e) :: chain i (off + entry_size e) es.
Proof. cbn [chain]. by intros ->. Qed.

Lemma kill_wf i v es : Forall entry_wf es → Forall entry_wf (kill i v es).
Proof.
  induction 1 as [|e es He Hes IH]; cbn [kill]; [done|]. destruct (_ && _); constructor; auto using off_entry_wf.
Qed.

Lemma cons_eq {A} (x y : A) l k : x = y → l = k → x :: l = y :: k.
Proof. by intros -> ->. Qed.

(** Disabling the first record of a version in the file removes it from the chain,
    as the code does with the chain in memory. *)
Lemma kill_step i v es : Forall entry_wf es → ∀ pre l,
  stamp <$> l = ostamp <$> chain i (length pre) es →
  match take_version v l with
  | None => rm1 (λ x, x.1 =? v) (vb <$> chain i (length pre) es) = None
  | Some (x, l') =>
      rm1 (λ x, x.1 =? v) (vb <$> chain i (length pre) es) = Some (vb <$> chain i (length pre) (kill i v es)) ∧
      stamp <$> l' = ostamp <$> chain i (length pre) (kill i v es) ∧
      write_at (fr_offset x + HEADER_ACTIVE_POS) ["N"%char] (pre ++ layout es) = pre ++ layout (kill i v es)
  end.
Proof.
  induction 1 as [|e es He Hes IH]; intros pre l Hl.
  { by destruct l. }
  assert (length pre + entry_size e = length (pre ++ entry_bytes e))%nat as Hlen
    by (rewrite length_app, entry_length; done).
  cbn [kill]. destruct (e_on e && bool_decide (e_id e = i)) eqn:Em; cbn [andb].
  - rewrite chain_take in Hl |- * by done. destruct l as [|x l]; [done|]. cbn [fmap list_fmap] in *.
    assert (stamp x = ostamp (length pre, e) ∧ stamp <$> l = ostamp <$> chain i (length pre + entry_size e) es) as (Hx & Hr)
      by (split; congruence).
    unfold stamp, ostamp in Hx. cbn [fst snd] in Hx. simplify_eq Hx. intros Hi Ho Hv. cbn [take_version rm1 vb fst snd].
    rewrite Hv. destruct (Z.eqb_spec (e_version e) v) as [Ev|Hn].
    + rewrite chain_skip by done. cbn [entry_size e_body off_entry]. split_and!; [done|done|].
      by rewrite Ho, !layout_cons, write_flag.
    + rewrite chain_take by done. rewrite Hlen in *. specialize (IH _ _ Hr).
      destruct (take_version v l) as [[y l']|]; cbn [fmap option_fmap option_map fst snd]; [|by rewrite IH].
      destruct IH as (-> & E2 & E3). split_and!; [done|by apply cons_eq; [unfold stamp, ostamp; simpl; congruence|]|].
      by rewrite !layout_cons, !(app_assoc pre).
  - rewrite !chain_skip in * by done. rewrite Hlen in *. specialize (IH _ _ Hl).
    destruct (take_version v l) as [[y l']|]; [|done]. destruct IH as (-> & E2 & E3).
    split_and!; [done|done|]. by rewrite !layout_cons, !(app_assoc pre).
Qed.

Lemma kill_other i j v off es : j ≠ i → chain j off (kill i v es) = chain j off es.
Proof.
  intros Hn. revert off. induction es as [|e es IH]; intros off; cbn [kill chain]; [done|].
  destruct (e_on e && bool_decide (e_id e = i)) eqn:Em; cbn [andb]; [|cbn [chain]; by rewrite IH].
  case_bool. destruct (_ =? _); cbn [chain]; [|by rewrite IH]. cbn [e_on off_entry andb entry_size e_body].
  by rewrite (bool_decide_eq_false_2 (e_id e = j)), andb_false_r by congruence.
Qed.

Lemma kill_all_wf i es : Forall entry_wf es → Forall entry_wf (kill_all i es).
Proof. intros H. apply Forall_fmap. eapply Forall_impl; [done|]. intros e He. simpl. by case_bool_decide. Qed.

Lemma kill_all_chain i j off es : chain j off (kill_all i es) = if bool_decide (j = i) then [] else chain j off es.
Proof.
  unfold kill_all. revert off. induction es as [|e es IH]; intros off; cbn [fmap list_fmap chain]; [by case_bool_decide|].
  rewrite !IH. destruct (bool_decide (e_id e = i)) eqn:Ei; cbn [e_on off_entry andb entry_size e_body].
  - case_bool. subst. case_bool_decide; [done|]. by rewrite bool_decide_eq_false_2, andb_false_r by done.
  - case_bool. case_bool_decide; [|done]. subst. by rewrite bool_decide_eq_false_2, andb_false_r by done.
Qed.

Lemma disableRecord_eq x f : disableRecord x f =
  (Ok tt, mkFILE (write_at (fr_offset x + HEADER_ACTIVE_POS) ["N"%char] (content f)) (fr_offset x + HEADER_ACTIVE_POS + 1) false).
Proof. done. Qed.

Lemma kill_all_step i es : Forall entry_wf es → ∀ pre l f,
  stamp <$> l = ostamp <$> chain i (length pre) es → content f = pre ++ layout es →
  ∃ f', disable_all l f = (Ok tt, f') ∧ content f' = pre ++ layout (kill_all i es).
Proof.
  induction 1 as [|e es He Hes IH]; intros pre l f Hl Hf.
  { destruct l; [|done]. by exists f. }
  assert (length pre + entry_size e = length (pre ++ entry_bytes e))%nat as Hlen by (rewrite length_app, entry_length; done).
  assert (length pre + entry_size e = length (pre ++ entry_bytes (off_entry e)))%nat as Hlen'
    by (rewrite length_app, entry_length; done).
  unfold kill_all. cbn [fmap list_fmap]. fold (kill_all i es). rewrite !layout_cons, !(app_assoc pre).
  destruct (e_on e && bool_decide (e_id e = i)) eqn:Em.
  - rewrite chain_take in Hl by done. destruct l as [|x l]; [done|]. cbn [fmap list_fmap] in Hl.
    assert (stamp x = ostamp (length pre, e) ∧ stamp <$> l = ostamp <$> chain i (length pre + entry_size e) es) as (Hx & Hr)
      by (split; congruence). unfold stamp, ostamp in Hx. cbn [fst snd] in Hx. simplify_eq Hx. intros Hi Ho Hv.
    case_bool. rewrite bool_decide_eq_true_2 by done. rewrite Hlen' in Hr.
    cbn [disable_all]. rewrite (bind_ok _ _ _ _ _ (disableRecord_eq x f)). apply (IH _ l _ Hr). cbn [content].
    by rewrite Hf, Ho, layout_cons, write_flag, app_assoc.
  - rewrite chain_skip in Hl by done. destruct (bool_decide (e_id e = i)) eqn:Ei.
    + rewrite andb_true_r in Em. assert (off_entry e = e) as -> by (destruct e; by simplify_eq/=).
      rewrite Hlen in Hl. apply (IH _ l f Hl). rewrite Hf, layout_cons. by rewrite app_assoc.
    + rewrite Hlen in Hl. apply (IH _ l f Hl). rewrite Hf, layout_cons. by rewrite app_assoc.
Qed.

(** ** The simulation *)

(** The file holds [es]; the chains in memory and the specified chains are those
    of its enabled records. *)
Definition chains_ok (recs : gmap IdT (list FileRecord)) (m : versions) (es : list Entry) : Prop := ∀ i,
  match recs !! i with
  | Some l => stamp <$> l = ostamp <$> chain i VERSION_SIZE es ∧ m !! i = Some (vb <$> chain i VERSION_SIZE es)
  | None => m !! i = None ∧ chain i VERSION_SIZE es = []
  end.

Definition R (st : t) (m : versions) : Prop := ∃ f es, file st = Some f ∧
  content f = VERSION_RECORD ++ layout es ∧ Forall entry_wf es ∧ chains_ok (records st) m es.

Lemma R_opened st m : R st m → opened st = (Ok tt, st).
Proof.
  intros (f & es & Hf & _). unfold opened, bind, gets. rewrite Hf. by rewrite bool_decide_eq_true_2 by eauto.
Qed.

Lemma chains_append recs m es rec e : Forall entry_wf es → chains_ok recs m es → e_on e = true →
  stamp rec = (e_id e, VERSION_SIZE + total es, e_version e)%nat →
  chains_ok (<[e_id e := default [] (recs !! e_id e) ++ [rec]]> recs)
    (<[e_id e := default [] (m !! e_id e) ++ [(e_version e, e_body e)]]> m) (es ++ [e]).
Proof.
  intros Hw Hc He Hs j. specialize (Hc j). rewrite chain_app. destruct (decide (e_id e = j)) as [<-|Hj].
  - rewrite !lookup_insert_eq, chain_take, !fmap_app by (by rewrite He, bool_decide_eq_true_2).
    destruct (recs !! e_id e) as [l|]; cbn [from_option id] in *.
    + destruct Hc as (Hl & ->). rewrite Hl. split; [|done]. f_equal. by apply cons_eq.
    + destruct Hc as (-> & ->). split; [|done]. by apply cons_eq.
  - rewrite !lookup_insert_ne, chain_skip by (done || by rewrite bool_decide_eq_false_2, andb_false_r).
    cbn [chain]. by rewrite app_nil_r.
Qed.

Lemma chains_kill recs m es i v l l' : chains_ok recs m es →
  stamp <$> l' = ostamp <$> chain i VERSION_SIZE (kill i v es) →
  l = vb <$> chain i VERSION_SIZE (kill i v es) →
  chains_ok (<[i := l']> recs) (<[i := l]> m) (kill i v es).
Proof.
  intros Hc Hl -> j. destruct (decide (j = i)) as [->|Hj]; [by rewrite !lookup_insert_eq|].
  rewrite !lookup_insert_ne, kill_other by done. apply Hc.
Qed.

(** [saveRecord] appends the record to the file. *)
Lemma saveRecord_eq buf pad rec f : entry_wf (mkEntry true (fr_id rec) pad 0 buf) →
  saveRecord buf pad rec f =
    (Ok (mkRec (fr_id rec) (length (content f)) (fr_size rec) (fr_version rec) (fr_enabled rec)),
     mkFILE (content f ++ entry_bytes (mkEntry true (fr_id rec) pad (fr_version rec) buf))
       (length (content f) + length (entry_bytes (mkEntry true (fr_id rec) pad (fr_version rec) buf))) false).
Proof.
  intros (_ & _ & _ & _ & _ & Hs). cbn [e_body] in Hs. unfold saveRecord, fseek_end, bind at 1, gets, bind at 1.
  rewrite (proj2 (Z.leb_gt _ _)) by lia. unfold bind, fwrite, ret. cbn [content fpos feof]. unfold entry_bytes. cbn [e_on e_id e_pad e_version e_body].
  set (d := record_bytes _ _ _ _ _). unfold write_at.
  rewrite firstn_all, Nat.sub_diag, drop_ge by lia. cbn [replicate app]. by rewrite app_nil_r.
Qed.

Lemma entry_wf_version on i p v b v' : is_u32 v' → entry_wf (mkEntry on i p v b) → entry_wf (mkEntry true i p v' b).
Proof. unfold entry_wf. cbn. tauto. Qed.

(** Appending a record: what [save], [update] and [replace] end with. *)
Lemma append_step st m i pad v buf f es (n : Z) : file st = Some f → content f = VERSION_RECORD ++ layout es →
  Forall entry_wf es → chains_ok (records st) m es → entry_wf (mkEntry true i pad 0 buf) → is_u32 v →
  ∃ rec f', on_file (saveRecord buf pad (mkRec i 0 n v true)) st = (Ok rec, mkFS (Some f') (records st) (generator st)) ∧
    R (mkFS (Some f') (<[i := default [] (records st !! i) ++ [rec]]> (records st)) (generator st))
      (<[i := default [] (m !! i) ++ [(v, buf)]]> m).
Proof.
  intros Hf Hc Hw Hch He Hv. set (e := mkEntry true i pad v buf).
  assert (entry_wf e) as He' by (by eapply entry_wf_version).
  eexists _, _. unfold on_file. rewrite Hf, saveRecord_eq by done. cbn [fst snd fr_id fr_size fr_version fr_enabled]. split; [done|].
  eexists _, (es ++ [e]). split_and!; [done| | |].
  - cbn [content]. by rewrite Hc, layout_app, app_assoc; cbn [layout fmap list_fmap concat]; rewrite app_nil_r.
  - by apply Forall_app; split; [|constructor].
  - cbn [records]. apply (chains_append _ _ _ _ e); [done|done|done|]. unfold stamp. cbn [fr_id fr_offset fr_version].
    by rewrite Hc, length_app, layout_length.
Qed.

(** An operation of the code does what is specified of it. *)
Definition simulates (o : Op) : Prop := ∀ st m, R st m → op_wf o →
  (code_op o st).1 = (spec_op o m).1 ∧ R (code_op o st).2 (spec_op o m).2.

Lemma body_nonempty on i p v b : entry_wf (mkEntry on i p v b) → (0 <? length b)%nat = true.
Proof. intros (_ & _ & _ & _ & H & _). by apply Nat.ltb_lt. Qed.

Lemma u32_0 : is_u32 0.
Proof. done. Qed.

Lemma last_version (l : list FileRecord) i off es : stamp <$> l = ostamp <$> chain i off es →
  back_version l = fst <$> last (vb <$> chain i off es).
Proof.
  intros H. unfold back_version. rewrite <- !fmap_last. f_equal.
  transitivity (snd <$> (stamp <$> l)); [by rewrite <- list_fmap_compose|]. rewrite H. by rewrite <- !list_fmap_compose.
Qed.

Lemma save_simulates p i b : simulates (OSave p i b).
Proof.
  intros st m HR Hw. cbn [code_op spec_op op_wf] in *. unfold save. rewrite bind_assoc, (bind_ok _ _ _ _ _ (R_opened _ _ HR)).
  rewrite (body_nonempty _ _ _ _ _ Hw). cbn [assert_]. rewrite bind_assoc, ret_bind, bind_assoc.
  rewrite (bind_ok (gets records) _ st (records st) st) by done.
  destruct HR as (f & es & Hf & Hc & Hes & Hch). pose proof (Hch i) as Hi. destruct (records st !! i) as [l|] eqn:Er.
  - destruct Hi as (_ & ->). split; [done|]. by exists f, es.
  - destruct Hi as (Em & _). rewrite Em, bind_assoc.
    destruct (append_step st m i p 0 b f es (Z.of_nat (length b)) Hf Hc Hes Hch Hw u32_0) as (rec & f' & E & HR).
    rewrite (bind_ok _ _ _ _ _ E). rewrite Er, Em in HR. by split.
Qed.

Lemma update_simulates p i b : simulates (OUpdate p i b).
Proof.
  intros st m HR Hw. cbn [code_op spec_op op_wf] in *. unfold update. rewrite (bind_ok _ _ _ _ _ (R_opened _ _ HR)).
  rewrite (body_nonempty _ _ _ _ _ Hw). cbn [assert_]. rewrite ret_bind.
  rewrite (bind_ok (gets records) _ st (records st) st) by done.
  pose proof HR as (f & es & Hf & Hc & Hes & Hch). pose proof (Hch i) as Hi. destruct (records st !! i) as [l|] eqn:Er.
  - destruct Hi as (Hl & Em). rewrite Em, (last_version _ _ _ _ Hl). set (c := vb <$> _) in *.
    destruct (last c) as [x|]; cbn [fmap option_fmap option_map]; [|by split]. rewrite ret_bind.
    destruct (append_step st m i p (wrap32 (x.1 + 1)) b f es (Z.of_nat (length b)) Hf Hc Hes Hch Hw) as (rec & f' & E & HR').
    { apply wrap32_range. }
    rewrite (bind_ok _ _ _ _ _ E). unfold bind, modify, set_records. cbn [records file generator fst snd].
    rewrite Er, Em in *. by split.
  - destruct Hi as (Em & Hnil). rewrite Em, bind_assoc.
    set (st1 := set_records (<[i := []]> (records st)) st).
    rewrite (bind_ok (modify _) _ st tt st1) by done. rewrite ret_bind.
    assert (chains_ok (records st1) (<[i := []]> m) es) as Hch1.
    { intros j. unfold st1. cbn [records set_records]. destruct (decide (j = i)) as [->|Hj].
      - rewrite !lookup_insert_eq, Hnil. done.
      - rewrite !lookup_insert_ne by done. apply Hch. }
    destruct (append_step st1 _ i p 0 b f es (Z.of_nat (length b)) Hf Hc Hes Hch1 Hw u32_0) as (rec & f' & E & HR').
    rewrite (bind_ok _ _ _ _ _ E). unfold bind, modify, set_records. cbn [records file generator fst snd].
    rewrite lookup_insert_eq, insert_insert_eq in HR'. by split.
Qed.

(** Disabling a version: what [replace] begins with and [erase] does. *)
Lemma kill_file st m i v l x l' f es : file st = Some f → content f = VERSION_RECORD ++ layout es →
  Forall entry_wf es → chains_ok (records st) m es → records st !! i = Some l → take_version v l = Some (x, l') →
  ∃ c f', m !! i ≫= rm1 (λ y, y.1 =? v) = Some c ∧
    on_file (disableRecord x) st = (Ok tt, mkFS (Some f') (records st) (generator st)) ∧
    content f' = VERSION_RECORD ++ layout (kill i v es) ∧ chains_ok (<[i := l']> (records st)) (<[i := c]> m) (kill i v es).
Proof.
  intros Hf Hc Hes Hch Hi Ht. pose proof (Hch i) as Hci. rewrite Hi in Hci. destruct Hci as (Hl & Em).
  pose proof (kill_step i v es Hes VERSION_RECORD l Hl) as Hk. rewrite Ht in Hk. destruct Hk as (E1 & E2 & E3).
  eexists _, _. rewrite Em. cbn [mbind option_bind]. split; [exact E1|]. unfold on_file. rewrite Hf, disableRecord_eq.
  split; [done|]. cbn [content]. rewrite Hc. split; [exact E3|]. by apply chains_kill.
Qed.

Lemma take_none st m i v l es : Forall entry_wf es → chains_ok (records st) m es → records st !! i = Some l →
  take_version v l = None → m !! i ≫= rm1 (λ y, y.1 =? v) = None.
Proof.
  intros Hes Hch Hi Ht. pose proof (Hch i) as Hci. rewrite Hi in Hci. destruct Hci as (Hl & Em).
  pose proof (kill_step i v es Hes VERSION_RECORD l Hl) as Hk. rewrite Ht in Hk. by rewrite Em.
Qed.

Lemma erase_version_simulates i v : simulates (OErase i v).
Proof.
  intros st m HR Hw. cbn [code_op spec_op]. unfold erase_version. rewrite bind_assoc, (bind_ok _ _ _ _ _ (R_opened _ _ HR)), bind_assoc.
  rewrite (bind_ok (gets records) _ st (records st) st) by done. pose proof HR as (f & es & Hf & Hc & Hes & Hch).
  destruct (records st !! i) as [l|] eqn:Er.
  2:{ pose proof (Hch i) as Hi. rewrite Er in Hi. destruct Hi as (-> & _). by split. }
  destruct (take_version v l) as [[x l']|] eqn:Et.
  - destruct (kill_file _ _ _ _ _ _ _ _ _ Hf Hc Hes Hch Er Et) as (c & f' & -> & E & Hc' & Hch').
    rewrite bind_assoc, (bind_ok _ _ _ _ _ E). split; [done|]. exists f', (kill i v es). auto using kill_wf.
  - rewrite (take_none _ _ _ _ _ _ Hes Hch Er Et). by split.
Qed.

Lemma erase_simulates i : simulates (OEraseAll i).
Proof.
  intros st m HR Hw. cbn [code_op spec_op]. unfold erase. rewrite bind_assoc.
  rewrite (bind_ok (gets records) _ st (records st) st) by done. pose proof HR as (f & es & Hf & Hc & Hes & Hch).
  pose proof (Hch i) as Hi. destruct (records st !! i) as [l|] eqn:Er.
  2:{ destruct Hi as (Em & _). rewrite delete_id by done. by split. }
  destruct Hi as (Hl & Em). destruct (kill_all_step i es Hes VERSION_RECORD l f Hl Hc) as (f' & E & Hc').
  rewrite bind_assoc, (bind_ok _ _ _ tt (mkFS (Some f') (records st) (generator st))) by (unfold on_file; by rewrite Hf, E).
  split; [done|]. exists f', (kill_all i es). split_and!; auto using kill_all_wf. cbn [snd set_records records bind modify ret].
  intros j. specialize (Hch j). rewrite kill_all_chain. destruct (decide (j = i)) as [->|Hj].
  - by rewrite bool_decide_eq_true_2, !lookup_delete_eq.
  - by rewrite bool_decide_eq_false_2, !lookup_delete_ne.
Qed.

Lemma replace_simulates p i v b : simulates (OReplace p i v b).
Proof.
  intros st m HR Hw. cbn [code_op spec_op op_wf] in *. unfold replace. rewrite (bind_ok _ _ _ _ _ (R_opened _ _ HR)).
  rewrite (body_nonempty _ _ _ _ _ Hw). cbn [assert_]. rewrite ret_bind.
  rewrite (bind_ok (gets records) _ st (records st) st) by done.
  pose proof HR as (f & es & Hf & Hc & Hes & Hch). pose proof (Hch i) as Hi. destruct (records st !! i) as [l|] eqn:Er.
  2:{ destruct Hi as (-> & _). by split. }
  destruct Hi as (Hl & Em). rewrite (last_version _ _ _ _ Hl). rewrite Em. set (c := vb <$> _) in *.
  destruct (last c) as [y|] eqn:Ely; cbn [fmap option_fmap option_map]; [|by split].
  destruct (take_version v l) as [[x l']|] eqn:Et.
  2:{ pose proof (take_none _ _ _ _ _ _ Hes Hch Er Et) as En. rewrite Em in En. cbn [mbind option_bind] in En. rewrite En. by split. }
  destruct (kill_file _ _ _ _ _ _ _ _ _ Hf Hc Hes Hch Er Et) as (c' & f' & Ec & E & Hc' & Hch').
  rewrite Em in Ec. cbn [mbind option_bind] in Ec. rewrite Ec. rewrite (bind_ok _ _ _ _ _ E).
  set (st1 := mkFS (Some f') (<[i := l']> (records st)) (generator st)).
  rewrite (bind_ok (modify _) _ _ tt st1) by done.
  destruct (append_step st1 _ i p (wrap32 (y.1 + 1)) b f' (kill i v es) (Z.of_nat (length b)) eq_refl Hc' (kill_wf _ _ _ Hes) Hch' Hw)
    as (rec & f2 & E2 & HR'). { apply wrap32_range. }
  rewrite (bind_ok _ _ _ _ _ E2). unfold bind, modify, ret, set_records. cbn [records file generator fst snd].
  unfold st1 in HR'. cbn [records] in HR'. rewrite !lookup_insert_eq, !insert_insert_eq in HR'. by split.
Qed.

Lemma op_simulates o : simulates o.
Proof.
  destruct o; auto using save_simulates, update_simulates, replace_simulates, erase_version_simulates, erase_simulates.
Qed.

Lemma run_simulates ops st m : R st m → Forall op_wf ops →
  (run_all code_op ops st).1 = (run_all spec_op ops m).1 ∧ R (run_all code_op ops st).2 (run_all spec_op ops m).2.
Proof.
  intros HR Hw. revert st m HR. induction Hw as [|o ops Ho _ IH]; intros st m HR; [done|]. cbn [run_all].
  destruct (op_simulates o st m HR Ho) as (E & HR'). destruct (code_op o st) as [r st'], (spec_op o m) as [r' m'].
  cbn [fst snd] in *. subst r'. specialize (IH st' m' HR'). destruct r; [|..|done]; cbn [fst snd]; (split; [by f_equal; apply IH|apply IH]).
Qed.

(** ** Reloading *)
Section reload.
Context {S : Type} (onRecordLoaded : IdT → Z → bytes → M S unit).
Hypothesis observer_returns : ∀ i v b o w, (onRecordLoaded i v b o).1 ≠ Crash w.

(** The calls of the observer. *)
Definition deliver (o : S) (x : IdT * Z * bytes) : S := (onRecordLoaded x.1.1 x.1.2 x.2 o).2.

Definition live (es : list Entry) : list (IdT * Z * bytes) :=
  (λ e, (e_id e, e_version e, e_body e)) <$> filter (λ e, e_on e = true) es.

(** Where a reload stands: before the records [es], or at the end. *)
Definition stands (f : FILE) (pre : bytes) (es : list Entry) : Prop :=
  content f = pre ++ layout es ∧ (fpos f = length pre ∧ feof f = false ∨ es = [] ∧ feof f = true).

Lemma find_stands pre es : ∃ f, findNextRecord (mkFILE (pre ++ layout es) (length pre) false) = (Ok tt, f) ∧ stands f pre es.
Proof.
  eexists. rewrite findNextRecord_spec by done. cbn [content fpos]. rewrite drop_app_length. split; [done|].
  destruct es as [|e es]; [by split; [|right]|]. rewrite layout_cons.
  replace (index_lt (entry_bytes e ++ layout es)) with (Some O) by done. split; [done|]. left. cbn [fpos]. by rewrite Nat.add_0_r.
Qed.

Lemma readRecord_end pre : readRecord (mkFILE pre (length pre) false) =
  (Ok (mkRec IdT0 (length pre) 0 0 false, []), mkFILE pre (length pre + 0) true).
Proof.
  unfold readRecord, bind at 1, gets, bind at 1, fread. cbn [content fpos feof]. rewrite drop_all. done.
Qed.

Lemma load_loop_end fuel st o f : file st = Some f → feof f = true → load_loop onRecordLoaded fuel (st, o) = Some (Ok tt, (st, o)).
Proof. intros Hf He. destruct fuel; cbn [load_loop fst]; rewrite Hf; cbn [fmap option_fmap option_map from_option id]; by rewrite He. Qed.

Lemma load_loop_round fuel st o f : file st = Some f → feof f = false →
  load_loop onRecordLoaded (Datatypes.S fuel) (st, o) =
    match pocessRecord onRecordLoaded (st, o) with (Ok _, s') => load_loop onRecordLoaded fuel s' | r => Some r end.
Proof. intros Hf He. cbn [load_loop fst]. rewrite Hf. cbn [fmap option_fmap option_map from_option id]. by rewrite He. Qed.

(** A round at a record: it joins its chain, and the observer sees it, if it is enabled. *)
Lemma round_entry st o pre e es : entry_wf e → file st = Some (mkFILE (pre ++ layout (e :: es)) (length pre) false) →
  ∃ f, pocessRecord onRecordLoaded (st, o) =
    (Ok tt, (mkFS (Some f) (if e_on e then <[e_id e := default [] (records st !! e_id e) ++ [read_rec (length pre) e]]> (records st)
                            else records st) (generator st),
             fold_left deliver (live [e]) o)) ∧ stands f (pre ++ entry_bytes e) es.
Proof.
  intros He Hf. rewrite (pocessRecord_eq _ _ _ _ Hf). rewrite layout_cons, readRecord_entry by done. cbn [fst snd fr_enabled read_rec].
  assert (length pre + entry_size e = length (pre ++ entry_bytes e))%nat as Hlen by (rewrite length_app, entry_length; done).
  rewrite Hlen, app_assoc. unfold live, filter. cbn [list_filter]. destruct (e_on e) eqn:Een.
  2:{ rewrite decide_False by done. eexists. split; [done|]. split; [done|by left]. }
  rewrite decide_True by done. cbn [fmap list_fmap fold_left]. unfold deliver. cbn [fst snd fr_id fr_version read_rec].
  pose proof (observer_returns (e_id e) (e_version e) (e_body e) o) as Ho.
  destruct (onRecordLoaded _ _ _ o) as [[[]|msg|w] o1]; cbn [fst snd] in *; [| |by destruct (Ho w)].
  - eexists. split; [done|]. split; [done|by left].
  - destruct (find_stands (pre ++ entry_bytes e) es) as (f & E & Hst). exists f. split; [|done].
    rewrite (on_storage_file findNextRecord _ _ (mkFILE ((pre ++ entry_bytes e) ++ layout es) (length (pre ++ entry_bytes e)) false)) by done.
    by rewrite E.
Qed.

Lemma load_entries es : Forall entry_wf es → ∀ fuel pre st o f, file st = Some f → stands f pre es →
  (length es < fuel)%nat → (∀ i, records st !! i ≠ Some []) →
  ∃ st' f', load_loop onRecordLoaded fuel (st, o) = Some (Ok tt, (st', fold_left deliver (live es) o)) ∧
    file st' = Some f' ∧ content f' = pre ++ layout es ∧ (∀ i, records st' !! i ≠ Some []) ∧
    ∀ i, stamp <$> default [] (records st' !! i) = (stamp <$> default [] (records st !! i)) ++ (ostamp <$> chain i (length pre) es).
Proof.
  induction 1 as [|e es He Hes IH]; intros fuel pre st o f Hf (Hc & Hp) Hfu Hne; (destruct fuel as [|fuel]; [cbn [length] in Hfu; lia|]).
  - cbn [chain fmap list_fmap live]. destruct (feof f) eqn:Ef.
    { exists st, f. rewrite (load_loop_end _ _ _ _ Hf Ef). split_and!; try done. intros i. by rewrite app_nil_r. }
    destruct Hp as [[Hpos _]|[_ ?]]; [|done]. rewrite (load_loop_round _ _ _ _ Hf Ef), (pocessRecord_eq _ _ _ _ Hf).
    assert (f = mkFILE pre (length pre) false) as -> by (destruct f; simpl in *; subst; by rewrite app_nil_r).
    rewrite readRecord_end. cbn [fst snd fr_enabled]. eexists _, _. erewrite load_loop_end by done. split; [done|].
    split; [done|]. split; [by rewrite app_nil_r|]. split; [done|]. intros i. by rewrite app_nil_r.
  - destruct Hp as [[Hpos Ef]|[? _]]; [|done].
    assert (f = mkFILE (pre ++ layout (e :: es)) (length pre) false) as -> by (destruct f; simpl in *; by subst).
    rewrite (load_loop_round _ _ _ _ Hf Ef). destruct (round_entry st o pre e es He Hf) as (f1 & -> & Hs1). clear Hf.
    set (recs := if e_on e then _ else _). set (st1 := mkFS (Some f1) recs (generator st)).
    destruct (IH fuel _ st1 (fold_left deliver (live [e]) o) f1 eq_refl Hs1) as (st2 & f2 & E & Hf2 & Hc2 & Hne2 & Hch).
    { cbn [length] in Hfu. lia. }
    { intros i. unfold st1, recs. cbn [records]. destruct (e_on e); [|apply Hne]. destruct (decide (e_id e = i)) as [<-|].
      - rewrite lookup_insert_eq. by destruct (default _ _).
      - rewrite lookup_insert_ne by done. apply Hne. }
    exists st2, f2. rewrite E. split_and!; [|done|by rewrite Hc2, layout_cons, app_assoc|done|].
    { do 3 f_equal. unfold live. rewrite <- fold_left_app, <- fmap_app, <- filter_app. done. }
    intros i. rewrite Hch. unfold st1, recs. cbn [records chain]. rewrite length_app, entry_length by done.
    destruct (e_on e); cbn [andb]; [|done]. case_bool_decide as Ei.
    + subst i. rewrite lookup_insert_eq. cbn [from_option id]. rewrite fmap_app, <- app_assoc. done.
    + by rewrite lookup_insert_ne by done.
Qed.

(** The storage of a file that did not exist. *)
Definition fresh : t := mkFS (Some (mkFILE VERSION_RECORD VERSION_SIZE false)) ∅ IdTGenerator.init.

Lemma load_fresh fuel o : load onRecordLoaded fuel None (create, o) = Some (Ok tt, (fresh, o)).
Proof. done. Qed.

Lemma R_fresh : R fresh ∅.
Proof. by exists (mkFILE VERSION_RECORD VERSION_SIZE false), []. Qed.

(** A reload forgets the identifiers all of whose versions were erased one by one. *)
Definition prune (m : versions) : versions := filter (λ x, x.2 ≠ []) m.

(** The calls for one identifier. *)
Definition calls_of (i : IdT) (calls : list (IdT * Z * bytes)) : list (Z * bytes) :=
  (λ x, (x.1.2, x.2)) <$> filter (λ x, x.1.1 = i) calls.

Lemma live_chain i off es : calls_of i (live es) = vb <$> chain i off es.
Proof.
  unfold calls_of, live. revert off. induction es as [|e es IH]; intros off; [done|].
  cbn [chain]. rewrite filter_cons. destruct (e_on e) eqn:Ee; cbn [andb].
  - rewrite decide_True by done. cbn [fmap list_fmap]. rewrite filter_cons. cbn [fst snd]. case_bool_decide as Ei.
    + rewrite decide_True by done. cbn [fmap list_fmap]. apply cons_eq; [done|]. apply IH.
    + rewrite decide_False by done. apply IH.
  - rewrite decide_False by done. apply IH.
Qed.

Lemma total_count es : (length es <= total es)%nat.
Proof.
  induction es as [|e es IH]; [done|]. change (total (e :: es)) with (entry_size e + total es)%nat.
  unfold entry_size. cbn [length]. lia.
Qed.

(** Reloading the file of a storage that implements [m]. *)
Lemma reload_R st m o fuel f : R st m → file st = Some f → (length (content f) < fuel)%nat →
  ∃ st' calls, load onRecordLoaded fuel (Some (content f)) (create, o) = Some (Ok tt, (st', fold_left deliver calls o)) ∧
    (∀ i, calls_of i calls = default [] (m !! i)) ∧ R st' (prune m).
Proof.
  intros (f0 & es & Hf0 & Hc & Hes & Hch) Hf Hl. rewrite Hf0 in Hf. injection Hf as ->. rewrite Hc in *.
  unfold load. cbn [file create fst snd].
  set (f1 := mkFILE (VERSION_RECORD ++ layout es) VERSION_SIZE false).
  rewrite (on_storage_file checkVersionRecord _ _ (mkFILE (VERSION_RECORD ++ layout es) 0 false)) by done.
  replace (checkVersionRecord (mkFILE (VERSION_RECORD ++ layout es) 0 false)) with (Ok tt, f1 : FILE).
  2:{ unfold checkVersionRecord, fseek, bind at 1. unfold VERSION_SIZE.
      rewrite (bind_ok _ _ _ _ _ (fread_app [] VERSION_RECORD (layout es) false)). done. }
  cbn [fst snd]. destruct (load_entries es Hes fuel VERSION_RECORD (mkFS (Some f1) ∅ IdTGenerator.init) o f1 eq_refl)
    as (st' & f' & E & Hf' & Hc' & Hne & Hst).
  { split; [done|]. left. done. }
  { rewrite length_app, layout_length in Hl by done. pose proof (total_count es). lia. }
  { done. }
  exists st', (live es). cbn [records generator create] in *. rewrite E. split; [done|]. split.
  - intros i. rewrite (live_chain i VERSION_SIZE). specialize (Hch i).
    destruct (records st !! i) as [l|]; destruct Hch as (H1 & H2); [by rewrite H2|by rewrite H1, H2].
  - exists f', es. split_and!; [done|by rewrite Hc'|done|]. intros i. specialize (Hst i). cbn [records] in Hst.
    rewrite lookup_empty in Hst. cbn [from_option id fmap list_fmap app] in Hst. specialize (Hch i). specialize (Hne i).
    change (length VERSION_RECORD) with VERSION_SIZE in Hst.
    assert (default [] (m !! i) = vb <$> chain i VERSION_SIZE es) as Hm
      by (destruct (records st !! i); destruct Hch as (H1 & H2); [by rewrite H2|by rewrite H1, H2]).
    unfold prune. destruct (records st' !! i) as [l|]; cbn [from_option id] in Hst.
    + split; [done|]. destruct (m !! i) as [c|] eqn:Em; cbn [from_option id] in Hm.
      * rewrite map_lookup_filter_Some_2 with (x := c); [by rewrite Hm|done|]. intros Hn. cbn [snd] in Hn. subst c.
        destruct (chain i VERSION_SIZE es); [|done]. by destruct l.
      * destruct (chain i VERSION_SIZE es); [|done]. by destruct l.
    + assert (chain i VERSION_SIZE es = []) as Hn by (by destruct (chain i VERSION_SIZE es)). split; [|done].
      apply map_lookup_filter_None. destruct (m !! i) as [c|]; [right|by left]. rewrite Hn in Hm. cbn in Hm. subst c.
      intros x [= <-]. cbn. by intros ?.
Qed.

Lemma run_fresh ops : Forall op_wf ops → (run_all code_op ops fresh).1 = (run_all spec_op ops ∅).1.
Proof. intros Hw. by apply run_simulates; [apply R_fresh|]. Qed.

(** C16: [FileStorage] implements a map from identifiers to chains of versions: on a
    file it created, every sequence of [save], [update], [replace] and the two
    [erase] operations returns, throws and asserts what the map does, although the
    records live in a file that is only appended to and flagged. *)
Theorem storage_refines_versions (ops : list Op) (o : S) (fuel : nat) : Forall op_wf ops →
  ∃ st, load onRecordLoaded fuel None (create, o) = Some (Ok tt, (st, o)) ∧
    (run_all code_op ops st).1 = (run_all spec_op ops ∅).1.
Proof. intros Hw. exists fresh. split; [apply load_fresh|]. by apply run_fresh. Qed.

(** C17: Reloading the file a sequence of operations left restores the storage: the
    observer is called with exactly the versions and bodies the map holds, for
    every identifier in their order, even if it throws at some of them, and the
    reloaded storage goes on as the map does, without the identifiers that have no
    version left. *)
Theorem reload_restores (ops ops' : list Op) (o : S) : Forall op_wf ops → Forall op_wf ops' →
  let st := (run_all code_op ops fresh).2 in let m := (run_all spec_op ops ∅).2 in
  ∃ f, file st = Some f ∧ ∀ fuel, (length (content f) < fuel)%nat →
    ∃ st' calls, load onRecordLoaded fuel (Some (content f)) (create, o) = Some (Ok tt, (st', fold_left deliver calls o)) ∧
      (∀ i, calls_of i calls = default [] (m !! i)) ∧
      (run_all code_op ops' st').1 = (run_all spec_op ops' (prune m)).1.
Proof.
  intros Hw Hw' st m. destruct (run_simulates ops fresh ∅ R_fresh Hw) as (_ & HR).
  pose proof HR as (f & _ & Hf & _). exists f. split; [exact Hf|]. intros fuel Hl.
  destruct (reload_R _ _ o fuel f HR Hf Hl) as (st' & calls & E & Hc & HR'). exists st', calls.
  split_and!; [exact E|exact Hc|]. by apply run_simulates.
Qed.
End reload.

(** A record whose only version was erased by [erase(id, version)] cannot be
    used again before a reload: [save] finds the identifier and refuses, and
    [update] runs into its assertion on the empty chain.  After [erase(id)] the
    identifier is free. *)
Theorem erased_version_blocks_id (pad body : bytes) (i : IdT) : entry_wf (mkEntry true i pad 0 body) →
  (run_all code_op [OSave pad i body; OErase i 0; OSave pad i body; OUpdate pad i body] fresh).1 =
    [Ok 0; Ok 0; Throw "FileStorage::save: Unable to save record, record with this Id already exists!"; Crash "assert"] ∧
  (run_all code_op [OSave pad i body; OEraseAll i; OSave pad i body; OUpdate pad i body] fresh).1 = [Ok 0; Ok 0; Ok 0; Ok 1].
Proof.
  intros Hw. split.
  - rewrite run_fresh by (repeat (apply Forall_cons_2; [done|]); apply Forall_nil_2).
    cbn [run_all spec_op]. rewrite lookup_empty. cbn [fst snd]. by rewrite !lookup_insert_eq; cbn; rewrite !lookup_insert_eq.
  - rewrite run_fresh by (repeat (apply Forall_cons_2; [done|]); apply Forall_nil_2).
    cbn [run_all spec_op]. rewrite lookup_empty. cbn [fst snd]. rewrite lookup_delete_eq. cbn [fst snd]. by rewrite lookup_insert_eq.
Qed.

(** *** Concrete runs *)

(** An observer that refuses the records of version 0. *)
Definition picky (i : IdT) (v : Z) (b : bytes) : M (list (Z * bytes)) unit :=
  modify (cons (v, b)) ;;; if v =? 0 then throw "refused" else ret tt.

Lemma picky_returns i v b o w : (picky i v b o).1 ≠ Crash w.
Proof. unfold picky, bind, modify. by destruct (v =? 0). Qed.

Definition pad0 : bytes := replicate 4 zero.
Definition ops1 : list Op :=
  [OSave pad0 (mkIdT 1 5) (str "<S<"); OUpdate pad0 (mkIdT 1 5) (str "bb"); OSave pad0 (mkIdT 2 5) (str "c");
   OReplace pad0 (mkIdT 1 5) 1 (str "ddd"); OErase (mkIdT 2 5) 0].

Lemma ops1_wf : Forall op_wf ops1.
Proof. repeat constructor; vm_compute; try done; intros [=]. Qed.

Lemma storage_refines_versions_witness : ∃ st, load picky 0 None (create, []) = Some (Ok tt, (st, [])) ∧
  (run_all code_op ops1 st).1 = [Ok 0; Ok 1; Ok 0; Ok 2; Ok 0].
Proof.
  destruct (storage_refines_versions picky ops1 [] 0 ops1_wf) as (st & E1 & E2). exists st.
  split; [exact E1|]. rewrite E2. vm_compute. reflexivity.
Defined.

Lemma reload_restores_witness : ∃ f st' calls, file (run_all code_op ops1 fresh).2 = Some f ∧
  load picky 300 (Some (content f)) (create, []) = Some (Ok tt, (st', fold_left (deliver picky) calls [])) ∧
  calls_of (mkIdT 1 5) calls = [(0, str "<S<"); (2, str "ddd")] ∧
  (run_all code_op [OSave pad0 (mkIdT 2 5) (str "e")] st').1 = [Ok 0].
Proof.
  assert (Forall op_wf [OSave pad0 (mkIdT 2 5) (str "e")]) as Hw by (repeat constructor; vm_compute; try done; intros [=]).
  destruct (reload_restores picky picky_returns ops1 _ [] ops1_wf Hw) as (f & Hf & H).
  destruct (H 300%nat) as (st' & calls & E1 & E2 & E3).
  { enough (length <$> (content <$> file (run_all code_op ops1 fresh).2) = Some 170%nat) as E by (rewrite Hf in E; injection E as ->; lia).
    vm_compute. reflexivity. }
  exists f, st', calls. split; [exact Hf|]. split; [exact E1|]. split; [rewrite E2; vm_compute; reflexivity|].
  rewrite E3. vm_compute. reflexivity.
Defined.

Lemma erased_version_blocks_id_witness :
  (run_all code_op [OSave pad0 (mkIdT 1 5) (str "a"); OEraseAll (mkIdT 1 5); OSave pad0 (mkIdT 1 5) (str "a");
    OUpdate pad0 (mkIdT 1 5) (str "a")] fresh).1 = [Ok 0; Ok 0; Ok 0; Ok 1].
Proof. apply (erased_version_blocks_id pad0 (str "a") (mkIdT 1 5)). vm_compute. split_and!; try done; intros [=]. Defined.
End FileLog.
