(* ===== verification/Lmdb.v ===== *)
(** The record store of [src/src/LMDBStorage.cpp] over the LMDB library, which is
    a class with its documented laws: composite keys, versions, transactions that
    commit or change nothing, and the order in which a load delivers records. *)

From Stdlib Require Import Ascii String ZArith Lia.
From S2P Require Import Prelude Types IdGen Codecs FileStore FileLog.

Module LMDB.
Import FileStorage FileLog.

(** ** The library *)

(** [memcmp], the shorter of two equal prefixes first: the order of keys. *)
Fixpoint bytes_lt (a b : bytes) : bool :=
  match a, b with
  | _, [] => false
  | [], _ :: _ => true
  | x :: a', y :: b' => if bool_decide (x = y) then bytes_lt a' b' else (N_of_ascii x <? N_of_ascii y)%N
  end.

(** A database: [mdb_get], the effect of [mdb_put] and [mdb_del], and the pairs a
    cursor visits from [MDB_FIRST] by [MDB_NEXT]. *)
Class MDB (D : Type) := {
  mdb_empty : D;
  mdb_get : bytes → D → option bytes;
  mdb_put : bytes → bytes → D → D;
  mdb_del : bytes → D → D;
  mdb_list : D → list (bytes * bytes) }.

Class MDBLaws (D : Type) `{MDB D} := {
  get_empty k : mdb_get k (mdb_empty : D) = None;
  get_put k k' b (d : D) : mdb_get k (mdb_put k' b d) = if bool_decide (k = k') then Some b else mdb_get k d;
  get_del k k' (d : D) : mdb_get k (mdb_del k' d) = if bool_decide (k = k') then None else mdb_get k d;
  list_get k b (d : D) : (k, b) ∈ mdb_list d ↔ mdb_get k d = Some b;
  list_sorted (d : D) : StronglySorted (λ x y, bytes_lt x y = true) (mdb_list d).*1 }.

(** The calls that may fail; [rc c] is the text of [mdb_strerror] if [c] fails.
    [mdb_cursor_del] on a valid cursor succeeds. *)
Inductive Call := env_create | env_set_mapsize | env_open | txn_begin | dbi_open | cursor_open | put | del | txn_commit.

(** ** The storage *)
Section storage.
Context {D : Type} `{MDB D}.

(** [env_] with the committed database; [writer]: a write transaction was left open. *)
Inductive Env := NoEnv | Created | Opened (d : D) (writer : bool).

(** class LMDBStorage -- src/src/LMDBStorage.h:28-92 *)
Record t := mkL { env_ : Env; open_ : bool; generator_ : IdTGenerator.t }.

Definition set_env (e : Env) (st : t) : t := mkL e (open_ st) (generator_ st).

(** LMDBStorage::LMDBStorage -- src/src/LMDBStorage.cpp:55-55 *)
Definition create : t := mkL NoEnv false IdTGenerator.init.

(** LMDBStorage::makeKey, CompositeKey -- src/src/LMDBStorage.cpp:39-45
    [pad]: the padding bytes of the identifier, which its assignment may copy. *)
Definition makeKey (pad : bytes) (id : IdT) (version : Z) : bytes :=
  id_bytes id pad ++ le_enc 4 version ++ replicate 4 zero.

Definition sizeof_CompositeKey : nat := 24.

(** LMDBStorage::readKey -- src/src/LMDBStorage.cpp:47-53 *)
Definition readKey (k : bytes) : IdT * Z :=
  (mkIdT (le_dec (sub 0 8 k)) (le_dec (sub 8 4 k)), le_dec (sub 16 4 k)).

(** checkLMDB -- src/src/LMDBStorage.cpp:28-35 *)
Definition checkLMDB {S} (r : option string) (context : string) : M S unit :=
  match r with Some e => throw (context ++ ": " ++ e)%string | None => ret tt end.

(** LMDBStorage::close -- src/src/LMDBStorage.cpp:68-80 *)
Definition close (st : t) : t := mkL NoEnv false (generator_ st).

(** LMDBStorage::save, the transaction -- src/src/LMDBStorage.cpp:173-175
    [assert(nullptr != env_)] and [mdb_txn_begin]: a second write transaction of
    the thread never gets its lock. *)
Definition begin_txn (rc : Call → option string) (context : string) : M t D :=
  e <- gets env_ ;;
  match e with
  | NoEnv => crash "assert"
  | Created => crash "mdb_txn_begin: not open"
  | Opened _ true => crash "mdb_txn_begin: deadlock"
  | Opened d false => checkLMDB (rc txn_begin) context ;;; ret d
  end.

(** [mdb_txn_commit] of [d]; a transaction that is not committed changes nothing. *)
Definition commit (rc : Call → option string) (context : string) (d : D) : M t unit :=
  checkLMDB (rc txn_commit) context ;;; modify (set_env (Opened d false)).

(** LMDBStorage::update, the scan -- src/src/LMDBStorage.cpp:217-235
    A cursor's loop over the records of an identifier: what the loops of [update],
    [replace], [isExists] and [getTopVersion] share. *)
Definition for_versions {A} (id : IdT) (f : A → Z → A) (a : A) (l : list (bytes * bytes)) : A :=
  fold_left (λ a kv,
    if (length kv.1 =? sizeof_CompositeKey)%nat then
      let ck := readKey kv.1 in if bool_decide (ck.1 = id) then f a ck.2 else a
    else a) l a.

Definition lm_exists : string := "LMDBStorage::save: Unable to save record, record with this Id already exists!".
Definition lm_no_id : string := "LMDBStorage::replace: Unable to replace record, record with this Id not exists!".
Definition lm_no_version : string := "LMDBStorage::replace: Unable to replace record, record with this version not exists!".

(** LMDBStorage::save(id, buf, size) -- src/src/LMDBStorage.cpp:161-195 *)
Definition save (rc : Call → option string) (pad : bytes) (id : IdT) (buf : bytes) : M t unit :=
  assert_ (0 <? length buf)%nat ;;;
  let key := makeKey pad id 0 in
  d <- begin_txn rc "LMDBStorage::save mdb_txn_begin" ;;
  match mdb_get key d with
  | Some _ => throw lm_exists
  | None =>
      checkLMDB (rc put) "LMDBStorage::save mdb_put" ;;;
      commit rc "LMDBStorage::save mdb_txn_commit" (mdb_put key buf d)
  end.

(** LMDBStorage::save(buf, size) -- src/src/LMDBStorage.cpp:154-159 *)
Definition save_new (rc : Call → option string) (pad : bytes) (now : Z) (buf : bytes) : M t IdT :=
  id <- (λ st, let r := IdTGenerator.getId now (generator_ st) in (Ok r.1, mkL (env_ st) (open_ st) r.2)) ;;
  save rc pad id buf ;;; ret id.

(** LMDBStorage::update -- src/src/LMDBStorage.cpp:197-255 *)
Definition update (rc : Call → option string) (pad : bytes) (id : IdT) (buf : bytes) : M t Z :=
  assert_ (0 <? length buf)%nat ;;;
  d <- begin_txn rc "LMDBStorage::update mdb_txn_begin" ;;
  checkLMDB (rc cursor_open) "LMDBStorage::update mdb_cursor_open" ;;;
  let newVersion := for_versions id (λ newVersion v, if newVersion <=? v then wrap32 (v + 1) else newVersion) 0 (mdb_list d) in
  checkLMDB (rc put) "LMDBStorage::update mdb_put" ;;;
  commit rc "LMDBStorage::update mdb_txn_commit" (mdb_put (makeKey pad id newVersion) buf d) ;;;
  ret newVersion.

(** LMDBStorage::replace -- src/src/LMDBStorage.cpp:257-346 *)
Definition replace (rc : Call → option string) (pad : bytes) (id : IdT) (version : Z) (buf : bytes) : M t Z :=
  assert_ (0 <? length buf)%nat ;;;
  d <- begin_txn rc "LMDBStorage::replace mdb_txn_begin" ;;
  checkLMDB (rc cursor_open) "LMDBStorage::replace mdb_cursor_open" ;;;
  let '(idFound, versionFound, maxVersion) :=
    for_versions id (λ a v, (true, a.1.2 || (v =? version), if a.2 <? v then v else a.2)) (false, false, 0) (mdb_list d) in
  if negb idFound then throw lm_no_id
  else if negb versionFound then throw lm_no_version
  else
    checkLMDB (rc del) "LMDBStorage::replace mdb_del" ;;;
    let newVersion := wrap32 (maxVersion + 1) in
    checkLMDB (rc put) "LMDBStorage::replace mdb_put" ;;;
    commit rc "LMDBStorage::replace mdb_txn_commit"
      (mdb_put (makeKey pad id newVersion) buf (mdb_del (makeKey pad id version) d)) ;;;
    ret newVersion.

(** LMDBStorage::erase(id, version) -- src/src/LMDBStorage.cpp:348-368 *)
Definition erase_version (rc : Call → option string) (pad : bytes) (id : IdT) (version : Z) : M t unit :=
  d <- begin_txn rc "LMDBStorage::erase(version) mdb_txn_begin" ;;
  checkLMDB (rc del) "LMDBStorage::erase(version) mdb_del" ;;;
  commit rc "LMDBStorage::erase(version) mdb_txn_commit" (mdb_del (makeKey pad id version) d).

(** LMDBStorage::erase(id), the loop -- src/src/LMDBStorage.cpp:386-409
    The loop of [erase(id)]: after [mdb_cursor_del] the cursor stands on the next pair. *)
Fixpoint erase_scan (id : IdT) (l : list (bytes * bytes)) (d : D) : D :=
  match l with
  | [] => d
  | (k, _) :: l' =>
      if (length k =? sizeof_CompositeKey)%nat && bool_decide ((readKey k).1 = id) then erase_scan id l' (mdb_del k d)
      else erase_scan id l' d
  end.

(** LMDBStorage::erase(id) -- src/src/LMDBStorage.cpp:370-413 *)
Definition erase (rc : Call → option string) (id : IdT) : M t unit :=
  d <- begin_txn rc "LMDBStorage::erase(all) mdb_txn_begin" ;;
  checkLMDB (rc cursor_open) "LMDBStorage::erase(all) mdb_cursor_open" ;;;
  commit rc "LMDBStorage::erase(all) mdb_txn_commit" (erase_scan id (mdb_list d) d).

(** LMDBStorage::isExists(id) -- src/src/LMDBStorage.cpp:415-448 *)
Definition isExists (rc : Call → option string) (id : IdT) : M t bool :=
  d <- begin_txn rc "LMDBStorage::isExists mdb_txn_begin" ;;
  ret match rc cursor_open with None => for_versions id (λ _ _, true) false (mdb_list d) | Some _ => false end.

(** LMDBStorage::isExists(id, version) -- src/src/LMDBStorage.cpp:450-466 *)
Definition isExists_version (rc : Call → option string) (pad : bytes) (id : IdT) (version : Z) : M t bool :=
  d <- begin_txn rc "LMDBStorage::isExists(version) mdb_txn_begin" ;;
  ret (bool_decide (is_Some (mdb_get (makeKey pad id version) d))).

(** LMDBStorage::getTopVersion -- src/src/LMDBStorage.cpp:468-506 *)
Definition getTopVersion (rc : Call → option string) (id : IdT) : M t Z :=
  d <- begin_txn rc "LMDBStorage::getTopVersion mdb_txn_begin" ;;
  ret match rc cursor_open with
      | None => (for_versions id (λ a v, (if negb a.2 || (a.1 <? v) then v else a.1, true)) (0, false) (mdb_list d)).1
      | Some _ => 0
      end.

(** LMDBStorage::recordSize -- src/src/LMDBStorage.cpp:508-525 *)
Definition recordSize (rc : Call → option string) (pad : bytes) (id : IdT) (version : Z) : M t nat :=
  d <- begin_txn rc "LMDBStorage::recordSize mdb_txn_begin" ;;
  ret (default O (length <$> mdb_get (makeKey pad id version) d)).

(** LMDBStorage::loadRecord -- src/src/LMDBStorage.cpp:527-552
    The buffer, or [None] for [false]. *)
Definition loadRecord (rc : Call → option string) (pad : bytes) (id : IdT) (version : Z) : M t (option bytes) :=
  d <- begin_txn rc "LMDBStorage::loadRecord mdb_txn_begin" ;; ret (mdb_get (makeKey pad id version) d).

Section load.
Context {S : Type} (onRecordLoaded : IdT → Z → bytes → M S unit).

(** LMDBStorage::load, the loop -- src/src/LMDBStorage.cpp:134-143
    The cursor's loop of [load]; the observer's exceptions leave it. *)
Fixpoint deliver_all (l : list (bytes * bytes)) : M S unit :=
  match l with
  | [] => ret tt
  | (k, b) :: l' =>
      (if (length k =? sizeof_CompositeKey)%nat then let ck := readKey k in onRecordLoaded ck.1 ck.2 b else ret tt) ;;;
      deliver_all l'
  end.

(** LMDBStorage::load -- src/src/LMDBStorage.cpp:82-152
    [d] is the database at [path]. *)
Definition load (rc : Call → option string) (d : D) : M (t * S) unit := λ s,
  let st := s.1 in let o := s.2 in
  let fail (e : string) (context : string) (env : Env) : outcome unit * (t * S) :=
    (Throw (context ++ ": " ++ e)%string, (set_env env st, o)) in
  match env_ st with
  | Created | Opened _ _ => (Crash "assert", s)
  | NoEnv =>
      match rc env_create, rc env_set_mapsize, rc env_open, rc txn_begin, rc dbi_open with
      | Some e, _, _, _, _ => fail e "LMDBStorage::load mdb_env_create"%string NoEnv
      | _, Some e, _, _, _ => fail e "LMDBStorage::load mdb_env_set_mapsize"%string Created
      | _, _, Some e, _, _ => fail e "LMDBStorage::load mdb_env_open"%string NoEnv
      | _, _, _, Some e, _ => fail e "LMDBStorage::load mdb_txn_begin"%string NoEnv
      | _, _, _, _, Some e => fail e "LMDBStorage::load mdb_dbi_open"%string NoEnv
      | None, None, None, None, None =>
          match (match rc cursor_open with Some _ => ret tt | None => deliver_all (mdb_list d) end) o with
          | (Throw m, o') => (Throw m, (set_env (Opened d true) st, o'))
          | (Crash w, o') => (Crash w, (set_env (Opened d true) st, o'))
          | (Ok _, o') =>
              match rc txn_commit with
              | Some e => (Throw ("LMDBStorage::load mdb_txn_commit: " ++ e)%string, (set_env NoEnv st, o'))
              | None => (Ok tt, (mkL (Opened d false) true (generator_ st), o'))
              end
          end
      end
  end.
End load.
End storage.

(** ** Keys *)

Definition key_wf (i : IdT) (v : Z) : Prop := is_u64 (id_ i) ∧ is_u32 (date_ i) ∧ is_u32 v.
#[global] Instance key_wf_dec i v : Decision (key_wf i v).
Proof. unfold key_wf, is_u64, is_u32. apply _. Defined.

(** The padding bytes that the copy of an identifier carries ([pads]): the copies of one
    identifier are taken to carry the same bytes, those of different ones need not. *)
Section keys.
Context (pads : IdT → bytes) (Hpad : ∀ i, length (pads i) = 4%nat).
#[local] Abbreviation key i v := (makeKey (pads i) i v).

Lemma makeKey_length i v : length (key i v) = sizeof_CompositeKey.
Proof using Hpad. pose proof (Hpad i) as Hp. apply pad4 in Hp as (a & b & c & d & Hp). unfold makeKey, id_bytes. by rewrite Hp. Qed.

Lemma readKey_makeKey i v : key_wf i v → readKey (key i v) = (i, v).
Proof using Hpad.
  intros (Hi & Hd & Hv). pose proof (Hpad i) as Hp. apply pad4 in Hp as (a & b & c & d & Hp). unfold makeKey, id_bytes. rewrite Hp. unfold readKey.
  set (k := _ ++ _). assert (sub 0 8 k = le_enc 8 (id_ i)) as -> by done. assert (sub 8 4 k = le_enc 4 (date_ i)) as -> by done.
  assert (sub 16 4 k = le_enc 4 v) as -> by done. rewrite !le_dec_enc by done. by destruct i.
Qed.

Lemma makeKey_inj i v j w : key_wf i v → key_wf j w → key i v = key j w ↔ (i, v) = (j, w).
Proof using Hpad.
  intros Hi Hj. split; [|by intros [= -> ->]]. intros E. rewrite <- (readKey_makeKey i v), <- (readKey_makeKey j w) by done. by rewrite E.
Qed.

(** ** The specification: a map from identifier and version to bodies *)

Abbreviation rows := (gmap (IdT * Z) bytes).

Definition versions_of (i : IdT) (m : rows) : list Z := omap (λ k : IdT * Z, if bool_decide (k.1 = i) then Some k.2 else None) (map_to_list m).*1.

(** The highest version, -1 if there is none. *)
Definition top (l : list Z) : Z := foldr Z.max (-1) l.

Definition spec_row (o : Op) : M rows Z := λ m,
  match o with
  | OSave _ i b => match m !! (i, 0) with Some _ => (Throw lm_exists, m) | None => (Ok 0, <[(i, 0) := b]> m) end
  | OUpdate _ i b => let v := top (versions_of i m) + 1 in (Ok v, <[(i, v) := b]> m)
  | OReplace _ i v b =>
      let l := versions_of i m in
      if bool_decide (l = []) then (Throw lm_no_id, m)
      else if bool_decide (m !! (i, v) = None) then (Throw lm_no_version, m)
      else (Ok (top l + 1), <[(i, top l + 1) := b]> (delete (i, v) m))
  | OErase i v => (Ok 0, delete (i, v) m)
  | OEraseAll i => (Ok 0, filter (λ x, x.1.1 ≠ i) m)
  end.

(** ** Scans *)

Definition scanned (i : IdT) (l : list (bytes * bytes)) : list Z :=
  omap (λ kv, if (length kv.1 =? sizeof_CompositeKey)%nat && bool_decide ((readKey kv.1).1 = i) then Some (readKey kv.1).2 else None) l.

Lemma for_versions_fold {A} i (f : A → Z → A) a l : for_versions i f a l = fold_left f (scanned i l) a.
Proof.
  unfold for_versions, scanned. revert a. induction l as [|[k b] l IH]; intros a; [done|]. cbn [fold_left omap list_omap fst].
  rewrite IH. destruct (_ =? _)%nat; [|done]. cbn [andb]. by case_bool_decide.
Qed.

Lemma top_le l n : top l <= n ↔ -1 <= n ∧ ∀ v, v ∈ l → v <= n.
Proof.
  unfold top. induction l as [|x l IH]; cbn [foldr].
  - split; [intros; split; [done|by intros v ?%elem_of_nil]|tauto].
  - rewrite Z.max_lub_iff, IH. setoid_rewrite elem_of_cons. naive_solver.
Qed.

Lemma top_ge l : -1 <= top l ∧ ∀ v, v ∈ l → v <= top l.
Proof. apply top_le. lia. Qed.

(** The highest version depends on the set of versions only. *)
Lemma top_set l l' : (∀ v, v ∈ l ↔ v ∈ l') → top l = top l'.
Proof.
  intros Hl. apply Z.le_antisymm; apply top_le; (split; [exact (proj1 (top_ge _))|]); intros v Hv;
    apply (proj2 (top_ge _)); by apply Hl.
Qed.

Lemma update_fold l a : 0 <= a → Forall (λ v, 0 <= v < 2 ^ 32 - 1) l →
  fold_left (λ n v, if n <=? v then wrap32 (v + 1) else n) l a = Z.max a (top l + 1).
Proof.
  intros Ha Hl. revert a Ha. induction Hl as [|v l Hv Hl IH]; intros a Ha; cbn [fold_left top foldr]; [lia|].
  fold (top l). pose proof (top_ge l) as [? _]. destruct (Z.leb_spec a v).
  - rewrite wrap32_small by (unfold is_u32; lia). rewrite IH by lia. lia.
  - rewrite IH by lia. lia.
Qed.

Lemma replace_fold l w i0 v0 m0 : 0 <= m0 → Forall (λ v, 0 <= v) l →
  fold_left (λ (a : bool * bool * Z) v, (true, a.1.2 || (v =? w), if a.2 <? v then v else a.2)) l (i0, v0, m0) =
    (i0 || negb (bool_decide (l = [])), v0 || bool_decide (w ∈ l), Z.max m0 (top l)).
Proof.
  intros Ha Hl. revert i0 v0 m0 Ha. induction Hl as [|v l Hv Hl IH]; intros i0 v0 m0 Ha; cbn [fold_left top foldr fst snd].
  - rewrite !orb_false_r. f_equal. lia.
  - fold (top l). rewrite IH by (destruct (m0 <? v); lia). rewrite (bool_decide_eq_false_2 (v :: l = [])) by done. cbn [negb].
    rewrite orb_true_r. f_equal; [f_equal|].
    + rewrite <- orb_assoc. f_equal. destruct (Z.eqb_spec v w) as [->|Hn]; cbn [orb].
      * symmetry. apply bool_decide_eq_true_2. constructor.
      * apply bool_decide_ext. rewrite elem_of_cons. naive_solver.
    + pose proof (top_ge l) as [? _]. destruct (Z.ltb_spec m0 v); lia.
Qed.

(** ** The simulation *)
Section simulation.
Context {D : Type} `{MDBLaws D}.
Implicit Types (d : D) (m : rows).

Definition rows_of d m : Prop :=
  (∀ i v, key_wf i v → mdb_get (key i v) d = m !! (i, v)) ∧
  (∀ k b, mdb_get k d = Some b → ∃ i v, key_wf i v ∧ k = key i v) ∧
  (∀ i v b, m !! (i, v) = Some b → key_wf i v).

Lemma versions_of_elem i v m : v ∈ versions_of i m ↔ is_Some (m !! (i, v)).
Proof.
  unfold versions_of. rewrite list_elem_of_omap. split.
  - intros ([j w] & Hin & Hj). cbn [fst snd] in Hj. case_bool_decide; simplify_eq.
    apply list_elem_of_fmap in Hin as ([k b] & -> & Hin). apply elem_of_map_to_list in Hin. by exists b.
  - intros (b & Hb). exists (i, v). split; [|by rewrite bool_decide_eq_true_2].
    apply list_elem_of_fmap. exists ((i, v), b). split; [done|]. by apply elem_of_map_to_list.
Qed.

Lemma scanned_elem i v d m : rows_of d m → v ∈ scanned i (mdb_list d) ↔ is_Some (m !! (i, v)).
Proof using Hpad H0.
  intros (Hg & Hk & Hm). unfold scanned. rewrite list_elem_of_omap. split.
  - intros ([k b] & Hin & Hj). cbn [fst] in Hj. apply list_get in Hin. destruct (Hk k b Hin) as (j & w & Hw & ->).
    rewrite makeKey_length, readKey_makeKey in Hj by done. cbn [fst snd] in Hj. rewrite Nat.eqb_refl in Hj. cbn [andb] in Hj.
    case_bool_decide; simplify_eq. rewrite Hg in Hin by done. by exists b.
  - intros (b & Hb). exists (key i v, b). split; [apply list_get; rewrite Hg by eauto; done|]. cbn [fst].
    rewrite makeKey_length, readKey_makeKey by eauto. rewrite Nat.eqb_refl. cbn [fst snd andb]. by rewrite bool_decide_eq_true_2.
Qed.

Lemma put_rows d m i v b : rows_of d m → key_wf i v → rows_of (mdb_put (key i v) b d) (<[(i, v) := b]> m).
Proof using Hpad H0.
  intros (Hg & Hk & Hm) Hw. split_and!.
  - intros j w Hj. rewrite get_put. destruct (decide ((j, w) = (i, v))) as [E|E].
    + rewrite E, lookup_insert_eq. simplify_eq. by rewrite bool_decide_eq_true_2.
    + rewrite lookup_insert_ne, bool_decide_eq_false_2 by (by (rewrite makeKey_inj || apply not_eq_sym)). by apply Hg.
  - intros k c. rewrite get_put. case_bool_decide; [|apply Hk]. intros _. eauto.
  - intros j w c. destruct (decide ((j, w) = (i, v))) as [E|E]; [by simplify_eq|]. rewrite lookup_insert_ne by (by apply not_eq_sym). apply Hm.
Qed.

Lemma del_rows d m i v : rows_of d m → key_wf i v → rows_of (mdb_del (key i v) d) (delete (i, v) m).
Proof using Hpad H0.
  intros (Hg & Hk & Hm) Hw. split_and!.
  - intros j w Hj. rewrite get_del. destruct (decide ((j, w) = (i, v))) as [E|E].
    + rewrite E, lookup_delete_eq. simplify_eq. by rewrite bool_decide_eq_true_2.
    + rewrite lookup_delete_ne, bool_decide_eq_false_2 by (by (rewrite makeKey_inj || apply not_eq_sym)). by apply Hg.
  - intros k c. rewrite get_del. case_bool_decide; [done|apply Hk].
  - intros j w c Hl. apply lookup_delete_Some in Hl as [_ Hl]. eauto.
Qed.

Lemma erase_scan_get i l d k : mdb_get k (erase_scan i l d) =
  if bool_decide (k ∈ l.*1 ∧ length k = sizeof_CompositeKey ∧ (readKey k).1 = i) then None else mdb_get k d.
Proof using H0.
  revert d. induction l as [|[k' b] l IH]; intros d; cbn [erase_scan fmap list_fmap fst].
  { rewrite bool_decide_eq_false_2; [done|]. intros [Hin _]. inversion Hin. }
  destruct (Nat.eqb_spec (length k') sizeof_CompositeKey) as [El|Hl], (decide ((readKey k').1 = i)) as [Ei|Hi].
  1: rewrite bool_decide_eq_true_2 by done; cbn [andb]; rewrite IH, get_del.
  2: rewrite bool_decide_eq_false_2 by done.
  2-4: cbn [andb]; rewrite IH; (rewrite (bool_decide_ext (k ∈ k' :: l.*1 ∧ _) (k ∈ l.*1 ∧ length k = sizeof_CompositeKey ∧ (readKey k).1 = i));
         [done|rewrite elem_of_cons; split; [intros ([->|?] & ? & ?); by auto|intros (? & ? & ?); by auto]]).
  destruct (decide (k = k')) as [->|Hn].
  - rewrite (bool_decide_eq_true_2 (k' = k')) by done. rewrite (bool_decide_eq_true_2 (k' ∈ k' :: _ ∧ _)); [by case_bool_decide|].
    split_and!; [constructor|done|done].
  - rewrite (bool_decide_eq_false_2 (k = k')) by done.
    rewrite (bool_decide_ext (k ∈ k' :: l.*1 ∧ _) (k ∈ l.*1 ∧ length k = sizeof_CompositeKey ∧ (readKey k).1 = i)); [done|].
    rewrite elem_of_cons. split; [intros ([->|?] & ? & ?); by auto|intros (? & ? & ?); by auto].
Qed.

Lemma erase_rows d m i : rows_of d m → rows_of (erase_scan i (mdb_list d) d) (filter (λ x, x.1.1 ≠ i) m).
Proof using Hpad H0.
  intros (Hg & Hk & Hm). split_and!.
  - intros j w Hj. rewrite erase_scan_get, makeKey_length, readKey_makeKey by done. cbn [fst].
    destruct (decide (j = i)) as [->|Hn].
    + transitivity (None : option bytes).
      * case_bool_decide as Hin; [done|]. destruct (mdb_get (key i w) d) as [b|] eqn:E; [|done]. destruct Hin. split_and!; try done.
        apply list_elem_of_fmap. exists (key i w, b). split; [done|]. by apply list_get.
      * symmetry. apply map_lookup_filter_None. right. intros b _. cbn. by intros ?.
    + rewrite bool_decide_eq_false_2 by naive_solver. rewrite Hg by done. symmetry.
      destruct (m !! (j, w)) as [b|] eqn:E; [by apply map_lookup_filter_Some|]. apply map_lookup_filter_None. by left.
  - intros k b. rewrite erase_scan_get. case_bool_decide; [done|]. apply Hk.
  - intros j w b Hl. apply map_lookup_filter_Some in Hl as [Hl _]. eauto.
Qed.

(** The identifier an operation is called with. *)
Definition op_id (o : Op) : IdT :=
  match o with OSave _ i _ | OUpdate _ i _ | OReplace _ i _ _ | OErase i _ | OEraseAll i => i end.

(** A call of the code: the operation, and the padding bytes of the identifier it is
    called with (those in the operation are of the file format, and unused here). *)
Definition code_row (rc : Call → option string) (c : bytes * Op) : M (t (D := D)) Z :=
  let pad := c.1 in
  match c.2 with
  | OSave _ i b => save rc pad i b ;;; ret 0
  | OUpdate _ i b => update rc pad i b
  | OReplace _ i v b => replace rc pad i v b
  | OErase i v => erase_version rc pad i v ;;; ret 0
  | OEraseAll i => erase rc i ;;; ret 0
  end.

Definition row_wf (o : Op) : Prop :=
  match o with
  | OSave _ i b | OUpdate _ i b => key_wf i 0 ∧ (0 < length b)%nat
  | OReplace _ i v b => key_wf i v ∧ (0 < length b)%nat
  | OErase i v => key_wf i v
  | OEraseAll _ => True
  end.

Definition no_fault (c : Call) : option string := None.

(** The storage holds [m], whose versions are below [n]. *)
Definition holds (st : t (D := D)) m (n : Z) : Prop := ∃ d, env_ st = Opened d false ∧ rows_of d m ∧
  ∀ i v, is_Some (m !! (i, v)) → v < n.

Lemma begin_ok rc c st d : env_ st = Opened d false → rc txn_begin = None → begin_txn rc c st = (Ok d, st).
Proof. intros E Hr. unfold begin_txn, bind, gets. rewrite E. unfold checkLMDB. by rewrite Hr. Qed.

Lemma scanned_range i d m n : rows_of d m → (∀ i v, is_Some (m !! (i, v)) → v < n) → Forall (λ v, 0 <= v < n) (scanned i (mdb_list d)).
Proof using Hpad H0.
  intros HR Hn. apply Forall_forall. intros v Hv. apply (scanned_elem i v d m HR) in Hv. split; [|eauto].
  destruct HR as (_ & _ & Hm), Hv as (b & Hb). by apply Hm in Hb as (_ & _ & []).
Qed.

Lemma scanned_top i d m : rows_of d m → top (scanned i (mdb_list d)) = top (versions_of i m).
Proof using Hpad H0. intros HR. apply top_set. intros v. by rewrite (scanned_elem i v d m HR), versions_of_elem. Qed.

Lemma top_bound i m n : 0 <= n → (∀ i v, is_Some (m !! (i, v)) → v < n) → -1 <= top (versions_of i m) < n.
Proof.
  intros H1 Hn. split; [exact (proj1 (top_ge _))|]. apply Z.le_lt_trans with (n - 1); [|lia]. apply top_le. split; [lia|].
  intros v Hv. apply versions_of_elem in Hv. apply Hn in Hv. lia.
Qed.

Lemma insert_bound m i v b n : (∀ i v, is_Some (m !! (i, v)) → v < n) → v <= n →
  ∀ j w, is_Some (<[(i, v) := b]> m !! (j, w)) → w < n + 1.
Proof.
  intros Hn Hv j w. destruct (decide ((j, w) = (i, v))) as [E|E]; [simplify_eq; lia|].
  rewrite lookup_insert_ne by (by apply not_eq_sym). intros ?%Hn. lia.
Qed.

Definition row_simulates (o : Op) : Prop := ∀ st m n, holds st m n → row_wf o → 0 <= n < 2 ^ 32 - 1 →
  (code_row no_fault (pads (op_id o), o) st).1 = (spec_row o m).1 ∧ holds (code_row no_fault (pads (op_id o), o) st).2 (spec_row o m).2 (n + 1).

Lemma holds_weaken st m n : holds st m n → holds st m (n + 1).
Proof. intros (d & He & HR & Hn). exists d. split_and!; try done. intros i v ?%Hn. lia. Qed.

Lemma commit_ok c d st : commit no_fault c d st = (Ok tt, set_env (Opened d false) st).
Proof. done. Qed.

Lemma holds_put st d m n i v b : rows_of d m → (∀ i v, is_Some (m !! (i, v)) → v < n) → key_wf i v → v <= n →
  holds (set_env (Opened (mdb_put (key i v) b d) false) st) (<[(i, v) := b]> m) (n + 1).
Proof using Hpad H0.
  intros HR Hn Hw Hv. eexists. split; [done|]. split; [by apply put_rows|]. by apply insert_bound.
Qed.

Lemma nonempty_true (b : bytes) : (0 < length b)%nat → (0 <? length b)%nat = true.
Proof. apply Nat.ltb_lt. Qed.

Lemma save_row p i b : row_simulates (OSave p i b).
Proof using Hpad H0.
  intros st m n Hh (Hw & Hb) Hn. pose proof Hh as (d & He & HR & Hlt). cbn [code_row spec_row op_id fst snd]. unfold save.
  rewrite (nonempty_true b Hb). cbn [assert_]. rewrite bind_assoc, ret_bind, bind_assoc, (bind_ok _ _ _ _ _ (begin_ok no_fault _ _ _ He eq_refl)).
  rewrite (proj1 HR) by done. destruct (m !! (i, 0)).
  - split; [done|]. by apply holds_weaken.
  - split; [done|]. apply (holds_put st d m n i 0 b); [done|done|done|lia].
Qed.

Lemma update_row p i b : row_simulates (OUpdate p i b).
Proof using Hpad H0.
  intros st m n Hh (Hw & Hb) Hn. pose proof Hh as (d & He & HR & Hlt). cbn [code_row spec_row op_id fst snd]. unfold update.
  rewrite (nonempty_true b Hb). cbn [assert_]. rewrite ret_bind, (bind_ok _ _ _ _ _ (begin_ok no_fault _ _ _ He eq_refl)).
  pose proof (top_bound i m n ltac:(lia) Hlt) as Ht.
  rewrite for_versions_fold, update_fold, (scanned_top i d m HR), Z.max_r; [|lia|lia|].
  2:{ eapply Forall_impl; [exact (scanned_range i d m n HR Hlt)|]. cbn beta. intros v Hv. lia. }
  split; [done|]. apply (holds_put st d m n i _ b); [done|done| |lia].
  destruct Hw as (? & ? & _). unfold key_wf, is_u32, is_u64 in *. lia.
Qed.

Lemma replace_row p i v b : row_simulates (OReplace p i v b).
Proof using Hpad H0.
  intros st m n Hh (Hw & Hb) Hn. pose proof Hh as (d & He & HR & Hlt). cbn [code_row spec_row op_id fst snd]. unfold replace.
  rewrite (nonempty_true b Hb). cbn [assert_]. rewrite ret_bind, (bind_ok _ _ _ _ _ (begin_ok no_fault _ _ _ He eq_refl)).
  pose proof (top_bound i m n ltac:(lia) Hlt) as Ht. cbn [checkLMDB no_fault]. rewrite ret_bind.
  assert (Forall (λ w, 0 <= w < n) (scanned i (mdb_list d))) as Hr by (by eapply scanned_range).
  rewrite for_versions_fold, replace_fold, (scanned_top i d m HR) by (lia || (eapply Forall_impl; [exact Hr|]; cbn beta; lia)).
  rewrite orb_false_l, orb_false_l.
  rewrite (bool_decide_ext (scanned i (mdb_list d) = []) (versions_of i m = [])).
  2:{ split; intros E; apply list_elem_of_nil_inv || apply elem_of_nil_inv; intros w Hin.
      - apply versions_of_elem in Hin. apply (scanned_elem i w d m HR) in Hin. rewrite E in Hin. inversion Hin.
      - apply (scanned_elem i w d m HR), versions_of_elem in Hin. rewrite E in Hin. inversion Hin. }
  rewrite (bool_decide_ext (v ∈ scanned i (mdb_list d)) (is_Some (m !! (i, v)))) by (by apply scanned_elem).
  destruct (decide (versions_of i m = [])) as [En|Hne].
  { rewrite bool_decide_eq_true_2 by done. cbn [negb]. split; [done|]. by apply holds_weaken. }
  rewrite (bool_decide_eq_false_2 (_ = [])) by done. cbn [negb]. destruct (m !! (i, v)) as [c|] eqn:Em.
  2:{ rewrite bool_decide_eq_false_2, bool_decide_eq_true_2 by (done || by intros []). cbn [negb]. split; [done|]. by apply holds_weaken. }
  rewrite bool_decide_eq_true_2, bool_decide_eq_false_2 by (done || by eauto). cbn [negb no_fault checkLMDB]. rewrite !ret_bind.
  assert (0 <= top (versions_of i m)) as Ht0.
  { apply Z.le_trans with v; [apply Hw|]. apply (proj2 (top_ge _)). apply versions_of_elem. eauto. }
  rewrite Z.max_r, wrap32_small by (unfold is_u32; lia). rewrite (bind_ok _ _ _ _ _ (commit_ok _ _ _)).
  split; [done|]. destruct Hw as (? & ? & ?). apply (holds_put st _ (delete (i, v) m) n i _ b); [by apply del_rows| | |lia].
  - intros j w (x & Hx). apply lookup_delete_Some in Hx as [_ Hx]. eauto.
  - unfold key_wf, is_u32, is_u64 in *. lia.
Qed.

Lemma erase_version_row i v : row_simulates (OErase i v).
Proof using Hpad H0.
  intros st m n Hh Hw Hn. pose proof Hh as (d & He & HR & Hlt). cbn [code_row spec_row op_id fst snd]. unfold erase_version.
  rewrite bind_assoc, (bind_ok _ _ _ _ _ (begin_ok no_fault _ _ _ He eq_refl)). split; [done|].
  eexists. split; [done|]. split; [by apply del_rows|]. intros j w (x & Hx). cbn [snd] in Hx. apply lookup_delete_Some in Hx as [_ Hx].
  assert (w < n) by eauto. lia.
Qed.

Lemma erase_row i : row_simulates (OEraseAll i).
Proof using Hpad H0.
  intros st m n Hh Hw Hn. pose proof Hh as (d & He & HR & Hlt). cbn [code_row spec_row op_id fst snd]. unfold erase.
  rewrite bind_assoc, (bind_ok _ _ _ _ _ (begin_ok no_fault _ _ _ He eq_refl)). split; [done|].
  eexists. split; [done|]. split; [by apply erase_rows|]. intros j w (x & Hx). cbn [snd] in Hx. apply map_lookup_filter_Some in Hx as [Hx _].
  assert (w < n) by eauto. lia.
Qed.

Lemma row_simulation o : row_simulates o.
Proof using Hpad H0. destruct o; auto using save_row, update_row, replace_row, erase_version_row, erase_row. Qed.

(** Each call of an operation is made with the padding of its identifier. *)
Definition call_wf (c : bytes * Op) : Prop := c.1 = pads (op_id c.2) ∧ row_wf c.2.

Lemma run_rows calls st m n : holds st m n → Forall call_wf calls → 0 <= n → n + Z.of_nat (length calls) < 2 ^ 32 →
  (run_all (code_row no_fault) calls st).1 = (run_all spec_row calls.*2 m).1.
Proof using Hpad H0.
  intros Hh Hw. revert st m n Hh. induction Hw as [|[q o] calls [Hq Ho] _ IH]; intros st m n Hh H1 H2; [done|]. cbn [fst snd] in Hq, Ho. subst q. cbn [fmap list_fmap fst snd run_all length] in *.
  destruct (row_simulation o st m n Hh Ho ltac:(lia)) as (E & Hh'). destruct (code_row no_fault _ st) as [r st'], (spec_row o m) as [r' m'].
  cbn [fst snd] in *. subst r'. specialize (IH st' m' (n + 1) Hh' ltac:(lia) ltac:(lia)). destruct r; cbn [fst snd]; [by f_equal|by f_equal|done].
Qed.

(** ** Loading *)

Lemma bytes_lt_irrefl k : bytes_lt k k = false.
Proof. induction k as [|c k IH]; cbn [bytes_lt]; [done|]. by rewrite bool_decide_eq_true_2. Qed.

Lemma sorted_keys_NoDup (l : list bytes) : StronglySorted (λ x y, bytes_lt x y = true) l → NoDup l.
Proof.
  induction 1 as [|k l Hs IH Hall]; constructor; [|done]. intros Hin. rewrite Forall_forall in Hall.
  specialize (Hall k Hin). by rewrite bytes_lt_irrefl in Hall.
Qed.

(** The pairs of the database are the rows, by the bytes of their keys. *)
Lemma list_rows d m : rows_of d m → ∃ ks : list (IdT * Z * bytes),
  mdb_list d = (λ x, (key x.1.1 x.1.2, x.2)) <$> ks ∧ ks ≡ₚ map_to_list m ∧ Forall (λ x, key_wf x.1.1 x.1.2) ks.
Proof using Hpad H0.
  intros HR. pose proof HR as (Hg & Hk & Hm). exists ((λ kv, (readKey kv.1, kv.2)) <$> mdb_list d).
  assert (∀ k b, (k, b) ∈ mdb_list d → ∃ i v, key_wf i v ∧ k = key i v ∧ m !! (i, v) = Some b) as Hin.
  { intros k b Hkb. apply list_get in Hkb. destruct (Hk k b Hkb) as (i & v & Hw & ->). rewrite Hg in Hkb by done. eauto. }
  split_and!.
  - rewrite <- list_fmap_compose. rewrite <- (list_fmap_id (mdb_list d)) at 1. apply list_fmap_ext. intros j [k b] Hj.
    apply list_elem_of_lookup_2 in Hj. apply Hin in Hj as (i & v & Hw & -> & _). unfold compose, id. cbn [fst snd]. by rewrite readKey_makeKey.
  - apply NoDup_Permutation.
    + apply NoDup_fmap_2_strong; [|exact (NoDup_fmap_1 fst _ (sorted_keys_NoDup _ (list_sorted d)))].
      intros [k b] [k' b'] H1 H2 E. apply Hin in H1 as (i & v & Hw & -> & _), H2 as (j & w & Hw' & -> & _). cbn [fst snd] in E.
      rewrite !readKey_makeKey in E by done. by simplify_eq.
    + apply NoDup_map_to_list.
    + intros [[i v] b]. rewrite elem_of_map_to_list, list_elem_of_fmap. split.
      * intros ([k c] & E & H1). apply Hin in H1 as (j & w & Hw & -> & Hj). cbn [fst snd] in E. rewrite readKey_makeKey in E by done. by simplify_eq.
      * intros Hb. exists (key i v, b). cbn [fst snd]. rewrite readKey_makeKey by eauto. split; [done|]. apply list_get. rewrite Hg by eauto. done.
  - apply Forall_fmap, Forall_forall. intros [k b] H1. apply Hin in H1 as (i & v & Hw & -> & _). unfold compose. cbn [fst snd]. by rewrite readKey_makeKey.
Qed.

Lemma deliver_rows {S} (onR : IdT → Z → bytes → M S unit) (ks : list (IdT * Z * bytes)) o : Forall (λ x, key_wf x.1.1 x.1.2) ks →
  deliver_all onR ((λ x, (key x.1.1 x.1.2, x.2)) <$> ks) o = foldr (λ x k, onR x.1.1 x.1.2 x.2 ;;; k) (ret tt) ks o.
Proof using Hpad.
  intros Hw. revert o. induction Hw as [|[[i v] b] ks Hx _ IH]; intros o; [done|]. cbn [fmap list_fmap deliver_all foldr fst snd] in *.
  rewrite makeKey_length, Nat.eqb_refl, readKey_makeKey by done. cbn [fst snd]. unfold bind.
  by destruct (onR i v b o) as [[[]|?|?] o'].
Qed.

(** ** Claims *)

Definition loaded (d : D) : t (D := D) := mkL (Opened d false) true IdTGenerator.init.

(** C18: [LMDBStorage] implements a map from identifier and version to bodies.  On an
    empty database, with every call of the library successful, every sequence of fewer than
    2^32 calls with identifiers and versions of their widths and non-empty records returns and throws what
    the map does, where [update] takes the version after the highest one and
    [replace] moves a version to the one after the highest.  The keys contain the padding
    bytes that the copy of the identifier carries; the calls made with one identifier are
    taken to carry the same ones, whatever they are (otherwise the records of the
    identifier are apart: [padding_splits_records]). *)
Theorem lmdb_refines_rows (calls : list (bytes * Op)) : Forall call_wf calls → Z.of_nat (length calls) < 2 ^ 32 →
  (run_all (code_row no_fault) calls (loaded mdb_empty)).1 = (run_all spec_row calls.*2 ∅).1.
Proof using Hpad H0.
  intros Hw Hn. apply (run_rows calls _ _ 0); [|done|lia|lia]. exists mdb_empty. split; [done|]. split; [split_and!|].
  - intros i v _. by rewrite get_empty.
  - intros k b. by rewrite get_empty.
  - done.
  - intros i v []. done.
Qed.

(** A computation that changes nothing unless it returns. *)
Definition atomic {A} (c : M (t (D := D)) A) : Prop := ∀ st, match c st with (Ok _, _) => True | (_, st') => st' = st end.
Definition pure_step {A} (c : M (t (D := D)) A) : Prop := ∀ st, (c st).2 = st.

Lemma atomic_bind {A B} (c : M (t (D := D)) A) (k : A → M _ B) : pure_step c → (∀ a, atomic (k a)) → atomic (bind c k).
Proof. intros Hc Hk st. unfold bind. specialize (Hc st). destruct (c st) as [[]?]; cbn in Hc; subst; [apply Hk|done|done]. Qed.
Lemma atomic_then {A B} (c : M (t (D := D)) A) (b : B) : atomic c → atomic (c ;;; ret b).
Proof. intros Hc st. unfold bind. specialize (Hc st). by destruct (c st) as [[]?]. Qed.
Lemma pure_assert b : pure_step (assert_ b).
Proof. by destruct b. Qed.
Lemma pure_check r c : pure_step (checkLMDB r c).
Proof. by destruct r. Qed.
Lemma pure_begin rc c : pure_step (begin_txn rc c).
Proof. intros st. unfold begin_txn, bind, gets. by destruct (env_ st) as [| |d []], (rc txn_begin). Qed.
Lemma atomic_throw {A} msg : atomic (throw msg : M _ A).
Proof. done. Qed.
Lemma atomic_modify f : atomic (modify f).
Proof. done. Qed.
Lemma atomic_commit rc c d : atomic (commit rc c d).
Proof. intros st. unfold commit, checkLMDB, bind. by destruct (rc txn_commit). Qed.
#[local] Hint Resolve atomic_bind atomic_then pure_assert pure_check pure_begin atomic_throw atomic_modify atomic_commit : core.

(** C35: An operation of [LMDBStorage] that throws has changed nothing, whichever
    calls of the library fail: an error before the commit, of the commit itself, and
    a refused operation all leave the database as it was. *)
Theorem lmdb_failure_atomic (rc : Call → option string) (o : bytes * Op) (st st' : t (D := D)) (msg : string) :
  code_row rc o st = (Throw msg, st') → st' = st.
Proof.
  intros E. assert (atomic (code_row rc o)) as Ha.
  { destruct o as [q []]; cbn [code_row fst snd]; try apply atomic_then;
      unfold save, update, replace, erase_version, erase; repeat (apply atomic_bind; [done|intros ?]); auto.
    - destruct (mdb_get _ _); auto.
    - destruct (for_versions _ _ _ _) as [[[] []] ?]; cbn [negb]; auto 10. }
  specialize (Ha st). by rewrite E in Ha.
Qed.
End simulation.
End keys.

(** ** A database that obeys the laws: a finite map read in key order *)

#[local] Definition pair_le (x y : bytes * bytes) : Prop := bytes_lt y.1 x.1 = false.
#[local] Instance pair_le_dec x y : Decision (pair_le x y).
Proof. unfold pair_le. apply _. Defined.

Lemma bytes_lt_total a b : bytes_lt a b = false → bytes_lt b a = false → a = b.
Proof.
  revert b. induction a as [|x a IH]; intros [|y b]; cbn [bytes_lt]; try done.
  destruct (decide (x = y)) as [->|Hn].
  - rewrite !bool_decide_eq_true_2 by done. intros ? ?. f_equal. auto.
  - rewrite !bool_decide_eq_false_2 by congruence. intros H1%N.ltb_ge H2%N.ltb_ge.
    destruct Hn. rewrite <- (ascii_N_embedding x), <- (ascii_N_embedding y). f_equal. lia.
Qed.

Lemma bytes_lt_trans a b c : bytes_lt a b = true → bytes_lt b c = true → bytes_lt a c = true.
Proof.
  revert b c. induction a as [|x a IH]; intros [|y b] [|z c]; cbn [bytes_lt]; try done.
  destruct (decide (x = y)) as [->|H1], (decide (y = z)) as [->|H2].
  - rewrite !bool_decide_eq_true_2 by done. apply IH.
  - rewrite (bool_decide_eq_true_2 (y = y)), !(bool_decide_eq_false_2 (y = z)) by done. done.
  - rewrite (bool_decide_eq_true_2 (z = z)), !(bool_decide_eq_false_2 (x = z)) by done. done.
  - rewrite (bool_decide_eq_false_2 (x = y)), (bool_decide_eq_false_2 (y = z)) by done. intros H3%N.ltb_lt H4%N.ltb_lt.
    rewrite bool_decide_eq_false_2 by (intros ->; lia). apply N.ltb_lt. lia.
Qed.

Lemma bytes_lt_asym a b : bytes_lt a b = true → bytes_lt b a = false.
Proof. intros H. apply not_true_iff_false. intros H'. pose proof (bytes_lt_trans _ _ _ H H') as E. by rewrite bytes_lt_irrefl in E. Qed.

#[local] Instance pair_le_total : Total pair_le.
Proof. intros x y. unfold pair_le. destruct (bytes_lt y.1 x.1) eqn:E; [right; by apply bytes_lt_asym|by left]. Qed.

#[local] Instance pair_le_trans : Transitive pair_le.
Proof.
  intros x y z H1 H2. unfold pair_le in *. apply not_true_iff_false. intros H3.
  destruct (bytes_lt x.1 y.1) eqn:E1.
  - by rewrite (bytes_lt_trans _ _ _ H3 E1) in H2.
  - rewrite (bytes_lt_total _ _ E1 H1) in H3. congruence.
Qed.

#[global] Instance gmap_mdb : MDB (gmap bytes bytes) := {|
  mdb_empty := ∅; mdb_get k d := d !! k; mdb_put k b d := <[k := b]> d; mdb_del k d := delete k d;
  mdb_list d := merge_sort pair_le (map_to_list d) |}.

Lemma sorted_strict (l : list (bytes * bytes)) : NoDup l.*1 → StronglySorted pair_le l → StronglySorted (λ x y, bytes_lt x y = true) l.*1.
Proof.
  intros Hn Hs. induction Hs as [|x l Hs IH Hall]; [constructor|]. cbn [fmap list_fmap] in *. apply NoDup_cons in Hn as [Hx Hn].
  constructor; [by apply IH|]. apply Forall_fmap. rewrite Forall_forall in *. intros y Hy. cbn. specialize (Hall y Hy). unfold pair_le in Hall.
  apply not_false_iff_true. intros E. destruct Hx. rewrite <- (bytes_lt_total _ _ Hall E). by apply list_elem_of_fmap_2.
Qed.

#[global] Instance gmap_mdb_laws : MDBLaws (gmap bytes bytes).
Proof.
  split.
  - done.
  - intros k k' b d. cbn. case_bool_decide; [subst; by rewrite lookup_insert_eq|by rewrite lookup_insert_ne].
  - intros k k' d. cbn. case_bool_decide; [subst; by rewrite lookup_delete_eq|by rewrite lookup_delete_ne].
  - intros k b d. cbn. by rewrite merge_sort_Permutation, elem_of_map_to_list.
  - intros d. cbn. apply sorted_strict.
    + rewrite merge_sort_Permutation. apply NoDup_fst_map_to_list.
    + apply (StronglySorted_merge_sort _).
Qed.

Lemma replaced_spec (p b : bytes) (i : IdT) :
  (run_all spec_row [OSave p i b; OReplace p i 0 b; OSave p i b] ∅).1 = [Ok 0; Ok 1; Ok 0].
Proof.
  cbn [run_all spec_row]. rewrite lookup_empty, insert_empty. cbn [fst snd].
  assert (versions_of i ({[(i, 0) := b]} : gmap (IdT * Z) bytes) = [0]) as ->.
  { unfold versions_of. rewrite map_to_list_singleton. cbn. by rewrite bool_decide_eq_true_2. }
  rewrite lookup_singleton_eq. rewrite !bool_decide_eq_false_2 by done. rewrite delete_singleton_eq, insert_empty. cbn [fst snd top foldr].
  by rewrite lookup_singleton_ne by done.
Qed.

(** The two implementations of [FileSaver] disagree on a record whose first
    version was replaced: [FileStorage::save] refuses its identifier,
    [LMDBStorage::save] only looks for version 0 and stores a second record under
    the identifier that its message says does not exist. *)
Theorem storages_disagree {D : Type} `{MDBLaws D} (p b : bytes) (i : IdT) : entry_wf (mkEntry true i p 0 b) →
  let ops := [OSave p i b; OReplace p i 0 b; OSave p i b] in
  (run_all code_op ops fresh).1 =
    [Ok 0; Ok 1; Throw "FileStorage::save: Unable to save record, record with this Id already exists!"] ∧
  (run_all (code_row no_fault) ((λ o, (p, o)) <$> ops) (loaded (mdb_empty : D))).1 = [Ok 0; Ok 1; Ok 0].
Proof.
  intros Hw ops. pose proof Hw as (Hp & Hi & Hd & _ & Hb & _). cbn [e_pad e_id e_body] in *. split.
  - unfold ops. rewrite run_fresh by (repeat (apply Forall_cons_2; [done|]); apply Forall_nil_2).
    cbn [run_all spec_op]. rewrite lookup_empty. cbn [fst snd]. rewrite lookup_insert_eq. cbn [last rm1 fst snd].
    by rewrite Z.eqb_refl, lookup_insert_eq.
  - rewrite (run_rows (λ _, p) (λ _, Hp) _ _ ∅ 0); [apply replaced_spec| | |done|done].
    + exists mdb_empty. split; [done|]. split; [split_and!|].
      * intros j v _. by rewrite get_empty.
      * intros k c. by rewrite get_empty.
      * done.
      * by intros j v [].
    + repeat (apply Forall_cons_2; [done|]). apply Forall_nil_2.
Qed.

(** The copy of an identifier into a key may carry its padding bytes, which no constructor
    of [IdT] sets: two calls with the same identifier and other padding use different
    keys, so that a second [save] of an identifier succeeds where the map refuses it. *)
Theorem padding_splits_records {D : Type} `{MDBLaws D} (p q b : bytes) (i : IdT) : length p = 4%nat → length q = 4%nat → p ≠ q →
  (0 < length b)%nat →
  (run_all (code_row no_fault) [(p, OSave p i b); (q, OSave q i b)] (loaded (mdb_empty : D))).1 = [Ok 0; Ok 0] ∧
  (run_all spec_row [OSave p i b; OSave q i b] ∅).1 = [Ok 0; Throw lm_exists].
Proof.
  intros Hp Hq Hne Hb. split.
  - assert (makeKey q i 0 ≠ makeKey p i 0) as Hk.
    { intros E. unfold makeKey, id_bytes in E. rewrite <- !app_assoc in E. do 2 apply app_inv_head in E.
      apply app_inj_1 in E as [E _]; congruence. }
    cbn [run_all code_row fst snd]. unfold save. rewrite (nonempty_true b Hb). unfold begin_txn, commit, bind, gets, modify, assert_, ret, throw, loaded.
    cbn -[makeKey]. rewrite get_empty. cbn -[makeKey]. by rewrite get_put, bool_decide_eq_false_2, get_empty.
  - cbn [run_all spec_row]. rewrite lookup_empty. cbn [fst snd]. by rewrite lookup_insert_eq.
Qed.

(** *** Concrete runs *)

Definition db0 : t (D := gmap bytes bytes) := loaded mdb_empty.

(** The padding of the identifiers of the run differs. *)
Definition ex_pads (i : IdT) : bytes := if id_ i =? 1 then pad0 else str "PADS".

Lemma lmdb_refines_rows_witness : (run_all (code_row no_fault) ((λ o, (ex_pads (op_id o), o)) <$> ops1) db0).1 = [Ok 0; Ok 1; Ok 0; Ok 2; Ok 0].
Proof.
  transitivity (run_all spec_row ops1 ∅).1; [|vm_compute; reflexivity].
  assert (∀ i, length (ex_pads i) = 4%nat) as Hp by (intros i; unfold ex_pads; destruct (id_ i =? 1); reflexivity).
  apply (lmdb_refines_rows ex_pads Hp (D := gmap bytes bytes)); [|reflexivity].
  repeat constructor; vm_compute; try done; intros [=].
Defined.

(** The disk is full: [mdb_put] fails. *)
Definition disk_full (c : Call) : option string := match c with put => Some "MDB_MAP_FULL" | _ => None end.

Lemma lmdb_failure_atomic_witness : ∃ st', code_row disk_full (pad0, OReplace pad0 (mkIdT 1 5) 0 (str "b"))
    (code_row no_fault (pad0, OSave pad0 (mkIdT 1 5) (str "a")) db0).2 =
      (Throw "LMDBStorage::replace mdb_put: MDB_MAP_FULL", st') ∧
  st' = (code_row no_fault (pad0, OSave pad0 (mkIdT 1 5) (str "a")) db0).2.
Proof.
  set (st := (code_row no_fault (pad0, OSave pad0 (mkIdT 1 5) (str "a")) db0).2).
  assert ((code_row disk_full (pad0, OReplace pad0 (mkIdT 1 5) 0 (str "b")) st).1 = Throw "LMDBStorage::replace mdb_put: MDB_MAP_FULL") as E
    by (vm_compute; reflexivity).
  eexists. split; [rewrite <- E; apply surjective_pairing|].
  apply (lmdb_failure_atomic disk_full (pad0, OReplace pad0 (mkIdT 1 5) 0 (str "b")) st _ "LMDBStorage::replace mdb_put: MDB_MAP_FULL").
  rewrite <- E. apply surjective_pairing.
Defined.

Lemma storages_disagree_witness :
  (run_all (code_row no_fault) ((λ o, (pad0, o)) <$> [OSave pad0 (mkIdT 1 5) (str "a"); OReplace pad0 (mkIdT 1 5) 0 (str "a");
    OSave pad0 (mkIdT 1 5) (str "a")]) db0).1 = [Ok 0; Ok 1; Ok 0].
Proof. apply (storages_disagree pad0 (str "a") (mkIdT 1 5)). vm_compute. repeat split; try done; intros [=]. Defined.

Lemma padding_splits_records_witness :
  (run_all (code_row no_fault) [(pad0, OSave pad0 (mkIdT 1 5) (str "a")); (str "PADS", OSave pad0 (mkIdT 1 5) (str "a"))] db0).1 = [Ok 0; Ok 0].
Proof. apply (padding_splits_records pad0 (str "PADS") (str "a") (mkIdT 1 5)); [reflexivity..|discriminate|cbn; lia]. Defined.
End LMDB.
