(* ===== verification/Args.v ===== *)
(** The command line of the server, [src/app/main.cpp]. *)

From Stdlib Require Import Ascii String ZArith Lia.
From stdpp Require Import pretty.
From S2P Require Import Prelude.
#[local] Open Scope string_scope.
#[local] Open Scope Z_scope.

Module Args.

(** *** std::stoi *)

Definition is_space (c : ascii) : bool := let n := N_of_ascii c in (n =? 32)%N || ((9 <=? n) && (n <=? 13))%N.
Definition digit (c : ascii) : option Z :=
  let n := Z.of_N (N_of_ascii c) in if (48 <=? n) && (n <=? 57) then Some (n - 48) else None.

Fixpoint skip_spaces (s : string) : string :=
  match s with String c s' => if is_space c then skip_spaces s' else s | EmptyString => s end.

(** The number the leading digits form; [None] if there is none. *)
Fixpoint digits (acc : Z) (seen : bool) (s : string) : option Z :=
  let stop := if seen then Some acc else None in
  match s with
  | String c s' => match digit c with Some d => digits (10 * acc + d) true s' | None => stop end
  | EmptyString => stop
  end.

(** White space, a sign and digits; what follows them is ignored.  Both exceptions
    carry the text [stoi]. *)
Definition stoi (s : string) : outcome Z :=
  let s1 := skip_spaces s in
  let '(neg, s2) := match s1 with
                    | String "-"%char s' => (true, s')
                    | String "+"%char s' => (false, s')
                    | _ => (false, s1)
                    end in
  match digits 0 false s2 with
  | None => Throw "stoi"
  | Some v => let z := if neg then - v else v in if (- 2 ^ 31 <=? z) && (z <? 2 ^ 31) then Ok z else Throw "stoi"
  end.

(** struct Config -- src/app/main.cpp:35-42 *)
Record Config := mkConfig { port : Z; dataDir : string; workers : Z; cpuAffinityStart : Z; hugePages : bool }.

(** Config, the initialisers -- src/app/main.cpp:37-41 *)
Definition default_config : Config := mkConfig 8080 "./data" 0 (-1) false.

(** parseArgs -- src/app/main.cpp:44-72
    The arguments after the name of the program.  A name at the end, without its value,
    and an unknown argument are passed over; [unsigned short] has 16 bits. *)
Fixpoint parse_from (cfg : Config) (l : list string) : outcome Config :=
  match l with
  | [] => Ok cfg
  | arg :: l' =>
      if bool_decide (arg = "--huge-pages") then parse_from (mkConfig (port cfg) (dataDir cfg) (workers cfg) (cpuAffinityStart cfg) true) l'
      else
        match l' with
        | [] => Ok cfg
        | v :: l'' =>
            if bool_decide (arg = "--port") then
              obind (stoi v) (λ z, parse_from (mkConfig (z `mod` 2 ^ 16) (dataDir cfg) (workers cfg) (cpuAffinityStart cfg) (hugePages cfg)) l'')
            else if bool_decide (arg = "--data-dir") then
              parse_from (mkConfig (port cfg) v (workers cfg) (cpuAffinityStart cfg) (hugePages cfg)) l''
            else if bool_decide (arg = "--workers") then
              obind (stoi v) (λ z, parse_from (mkConfig (port cfg) (dataDir cfg) z (cpuAffinityStart cfg) (hugePages cfg)) l'')
            else if bool_decide (arg = "--cpu-affinity") then
              obind (stoi v) (λ z, parse_from (mkConfig (port cfg) (dataDir cfg) (workers cfg) z (hugePages cfg)) l'')
            else parse_from cfg l'
        end
  end.

Definition parseArgs (argv : list string) : outcome Config := parse_from default_config argv.

(** numProcessors in main -- src/app/main.cpp:175-175 *)
Definition numProcessors (cfg : Config) : Z := if 0 <? workers cfg then workers cfg else 2.

(** ** Numbers as text *)

Lemma pretty_digit n : (n < 10)%N → digit (pretty_N_char n) = Some (Z.of_N n) ∧ is_space (pretty_N_char n) = false ∧
  pretty_N_char n ≠ "-"%char ∧ pretty_N_char n ≠ "+"%char.
Proof.
  intros Hn. assert (n = 0 ∨ n = 1 ∨ n = 2 ∨ n = 3 ∨ n = 4 ∨ n = 5 ∨ n = 6 ∨ n = 7 ∨ n = 8 ∨ n = 9)%N as Hd by lia.
  destruct_or! Hd; subst; by vm_compute.
Qed.

Lemma digits_pretty x s : digits 0 false (pretty_N_go x s) = if (x =? 0)%N then digits 0 false s else digits (Z.of_N x) true s.
Proof.
  revert s. induction (N.lt_wf_0 x) as [x _ IH]; intros s. destruct (N.eqb_spec x 0) as [->|Hx]; [by rewrite pretty_N_go_0|].
  rewrite pretty_N_go_step by lia. rewrite IH by (apply N.div_lt; lia).
  destruct (pretty_digit (x `mod` 10) ltac:(apply N.mod_lt; lia)) as [Hd _].
  pose proof (N.div_mod x 10 ltac:(lia)). destruct (N.eqb_spec (x `div` 10) 0); cbn [digits]; rewrite Hd; f_equal; lia.
Qed.

(** The text of a positive number starts with a digit. *)
Lemma pretty_head x s : (0 < x)%N → ∃ c s', pretty_N_go x s = String c s' ∧ is_space c = false ∧ c ≠ "-"%char ∧ c ≠ "+"%char.
Proof.
  revert s. induction (N.lt_wf_0 x) as [x _ IH]; intros s Hx. rewrite pretty_N_go_step by done.
  destruct (pretty_digit (x `mod` 10) ltac:(apply N.mod_lt; lia)) as (_ & ? & ? & ?).
  destruct (decide (x `div` 10 = 0)%N) as [->|Hd]; [rewrite pretty_N_go_0; by eexists _, _|]. apply IH; [apply N.div_lt; lia|by apply N.neq_0_lt_0].
Qed.

Lemma stoi_pretty z : is_i32 z → stoi (pretty z) = Ok z.
Proof.
  unfold is_i32. intros Hz. assert ((- 2 ^ 31 <=? z) && (z <? 2 ^ 31) = true) as Hr by (apply andb_true_iff; rewrite Z.leb_le, Z.ltb_lt; lia).
  destruct z as [|p|p]; [reflexivity| |].
  - change (pretty (Zpos p)) with (pretty_N_go (Npos p) ""). destruct (pretty_head (Npos p) "" ltac:(lia)) as (c & s & E & Hs & Hm & Hp). unfold stoi.
    pose proof (digits_pretty (Npos p) "") as Hd. rewrite E in *. cbn [skip_spaces]. rewrite Hs.
    assert ((match String c s with String "-" s' => (true, s') | String "+" s' => (false, s') | _ => (false, String c s) end) = (false, String c s)) as ->.
    { destruct c as [[] [] [] [] [] [] [] []]; try reflexivity; done. }
    rewrite Hd. cbn [N.eqb digits]. change (Z.of_N (Npos p)) with (Zpos p). by rewrite Hr.
  - change (pretty (Zneg p)) with (String "-" (pretty_N_go (Npos p) "")). unfold stoi. cbn [skip_spaces]. change (is_space "-") with false. cbn iota beta.
    rewrite (digits_pretty (Npos p) ""). cbn [N.eqb digits]. change (- Z.of_N (Npos p)) with (Zneg p). by rewrite Hr.
Qed.

(** ** The configuration *)

(** The arguments that ask for a configuration. *)
Definition render (cfg : Config) : list string :=
  (["--port"; pretty (port cfg); "--data-dir"; dataDir cfg; "--workers"; pretty (workers cfg); "--cpu-affinity"; pretty (cpuAffinityStart cfg)] ++
   if hugePages cfg then ["--huge-pages"] else [])%list.

Section options.
Context (cfg : Config) (v : string) (l : list string).

Lemma parse_port : parse_from cfg ("--port" :: v :: l) =
  obind (stoi v) (λ z, parse_from (mkConfig (z `mod` 2 ^ 16) (dataDir cfg) (workers cfg) (cpuAffinityStart cfg) (hugePages cfg)) l).
Proof. reflexivity. Qed.

Lemma parse_dir : parse_from cfg ("--data-dir" :: v :: l) = parse_from (mkConfig (port cfg) v (workers cfg) (cpuAffinityStart cfg) (hugePages cfg)) l.
Proof. reflexivity. Qed.

Lemma parse_workers : parse_from cfg ("--workers" :: v :: l) =
  obind (stoi v) (λ z, parse_from (mkConfig (port cfg) (dataDir cfg) z (cpuAffinityStart cfg) (hugePages cfg)) l).
Proof. reflexivity. Qed.

Lemma parse_affinity : parse_from cfg ("--cpu-affinity" :: v :: l) =
  obind (stoi v) (λ z, parse_from (mkConfig (port cfg) (dataDir cfg) (workers cfg) z (hugePages cfg)) l).
Proof. reflexivity. Qed.
End options.

(** The command line of a configuration gives that configuration back, whatever the name of
    the directory is (also that of an option), except that a port is taken modulo 2^16. *)
Theorem parse_render cfg : is_i32 (port cfg) → is_i32 (workers cfg) → is_i32 (cpuAffinityStart cfg) →
  parseArgs (render cfg) = Ok (mkConfig (port cfg `mod` 2 ^ 16) (dataDir cfg) (workers cfg) (cpuAffinityStart cfg) (hugePages cfg)).
Proof.
  intros Hp Hw Ha. unfold parseArgs, render. cbn [app].
  rewrite parse_port, (stoi_pretty _ Hp). cbn [obind]. rewrite parse_dir, parse_workers, (stoi_pretty _ Hw). cbn [obind].
  rewrite parse_affinity, (stoi_pretty _ Ha). by destruct (hugePages cfg).
Qed.

(** A number out of the range of [int], or none at all, ends the program. *)
Lemma parse_render_witness : parseArgs ["--port"; "70000"; "--data-dir"; "--port"; "--workers"; "-3"; "--cpu-affinity"; "7"; "--huge-pages"] =
    Ok (mkConfig 4464 "--port" (-3) 7 true) ∧ parseArgs ["--port"; "none"] = Throw "stoi" ∧ parseArgs ["--workers"; "3000000000"] = Throw "stoi".
Proof.
  split; [|by vm_compute]. exact (parse_render (mkConfig 70000 "--port" (-3) 7 true) ltac:(by split) ltac:(by split) ltac:(by split)).
Defined.
End Args.
