(* ===== verification/Shutdown.v ===== *)
(** The life of the server: the steps of [main] ([src/app/main.cpp]) that create and stop
    the transaction manager, the pools of processors and the incoming queue, with the
    constructor and the destructor of the task manager. *)

From Stdlib Require Import String ZArith Lia.
From S2P Require Import Prelude Types IdGen OrderStore LinkTree TxScope TxMgr Engine Queues Tasks.
From S2P Require Import Matcher StateTable StateActions TrOps Processor Args.
#[local] Open Scope Z_scope.

Create HintDb late.

Module Shutdown.
Import TaskManager.

Section server.
Context {T : Type} `{Transaction T}.

(** What the shutdown works on. *)
Record Server := mkServer { s_mgr : TransactionMgr.t T; s_tpool : Pool; s_epool : Pool; s_in : IncomingQueues.t }.

Definition with_mgr {A} (c : M (TransactionMgr.t T) A) : M Server A := λ s,
  let r := c (s_mgr s) in (r.1, mkServer r.2 (s_tpool s) (s_epool s) (s_in s)).

(** Every processor of a pool is in its place. *)
Definition all_back (p : Pool) : bool := lastAvailable p =? Z.of_nat (length (slots p)) - 1.

(** TaskManager::TaskManager, the members -- src/src/TaskManager.cpp:39-59
    With [tn] and [en] processors for transactions and events. *)
Definition constructor (tn en : nat) : M Server unit :=
  assert_ (0 <? tn)%nat ;;;
  modify (λ s, mkServer (s_mgr s) (pool_create tn) (s_epool s) (s_in s)) ;;;
  assert_ (0 <? en)%nat ;;;
  modify (λ s, mkServer (s_mgr s) (s_tpool s) (pool_create en) (s_in s)) ;;;
  with_mgr TransactionMgr.attach ;;;
  modify (λ s, mkServer (s_mgr s) (s_tpool s) (s_epool s) (IncomingQueues.attach true (s_in s)).2).

(** Nothing is there yet. *)
Definition no_server : Server := mkServer TransactionMgr.create (mkPool [] (-1)) (mkPool [] (-1)) IncomingQueues.create.

(** main, steps 6 to 9 -- src/app/main.cpp:162-204
    [gen] is the counter of the identifier generator; sessions and the queue of outgoing
    messages are in [WsApp]. *)
Definition startup (gen : IdTGenerator.t) (cfg : Args.Config) : M Server unit :=
  with_mgr (TransactionMgr.init gen) ;;;
  let n := Z.to_nat (Args.numProcessors cfg) in constructor n n.

(** TaskManager::~TaskManager -- src/src/TaskManager.cpp:70-90
    The two assertions; the counters it logs are left out. *)
Definition destructor : M Server unit :=
  with_mgr TransactionMgr.detach ;;;
  s <- gets (λ s, s) ;;
  assert_ (all_back (s_tpool s)) ;;;
  assert_ (all_back (s_epool s)).

(** main, step 13 -- src/app/main.cpp:243-251
    [others] is what the workers do while [main] waits (the last of its arguments is the
    number of tests made), so the [n]-th test sees [others s n].  The result of the wait
    is not used. *)
Definition shutdown (others : Server → nat → Server) : M Server unit :=
  with_mgr TransactionMgr.stop ;;;
  (λ s, match waitUntilTransactionsFinished (λ n, let x := others s n in (s_tpool x, s_epool x, Z.to_nat (IncomingQueues.queueSize (s_in x)))) 5 with
        | Some _ => (Ok tt, others s 5%nat)
        | None => (Crash "the wait does not end", s)
        end) ;;;
  modify (λ s, mkServer (s_mgr s) (s_tpool s) (s_epool s) (IncomingQueues.detach (s_in s)).2) ;;;
  with_mgr TransactionMgr.detach ;;;
  destructor.

(** The shutdown ends normally exactly if every processor is back when the wait is over;
    otherwise the destructor of the task manager violates an assertion, whatever the wait
    returned. *)
Theorem shutdown_outcome others s : TransactionMgr.started (s_mgr s) = true →
  let s1 := mkServer (TransactionMgr.stop (s_mgr s)).2 (s_tpool s) (s_epool s) (s_in s) in let s2 := others s1 5%nat in
  (shutdown others s).1 = (if all_back (s_tpool s2) && all_back (s_epool s2) then Ok tt else Crash "assert") ∧
  TransactionMgr.observed (s_mgr (shutdown others s).2) = false ∧ IncomingQueues.observed (s_in (shutdown others s).2) = false.
Proof.
  intros Hst s1 s2. unfold shutdown.
  rewrite (bind_ok _ _ s tt s1) by (unfold with_mgr, s1, TransactionMgr.stop, bind, gets, assert_, modify, ret; by rewrite Hst).
  rewrite (bind_ok _ _ s1 tt s2).
  2:{ by rewrite wait_two_idle_tests. }
  rewrite (bind_ok (modify _) _ _ tt _ eq_refl). unfold destructor, with_mgr, TransactionMgr.detach, assert_, bind, gets, modify, ret. cbn.
  destruct (all_back (s_tpool s2)); cbn; [|done]. by destruct (all_back (s_epool s2)).
Qed.

(** Every configuration gives a server that is started and observed, with all its
    processors in place; and it stops normally if they are back in place by then. *)
Theorem server_starts_and_stops gen cfg : ∃ s, startup gen cfg no_server = (Ok tt, s) ∧
  TransactionMgr.started (s_mgr s) = true ∧ TransactionMgr.observed (s_mgr s) = true ∧ IncomingQueues.observed (s_in s) = true ∧
  finished (s_tpool s, s_epool s, 0%nat) = true ∧
  ∀ others, (∀ s', all_back (s_tpool (others s' 5%nat)) = true ∧ all_back (s_epool (others s' 5%nat)) = true) → (shutdown others s).1 = Ok tt.
Proof.
  set (n := Z.to_nat (Args.numProcessors cfg)). assert (0 < n)%nat as Hn by (unfold n, Args.numProcessors; destruct (Z.ltb_spec 0 (Args.workers cfg)); lia).
  eexists. split.
  { unfold startup, constructor. fold n. rewrite (proj2 (Nat.ltb_lt _ _)) by done. reflexivity. }
  cbn [s_mgr s_tpool s_epool s_in]. split_and!; try done.
  - unfold finished, pool_create. cbn [slots lastAvailable]. rewrite length_fmap, length_seq, !Z.eqb_refl. done.
  - intros others Ho. edestruct (shutdown_outcome others) as [-> _]; [reflexivity|]. destruct (Ho (mkServer (TransactionMgr.stop (TransactionMgr.attach (TransactionMgr.init gen TransactionMgr.create).2).2).2 (pool_create n) (pool_create n) (IncomingQueues.attach true IncomingQueues.create).2)) as [E1 E2].
    cbn in E1, E2 |- *. by rewrite E1, E2.
Qed.

(** Work that is still under way when [main] stops the manager cannot be completed. *)
Lemma stopped_add tr now m : TransactionMgr.started m = false → TransactionMgr.addTransaction tr now m = (Crash "assert", m).
Proof. intros Hs. unfold TransactionMgr.addTransaction, bind, gets. cbn. by rewrite Hs. Qed.

Lemma stopped_finish k (s : TransactionMgr.t T * Pool) : TransactionMgr.started s.1 = false → finish k s = (Crash "assert", s).
Proof.
  intros Hs. unfold finish, on_mgr, TransactionMgr.removeTransaction, bind, gets. cbn. rewrite Hs. cbn. by destruct s.
Qed.
End server.

(** ** A processor that was lost *)

Section lost.
Context {E : Type} (handles : E → bool).

Definition holds (a : EAct) : nat := match a with ECall => 0 | _ => 1 end.

(** The processors that are in the pool or with a task. *)
Definition capacity (s : ESys (E := E)) : Z := lastAvailable (epool s) + 1 + Z.of_nat (sum_list_with holds (eacts s)).

Lemma estep_capacity s s' : estep handles s s' → capacity s' <= capacity s ∧ length (slots (epool s')) = length (slots (epool s)).
Proof.
  intros Hs. unfold capacity.
  destruct Hs as [s e|s a1 a2 new p' E0 E1|s a1 a2 x new q' E0 E1|s a1 a2 x rez new p' E0 E1]; cbn [epool eacts];
    try rewrite E0; rewrite ?sum_list_with_app; cbn [sum_list_with holds].
  - split; [lia|done].
  - unfold onNewEvent in E1. destruct (lastAvailable (epool s) <? 0); [injection E1 as <- <-; cbn; split; [lia|done]|].
    apply bind_ok_inv in E1 as (y & p2 & Et & E1). injection E1 as <- <-. cbn [sum_list_with holds]. split; [|by apply take_last_length in Et].
    unfold take_last in Et. destruct (slots (epool s) !! _) as [[z|]|]; simplify_eq/=. lia.
  - unfold process in E1. destruct (queue s) as [|e q]; [injection E1 as <- <-; cbn; split; [lia|done]|].
    destruct (handles e); injection E1 as <- <-; cbn; (split; [lia|done]).
  - unfold finish_event in E1. apply bind_ok_inv in E1 as ([] & p2 & Eg & E1). injection E1 as <- <-.
    unfold give_back in Eg. destruct ((0 <=? _) && _); [|done]. injection Eg as <-. cbn [lastAvailable slots]. rewrite length_insert.
    split; [|done]. destruct rez; cbn; lia.
Qed.

Lemma rtc_capacity s s' : rtc (estep handles) s s' → capacity s' <= capacity s ∧ length (slots (epool s')) = length (slots (epool s)).
Proof.
  induction 1 as [|s1 s2 s3 H12%estep_capacity _ [IH1 IH2]]; [done|]. destruct H12 as [H1 H2]. split; [lia|congruence].
Qed.

(** One handler that throws spoils the end of the server.  From then on no test of the
    wait ever finds all processors back, so the wait runs to its end in vain, and the
    destructor of the task manager violates its assertion. *)
Theorem throwing_handler_spoils_shutdown {T} `{Transaction T} n s a1 x a2 e q :
  rtc (estep handles) (estart n) s → eacts s = a1 ++ ERun x :: a2 → queue s = e :: q → handles e = false →
  ∃ s1, estep handles s s1 ∧ ∀ s2, rtc (estep handles) s1 s2 →
    (∀ tp k, finished (tp, epool s2, k) = false) ∧
    ∀ (others : Server (T := T) → nat → Server) sv, TransactionMgr.started (s_mgr sv) = true →
      (∀ sv', s_epool (others sv' 5%nat) = epool s2) → (shutdown others sv).1 = Crash "assert".
Proof.
  intros Hr Ha Hq He. exists (mkESys (epool s) q (a1 ++ [] ++ a2)). split.
  { eapply e_run; [exact Ha|]. unfold process. by rewrite Hq, He. }
  intros s2 H2. apply rtc_capacity in Hr as [Hr1 Hr2]. apply rtc_capacity in H2 as [H21 H22].
  assert (capacity (estart (E := E) n) = Z.of_nat n ∧ length (slots (epool (estart (E := E) n))) = n) as [Hc Hl].
  { unfold capacity, estart, pool_create. cbn. rewrite length_fmap, length_seq. split; [lia|done]. }
  unfold capacity in *. rewrite Ha in Hr1. cbn [epool eacts app] in *. rewrite sum_list_with_app in *. cbn [sum_list_with holds] in *.
  assert (all_back (epool s2) = false) as Hb by (unfold all_back; rewrite H22, Hr2, Hl; apply Z.eqb_neq; lia).
  split.
  - intros tp k. unfold finished. unfold all_back in Hb. rewrite Hb. by rewrite andb_false_r.
  - intros others sv Hst Hep. destruct (shutdown_outcome others sv Hst) as [-> _]. rewrite Hep, Hb. by rewrite andb_false_r.
Qed.
End lost.

(** ** Events after the manager was stopped *)

Section late.
Context {SO SD : Type} (sv_order : OrderEntry → M SO unit) (now ctime : Z) `{B : !Machine (SO := SO) (SD := SD) sv_order now}.
Abbreviation P := (Processor.t SO SD).
Implicit Types (p : P).
Import Processor.

Definition stopped p : Prop := TransactionMgr.started (p_mgr p) = false.

(** A computation that leaves the manager alone, and one that does not end normally once
    the manager is stopped. *)
Definition keeps {A} (c : M P A) : Prop := ∀ p, stopped p → stopped (c p).2.
Definition refuses {A} (c : M P A) : Prop := ∀ p, stopped p → is_ok (c p).1 = false.

Lemma keeps_seq {A C} (c : M P A) (k : A → M P C) : keeps c → (∀ a, keeps (k a)) → keeps (bind c k).
Proof. intros Hc Hk p Hp. unfold bind. specialize (Hc p Hp). destruct (c p) as [[a|?|?] p']; [by apply Hk|done|done]. Qed.

Lemma refuses_bind {A C} (c : M P A) (k : A → M P C) : keeps c → (∀ a, refuses (k a)) → refuses (bind c k).
Proof. intros Hc Hk p Hp. unfold bind. specialize (Hc p Hp). destruct (c p) as [[a|?|?] p']; [by apply Hk|done|done]. Qed.

Lemma keeps_on_w {A} (c : M (World SO SD) A) : keeps (on_w c).
Proof. intros p Hp. done. Qed.
Lemma keeps_ret {A} (a : A) : keeps (ret a).
Proof. intros p Hp. done. Qed.
Lemma keeps_throw {A} m : keeps (throw (A := A) m).
Proof. intros p Hp. done. Qed.
Lemma keeps_crash {A} m : keeps (crash (A := A) m).
Proof. intros p Hp. done. Qed.
Lemma keeps_assert b : keeps (assert_ b).
Proof. intros p Hp. by destruct b. Qed.
Lemma refuses_throw {A} m : refuses (throw (A := A) m).
Proof. intros p Hp. done. Qed.

Lemma keeps_process_on zs d e : keeps (process_on sv_order now zs d e).
Proof.
  intros p Hp. unfold process_on. destruct (process_event e _) as [r [zs' f]]. cbn [fst snd].
  destruct r; [|done|done]. by destruct (OrdStateImpl.f_orderData f).
Qed.

Lemma refuses_submit : refuses (submit now).
Proof.
  intros p Hp. unfold submit. cbn [fst]. rewrite stopped_add; [done|]. by destruct (TransactionMgr.idGenerator (p_mgr p)).
Qed.

#[local] Hint Resolve keeps_seq refuses_bind keeps_on_w keeps_ret keeps_throw keeps_crash keeps_assert keeps_process_on refuses_submit refuses_throw : late.

Lemma keeps_process_order l e : keeps (process_order sv_order now l e).
Proof. apply keeps_seq; [auto with late|]. intros o. destruct (restored_zones (o_smp o)); auto with late. Qed.

Lemma keeps_locate msg id : keeps (locate msg id).
Proof. apply keeps_seq; [auto with late|]. intros w. destruct (OrderStore.locateByOrderId id (w_store w)); auto with late. Qed.

Lemma keeps_execute_trade t : keeps (execute_trade sv_order now t).
Proof. apply keeps_seq; [auto with late|]. intros o. apply keeps_process_order. Qed.

Lemma keeps_execute_trades l acc : keeps (execute_trades sv_order now l acc).
Proof.
  revert acc. induction l as [|t l IH]; intros acc; cbn [execute_trades]; [apply keeps_ret|].
  repeat (apply keeps_seq; [auto using keeps_execute_trade with late|intros ?]). apply IH.
Qed.

#[local] Hint Resolve keeps_process_order keeps_locate keeps_execute_trade keeps_execute_trades : late.

Lemma refuses_deferred e : refuses (onDeferedEvent sv_order now e).
Proof.
  unfold onDeferedEvent. apply refuses_bind; [apply keeps_on_w|]. intros _. apply refuses_bind; [|auto with late]. destruct e.
  - unfold ExecutionDefered_execute. apply keeps_seq; [auto with late|]. intros _. apply keeps_seq; [auto with late|]. intros acc. destruct (0 <? acc.1); auto with late.
  - apply keeps_on_w.
  - apply keeps_process_order.
Qed.

Lemma refuses_located {A} msg id (k : loc → M P A) : (∀ l, refuses (k l)) → refuses (begin_scope ;;; l <- locate msg id ;; k l).
Proof. intros Hk. apply refuses_bind; [apply keeps_on_w|]. intros _. apply refuses_bind; [apply keeps_locate|done]. Qed.

Lemma refuses_handle e : refuses (handle sv_order now e).
Proof.
  destruct e as [[l|]|id r|id [r|]|id ct|pe|id ty]; cbn [handle];
    unfold onOrderEvent, onOrderCancelEvent, onOrderReplaceEvent, onOrderChangeStateEvent, onProcessEvent, onTimerEvent; auto with late.
  - apply refuses_bind; [apply keeps_seq; [auto with late|]; intros w; destruct (w_events w); auto with late|]. intros _.
    apply refuses_bind; [apply keeps_on_w|]. intros _. auto with late.
  - destruct (negb (isValidId id)); [auto with late|]. apply refuses_located. intros l. auto with late.
  - destruct (negb (isValidId id)); [auto with late|]. apply refuses_bind; [apply keeps_on_w|]. intros _. auto with late.
  - destruct (negb (isValidId id)); [auto with late|]. apply refuses_bind; [apply keeps_on_w|]. intros _. apply refuses_bind; auto with late.
  - destruct (negb (isValidId id)); [auto with late|]. case_bool_decide; [auto with late|]. apply refuses_located. intros l. apply refuses_bind; [|auto with late]. destruct ct; auto with late.
  - apply refuses_bind; [auto with late|]. intros w. apply refuses_bind; [auto with late|]. intros _. apply refuses_located. intros l. apply refuses_bind; [|auto with late]. destruct (pe_type pe); auto with late.
  - destruct (negb (isValidId id)); [auto with late|]. case_bool_decide; [auto with late|]. apply refuses_located. intros l. apply refuses_bind; [|auto with late]. destruct ty; auto with late.
Qed.

(** C40: [main] stops the transaction manager before it waits for the workers.  From then on
    no handler of an event ends normally, a transaction that is executed ends normally
    only if it leaves no deferred event, and no transaction can be taken out of the
    manager when it is done: each of them throws or violates an assertion. *)
Theorem no_work_after_stop fuel e i tr p : stopped p →
  (∀ p', onEvent sv_order now fuel e p ≠ Some (Ok tt, p')) ∧
  (∀ p', process sv_order now ctime fuel i tr p = Some (Ok tt, p') → w_events (p_world p') = [] ∧
     ∃ b w, TransactionScope.executeTransaction (TrOperations.execute sv_order now ctime) (TrOperations.rollback sv_order) tr (p_world p) = (Ok b, w) ∧
       (b = true → w_events w = [] ∧ p_world p' = w)) ∧
  ∀ pool, finish i (p_mgr p, pool) = (Crash "assert", (p_mgr p, pool)).
Proof.
  intros Hp. split_and!.
  - intros p'. unfold onEvent, then_deferred. pose proof (refuses_handle e p Hp) as Hr. by destruct (handle sv_order now e p) as [[[]|?|?] p1].
  - intros p'. unfold process. destruct (negb (isValidId i)); [done|].
    destruct (TransactionScope.executeTransaction _ _ _ _) as [[[]|?|?] w] eqn:Ex; try done.
    + intros Hd. set (p1 := mkProc w (p_mgr p)) in Hd. assert (stopped p1) as Hp1 by done.
      destruct (w_events (p_world p1)) as [|ev evs] eqn:Ew.
      * destruct fuel; cbn [processDeferedEvent] in Hd; rewrite Ew in Hd; injection Hd as <-; (split; [done|]; exists true, w; done).
      * exfalso. destruct fuel; cbn [processDeferedEvent] in Hd; rewrite Ew in Hd; [done|]. cbn [run_batch] in Hd.
        assert (is_ok ((onDeferedEvent sv_order now ev ;;; run_batch sv_order now evs) (set_evs [] p1)).1 = false) as Hb.
        { unfold bind. pose proof (refuses_deferred ev (set_evs [] p1) Hp1) as Hr. by destruct (onDeferedEvent sv_order now ev _) as [[[]|?|?] p2]. }
        by destruct ((onDeferedEvent sv_order now ev ;;; _) _) as [[[]|?|?] p2].
    + intros [= <-]. split; [done|]. by exists false, w.
  - intros pool. by apply stopped_finish.
Qed.
End late.

(** ** A server with two processors of each kind *)

#[local] Existing Instance TransactionMgr.ex_operation.
Definition ex_server : Server (T := TransactionScope.t Z) :=
  mkServer (mgr (start 2)) (pool_create 2) (pool_create 2) IncomingQueues.create.
(** One event processor is out. *)
Definition ex_pool : Pool := mkPool [Some 0%nat; None] 0.

Lemma shutdown_outcome_witness : (shutdown (λ s _, s) ex_server).1 = Ok tt ∧ TransactionMgr.observed (s_mgr (shutdown (λ s _, s) ex_server).2) = false.
Proof.
  destruct (shutdown_outcome (λ s _, s) ex_server eq_refl) as (E & Ho & _). split; [rewrite E; vm_compute; reflexivity|exact Ho].
Defined.

Lemma throwing_handler_spoils_shutdown_witness : finished (pool_create 2, ex_pool, 0%nat) = false ∧
  (shutdown (λ s _, mkServer (s_mgr s) (s_tpool s) ex_pool (s_in s)) ex_server).1 = Crash "assert".
Proof.
  destruct (throwing_handler_spoils_shutdown (λ _ : nat, false) (T := TransactionScope.t Z) 2 (mkESys ex_pool [7%nat] [ERun 1]) [] 1 [] 7%nat [])
    as (s1 & H1 & H2).
  - eapply rtc_l; [apply (e_push _ _ 7%nat)|]. eapply rtc_l; [eapply (e_call _ _ [] [] [ERun 1] ex_pool); vm_compute; reflexivity|]. apply rtc_refl.
  - reflexivity.
  - reflexivity.
  - reflexivity.
  - assert (epool s1 = ex_pool) as E.
    { inversion H1 as [s e|s a1 a2 new p' E0 E1|s a1 a2 x new q' E0 E1|s a1 a2 x rez new p' E0 E1]; subst; cbn in *; try reflexivity;
        destruct a1 as [|? []]; discriminate. }
    destruct (H2 s1 (rtc_refl _ s1)) as [H3 H4]. rewrite E in H3. split; [apply H3|]. apply H4; [reflexivity|]. intros sv'. cbn. by rewrite E.
Defined.

Definition ex_stopped : Processor.t unit unit := Processor.mkProc
  (mkWorld (OrderStore.mkStore ∅ 0%nat ∅ ∅ ∅ None) 100 (OrderBook.Book.mkBook ∅ None) (WideData.WideData.mkWide 1 ∅ ∅ ∅ ∅ ∅ ∅ ∅ ∅ None)
     TransactionScope.empty 0%nat [] ∅ [] [])
  (TransactionMgr.stop (TransactionMgr.init 100 TransactionMgr.create).2).2.

Lemma no_work_after_stop_witness :
  (∀ p', Processor.onEvent (B := backend_machine (msm_backend OrderStateMachine.ex_saver 1000)) OrderStateMachine.ex_saver 1000 0 (OrderCancelEvent (mkIdT 2 1) "") ex_stopped ≠ Some (Ok tt, p')) ∧
  (finish (mkIdT 2 1) (Processor.p_mgr ex_stopped, pool_create 1)).1 = Crash "assert".
Proof.
  destruct (no_work_after_stop (B := backend_machine (msm_backend OrderStateMachine.ex_saver 1000)) OrderStateMachine.ex_saver 1000 5 0 (OrderCancelEvent (mkIdT 2 1) "")
    (mkIdT 2 1) TransactionScope.empty ex_stopped) as (H1 & _ & H3); [reflexivity|].
  split; [exact H1|]. rewrite H3. reflexivity.
Defined.
End Shutdown.
