(* ===== verification/Restart.v ===== *)
(** Restarting the server: the record dispatcher over the record store, and the two
    loading phases of [main] ([src/app/main.cpp]). *)

From Stdlib Require Import Ascii String ZArith Lia Permutation.
From S2P Require Import Prelude Types IdGen WideData OrderStore OrderBook LinkTree TxScope Engine Codecs Persist FileStore FileLog Lmdb.

Module Restart.
Import Dispatcher LMDB.

Section restart.
Context {SO SD D : Type} `{MDBLaws D} (sv_order : OrderEntry → M SO unit).
Abbreviation W := (World SO SD).

(** The dispatcher as the observer of a load. *)
Definition observer (book : bool) (id : IdT) (version : Z) (buf : bytes) : M W unit :=
  onRecordLoaded sv_order book id buf.

(** main, steps 2 to 4 -- src/app/main.cpp:122-153
    The reference data with no order book, a book for the instruments found, and
    everything again with the book; [saver] is the second dispatcher. *)
Definition startup (rc : Call → option string) (saver : SO) (d : D) : M W unit := λ w,
  match load (observer false) rc d (create, w) with
  | (Ok _, (_, w1)) =>
      let b := Book.init (dom (WideData.instruments (w_wide w1))) saver (Book.empty_book SO) in
      let r := load (observer true) rc d (create, set_book b.2 w1) in (r.1, r.2.2)
  | (Throw m, (_, w1)) => (Throw m, w1)
  | (Crash c, (_, w1)) => (Crash c, w1)
  end.

(** The dispatcher's [save] over the record store. *)
Definition save_all (pads : IdT → bytes) (ds : list Data) : M (t (D := D)) unit :=
  foldr (λ x k, Dispatcher.save (λ i b, LMDB.save no_fault (pads i) i b) x ;;; k) (ret tt) ds.

(** Restoring entities one after the other; an exception ends it. *)
Definition restore_entities (book : bool) (ds : list Data) : M W unit :=
  foldr (λ x k, restore_entity sv_order book x ;;; k) (ret tt) ds.

(** The same from their records. *)
Definition restore_all (book : bool) (ds : list Data) : M W unit :=
  foldr (λ x k, restore_data sv_order book x ;;; k) (ret tt) ds.

Lemma restore_all_cons book x ds w : restore_all book (x :: ds) w = (restore_data sv_order book x ;;; restore_all book ds) w.
Proof. done. Qed.

Lemma restore_all_entities book ds w : restore_all book ds w = restore_entities book (omap recorded ds) w.
Proof.
  revert w. induction ds as [|x ds IH]; intros w; [done|]. rewrite restore_all_cons. unfold restore_data. cbn [omap list_omap].
  destruct (recorded x) as [e|]; [|by rewrite ret_bind].
  change (restore_entities book (e :: omap recorded ds) w) with ((restore_entity sv_order book e ;;; restore_entities book (omap recorded ds)) w).
  apply bind_ext; [done|]. intros _ w'. apply IH.
Qed.

Lemma lossless_all ds : Forall lossless ds → omap recorded ds = ds.
Proof. induction 1 as [|x ds Hx _ IH]; [done|]. cbn [omap list_omap]. by rewrite (lossless_recorded x Hx), IH. Qed.

(** The row of a saved entity. *)
Definition row (x : Data) : IdT * Z * bytes := ((record x).1, 0, (record x).2).

(** ** Saving *)

Lemma record_nonempty x : (0 < length (record x).2)%nat.
Proof.
  destruct x as [[]|o]; cbn [record reference_record order_record Order_encode snd fst]; rewrite length_app;
    change (length (header _)) with 4%nat; lia.
Qed.

Section padded.
Context (pads : IdT → bytes) (Hpad : ∀ i, length (pads i) = 4%nat).

Definition savable (x : Data) : Prop := key_wf (record x).1 0.

Lemma save_all_rows (ds : list Data) (st : t (D := D)) (m : gmap (IdT * Z) bytes) (n : Z) : LMDB.holds pads st m n → 0 <= n → n + Z.of_nat (length ds) < 2 ^ 32 - 1 →
  Forall savable ds → NoDup (record <$> ds).*1 → (∀ x, x ∈ ds → m !! ((record x).1, 0) = None) →
  ∃ st' m' n', save_all pads ds st = (Ok tt, st') ∧ LMDB.holds pads st' m' n' ∧ map_to_list m' ≡ₚ (row <$> ds) ++ map_to_list m.
Proof using Hpad H0.
  revert st m n. induction ds as [|x ds IH]; intros st m n Hh Hn Hl Hs Hnd Hm; [by exists st, m, n|].
  apply Forall_cons in Hs as [Hx Hs]. cbn [fmap list_fmap length] in *. apply NoDup_cons in Hnd as [Hnx Hnd].
  destruct (save_row pads Hpad [] (record x).1 (record x).2 st m n Hh) as (E & Hh').
  { split; [exact Hx|apply record_nonempty]. } { lia. }
  cbn [code_row spec_row op_id fst snd] in E, Hh'. rewrite (Hm x) in E, Hh' by constructor. cbn [fst snd] in E, Hh'.
  assert (LMDB.save no_fault (pads (record x).1) (record x).1 (record x).2 st = (Ok tt, (save no_fault (pads (record x).1) (record x).1 (record x).2 st).2)) as Es.
  { unfold bind in E. by destruct (save _ _ _ _ st) as [[[]|?|?] ?]. }
  unfold bind in Hh'. rewrite Es in Hh'. cbn [snd ret] in Hh'. set (st1 := (save no_fault _ _ _ st).2) in *.
  destruct (IH st1 (<[((record x).1, 0) := (record x).2]> m) (n + 1)) as (st' & m' & n' & E' & Hh2 & Hp); [done|lia|lia|done|done| |].
  { intros y Hy. rewrite lookup_insert_ne; [apply Hm; by constructor|]. intros [= E1]. destruct Hnx. rewrite E1.
    by apply list_elem_of_fmap_2, list_elem_of_fmap_2. }
  exists st', m', n'. split_and!; [|done|].
  - cbn [save_all foldr]. unfold Dispatcher.save at 1. by rewrite (bind_ok _ _ _ _ _ Es).
  - rewrite Hp. rewrite map_to_list_insert by (apply Hm; constructor). cbn [app]. by rewrite <- Permutation_middle.
Qed.

(** A load of a database whose rows are those of [ds]. *)
Lemma load_rows (ds : list Data) (d : D) (m : gmap (IdT * Z) bytes) (book : bool) (w : W) : rows_of pads d m → map_to_list m ≡ₚ row <$> ds → Forall wf_data ds →
  ∃ ds', ds' ≡ₚ ds ∧ StronglySorted (λ x y, bytes_lt (makeKey (pads (record x).1) (record x).1 0) (makeKey (pads (record y).1) (record y).1 0) = true) ds' ∧
    deliver_all (observer book) (mdb_list d) w = restore_all book ds' w.
Proof using Hpad H0.
  intros HR Hp Hw. destruct (list_rows pads Hpad d m HR) as (ks & El & Hk & Hkw). rewrite Hp in Hk.
  destruct (Permutation_map_inv _ _ Hk) as (ds' & -> & Hds). exists ds'. split_and!; [done| |].
  - pose proof (list_sorted d) as Hs. rewrite El in Hs. clear - Hs. induction ds' as [|x ds' IH]; [constructor|].
    cbn in Hs. apply StronglySorted_inv in Hs as [Hs Hall]. constructor; [by apply IH|].
    clear - Hall. induction ds' as [|y ds' IH]; [constructor|]. cbn in Hall. apply Forall_cons in Hall as [Hy Hall]. constructor; [exact Hy|]. by apply IH.
  - rewrite El, (deliver_rows pads Hpad (observer book) (map row ds') w Hkw). rewrite Hds in Hw. clear - Hw.
    revert w. induction Hw as [|x ds' Hx _ IH]; intros w; [done|]. cbn [map foldr row fst snd]. rewrite restore_all_cons.
    apply bind_ext; [exact (load_record sv_order book x w Hx)|]. intros _ w'. apply IH.
Qed.

(** ** Restoring reference data *)

Definition is_ref (x : Data) : Prop := match x with Reference _ => True | Order _ => False end.

Lemma restore_ref book r (w : W) : ∃ wd, restore_data sv_order book (Reference r) w = (Ok tt, set_wide wd w) ∧
  WideData.instruments wd = match r with WideData.DInstrument e => map_insert (in_id e) e (WideData.instruments (w_wide w))
                            | _ => WideData.instruments (w_wide w) end.
Proof.
  destruct r as [| | | | |l]; try (eexists; split; [reflexivity|by destruct w as [? ? ? []]]).
  exists (w_wide w). split; [|done]. unfold restore_data, ret. cbn. by destruct w.
Qed.

Lemma restore_refs book ds (w : W) : Forall is_ref ds →
  ∃ wd, restore_all book ds w = (Ok tt, set_wide wd w) ∧
    WideData.instruments (w_wide w) ⊆ WideData.instruments wd ∧
    (NoDup (record <$> ds).*1 → ∀ e, Reference (WideData.DInstrument e) ∈ ds →
      WideData.instruments (w_wide w) !! in_id e = None → WideData.instruments wd !! in_id e = Some e).
Proof.
  intros Hr. revert w. induction Hr as [|x ds Hx _ IH]; intros w.
  { exists (w_wide w). split; [by destruct w|]. split; [done|]. intros _ e He. inversion He. }
  destruct x as [r|]; [|done]. destruct (restore_ref book r w) as (wd1 & E1 & Ei). rewrite restore_all_cons.
  rewrite (bind_ok _ _ _ _ _ E1). destruct (IH (set_wide wd1 w)) as (wd & -> & Hsub & Hin). cbn [w_wide set_wide] in *.
  exists wd. split; [done|]. assert (WideData.instruments (w_wide w) ⊆ WideData.instruments wd1) as Hsub1.
  { rewrite Ei. destruct r as [e| | | | |]; try done. unfold map_insert. destruct (_ !! in_id e) eqn:E; [done|]. by apply insert_subseteq. }
  split; [by etrans|]. cbn [fmap list_fmap]. intros [Hn Hnd]%NoDup_cons e [E|He]%elem_of_cons Hnone.
  - injection E as <-. eapply lookup_weaken; [|exact Hsub]. rewrite Ei. unfold map_insert. rewrite Hnone. by rewrite lookup_insert_eq.
  - destruct (decide (in_id e = (record (Reference r)).1)) as [E|Hne].
    + destruct Hn. rewrite <- E. apply (list_elem_of_fmap_2 fst _ (record (Reference (WideData.DInstrument e)))). by apply list_elem_of_fmap_2.
    + apply Hin; [done|done|]. rewrite Ei. destruct r as [e'| | | | |]; try done. unfold map_insert. cbn in Hne.
      destruct (_ !! in_id e'); [done|]. by rewrite lookup_insert_ne.
Qed.

Lemma restore_order_crashes ds o (w : W) : Order o ∈ ds → 
  (restore_all false ds w).1 = Crash "nullptr".
Proof.
  intros Hin. revert w. induction ds as [|x ds IH]; intros w; [inversion Hin|]. rewrite restore_all_cons.
  destruct x as [r|o']; [|done]. destruct (restore_ref false r w) as (wd & E & _). rewrite (bind_ok _ _ _ _ _ E).
  apply IH. apply elem_of_cons in Hin as [|]; done.
Qed.

(** ** Claims *)

(** Entities with identifiers of their own, within the widths of their types. *)
Definition storable (ds : list Data) : Prop :=
  Forall wf_data ds ∧ Forall savable ds ∧ NoDup (record <$> ds).*1 ∧ Z.of_nat (length ds) < 2 ^ 32 - 1.

Lemma saved_rows ds : storable ds → ∃ st (d : D) m, save_all pads ds (loaded mdb_empty) = (Ok tt, st) ∧
  env_ st = Opened d false ∧ rows_of pads d m ∧ map_to_list m ≡ₚ row <$> ds.
Proof using Hpad H0.
  intros (_ & Hs & Hn & Hl). destruct (save_all_rows ds (loaded mdb_empty) ∅ 0) as (st & m & n & E & (d & He & HR & _) & Hp); try done.
  - exists mdb_empty. split; [done|]. split; [split_and!|].
    + intros i v _. by rewrite get_empty.
    + intros k b. by rewrite get_empty.
    + done.
    + by intros i v [].
  - exists st, d, m. split_and!; try done. by rewrite Hp, map_to_list_empty, app_nil_r.
Qed.

(** C19: What the dispatcher saves through [LMDBStorage], and what a load of it
    restores.  Any sequence of entities within the widths of their types and with different identifiers is stored
    without an error, with every call of the library successful.  Loading the database then does what
    restoring the recorded entities themselves in their storages does, each once, orders first into the book and then into
    the order storage, in the order of the bytes of their keys and not in the order they
    were saved in; an exception of a restore ends the load.  The recorded entity
    is the saved one but for two losses ([recorded]): an execution list is not
    restored at all, and an order comes back without its execution instructions; when there are neither, the
    entities restored are exactly the saved ones. *)
Theorem lmdb_reload_restores (ds : list Data) (w : W) : storable ds →
  ∃ st d ds', save_all pads ds (loaded mdb_empty) = (Ok tt, st) ∧ env_ st = Opened d false ∧ ds' ≡ₚ ds ∧
    StronglySorted (λ x y, bytes_lt (makeKey (pads (record x).1) (record x).1 0) (makeKey (pads (record y).1) (record y).1 0) = true) ds' ∧
    (let r := restore_entities true (omap recorded ds') w in
     let l := load (observer true) no_fault d (create, w) in l.1 = r.1 ∧ l.2.2 = r.2) ∧
    (Forall lossless ds → omap recorded ds' = ds').
Proof using Hpad H0.
  intros Hst. destruct (saved_rows ds Hst) as (st & d & m & E & He & HR & Hp). destruct Hst as (Hw & _).
  destruct (load_rows ds d m true w HR Hp Hw) as (ds' & Hds & Hsort & El). exists st, d, ds'. split; [done|].
  rewrite restore_all_entities in El. set (r := restore_entities true _ w) in El |- *.
  split_and!; try done; [..|intros Hl; apply lossless_all; by rewrite Hds].
  all: unfold load; cbn [fst snd env_ create no_fault]; rewrite El; by destruct r as [[[]|?|?] w'].
Qed.

(** C38: A server that stored an order does not start again: [main] loads the whole
    database with a null order book first, and the dispatcher restores every order
    it finds through that pointer. *)
Theorem restart_with_order_crashes (ds : list Data) (o : OrderEntry) (saver : SO) (w : W) : storable ds → Order o ∈ ds →
  ∃ st d, save_all pads ds (loaded mdb_empty) = (Ok tt, st) ∧ env_ st = Opened d false ∧
    (startup no_fault saver d w).1 = Crash "nullptr".
Proof using Hpad H0.
  intros Hst Ho. destruct (saved_rows ds Hst) as (st & d & m & E & He & HR & Hp). destruct Hst as (Hw & _).
  destruct (load_rows ds d m false w HR Hp Hw) as (ds' & Hds & _ & El). exists st, d. split_and!; try done.
  unfold startup, load. cbn [fst snd env_ create no_fault]. rewrite El. rewrite <- Hds in Ho.
  pose proof (restore_order_crashes ds' o w Ho) as Hc. set (r := restore_all false ds' w) in Hc |- *. destruct r as [r w']. cbn in Hc. by subst r.
Qed.

(** A server that stored reference data only starts again with it: both loads
    return, every instrument is back under its identifier, and the order book has
    an empty group for it. *)
Theorem restart_restores_instruments (ds : list Data) (saver : SO) (w : W) : storable ds → Forall is_ref ds →
  WideData.instruments (w_wide w) = ∅ →
  ∃ st d w', save_all pads ds (loaded mdb_empty) = (Ok tt, st) ∧ env_ st = Opened d false ∧
    startup no_fault saver d w = (Ok tt, w') ∧
    ∀ e, Reference (WideData.DInstrument e) ∈ ds →
      WideData.instruments (w_wide w') !! in_id e = Some e ∧
      Book.orderGroups (w_book w') !! in_id e = Some (Book.mkGroup [] []).
Proof using Hpad H0.
  intros Hst Hr Hnone. destruct (saved_rows ds Hst) as (st & d & m & E & He & HR & Hp). pose proof Hst as (Hw & _ & Hnd & _).
  destruct (load_rows ds d m false w HR Hp Hw) as (ds1 & Hds1 & _ & El1).
  destruct (restore_refs false ds1 w) as (wd1 & E1 & _ & Hin1); [by rewrite Hds1|].
  set (b := Book.init (dom (WideData.instruments wd1)) saver (Book.empty_book SO)).
  set (w1 := set_book b.2 (set_wide wd1 w)).
  destruct (load_rows ds d m true w1 HR Hp Hw) as (ds2 & Hds2 & _ & El2).
  destruct (restore_refs true ds2 w1) as (wd2 & E2 & Hsub & _); [by rewrite Hds2|].
  exists st, d, (set_wide wd2 w1). split_and!; try done.
  - unfold startup, load. cbn [fst snd env_ create no_fault]. rewrite El1, E1. cbn [fst snd w_wide set_wide].
    fold b. fold w1. by rewrite El2, E2.
  - intros e Hine. assert (WideData.instruments wd1 !! in_id e = Some e) as Hi.
    { apply Hin1; [by rewrite Hds1|by rewrite Hds1|by rewrite Hnone]. }
    split; [cbn [w_wide set_wide]; by eapply lookup_weaken|]. cbn [w_book set_wide set_book w1 b Book.init Book.empty_book Book.storage].
    cbn. rewrite (left_id_L ∅ (∪)). apply lookup_gset_to_gmap_Some. split; [|done]. by apply elem_of_dom.
Qed.
End padded.

(** ** One saver for the order storage and the order book *)

Lemma saved_key pad i b (st st' : t (D := D)) : LMDB.save no_fault pad i b st = (Ok tt, st') →
  ∃ d, env_ st' = Opened (mdb_put (makeKey pad i 0) b d) false.
Proof.
  unfold save, bind, assert_, begin_txn, gets, commit, checkLMDB, modify, ret, crash, throw. cbn [no_fault].
  destruct (0 <? length b)%nat; [|done]. unfold bind. destruct (env_ st) as [| |d []]; try done.
  destruct (mdb_get _ d); [done|]. intros [= <-]. by exists d.
Qed.

Lemma saved_again pad i b b' (st st' : t (D := D)) : (0 < length b')%nat → LMDB.save no_fault pad i b st = (Ok tt, st') →
  LMDB.save no_fault pad i b' st' = (Throw lm_exists, st').
Proof using H0.
  intros Hb E. destruct (saved_key _ _ _ _ _ E) as (d & He). unfold save. rewrite (nonempty_true b' Hb). cbn [assert_]. rewrite ret_bind.
  rewrite (bind_ok _ _ _ _ _ (begin_ok no_fault _ _ _ He eq_refl)). by rewrite get_put, bool_decide_eq_true_2.
Qed.

(** main, the dispatcher as the saver of storage and book -- src/app/main.cpp:146-159
    Both [orderBook->init] and [OrderStorage::attach] are given the dispatcher, which
    writes to the database. *)
Definition shared_saver (pad : bytes) (o : OrderEntry) : M (t (D := D)) unit :=
  Dispatcher.save (LMDB.save no_fault pad) (Order o).

(** In the server of [main] no order gets into the book without an error: the
    dispatcher is the saver of the order storage and of the book, the storage saves
    the order first, and when the book saves it under the same identifier
    [LMDBStorage::save] refuses.  [OrderBookImpl::add] throws with the order already
    inserted. *)
Theorem shared_saver_refuses_book (pad : bytes) (o o' : OrderEntry) (st st' : t (D := D)) (bk : Book.OrderBookImpl (t (D := D)))
    (g g' : Book.OrdersGroup) :
  shared_saver pad o st = (Ok tt, st') → o_orderId o' = o_orderId o → Book.storage bk = Some st' →
  isValidId (o_orderId o') = true → isValidId (o_instrument o') = true →
  Book.orderGroups bk !! o_instrument o' = Some g → Book.group_insert o' g = Some g' →
  ∃ bk', Book.add (shared_saver pad) o' bk = (Throw lm_exists, bk') ∧ Book.orderGroups bk' !! o_instrument o' = Some g'.
Proof using H0.
  intros E Hid Hs Hv1 Hv2 Hg Hg'. unfold Book.add. rewrite Hv1, Hv2. cbn [assert_]. rewrite !ret_bind.
  rewrite (bind_ok (gets Book.orderGroups) _ bk (Book.orderGroups bk) bk) by done. rewrite Hg, Hg'.
  eexists. unfold bind, modify, Book.saver_save, Book.with_groups. cbn [Book.storage]. rewrite Hs.
  assert (shared_saver pad o' st' = (Throw lm_exists, st')) as E2.
  { unfold shared_saver, Dispatcher.save in *. replace (record (Order o')).1 with (record (Order o)).1 by (cbn; congruence).
    eapply saved_again; [apply record_nonempty|exact E]. }
  rewrite E2. cbn [fst snd]. split; [done|]. cbn [Book.orderGroups]. by rewrite lookup_insert_eq.
Qed.
End restart.

(** *** A concrete database: an instrument, raw data and, in the second, an order *)

Definition no_saver : OrderEntry → M unit unit := λ _, ret tt.
Definition ex_refs : list Data := [Reference (WideData.DInstrument ex_instr); Reference (WideData.DRawData ex_raw)].

Lemma ex_refs_storable : storable ex_refs.
Proof.
  split_and!.
  - apply Forall_cons_2; [repeat split; reflexivity|]. apply Forall_cons_2; [reflexivity|]. apply Forall_nil_2.
  - repeat (apply Forall_cons_2; [vm_compute; repeat split; try done; intros [=]|]). apply Forall_nil_2.
  - apply (bool_decide_unpack _). vm_compute. exact I.
  - reflexivity.
Qed.

Lemma ex_data_storable : storable ex_data.
Proof.
  split_and!.
  - apply Forall_cons_2; [repeat split; reflexivity|]. apply Forall_cons_2; [reflexivity|]. apply Forall_cons_2; [exact ex_order_wf|]. apply Forall_nil_2.
  - repeat (apply Forall_cons_2; [vm_compute; repeat split; try done; intros [=]|]). apply Forall_nil_2.
  - apply (bool_decide_unpack _). vm_compute. exact I.
  - reflexivity.
Qed.

Lemma lmdb_reload_restores_witness : ∃ st (d : gmap bytes bytes) ds',
  save_all (λ _, FileLog.pad0) ex_data (loaded mdb_empty) = (Ok tt, st) ∧ env_ st = Opened d false ∧ ds' ≡ₚ ex_data ∧
  (load (observer no_saver true) no_fault d (create, ex_world)).2.2 = (restore_entities no_saver true (omap recorded ds') ex_world).2 ∧
  length (omap recorded ds') = 3%nat.
Proof.
  destruct (lmdb_reload_restores (D := gmap bytes bytes) no_saver (λ _, FileLog.pad0) (λ _, eq_refl) ex_data ex_world ex_data_storable)
    as (st & d & ds' & E1 & E2 & E3 & _ & (_ & E4) & _).
  exists st, d, ds'. split; [exact E1|]. split; [exact E2|]. split; [exact E3|]. split; [exact E4|]. rewrite E3. reflexivity.
Defined.

Lemma restart_with_order_crashes_witness : ∃ st (d : gmap bytes bytes),
  save_all (λ _, FileLog.pad0) ex_data (loaded mdb_empty) = (Ok tt, st) ∧ env_ st = Opened d false ∧
  (startup no_saver no_fault tt d ex_world).1 = Crash "nullptr".
Proof.
  apply (restart_with_order_crashes (D := gmap bytes bytes) no_saver (λ _, FileLog.pad0) (λ _, eq_refl) ex_data ex_order tt ex_world ex_data_storable).
  apply elem_of_cons. right. apply elem_of_cons. right. apply elem_of_cons. left. reflexivity.
Defined.

Lemma restart_restores_instruments_witness : ∃ st (d : gmap bytes bytes) w',
  save_all (λ _, FileLog.pad0) ex_refs (loaded mdb_empty) = (Ok tt, st) ∧ env_ st = Opened d false ∧
  startup no_saver no_fault tt d ex_world = (Ok tt, w') ∧
  WideData.instruments (w_wide w') !! ex_id 3 = Some ex_instr ∧ Book.orderGroups (w_book w') !! ex_id 3 = Some (Book.mkGroup [] []).
Proof.
  destruct (restart_restores_instruments (D := gmap bytes bytes) no_saver (λ _, FileLog.pad0) (λ _, eq_refl) ex_refs tt ex_world ex_refs_storable)
    as (st & d & w' & E1 & E2 & E3 & E4).
  { repeat (apply Forall_cons_2; [exact I|]). apply Forall_nil_2. }
  { reflexivity. }
  exists st, d, w'. split; [exact E1|]. split; [exact E2|]. split; [exact E3|]. apply (E4 ex_instr). apply elem_of_cons. left. reflexivity.
Defined.

Lemma shared_saver_refuses_book_witness : ∃ st' bk',
  Dispatcher.save (LMDB.save no_fault FileLog.pad0) (Order ex_order) (loaded (mdb_empty : gmap bytes bytes)) = (Ok tt, st') ∧
  Book.add (λ x, Dispatcher.save (LMDB.save no_fault FileLog.pad0) (Order x)) ex_order
    (Book.mkBook {[o_instrument ex_order := Book.mkGroup [] []]} (Some st')) = (Throw lm_exists, bk').
Proof.
  set (r := Dispatcher.save (LMDB.save no_fault FileLog.pad0) (Order ex_order) (loaded (mdb_empty : gmap bytes bytes))).
  assert (r.1 = Ok tt) as E by (vm_compute; reflexivity). exists r.2.
  destruct (shared_saver_refuses_book FileLog.pad0 ex_order ex_order (loaded (mdb_empty : gmap bytes bytes)) r.2
    (Book.mkBook {[o_instrument ex_order := Book.mkGroup [] []]} (Some r.2)) (Book.mkGroup [] [])
    (default (Book.mkGroup [] []) (Book.group_insert ex_order (Book.mkGroup [] [])))) as (bk' & E2 & _).
  - rewrite <- E. apply surjective_pairing.
  - reflexivity.
  - reflexivity.
  - vm_compute. reflexivity.
  - vm_compute. reflexivity.
  - apply lookup_singleton_eq.
  - vm_compute. reflexivity.
  - exists bk'. split; [rewrite <- E; apply surjective_pairing|exact E2].
Defined.
End Restart.
